(* ===== verification/_CoqProject ===== *)
-Q . S2P
Prelude.v
Platform.v
Sim.v
Pn532Iface.v
Pn532.v
Reader.v
UsbDevice.v
Prhp.v
Cardio.v
Sega.v
App.v
Queue.v
Protocol.v
HostLink.v
Caller.v
Device.v
Session.v
Verify.v
Service.v
Config.v
Exports.v
System.v
