(* ===== verification/Prelude.v ===== *)
(** * PA Reader: a verified model of the firmware and its host protocol

    PA Reader is an NFC card reader: an ESP32 firmware (src/impl/firmware/main/)
    drives a PN532 over I2C and is, at the same time, a PRHP reader, a SEGA serial
    card reader and a CardIO reader on one composite USB device; a Go DLL
    (src/impl/dll/) is the PRHP host, which a game calls.  This library models the
    firmware and the DLL, and proves what they promise to each other.

    ** The program's parts and the files that model them

    - pn532.c, pn532.h: the PN532 driver, one exchange ([command]) and the operations
      built on it.  Pn532Iface.v has the target records and the interface [Nfc] with
      its laws [NfcLaws]; Pn532.v has the driver, which implements the interface.
    - reader.c, reader.h: card semantics (observation, keys, FeliCa system code, LUID
      check) in Reader.v, proved against [Nfc] alone.
    - usb_device.c, usb_device.h: descriptors, callbacks, message queue and senders in
      UsbDevice.v.
    - prhp.c, prhp.h: the PRHP codec and dispatcher in Prhp.v.
    - cardio.c, cardio.h: the CardIO reports in Cardio.v.
    - sega.c, sega.h: the frame parser, the response encoder and the command
      dispatchers in Sega.v.
    - app_main.c: initialisation and main loop in App.v, with the USB callbacks as
      events between iterations; Queue.v follows a message from the callback that
      queues it to the iteration that handles it.
    - internal/protocol of the DLL: the codecs in Protocol.v.
    - HostLink.v relates Prhp.v and Protocol.v: what one side sends, the other
      decodes.
    - internal/hid/caller.go: request correlation in Caller.v, as functions and as
      goroutines that interleave.
    - internal/hid/device.go: choosing and opening the HID device, and the goroutines
      that read, write and close it, in Device.v.
    - internal/hid/router.go and internal/aimeio/session.go: from incoming reports to
      the card the host shows in Session.v, the version handshake and the LED signal in
      Verify.v.
    - internal/aimeio/service.go: the supervising goroutine, its sessions and the callers
      of [Close] in Service.v.
    - internal/config/config.go: the configuration in Config.v.
    - cmd/aimeio/exports_windows.go: the exported functions in Exports.v.
    - System.v puts the firmware and the host together.

    Calls go down this list: app_main calls reader, usb_device, prhp, sega and cardio;
    sega and prhp call reader and usb_device; reader calls pn532.  The only shared
    state between the TinyUSB task and the main task is the message queue.  On the host
    the exports call the service, which runs one session at a time over a device; the
    session's read loop routes responses to the caller and card signals to the card the
    lookups read.

    ** How code becomes definitions

    Code is a function of the monad [M S A] of this file, from a state to an
    [outcome]: a value and a new state, undefined behaviour, or no fuel left.  Every
    array access is checked: a read or write outside the array is [Ub].  Static
    variables are the state: [reader_t] for reader.c, [sg_parser_t] for sega.c, the
    world [W] below; [lift] runs code of a lower layer.  Bytes and words are integers
    with the wrap-around written out ([u8], [u16]).  Goroutines are program counters: a
    step function does the next atomic access of one, a relation or a schedule picks
    which goroutine steps, and theorems hold of every interleaving.  An [esp_err_t] is a [result], an
    out parameter is part of its [Ok] value, and [try*] / [check*] stand for
    [ESP_RETURN_ON_ERROR] (Platform.v).  A buffer that is filled front to back is the
    list written so far with its capacity ([push], [push_all]).  C names are kept.

    Logging, the contents of the I2C and TinyUSB configuration structs other than the
    descriptors, and struct padding (zeroed on both sides of the one [memcmp]) are
    not modelled.  Times are unbounded integers: an [int64_t] of microseconds does
    not overflow in 292000 years.

    ** What is not in the repository

    ESP-IDF and TinyUSB are the classes [Platform] and [UsbPlatform] of Platform.v over
    an abstract world.  [PlatformLaws], [UsbLaws] and [UsbTaskLaws] are what the code relies
    on: reads return the bytes asked for, time does not run backwards and an I2C transfer
    takes time, a queue gives out what was put in, all of it keeping an invariant of the
    world.  Two theorems rely on more, in classes of their own: [MessageQueue] (the queue
    is first in, first out; Queue.v) and [PrhpPipe] (reports TinyUSB accepts arrive, and
    from some moment on, of which [attached] holds, the USB host has the device configured
    and polls it; System.v).  Nothing says that the device is mounted before that moment:
    the sends of program start may fail.  On the host the LRU cache is the class [CallCache] of
    Caller.v with its laws; the hidapi binding, [os.Getenv] and [time.ParseDuration] are
    parameters.  Sim.v is a concrete world with all of these operations and laws; the
    witnesses run the firmware on it.

    ** What is proved

    - Totality and safety: [wp] means "returns, and then".  Driver operations, reader
      calls, SEGA bytes, PRHP requests and finally the whole firmware
      ([App.firmware_always_safe]) return without undefined behaviour from every
      reachable state and for every input.
    - The PN532 exchange succeeds exactly on the reference frames
      ([Pn532.command_exchange]), and its polls decode what the chip reports.
    - The reader reports well-formed cards only and follows its system-code policy,
      key selection and radio switch.
    - Reports and frames: each sender sends exactly the reference report; the SEGA
      parser refines a parser on lists, which inverts the encoder; every command does
      what its table says.
    - Host and firmware: published cards, version query and error responses decode on
      the host to what the reader meant, and the session shows the last published card.
    - Descriptors: the configuration is one a USB host can use, each HID interface
      agrees with its report descriptor ([UsbDevice.configuration_consistent]), and the
      host's default configuration finds the PRHP interface
      ([Config.default_configuration_finds_reader]).
    - Host concurrency: however goroutines interleave, a response goes once to the call
      of its sequence and no goroutine blocks ([Caller.responses_delivered_once]); writes
      reach the device in order, and closing it completes, with readers possibly left
      blocked in the binding
      ([Device.device_writes_in_order], [Device.close_completes]); the service shows cards
      of a verified session only, and stopping it completes
      ([Service.service_shows_verified], [Service.service_stops]); racing initialisations
      leave one service ([Exports.init_keeps_one_service]).
    - The loop: a queued message is handled in its turn
      ([Queue.queued_messages_handled]), and the timer readings of any two scans are as
      many times 200 ms apart as there are scans between them ([App.scans_are_spaced]).
    - End to end: from the moment the USB host is attached, what the game's calls return
      is the card the reader last published ([System.game_sees_reader]).
    - Flaws are theorems too: the CDC sender flushes only when the queueing call returns
      0 ([UsbDevice.send_cdc_flushes_on_zero]); a 250-byte FeliCa response is not answered
      ([Sega.felica_full_response_lost]); a request that follows a SEGA frame broken off
      behind an escape byte is swallowed ([Sega.framed_request_served]); a card first
      observed while the device is not mounted is never sent
      ([App.unmounted_transition_lost]); the CardIO report for no card has an ID the
      descriptor does not declare ([Cardio.cardio_publish_exact]).

    ** Fuel and bounds

    [wait_ready] is the one loop without a syntactic bound.  Its fuel is one step per
    microsecond of the timeout, enough because a transfer takes at least one; this is
    proved ([Pn532.wait_ready_bounded]).  The loop of [app_main] is run for a list of
    events, each iteration being total.  [Caller.Allocate] tries at most 65535 sequences,
    as the code does.  The liveness theorems of Device.v and Service.v bound the steps
    that are left by a measure, [io_fuel] and [svc_fuel].

    ** Not modelled

    The terminal program (cmd/reader): flags, and a screen drawn with bubbletea and
    lipgloss around the service.  The HID openers (internal/hid/open_darwin.go,
    open_other.go): one call into the hidapi binding.  The text of the error codes
    (internal/errcode); the errors are constructors. The retry delay of the service
    is a step that may happen at any time, the threads of the hidapi binding are its
    own. *)
From stdpp Require Export prelude.

(** ** Machine integers *)

(** A [uint8_t] is a [Z] in [0, 256); every C expression that is stored into a
    [uint8_t] (or cast to it) goes through [u8], a [uint16_t] through [u16]. *)
Definition is_byte (z : Z) : Prop := (0 ≤ z < 256)%Z.

Abbreviation is_bytes := (Forall is_byte).

Definition u8 (z : Z) : Z := (z mod 256)%Z.

Definition u16 (z : Z) : Z := (z mod 65536)%Z.

(** The running [uint8_t] checksum of the C loops: [checksum += b] for each
    byte, wrapped at every step. *)
Definition sum8 (c : Z) (l : list Z) : Z := foldl (λ c b, u8 (c + b)) c l.

(** The mathematical sum the checksum is a residue of. *)
Definition Zsum (l : list Z) : Z := foldr Z.add 0%Z l.

(** ** Outcomes and the state monad *)

(** What running a piece of C code can do: return, hit undefined behaviour (an
    out-of-bounds or uninitialised access), or use up the fuel of a loop whose
    iteration count the code does not bound syntactically. *)
Inductive outcome (A : Type) : Type :=
  | Val (a : A)
  | Ub
  | OutOfFuel.
Arguments Val {A} a.
Arguments Ub {A}.
Arguments OutOfFuel {A}.

(** Code over a state [S] that computes an [A]. *)
Definition M (S A : Type) : Type := S → outcome (A * S).

Section monad.
Context {S : Type}.

Definition ret {A} (a : A) : M S A := λ s, Val (a, s).

Definition ub {A} : M S A := λ _, Ub.

Definition out_of_fuel {A} : M S A := λ _, OutOfFuel.

Definition bind {A B} (m : M S A) (k : A → M S B) : M S B := λ s,
  match m s with
  | Val (a, s') => k a s'
  | Ub => Ub
  | OutOfFuel => OutOfFuel
  end.

(** An external call: a total state transformer. *)
Definition prim {A} (f : S → A * S) : M S A := λ s, Val (f s).

Definition get : M S S := λ s, Val (s, s).

Definition modify (f : S → S) : M S unit := λ s, Val (tt, f s).

(** Array accesses.  A read or a write outside the array is [Ub]. *)
Definition aget (l : list Z) (i : nat) : M S Z :=
  match l !! i with Some v => ret v | None => ub end.

Definition aput (l : list Z) (i : nat) (v : Z) : M S (list Z) :=
  if (i <? length l)%nat then ret (<[i:=v]> l) else ub.

(** [memcpy(dst, &l[off], n)]: the [n] bytes read. *)
Definition aread (l : list Z) (off n : nat) : M S (list Z) :=
  if (off + n <=? length l)%nat then ret (take n (drop off l)) else ub.

(** [memcpy(&l[off], src, length src)]: the array after the copy. *)
Definition awrite (l : list Z) (off : nat) (src : list Z) : M S (list Z) :=
  if (off + length src <=? length l)%nat
  then ret (take off l ++ src ++ drop (off + length src) l) else ub.

(** [buf[size++] = v] on a buffer of [cap] bytes, [buf] being the part
    written so far. *)
Definition push (cap : nat) (buf : list Z) (v : Z) : M S (list Z) :=
  if (length buf <? cap)%nat then ret (buf ++ [v]) else ub.

(** [memcpy(&buf[size], src, n); size += n] on the same representation. *)
Definition push_all (cap : nat) (buf src : list Z) : M S (list Z) :=
  if (length buf + length src <=? cap)%nat then ret (buf ++ src) else ub.

Fixpoint foreach {A} (l : list A) (f : A → M S unit) : M S unit :=
  match l with
  | [] => ret tt
  | x :: l => bind (f x) (λ _, foreach l f)
  end.
End monad.

(** Code over the second component of a layered state. *)
Definition lift {T S A} (m : M S A) : M (T * S) A := λ ts,
  match m ts.2 with
  | Val (a, s') => Val (a, (ts.1, s'))
  | Ub => Ub
  | OutOfFuel => OutOfFuel
  end.

Declare Scope fw_scope.
Delimit Scope fw_scope with fw.
Notation "'let*' x := m 'in' k" := (bind m (λ x, k))
  (at level 10, x name, m at level 100, k at level 200,
   format "'[v' 'let*'  x  :=  m  'in' '/' k ']'") : fw_scope.
Notation "'do*' m 'in' k" := (bind m (λ _, k))
  (at level 10, m at level 100, k at level 200,
   format "'[v' 'do*'  m  'in' '/' k ']'") : fw_scope.
Open Scope fw_scope.

(** ** Weakest preconditions *)

(** [wp m s Q]: run from [s], [m] returns (no undefined behaviour, no fuel
    exhaustion) and its result and final state satisfy [Q]. *)
Definition wp {S A} (m : M S A) (s : S) (Q : A → S → Prop) : Prop :=
  match m s with Val (a, s') => Q a s' | _ => False end.

(** ** Lemmas: integers *)

Lemma u8_is_byte z : is_byte (u8 z).
Proof. apply Z.mod_pos_bound. lia. Qed.

Lemma u8_id z : is_byte z → u8 z = z.
Proof. intros ?. by apply Z.mod_small. Qed.

Lemma u8_add_l a b : u8 (u8 a + b) = u8 (a + b).
Proof. apply Zplus_mod_idemp_l. Qed.

Lemma u8_add_r a b : u8 (a + u8 b) = u8 (a + b).
Proof. apply Zplus_mod_idemp_r. Qed.

Lemma u8_opp_r a b : u8 (a - u8 b) = u8 (a - b).
Proof. apply Zminus_mod_idemp_r. Qed.

Lemma sum8_Zsum c l : is_byte c → sum8 c l = u8 (c + Zsum l).
Proof.
  revert c. induction l as [|b l IH]; intros c Hc; simpl.
  - by rewrite Z.add_0_r, u8_id.
  - unfold sum8 in *. simpl. rewrite IH by apply u8_is_byte.
    rewrite u8_add_l. f_equal. lia.
Qed.

Lemma sum8_is_byte c l : is_byte c → is_byte (sum8 c l).
Proof. intros. rewrite sum8_Zsum by done. apply u8_is_byte. Qed.

Lemma sum8_app c l1 l2 : sum8 c (l1 ++ l2) = sum8 (sum8 c l1) l2.
Proof. apply foldl_app. Qed.

Lemma Zsum_app l1 l2 : Zsum (l1 ++ l2) = (Zsum l1 + Zsum l2)%Z.
Proof. induction l1 as [|x l1 IH]; simpl; [done|]. rewrite IH. lia. Qed.

Lemma is_byte_0 : is_byte 0.
Proof. split; lia. Qed.

(** A byte is determined by the condition "adds up to 0 modulo 256". *)
Lemma u8_complement a b : is_byte b → u8 (a + b) = 0%Z ↔ b = u8 (0 - a).
Proof.
  intros Hb. unfold is_byte, u8 in *. split.
  - intros H. rewrite <- (Z.mod_small b 256) by lia.
    apply Z.mod_divide in H as [k Hk]; [|lia].
    replace b with (0 - a + k * 256)%Z by lia. by rewrite Z_mod_plus_full.
  - intros ->. rewrite Zplus_mod_idemp_r.
    by replace (a + (0 - a))%Z with 0%Z by lia.
Qed.

Lemma u8_cancel a : u8 (a + u8 (0 - a)) = 0%Z.
Proof. by apply u8_complement; [apply u8_is_byte|]. Qed.

(** Two bytes joined into a 16-bit word, as [hi << 8 | lo]. *)
Lemma join16 hi lo :
  is_byte hi → is_byte lo → Z.lor (Z.shiftl hi 8) lo = (hi * 256 + lo)%Z.
Proof.
  unfold is_byte. intros Hhi Hlo.
  assert (Hland : Z.land (Z.shiftl hi 8) lo = 0%Z).
  { apply Z.bits_inj'. intros n Hn. rewrite Z.land_spec, Z.bits_0.
    destruct (decide (n < 8)%Z).
    - by rewrite Z.shiftl_spec_low.
    - rewrite <- (Z.mod_small lo (2 ^ 8)) by lia.
      rewrite (Z.mod_pow2_bits_high lo) by lia. apply andb_false_r. }
  rewrite <- Z.lxor_lor, <- Z.add_nocarry_lxor by done.
  rewrite Z.shiftl_mul_pow2 by lia. done.
Qed.

Lemma u8_shiftr8 z : (0 ≤ z < 65536)%Z → u8 (Z.shiftr z 8) = (z / 256)%Z.
Proof.
  intros Hz. rewrite Z.shiftr_div_pow2 by lia. change (2 ^ 8)%Z with 256%Z.
  apply u8_id. unfold is_byte. pose proof (Z.div_mod z 256 ltac:(lia)).
  pose proof (Z.mod_pos_bound z 256 ltac:(lia)). lia.
Qed.

Lemma u16_join z :
  (0 ≤ z < 65536)%Z → u16 (Z.lor (Z.shiftl (u8 (Z.shiftr z 8)) 8) (u8 z)) = z.
Proof.
  intros Hz. rewrite join16 by apply u8_is_byte. rewrite u8_shiftr8 by done.
  unfold u8, u16. rewrite Z.mul_comm, <- Z.div_mod by lia. by apply Z.mod_small.
Qed.

(** ** Lemmas: lists as arrays *)

Lemma is_bytes_replicate n : is_bytes (replicate n 0%Z).
Proof. apply Forall_replicate, is_byte_0. Qed.

Lemma is_bytes_slice l off n : is_bytes l → is_bytes (take n (drop off l)).
Proof. intros. by apply Forall_take, Forall_drop. Qed.

Lemma is_bytes_lookup l i v : is_bytes l → l !! i = Some v → is_byte v.
Proof. intros. by eapply Forall_lookup_1. Qed.

Lemma is_bytes_splice l off src :
  is_bytes l → is_bytes src →
  is_bytes (take off l ++ src ++ drop (off + length src) l).
Proof. intros. repeat apply Forall_app_2; auto using Forall_take, Forall_drop. Qed.

Lemma length_splice {A} (l : list A) off src :
  off + length src ≤ length l →
  length (take off l ++ src ++ drop (off + length src) l) = length l.
Proof. intros. rewrite !length_app, length_take, length_drop. lia. Qed.

(** Taking a list of a known length apart into its elements. *)
Lemma length_S_inv {A} (l : list A) n :
  length l = S n → ∃ x l', l = x :: l' ∧ length l' = n.
Proof. destruct l; [done|]. intros [= <-]. eauto. Qed.

(** A measure of a list: the sum of its elements' weights. *)
Definition weight {A} (f : A → nat) (l : list A) : nat := sum_list_with f l.

Lemma weight_app {A} (f : A → nat) l1 l2 : weight f (l1 ++ l2) = weight f l1 + weight f l2.
Proof. apply sum_list_with_app. Qed.

Lemma weight_insert {A} (f : A → nat) l i x y :
  l !! i = Some x → weight f (<[i:=y]> l) + f x = weight f l + f y.
Proof.
  revert i. induction l as [|z l IH]; intros [|i] Hx; [done..| |].
  - injection Hx as ->. change (<[0:=y]> (x :: l)) with (y :: l). unfold weight. simpl. lia.
  - specialize (IH i Hx). change (<[S i:=y]> (z :: l)) with (z :: <[i:=y]> l).
    unfold weight in *. cbn [sum_list_with]. lia.
Qed.

Lemma weight_lookup {A} (f : A → nat) l i x : l !! i = Some x → f x ≤ weight f l.
Proof.
  revert i. induction l as [|z l IH]; intros [|i] Hx; try done; unfold weight in *; cbn in *.
  - simplify_eq. lia.
  - specialize (IH i Hx). lia.
Qed.

(** ** Lemmas: weakest preconditions *)

Section wp.
Context {S : Type}.
Implicit Types s : S.

Lemma wp_run {A} (m : M S A) s Q :
  wp m s Q ↔ ∃ a s', m s = Val (a, s') ∧ Q a s'.
Proof.
  unfold wp. split.
  - destruct (m s) as [[a s']| |]; naive_solver.
  - intros (a & s' & -> & ?). done.
Qed.

(** [wp] gives the run itself when the postcondition is an equation. *)
Lemma wp_val {A} (m : M S A) s x :
  wp m s (λ a s', (a, s') = x) ↔ m s = Val x.
Proof.
  unfold wp. split.
  - destruct (m s) as [[a s']| |]; naive_solver.
  - intros ->. by destruct x.
Qed.

Lemma wp_mono {A} (m : M S A) s (P Q : A → S → Prop) :
  wp m s P → (∀ a s', P a s' → Q a s') → wp m s Q.
Proof. unfold wp. destruct (m s) as [[a s']| |]; auto. Qed.

Lemma wp_and {A} (m : M S A) s (P Q : A → S → Prop) :
  wp m s P → wp m s Q → wp m s (λ a s', P a s' ∧ Q a s').
Proof. unfold wp. destruct (m s) as [[a s']| |]; auto. Qed.

Lemma wp_ret {A} (a : A) s (Q : A → S → Prop) : Q a s → wp (ret a) s Q.
Proof. done. Qed.

Lemma wp_bind {A B} (m : M S A) (k : A → M S B) s Q :
  wp m s (λ a s', wp (k a) s' Q) → wp (bind m k) s Q.
Proof. unfold wp, bind. by destruct (m s) as [[a s']| |]. Qed.

Lemma wp_bind_inv {A B} (m : M S A) (k : A → M S B) s Q :
  wp (bind m k) s Q → wp m s (λ a s', wp (k a) s' Q).
Proof. unfold wp, bind. by destruct (m s) as [[a s']| |]. Qed.

Lemma wp_prim {A} (f : S → A * S) s (Q : A → S → Prop) :
  (let '(a, s') := f s in Q a s') → wp (prim f) s Q.
Proof. unfold wp, prim. done. Qed.

Lemma wp_get s (Q : S → S → Prop) : Q s s → wp get s Q.
Proof. done. Qed.

Lemma wp_modify (f : S → S) s (Q : unit → S → Prop) :
  Q tt (f s) → wp (modify f) s Q.
Proof. done. Qed.

Lemma wp_aget l i v s (Q : Z → S → Prop) :
  l !! i = Some v → Q v s → wp (aget l i) s Q.
Proof. unfold aget. by intros ->. Qed.

Lemma wp_aget_lt l i s (Q : Z → S → Prop) :
  i < length l → (∀ v, l !! i = Some v → Q v s) → wp (aget l i) s Q.
Proof.
  intros Hi HQ. destruct (lookup_lt_is_Some_2 l i Hi) as [v Hv].
  eapply wp_aget; eauto.
Qed.

Lemma wp_aput l i v s (Q : list Z → S → Prop) :
  i < length l → Q (<[i:=v]> l) s → wp (aput l i v) s Q.
Proof. intros Hi ?. unfold aput. by rewrite (proj2 (Nat.ltb_lt _ _) Hi). Qed.

Lemma wp_aread l off n s (Q : list Z → S → Prop) :
  off + n ≤ length l → Q (take n (drop off l)) s → wp (aread l off n) s Q.
Proof. intros Hi ?. unfold aread. by rewrite (proj2 (Nat.leb_le _ _) Hi). Qed.

Lemma wp_awrite l off src s (Q : list Z → S → Prop) :
  off + length src ≤ length l →
  Q (take off l ++ src ++ drop (off + length src) l) s →
  wp (awrite l off src) s Q.
Proof. intros Hi ?. unfold awrite. by rewrite (proj2 (Nat.leb_le _ _) Hi). Qed.

Lemma wp_push cap buf v s (Q : list Z → S → Prop) :
  length buf < cap → Q (buf ++ [v]) s → wp (push cap buf v) s Q.
Proof. intros Hi ?. unfold push. by rewrite (proj2 (Nat.ltb_lt _ _) Hi). Qed.

Lemma wp_push_all cap buf src s (Q : list Z → S → Prop) :
  length buf + length src ≤ cap → Q (buf ++ src) s →
  wp (push_all cap buf src) s Q.
Proof. intros Hi ?. unfold push_all. by rewrite (proj2 (Nat.leb_le _ _) Hi). Qed.

Lemma wp_foreach {A} (I : S → Prop) (P : A → Prop) (l : list A) f s :
  (∀ x s, P x → I s → wp (f x) s (λ _, I)) →
  Forall P l → I s → wp (foreach l f) s (λ _, I).
Proof.
  intros Hf Hl. revert s. induction Hl as [|x l Hx Hl IH]; intros s Hs; [done|].
  apply wp_bind. eapply wp_mono; [by apply Hf|]. intros [] s' Hs'. by apply IH.
Qed.

Lemma bind_val {A B} (m : M S A) (k : A → M S B) s a s' :
  m s = Val (a, s') → bind m k s = k a s'.
Proof. unfold bind. by intros ->. Qed.
End wp.

Lemma wp_lift {T S A} (m : M S A) (t : T) s (Q : A → T * S → Prop) :
  wp m s (λ a s', Q a (t, s')) → wp (lift m) (t, s) Q.
Proof. unfold wp, lift. simpl. by destruct (m s) as [[a s']| |]. Qed.

(** ** Automation *)

(** Facts about bytes and arrays, for [eauto with fw]. *)
Create HintDb fw discriminated.
#[export] Hint Resolve u8_is_byte is_byte_0 is_bytes_replicate is_bytes_slice
  is_bytes_lookup is_bytes_splice sum8_is_byte : fw.
#[export] Hint Constructors Forall : fw.

Lemma length_cons_S {A} (x : A) l : length (x :: l) = S (length l).
Proof. done. Qed.

Lemma length_nil_0 {A} : length (@nil A) = 0.
Proof. done. Qed.

(** Lengths of the lists that array operations build. *)
Create Rewrite HintDb fw_len.
#[export] Hint Rewrite @length_app @length_take @length_drop @length_replicate
  @length_insert @length_cons_S @length_nil_0 : fw_len.

Ltac solve_len := cbn [fst snd]; autorewrite with fw_len; lia.

(** One step of symbolic execution of a [wp] goal. *)
Ltac wp_step :=
  lazymatch goal with
  | |- wp (bind _ _) _ _ => apply wp_bind
  | |- wp (ret _) _ _ => apply wp_ret
  | |- wp (prim _) _ _ => apply wp_prim
  | |- wp get _ _ => apply wp_get
  | |- wp (modify _) _ _ => apply wp_modify
  | |- wp (lift _) (_, _) _ => apply wp_lift
  end.

(** Runs [wp_step] and the case distinctions of the code as far as they go. *)
Ltac wp_steps := repeat (wp_step; cbn beta match).

(** Splits the [if] or [match] that blocks the symbolic execution. *)
Ltac wp_case :=
  lazymatch goal with
  | |- wp (if ?b then _ else _) _ _ => destruct b eqn:?
  | |- wp (match ?x with _ => _ end) _ _ => destruct x eqn:?
  | |- (match ?x with _ => _ end) => destruct x eqn:?
  end.

(** Turns the boolean comparisons of the code into arithmetic facts. *)
Ltac reflect_bools :=
  repeat match goal with
  | H : (_ && _)%bool = true |- _ => apply andb_true_iff in H as [? ?]
  | H : (_ || _)%bool = false |- _ => apply orb_false_iff in H as [? ?]
  | H : negb _ = true |- _ => apply negb_true_iff in H
  | H : negb _ = false |- _ => apply negb_false_iff in H
  | H : (_ =? _)%Z = true |- _ => apply Z.eqb_eq in H
  | H : (_ =? _)%Z = false |- _ => apply Z.eqb_neq in H
  | H : (_ <? _)%Z = true |- _ => apply Z.ltb_lt in H
  | H : (_ <? _)%Z = false |- _ => apply Z.ltb_ge in H
  | H : (_ <=? _)%Z = true |- _ => apply Z.leb_le in H
  | H : (_ <=? _)%Z = false |- _ => apply Z.leb_gt in H
  | H : (_ =? _)%nat = true |- _ => apply Nat.eqb_eq in H
  | H : (_ =? _)%nat = false |- _ => apply Nat.eqb_neq in H
  | H : (_ <? _)%nat = true |- _ => apply Nat.ltb_lt in H
  | H : (_ <? _)%nat = false |- _ => apply Nat.ltb_ge in H
  | H : (_ <=? _)%nat = true |- _ => apply Nat.leb_le in H
  | H : (_ <=? _)%nat = false |- _ => apply Nat.leb_gt in H
  end.

(** Two runs of the same external call agree. *)
Ltac unify_runs :=
  repeat match goal with
  | H1 : ?x = (_, _), H2 : ?x = (_, _) |- _ => rewrite H1 in H2; inversion H2; clear H2; subst
  end.

(** [is_bytes] of a literal list. *)
Ltac solve_bytes :=
  repeat (apply Forall_cons_2; [unfold is_byte; lia|]); apply Forall_nil_2.

(** Takes every list of known literal length in the context apart. *)
Ltac explode_lists :=
  repeat match goal with
  | H : length ?l = S _ |- _ =>
      is_var l; apply length_S_inv in H as (? & ? & -> & H)
  | H : length ?l = O |- _ => is_var l; apply nil_length_inv in H as ->
  end.
