(* ===== verification/Platform.v ===== *)
(** * The platform under the firmware

    ESP-IDF error codes as the sources name them, the error-propagating bind
    that stands for [ESP_RETURN_ON_ERROR], and the interface of the code that
    is not part of the repository: the I2C master driver, the timer and the
    scheduler ([Platform]), the TinyUSB device stack and the FreeRTOS queue
    ([UsbPlatform]).  The interfaces are type classes over an abstract world
    [W]; [PlatformLaws], [UsbLaws] ([CdcLaws] a part of it) and [UsbTaskLaws] state the documented
    behaviour the theorems rely on. *)
From S2P Require Import Prelude.

(** ** [esp_err_t] *)

(** The error codes the sources name.  [ESP_OK] is not one of them: a C function
    of type [esp_err_t] is modelled by a [result], [Ok] standing for [ESP_OK]
    together with the values of the out parameters. *)
Inductive esp_err : Type :=
  | ESP_FAIL
  | ESP_ERR_NO_MEM
  | ESP_ERR_INVALID_ARG
  | ESP_ERR_INVALID_STATE
  | ESP_ERR_INVALID_SIZE
  | ESP_ERR_NOT_FOUND
  | ESP_ERR_TIMEOUT
  | ESP_ERR_INVALID_RESPONSE
  | ESP_ERR_INVALID_CRC
  | ESP_ERR_CODE (code : Z).

#[export] Instance esp_err_eq_dec : EqDecision esp_err.
Proof. solve_decision. Defined.

Inductive result (A : Type) : Type :=
  | Ok (a : A)
  | Err (e : esp_err).
Arguments Ok {A} a.
Arguments Err {A} e.

Definition is_ok {A} (r : result A) : bool :=
  match r with Ok _ => true | Err _ => false end.

(** [ESP_RETURN_ON_ERROR(m, ...)] followed by the rest of the function. *)
Definition tbind {S A B} (m : M S (result A)) (k : A → M S (result B)) : M S (result B) :=
  bind m (λ r, match r with Ok a => k a | Err e => ret (Err e) end).

Notation "'try*' x := m 'in' k" := (tbind m (λ x, k))
  (at level 10, x name, m at level 100, k at level 200,
   format "'[v' 'try*'  x  :=  m  'in' '/' k ']'") : fw_scope.
Notation "'check*' m 'in' k" := (tbind m (λ _, k))
  (at level 10, m at level 100, k at level 200,
   format "'[v' 'check*'  m  'in' '/' k ']'") : fw_scope.

(** An [int] used as an [esp_err_t]: 0 is [ESP_OK]. *)
Definition esp_of_int (code : Z) : result unit :=
  if (code =? 0)%Z then Ok tt else Err (ESP_ERR_CODE code).

(** ** I2C master, timer, scheduler *)

Class Platform (W : Type) := {
  i2c_new_master_bus : W → result unit * W;
  i2c_master_bus_add_device : W → result unit * W;
  (** address, timeout in ms *)
  i2c_master_probe : Z → Z → W → result unit * W;
  (** number of bytes, timeout in ms; [Ok] carries the bytes received *)
  i2c_master_receive : nat → Z → W → result (list Z) * W;
  (** bytes, timeout in ms *)
  i2c_master_transmit : list Z → Z → W → result unit * W;
  esp_timer_get_time : W → Z * W;
  (** [vTaskDelay(pdMS_TO_TICKS(ms))] *)
  vTaskDelay : Z → W → W;
}.

(** What the code relies on.  [inv] is an invariant of the world the platform
    keeps (instantiated by the users of the class), [clock] the time
    [esp_timer_get_time] returns: it never runs backwards, and a completed I2C
    transfer takes time. *)
Class PlatformLaws (W : Type) `{Platform W} (inv : W → Prop) (clock : W → Z) := {
  new_master_bus_law w : inv w → inv (i2c_new_master_bus w).2;
  add_device_law w : inv w → inv (i2c_master_bus_add_device w).2;
  probe_law a t w : inv w → inv (i2c_master_probe a t w).2;
  receive_law n t w : inv w →
    inv (i2c_master_receive n t w).2 ∧
    (clock w < clock (i2c_master_receive n t w).2)%Z ∧
    ∀ l, (i2c_master_receive n t w).1 = Ok l → length l = n ∧ is_bytes l;
  transmit_law l t w : inv w → inv (i2c_master_transmit l t w).2;
  get_time_law w : inv w →
    inv (esp_timer_get_time w).2 ∧
    (clock w ≤ (esp_timer_get_time w).1 ≤ clock (esp_timer_get_time w).2)%Z;
  delay_law t w : inv w →
    inv (vTaskDelay t w) ∧ (clock w ≤ clock (vTaskDelay t w))%Z;
}.

(** ** USB device stack and message queue *)

(** [usb_device.h]: [usb_message_type_t], [usb_message_t]. *)
Inductive usb_message_type_t : Type := USB_MESSAGE_HID | USB_MESSAGE_CDC.

Record usb_message_t : Type := UsbMessage {
  msg_type : usb_message_type_t;
  msg_size : nat;
  msg_data : list Z;
}.

(** Capacity of [usb_message_t.data]. *)
Definition USB_MESSAGE_CAPACITY : nat := 512.

Class UsbPlatform (W : Type) := {
  tinyusb_driver_install : W → result unit * W;
  tinyusb_cdcacm_init : W → result unit * W;
  tud_mounted : W → bool * W;
  (** HID instance *)
  tud_hid_n_ready : Z → W → bool * W;
  (** HID instance, report id, report *)
  tud_hid_n_report : Z → Z → list Z → W → bool * W;
  (** interface, capacity; [Ok] carries the bytes read *)
  tinyusb_cdcacm_read : Z → nat → W → result (list Z) * W;
  (** The value the call returns, as the integer the sources test. *)
  tinyusb_cdcacm_write_queue : list Z → W → Z * W;
  (** timeout in ticks; the sources pass 0 *)
  tinyusb_cdcacm_write_flush : Z → W → result unit * W;
  (** length; false when the allocation fails *)
  xQueueCreate : nat → W → bool * W;
  (** message, ticks to wait; the sources pass 0 *)
  xQueueSend : usb_message_t → Z → W → bool * W;
  (** ms to wait ([pdMS_TO_TICKS] of it); [None] when nothing arrived in time *)
  xQueueReceive : Z → W → option usb_message_t * W;
}.

(** A message the two callbacks of usb_device.c can put into the queue. *)
Definition wf_message (m : usb_message_t) : Prop :=
  length (msg_data m) = USB_MESSAGE_CAPACITY ∧ is_bytes (msg_data m) ∧
  msg_size m ≤ USB_MESSAGE_CAPACITY.

(** [inv] is kept by the calls any code makes, the senders and the callbacks: those of
    the serial port and the queue ... *)
Class CdcLaws (W : Type) `{UsbPlatform W} (inv : W → Prop) := {
  cdc_read_law i n w : inv w →
    inv (tinyusb_cdcacm_read i n w).2 ∧
    ∀ l, (tinyusb_cdcacm_read i n w).1 = Ok l → length l ≤ n ∧ is_bytes l;
  write_queue_law l w : inv w → inv (tinyusb_cdcacm_write_queue l w).2;
  write_flush_law t w : inv w → inv (tinyusb_cdcacm_write_flush t w).2;
  queue_send_law m t w : inv w → wf_message m → inv (xQueueSend m t w).2;
}.

(** ... with those of the HID interfaces, *)
Class UsbLaws (W : Type) `{UsbPlatform W} (inv : W → Prop) := {
  #[global] usb_cdc_laws :: CdcLaws W inv;
  mounted_law w : inv w → inv (tud_mounted w).2;
  ready_law i w : inv w → inv (tud_hid_n_ready i w).2;
  report_law i r l w : inv w → inv (tud_hid_n_report i r l w).2;
}.

(** ... and with the calls only the main task makes: initialisation, and receiving
    from the queue, which gives a message that was sent. *)
Class UsbTaskLaws (W : Type) `{UsbPlatform W} (inv : W → Prop) := {
  install_law w : inv w → inv (tinyusb_driver_install w).2;
  cdc_init_law w : inv w → inv (tinyusb_cdcacm_init w).2;
  queue_create_law n w : inv w → inv (xQueueCreate n w).2;
  queue_receive_law t w : inv w →
    inv (xQueueReceive t w).2 ∧
    ∀ m, (xQueueReceive t w).1 = Some m → wf_message m;
}.

(** ** Lemmas *)

Section try.
Context {S : Type}.

Lemma wp_tbind {A B} (m : M S (result A)) (k : A → M S (result B)) s Q :
  wp m s (λ r s', match r with Ok a => wp (k a) s' Q | Err e => Q (Err e) s' end) →
  wp (tbind m k) s Q.
Proof.
  intros Hm. apply wp_bind. eapply wp_mono; [exact Hm|]. by intros [a|e] s' ?.
Qed.

Lemma tbind_ok {A B} (m : M S (result A)) (k : A → M S (result B)) s a s' :
  m s = Val (Ok a, s') → tbind m k s = k a s'.
Proof. unfold tbind, bind. by intros ->. Qed.

Lemma tbind_ok_iff {A B} (m : M S (result A)) (k : A → M S (result B)) s b s' :
  tbind m k s = Val (Ok b, s') ↔
    ∃ a s1, m s = Val (Ok a, s1) ∧ k a s1 = Val (Ok b, s').
Proof.
  unfold tbind, bind. split.
  - destruct (m s) as [[[a|e] s1]| |]; naive_solver.
  - intros (a & s1 & -> & ?). done.
Qed.

Lemma tbind_err {A B} (m : M S (result A)) (k : A → M S (result B)) s e s' :
  m s = Val (Err e, s') → tbind m k s = Val (Err e, s').
Proof. unfold tbind, bind. by intros ->. Qed.
End try.

(** [wp_step], extended with the error-propagating bind. *)
Ltac wp_try :=
  first [ wp_step
        | lazymatch goal with |- wp (tbind _ _) _ _ => apply wp_tbind end ].

Ltac wp_tries := repeat (wp_try; cbn beta match).
