(* ===== verification/Sim.v ===== *)
(** * A simulated platform

    A concrete instance of the platform classes: I2C reads come from a script,
    I2C writes and USB traffic are logged, the clock advances with every
    transfer, delay and wait for a message, the queue holds sixteen messages, the USB host has the device
    configured from a given time on.  It satisfies [PlatformLaws], [UsbLaws] and
    [UsbTaskLaws], so it shows that the laws can hold and gives the theorems concrete
    runs. *)
From S2P Require Import Prelude Platform.

Inductive usb_event : Type :=
  | HidReport (instance report_id : Z) (report : list Z)
  | CdcQueued (data : list Z)
  | CdcFlushed.

Record sim : Type := Sim {
  sim_clock : Z;
  sim_rx : list (result (list Z));
  sim_tx : list (list Z);
  sim_usb : list usb_event;
  sim_cdc : list (list Z);
  sim_queue : list usb_message_t;
  sim_attach : Z;
}.

(** A scripted read clipped or padded to the bytes asked for. *)
Definition sim_clip (n : nat) (l : list Z) : list Z :=
  take n (map u8 l ++ replicate n 0%Z).

Definition sim_tick (d : Z) (w : sim) : sim :=
  Sim (sim_clock w + Z.max 0 d) (sim_rx w) (sim_tx w) (sim_usb w) (sim_cdc w) (sim_queue w)
    (sim_attach w).

(** With an empty script every read is NACKed. *)
Definition sim_receive (n : nat) (_ : Z) (w : sim) : result (list Z) * sim :=
  let w' := Sim (sim_clock w + 100) (tail (sim_rx w)) (sim_tx w) (sim_usb w)
              (sim_cdc w) (sim_queue w) (sim_attach w) in
  match sim_rx w with
  | [] => (Err ESP_ERR_INVALID_STATE, w')
  | Ok l :: _ => (Ok (sim_clip n l), w')
  | Err e :: _ => (Err e, w')
  end.

#[export] Instance sim_platform : Platform sim := {
  i2c_new_master_bus w := (Ok tt, w);
  i2c_master_bus_add_device w := (Ok tt, w);
  i2c_master_probe _ _ w := (Ok tt, sim_tick 100 w);
  i2c_master_receive := sim_receive;
  i2c_master_transmit l _ w :=
    (Ok tt, Sim (sim_clock w + 100) (sim_rx w) (sim_tx w ++ [l]) (sim_usb w)
              (sim_cdc w) (sim_queue w) (sim_attach w));
  esp_timer_get_time w := (sim_clock w, w);
  vTaskDelay ms w := sim_tick (ms * 1000) w;
}.

Definition sim_log (e : usb_event) (w : sim) : sim :=
  Sim (sim_clock w) (sim_rx w) (sim_tx w) (sim_usb w ++ [e]) (sim_cdc w) (sim_queue w)
    (sim_attach w).

Definition sim_set_queue (q : list usb_message_t) (w : sim) : sim :=
  Sim (sim_clock w) (sim_rx w) (sim_tx w) (sim_usb w) (sim_cdc w) q (sim_attach w).

#[export] Instance sim_usb_platform : UsbPlatform sim := {
  tinyusb_driver_install w := (Ok tt, w);
  tinyusb_cdcacm_init w := (Ok tt, w);
  tud_mounted w := ((sim_attach w <=? sim_clock w)%Z, w);
  tud_hid_n_ready _ w := ((sim_attach w <=? sim_clock w)%Z, w);
  tud_hid_n_report i r l w :=
    if (sim_attach w <=? sim_clock w)%Z then (true, sim_log (HidReport i r l) w) else (false, w);
  tinyusb_cdcacm_read _ n w :=
    (match sim_cdc w with [] => Err ESP_FAIL | l :: _ => Ok (take n (map u8 l)) end,
     Sim (sim_clock w) (sim_rx w) (sim_tx w) (sim_usb w) (tail (sim_cdc w)) (sim_queue w) (sim_attach w));
  tinyusb_cdcacm_write_queue l w := (Z.of_nat (length l), sim_log (CdcQueued l) w);
  tinyusb_cdcacm_write_flush _ w := (Ok tt, sim_log CdcFlushed w);
  xQueueCreate _ w := (true, sim_set_queue [] w);
  xQueueSend m _ w :=
    if (length (sim_queue w) <? 16)%nat
    then (true, sim_set_queue (sim_queue w ++ [m]) w) else (false, w);
  xQueueReceive ms w :=
    match sim_queue w with
    | [] => (None, sim_tick (ms * 1000) w)
    | m :: q => (Some m, sim_set_queue q w)
    end;
}.

(** The invariant of the world: everything in the queue came from a callback. *)
Definition sim_inv (w : sim) : Prop := Forall wf_message (sim_queue w).

(** A fresh platform with scripted I2C reads, which a host has configured already, or
    will configure at a time. *)
Definition sim_boot (rx : list (result (list Z))) : sim := Sim 0 rx [] [] [] [] 0.

Definition sim_boot_unattached (attach : Z) (rx : list (result (list Z))) : sim :=
  Sim 0 rx [] [] [] [] attach.

Lemma sim_boot_inv rx : sim_inv (sim_boot rx).
Proof. constructor. Qed.

Lemma sim_boot_unattached_inv attach rx : sim_inv (sim_boot_unattached attach rx).
Proof. constructor. Qed.
#[export] Hint Resolve sim_boot_inv : fw.

Lemma sim_clip_wf n l : length (sim_clip n l) = n ∧ is_bytes (sim_clip n l).
Proof.
  unfold sim_clip. split; [rewrite length_take, length_app, length_replicate; lia|].
  apply Forall_take, Forall_app_2; [|auto with fw].
  apply Forall_map, Forall_true, u8_is_byte.
Qed.

#[export] Instance sim_laws : PlatformLaws sim sim_inv sim_clock.
Proof.
  split; intros; simpl; unfold sim_inv in *; simpl; try done.
  - unfold sim_receive. destruct (sim_rx w) as [|[l|e] rx]; simpl; split_and!;
      try done; try lia. intros l' [= <-]. apply sim_clip_wf.
  - split; [done|lia].
Qed.

#[export] Instance sim_cdc_laws : CdcLaws sim sim_inv.
Proof.
  split; intros; simpl; unfold sim_inv in *; simpl; try done.
  - split; [done|]. intros l. destruct (sim_cdc w) as [|l' ls]; [done|].
    intros [= <-]. split; [rewrite length_take; lia|].
    apply Forall_take, Forall_map, Forall_true, u8_is_byte.
  - destruct (_ <? _)%nat; simpl; [|done]. apply Forall_app_2; [done|by apply Forall_singleton].
Qed.

#[export] Instance sim_usb_laws : UsbLaws sim sim_inv.
Proof. split; [apply _|done|done|]. intros i r l w Hw. simpl. by destruct (_ <=? _)%Z. Qed.

#[export] Instance sim_task_laws : UsbTaskLaws sim sim_inv.
Proof.
  split; intros; simpl; unfold sim_inv in *; simpl; try done.
  destruct (sim_queue w) as [|m q] eqn:Hq; simpl; [by rewrite Hq|].
  match goal with Hm : Forall _ (_ :: _) |- _ => apply Forall_cons in Hm as [? ?] end.
  split; [done|]. by intros ? [= <-].
Qed.
