(* ===== verification/Pn532Iface.v ===== *)
(** * pn532.h: what the PN532 driver offers to the reader

    The two target records, the driver's operations as a type class [Nfc], and
    what the reader relies on as a second one, [NfcLaws].  Pn532.v implements
    both; Reader.v and everything above it is proved against them. *)
From S2P Require Import Prelude Platform.

Record pn532_type_a_target_t : Type := TypeATarget {
  ta_target : Z;
  ta_uid : list Z;
  ta_uid_size : nat;
  ta_sak : Z;
  ta_atqa : Z;
}.

Record pn532_felica_target_t : Type := FelicaTarget {
  fe_target : Z;
  fe_idm : list Z;
  fe_pmm : list Z;
}.

(** The operations.  An out parameter is part of the [Ok] value; the two polls
    return [None] for [*found = false] and [Some target] for [*found = true]
    with the target filled in.  [nfc_poll_type_a] takes the target's old value,
    because it overwrites only [uid_size] bytes of the UID array. *)
Class Nfc (W : Type) := {
  nfc_init : M W (result unit);
  nfc_set_radio : bool → M W (result unit);
  nfc_poll_type_a : pn532_type_a_target_t → M W (result (option pn532_type_a_target_t));
  nfc_poll_felica : Z → M W (result (option pn532_felica_target_t));
  (** target, command, block, key, uid *)
  nfc_mifare_authenticate : Z → Z → Z → list Z → list Z → M W (result unit);
  (** target, block *)
  nfc_mifare_read_block : Z → Z → M W (result (list Z));
  (** target, request, request size, response capacity *)
  nfc_felica_transact : Z → list Z → nat → nat → M W (result (list Z));
}.

Definition wf_type_a (t : pn532_type_a_target_t) : Prop :=
  is_byte (ta_target t) ∧ length (ta_uid t) = 10 ∧ is_bytes (ta_uid t) ∧
  ta_uid_size t ≤ 10 ∧ is_byte (ta_sak t) ∧ (0 ≤ ta_atqa t < 65536)%Z.

Definition wf_felica (t : pn532_felica_target_t) : Prop :=
  is_byte (fe_target t) ∧ length (fe_idm t) = 8 ∧ is_bytes (fe_idm t) ∧
  length (fe_pmm t) = 8 ∧ is_bytes (fe_pmm t).

(** The promise: on well-formed arguments every operation returns (it neither
    loops nor touches memory it does not own), keeps the platform's invariant
    and fills its out parameters with well-formed values. *)
Class NfcLaws (W : Type) `{Nfc W} (inv : W → Prop) := {
  nfc_init_law w : inv w → wp nfc_init w (λ _ w', inv w');
  nfc_set_radio_law b w : inv w → wp (nfc_set_radio b) w (λ _ w', inv w');
  nfc_poll_type_a_law t w : inv w → wf_type_a t →
    wp (nfc_poll_type_a t) w (λ r w', inv w' ∧
      ∀ t', r = Ok (Some t') → wf_type_a t');
  nfc_poll_felica_law c w : inv w →
    wp (nfc_poll_felica c) w (λ r w', inv w' ∧
      ∀ t', r = Ok (Some t') → wf_felica t');
  nfc_authenticate_law t c b k u w : inv w →
    is_byte t → is_byte c → is_byte b → 6 ≤ length k → is_bytes k →
    4 ≤ length u → is_bytes u →
    wp (nfc_mifare_authenticate t c b k u) w (λ _ w', inv w');
  nfc_read_block_law t b w : inv w → is_byte t → is_byte b →
    wp (nfc_mifare_read_block t b) w (λ r w', inv w' ∧
      ∀ d, r = Ok d → length d = 16 ∧ is_bytes d);
  nfc_transact_law t q n cap w : inv w →
    is_byte t → n ≤ length q → is_bytes q →
    wp (nfc_felica_transact t q n cap) w (λ r w', inv w' ∧
      ∀ d, r = Ok d → length d ≤ cap ∧ is_bytes d);
}.
