(* ===== verification/Pn532.v ===== *)
(** * pn532.c: the PN532 I2C driver

    Frame writer, ready polling, response reader and the driver operations of
    pn532.h, over an abstract [Platform].  The reference encoding of a PN532
    information frame is [information_frame]. *)
From S2P Require Import Prelude Platform Sim Pn532Iface.

Definition PN532_I2C_ADDRESS : Z := 0x24.
Definition PN532_I2C_TRANSFER_TIMEOUT_MS : Z := 100.
Definition PN532_I2C_READY : Z := 0x01.
Definition PN532_HOST_TO_PN532 : Z := 0xD4.
Definition PN532_PN532_TO_HOST : Z := 0xD5.
Definition PN532_COMMAND_SAM_CONFIGURATION : Z := 0x14.
Definition PN532_COMMAND_RF_CONFIGURATION : Z := 0x32.
Definition PN532_COMMAND_IN_DATA_EXCHANGE : Z := 0x40.
Definition PN532_COMMAND_IN_LIST_PASSIVE_TARGET : Z := 0x4A.
Definition PN532_FRAME_CAPACITY : nat := 280.
Definition PN532_COMMAND_TIMEOUT_MS : Z := 600.

Definition expected_ack : list Z := [0x00; 0x00; 0xFF; 0x00; 0xFF; 0x00]%Z.

Section driver.
Context {W : Type} `{Platform W}.

(** The body of the [while] of [wait_ready]. *)
Fixpoint wait_ready_loop (fuel : nat) (deadline : Z) : M W (result unit) :=
  match fuel with
  | O => out_of_fuel
  | S fuel =>
      let* now := prim esp_timer_get_time in
      if (now <? deadline)%Z then
        let* r := prim (i2c_master_receive 1 PN532_I2C_TRANSFER_TIMEOUT_MS) in
        match r with
        | Err ESP_ERR_INVALID_STATE =>
            do* modify (vTaskDelay 2) in wait_ready_loop fuel deadline
        | Err e => ret (Err e)
        | Ok rx =>
            let* status := aget rx 0 in
            if negb (Z.land status PN532_I2C_READY =? 0)%Z then ret (Ok tt)
            else do* modify (vTaskDelay 2) in wait_ready_loop fuel deadline
        end
      else ret (Err ESP_ERR_TIMEOUT)
  end.

(** A transfer takes at least a microsecond, so the loop runs at most once per
    microsecond of the timeout. *)
Definition wait_ready (timeout_ms : Z) : M W (result unit) :=
  let* start := prim esp_timer_get_time in
  wait_ready_loop (S (Z.to_nat (timeout_ms * 1000))) (start + timeout_ms * 1000).

Definition write_frame (command : Z) (payload : list Z) (payload_size : nat)
    : M W (result unit) :=
  let data_size := payload_size + 2 in
  if (254 <? data_size)%nat then ret (Err ESP_ERR_INVALID_SIZE) else
  let* frame := push PN532_FRAME_CAPACITY [] 0x00 in
  let* frame := push PN532_FRAME_CAPACITY frame 0x00 in
  let* frame := push PN532_FRAME_CAPACITY frame 0xFF in
  let* frame := push PN532_FRAME_CAPACITY frame (u8 (Z.of_nat data_size)) in
  let* frame := push PN532_FRAME_CAPACITY frame (u8 (0 - Z.of_nat data_size)) in
  let* frame := push PN532_FRAME_CAPACITY frame PN532_HOST_TO_PN532 in
  let* frame := push PN532_FRAME_CAPACITY frame command in
  let checksum := u8 (PN532_HOST_TO_PN532 + command) in
  let* body :=
    (if (0 <? payload_size)%nat then
       let* bytes := aread payload 0 payload_size in
       let* frame := push_all PN532_FRAME_CAPACITY frame bytes in
       ret (frame, sum8 checksum bytes)
     else ret (frame, checksum)) in
  let* frame := push PN532_FRAME_CAPACITY body.1 (u8 (0 - body.2)) in
  let* frame := push PN532_FRAME_CAPACITY frame 0x00 in
  prim (i2c_master_transmit frame PN532_I2C_TRANSFER_TIMEOUT_MS).

Definition read_data (size : nat) : M W (result (list Z)) :=
  if (PN532_FRAME_CAPACITY <? size)%nat then ret (Err ESP_ERR_INVALID_SIZE) else
  try* rx := prim (i2c_master_receive (size + 1) PN532_I2C_TRANSFER_TIMEOUT_MS) in
  let* status := aget rx 0 in
  if (Z.land status PN532_I2C_READY =? 0)%Z then ret (Err ESP_ERR_INVALID_STATE) else
  let* data := aread rx 1 size in
  ret (Ok data).

Definition read_ack : M W (result unit) :=
  try* ack := read_data (length expected_ack) in
  ret (if bool_decide (ack = expected_ack) then Ok tt else Err ESP_ERR_INVALID_RESPONSE).

(** The part of [command] that checks the received frame and extracts the
    payload. *)
Definition check_response (command_code : Z) (response_capacity : nat) (frame : list Z)
    : M W (result (list Z)) :=
  let* f0 := aget frame 0 in
  let* f1 := aget frame 1 in
  let* f2 := aget frame 2 in
  if (negb (f0 =? 0x00) || negb (f1 =? 0x00) || negb (f2 =? 0xFF))%Z
  then ret (Err ESP_ERR_INVALID_RESPONSE) else
  let* f3 := aget frame 3 in
  let* f4 := aget frame 4 in
  let data_size := Z.to_nat f3 in
  if ((data_size <? 2)%nat || (data_size =? 0xFF)%nat || negb (u8 (f3 + f4) =? 0)%Z)
  then ret (Err ESP_ERR_INVALID_RESPONSE) else
  if (PN532_FRAME_CAPACITY <? 5 + data_size + 2)%nat then ret (Err ESP_ERR_INVALID_SIZE) else
  let* data := aread frame 5 data_size in
  let checksum := sum8 0 data in
  let* dcs := aget frame (5 + data_size) in
  let* postamble := aget frame (5 + data_size + 1) in
  if (negb (u8 (checksum + dcs) =? 0) || negb (postamble =? 0))%Z
  then ret (Err ESP_ERR_INVALID_CRC) else
  let* f5 := aget frame 5 in
  let* f6 := aget frame 6 in
  if (negb (f5 =? PN532_PN532_TO_HOST) || negb (f6 =? u8 (command_code + 1)))%Z
  then ret (Err ESP_ERR_INVALID_RESPONSE) else
  let payload_size := data_size - 2 in
  if (response_capacity <? payload_size)%nat then ret (Err ESP_ERR_INVALID_SIZE) else
  let* payload := aread frame 7 payload_size in
  ret (Ok payload).

Definition command (command_code : Z) (request : list Z) (request_size : nat)
    (response_capacity : nat) : M W (result (list Z)) :=
  check* write_frame command_code request request_size in
  check* wait_ready PN532_COMMAND_TIMEOUT_MS in
  check* read_ack in
  check* wait_ready PN532_COMMAND_TIMEOUT_MS in
  try* frame := read_data PN532_FRAME_CAPACITY in
  check_response command_code response_capacity frame.

Definition pn532_init : M W (result unit) :=
  check* prim i2c_new_master_bus in
  check* prim i2c_master_bus_add_device in
  check* prim (i2c_master_probe PN532_I2C_ADDRESS PN532_I2C_TRANSFER_TIMEOUT_MS) in
  do* modify (vTaskDelay 100) in
  let sam := [0x01; 0x14; 0x01]%Z in
  check* command PN532_COMMAND_SAM_CONFIGURATION sam (length sam) 8 in
  let retries := [0x05; 0xFF; 0x01; 0x00]%Z in
  check* command PN532_COMMAND_RF_CONFIGURATION retries (length retries) 8 in
  ret (Ok tt).

Definition pn532_set_radio (enabled : bool) : M W (result unit) :=
  let request := [0x01; if enabled then 0x01 else 0x00]%Z in
  check* command PN532_COMMAND_RF_CONFIGURATION request (length request) 8 in
  ret (Ok tt).

(** [size > 0 && response[0] > 0], the [*found] of the two polls. *)
Definition target_found (response : list Z) : M W bool :=
  if (0 <? length response)%nat then
    let* n := aget response 0 in ret (0 <? n)%Z
  else ret false.

Definition pn532_poll_type_a (target : pn532_type_a_target_t)
    : M W (result (option pn532_type_a_target_t)) :=
  let request := [0x01; 0x00]%Z in
  try* response :=
    command PN532_COMMAND_IN_LIST_PASSIVE_TARGET request (length request) 64 in
  let size := length response in
  let* found := target_found response in
  if negb found then ret (Ok None) else
  if (size <? 6)%nat then ret (Err ESP_ERR_INVALID_RESPONSE) else
  let* r5 := aget response 5 in
  let uid_size := Z.to_nat r5 in
  if ((10 <? uid_size) || (size <? 6 + uid_size))%nat
  then ret (Err ESP_ERR_INVALID_RESPONSE) else
  let* r1 := aget response 1 in
  let* r2 := aget response 2 in
  let* r3 := aget response 3 in
  let* r4 := aget response 4 in
  let* uid_bytes := aread response 6 uid_size in
  let* uid := awrite (ta_uid target) 0 uid_bytes in
  ret (Ok (Some (TypeATarget r1 uid uid_size r4 (u16 (Z.lor (Z.shiftl r2 8) r3))))).

Definition pn532_poll_felica (system_code : Z)
    : M W (result (option pn532_felica_target_t)) :=
  let request :=
    [0x01; 0x01; 0x00; u8 (Z.shiftr system_code 8); u8 system_code; 0x01; 0x00]%Z in
  try* response :=
    command PN532_COMMAND_IN_LIST_PASSIVE_TARGET request (length request) 64 in
  let* found := target_found response in
  if negb found then ret (Ok None) else
  if (length response <? 21)%nat then ret (Err ESP_ERR_INVALID_RESPONSE) else
  let* r2 := aget response 2 in
  if (r2 <? 18)%Z then ret (Err ESP_ERR_INVALID_RESPONSE) else
  let* r1 := aget response 1 in
  let* idm := aread response 4 8 in
  let* pmm := aread response 12 8 in
  ret (Ok (Some (FelicaTarget r1 idm pmm))).

Definition pn532_mifare_authenticate (target mifare_command block : Z) (key uid : list Z)
    : M W (result unit) :=
  let request := [target; mifare_command; block] ++ replicate 10 0%Z in
  let* key := aread key 0 6 in
  let* request := awrite request 3 key in
  let* uid := aread uid 0 4 in
  let* request := awrite request 9 uid in
  try* response := command PN532_COMMAND_IN_DATA_EXCHANGE request (length request) 8 in
  if (1 <=? length response)%nat then
    let* r0 := aget response 0 in
    ret (if (r0 =? 0)%Z then Ok tt else Err ESP_ERR_INVALID_RESPONSE)
  else ret (Err ESP_ERR_INVALID_RESPONSE).

Definition pn532_mifare_read_block (target block : Z) : M W (result (list Z)) :=
  let request := [target; 0x30; block]%Z in
  try* response := command PN532_COMMAND_IN_DATA_EXCHANGE request (length request) 20 in
  if (length response <? 17)%nat then ret (Err ESP_ERR_INVALID_RESPONSE) else
  let* r0 := aget response 0 in
  if negb (r0 =? 0)%Z then ret (Err ESP_ERR_INVALID_RESPONSE) else
  let* data := aread response 1 16 in
  ret (Ok data).

Definition pn532_felica_transact (target : Z) (request : list Z) (request_size : nat)
    (response_capacity : nat) : M W (result (list Z)) :=
  if (254 <? request_size + 1)%nat then ret (Err ESP_ERR_INVALID_SIZE) else
  let* payload := push 255 [] target in
  let* bytes := aread request 0 request_size in
  let* payload := push_all 255 payload bytes in
  try* raw_response :=
    command PN532_COMMAND_IN_DATA_EXCHANGE payload (request_size + 1) 255 in
  let raw_size := length raw_response in
  if (raw_size <? 1)%nat then ret (Err ESP_ERR_INVALID_RESPONSE) else
  let* r0 := aget raw_response 0 in
  if (negb (r0 =? 0)%Z || (response_capacity <? raw_size - 1)%nat)
  then ret (Err ESP_ERR_INVALID_RESPONSE) else
  let* response := aread raw_response 1 (raw_size - 1) in
  ret (Ok response).

#[export] Instance pn532_nfc : Nfc W := {
  nfc_init := pn532_init;
  nfc_set_radio := pn532_set_radio;
  nfc_poll_type_a := pn532_poll_type_a;
  nfc_poll_felica := pn532_poll_felica;
  nfc_mifare_authenticate := pn532_mifare_authenticate;
  nfc_mifare_read_block := pn532_mifare_read_block;
  nfc_felica_transact := pn532_felica_transact;
}.
End driver.

(** The reference encoding: preamble, start code, length and its complement,
    frame identifier, code, payload, data checksum, postamble. *)
Definition information_frame (tfi code : Z) (payload : list Z) : list Z :=
  let n := Z.of_nat (length payload + 2) in
  [0x00; 0x00; 0xFF]%Z ++ [u8 n; u8 (0 - n)] ++ [tfi; code] ++ payload ++
  [u8 (0 - (tfi + code + Zsum payload)); 0x00%Z].

(** ** Termination and memory safety *)

Section laws.
Context {W : Type} `{PlatformLaws W inv clock}.

Lemma wait_ready_loop_wp fuel deadline w :
  inv w → (deadline - clock w < Z.of_nat fuel)%Z → (0 < fuel) →
  wp (wait_ready_loop fuel deadline) w (λ r w',
    inv w' ∧ (clock w ≤ clock w')%Z ∧
    (r = Err ESP_ERR_TIMEOUT → (deadline ≤ clock w')%Z ∨
       ∃ w0 w1, i2c_master_receive 1 PN532_I2C_TRANSFER_TIMEOUT_MS w0 =
                (Err ESP_ERR_TIMEOUT, w1))).
Proof.
  revert w. induction fuel as [|fuel IH]; intros w Hinv Hfuel Hpos; [lia|].
  cbn [wait_ready_loop]. wp_steps.
  pose proof (get_time_law w Hinv) as [Hi1 Hc1].
  destruct (esp_timer_get_time w) as [now w1]; cbn [fst snd] in *.
  wp_case; reflect_bools; wp_steps; [|split_and!; [done|lia|intros _; left; lia]].
  pose proof (receive_law 1 PN532_I2C_TRANSFER_TIMEOUT_MS w1 Hi1) as (Hi2 & Hc2 & Hl).
  destruct (i2c_master_receive 1 PN532_I2C_TRANSFER_TIMEOUT_MS w1) as [r w2] eqn:Hr.
  cbn [fst snd] in *.
  pose proof (delay_law 2 w2 Hi2) as [Hi3 Hc3].
  assert (Hagain : wp (wait_ready_loop fuel deadline) (vTaskDelay 2 w2) (λ r w',
    inv w' ∧ (clock w ≤ clock w')%Z ∧
    (r = Err ESP_ERR_TIMEOUT → (deadline ≤ clock w')%Z ∨
       ∃ w0 w1, i2c_master_receive 1 PN532_I2C_TRANSFER_TIMEOUT_MS w0 =
                (Err ESP_ERR_TIMEOUT, w1)))).
  { eapply wp_mono; [apply IH; [done|lia|lia]|].
    intros r' w' (? & ? & ?). split_and!; [done|lia|done]. }
  destruct r as [rx|e].
  - wp_steps. destruct (Hl rx eq_refl) as [Hlen _]. apply wp_aget_lt; [lia|].
    intros status _. wp_case; wp_steps; [|done]. split_and!; [done|lia|done].
  - destruct e; wp_steps; try done; split_and!; try done; try lia;
      try (intros _; right; by eauto).
Qed.

Lemma wait_ready_wp T w :
  inv w → (0 ≤ T)%Z →
  wp (wait_ready T) w (λ r w',
    inv w' ∧ (clock w ≤ clock w')%Z ∧
    (r = Err ESP_ERR_TIMEOUT → (clock w + T * 1000 ≤ clock w')%Z ∨
       ∃ w0 w1, i2c_master_receive 1 PN532_I2C_TRANSFER_TIMEOUT_MS w0 =
                (Err ESP_ERR_TIMEOUT, w1))).
Proof.
  intros Hinv HT. unfold wait_ready. wp_steps.
  pose proof (get_time_law w Hinv) as [Hi1 Hc1].
  destruct (esp_timer_get_time w) as [start w1]; cbn [fst snd] in *.
  eapply wp_mono; [apply wait_ready_loop_wp; [done|lia|lia]|].
  intros r w' (? & ? & Ht). split_and!; [done|lia|].
  intros ->. destruct (Ht eq_refl) as [?|?]; [left; lia|by right].
Qed.

Lemma write_frame_wp c l n w :
  inv w → n ≤ length l → wp (write_frame c l n) w (λ _ w', inv w').
Proof.
  intros Hinv Hn. unfold write_frame. unfold PN532_FRAME_CAPACITY.
  wp_case; reflect_bools; [by wp_steps|]. wp_steps.
  do 7 (apply wp_push; [simpl; lia|]; wp_steps).
  assert (Htail : ∀ frame cs, length frame ≤ 260 →
    wp (let* frame := push 280 frame (u8 (0 - cs)) in
        let* frame := push 280 frame 0x00 in
        prim (i2c_master_transmit frame PN532_I2C_TRANSFER_TIMEOUT_MS)) w
       (λ _ w', inv w')).
  { intros frame cs Hlen. wp_steps. apply wp_push; [lia|]. wp_steps.
    apply wp_push; [solve_len|]. wp_steps.
    pose proof (transmit_law ((frame ++ [u8 (0 - cs)]) ++ [0%Z])
      PN532_I2C_TRANSFER_TIMEOUT_MS w Hinv). by destruct i2c_master_transmit. }
  wp_case; wp_steps.
  - apply wp_aread; [lia|]. wp_steps.
    apply wp_push_all; [solve_len|].
    wp_steps. apply wp_bind_inv, Htail.
    solve_len.
  - apply wp_bind_inv, Htail. simpl. lia.
Qed.

Lemma read_data_wp n w :
  inv w → wp (read_data n) w (λ r w',
    inv w' ∧ ∀ d, r = Ok d → length d = n ∧ is_bytes d).
Proof.
  intros Hinv. unfold read_data.
  wp_case; reflect_bools; wp_tries; [done|].
  pose proof (receive_law (n + 1) PN532_I2C_TRANSFER_TIMEOUT_MS w Hinv)
    as (Hi & _ & Hl).
  destruct i2c_master_receive as [[rx|e] w']; cbn [fst snd] in *; [|done].
  destruct (Hl rx eq_refl) as [Hlen Hb]. wp_tries.
  apply wp_aget_lt; [lia|]. intros status _. wp_case; wp_tries; [done|].
  apply wp_aread; [lia|]. wp_tries. split; [done|]. intros d [= <-].
  rewrite length_take, length_drop. split; [lia|auto with fw].
Qed.

Lemma read_ack_wp w : inv w → wp read_ack w (λ _ w', inv w').
Proof.
  intros Hinv. unfold read_ack. wp_tries.
  eapply wp_mono; [by apply read_data_wp|]. intros [ack|e] w' [? _]; done.
Qed.

Lemma check_response_wp c cap frame w :
  inv w → length frame = PN532_FRAME_CAPACITY → is_bytes frame →
  wp (check_response c cap frame) w (λ r w',
    inv w' ∧ ∀ p, r = Ok p → length p ≤ cap ∧ is_bytes p).
Proof.
  unfold PN532_FRAME_CAPACITY. intros Hinv Hlen Hb. unfold check_response.
  unfold PN532_FRAME_CAPACITY. wp_steps.
  do 3 (apply wp_aget_lt; [lia|]; intros ? _; wp_steps).
  wp_case; wp_steps; [done|].
  do 2 (apply wp_aget_lt; [lia|]; intros ? _; wp_steps).
  wp_case; wp_steps; [done|]. wp_case; wp_steps; [done|]. reflect_bools.
  apply wp_aread; [lia|]. wp_steps.
  do 2 (apply wp_aget_lt; [lia|]; intros ? _; wp_steps).
  wp_case; wp_steps; [done|].
  do 2 (apply wp_aget_lt; [lia|]; intros ? _; wp_steps).
  wp_case; wp_steps; [done|]. wp_case; wp_steps; [done|]. reflect_bools.
  apply wp_aread; [lia|]. wp_steps. split; [done|]. intros p [= <-].
  rewrite length_take, length_drop. split; [lia|auto with fw].
Qed.

Lemma command_wp c req n cap w :
  inv w → n ≤ length req →
  wp (command c req n cap) w (λ r w',
    inv w' ∧ ∀ p, r = Ok p → length p ≤ cap ∧ is_bytes p).
Proof.
  intros Hinv Hn. unfold command. wp_tries.
  eapply wp_mono; [by apply write_frame_wp|]. intros [[]|e] w1 Hi1; [|done].
  wp_tries. eapply wp_mono; [by apply (wait_ready_wp 600)|].
  intros [[]|e] w2 (Hi2 & _); [|done].
  wp_tries. eapply wp_mono; [by apply read_ack_wp|]. intros [[]|e] w3 Hi3; [|done].
  wp_tries. eapply wp_mono; [by apply (wait_ready_wp 600)|].
  intros [[]|e] w4 (Hi4 & _); [|done].
  wp_tries. eapply wp_mono; [by apply read_data_wp|].
  intros [frame|e] w5 [Hi5 Hd]; [|done].
  destruct (Hd frame eq_refl). by apply check_response_wp.
Qed.
End laws.

(** Steps through a call of [command] and keeps what is known of the response. *)
Ltac wp_command :=
  wp_tries; eapply wp_mono; [apply command_wp; [done|solve_len]|];
  let Hr := fresh "Hr" in
  intros [?resp|?] ?w [?Hinv Hr]; [|done];
  destruct (Hr _ eq_refl) as [?Hcap ?Hbytes]; clear Hr; wp_tries.

(** One array access whose index is in bounds by arithmetic. *)
Ltac wp_access :=
  lazymatch goal with
  | |- wp (aget _ _) _ _ =>
      apply wp_aget_lt; [lia|]; let v := fresh "v" in let Hv := fresh "Hv" in intros v Hv
  | |- wp (aread _ _ _) _ _ => apply wp_aread; [solve_len|]
  end; wp_tries.

Section interface.
Context {W : Type} `{PlatformLaws W inv clock}.

Lemma pn532_set_radio_wp b w :
  inv w → wp (pn532_set_radio b) w (λ _ w', inv w').
Proof. intros Hinv. unfold pn532_set_radio. by wp_command. Qed.

Lemma pn532_init_wp w : inv w → wp pn532_init w (λ _ w', inv w').
Proof.
  intros Hinv. unfold pn532_init. wp_tries.
  pose proof (new_master_bus_law w Hinv) as Hi1.
  destruct (i2c_new_master_bus w) as [[[]|e] w1]; [|done]. wp_tries.
  pose proof (add_device_law w1 Hi1) as Hi2.
  destruct (i2c_master_bus_add_device w1) as [[[]|e] w2]; [|done]. wp_tries.
  pose proof (probe_law PN532_I2C_ADDRESS PN532_I2C_TRANSFER_TIMEOUT_MS w2 Hi2) as Hi3.
  destruct (i2c_master_probe PN532_I2C_ADDRESS PN532_I2C_TRANSFER_TIMEOUT_MS w2)
    as [[[]|e] w3]; [|done]. wp_tries.
  pose proof (delay_law 100 w3 Hi3) as [Hi4 _].
  wp_command. by wp_command.
Qed.

Lemma target_found_wp response w (Q : bool → W → Prop) :
  (∀ b, (b = true → 0 < length response) → Q b w) → wp (target_found response) w Q.
Proof.
  intros HQ. unfold target_found. wp_case; reflect_bools; wp_tries; [|by apply HQ].
  wp_access. by apply HQ.
Qed.

Lemma pn532_poll_type_a_wp t w :
  inv w → wf_type_a t →
  wp (pn532_poll_type_a t) w (λ r w', inv w' ∧
    ∀ t', r = Ok (Some t') → wf_type_a t').
Proof.
  intros Hinv (Ht & Hlen & Huid & Hsize & Hsak & Hatqa).
  unfold pn532_poll_type_a. wp_command. apply target_found_wp. intros found _.
  wp_case; wp_tries; [done|]. wp_case; wp_tries; [done|]. reflect_bools.
  wp_access. wp_case; wp_tries; [done|]. reflect_bools. do 5 wp_access.
  apply wp_awrite; [solve_len|]. wp_tries.
  split; [done|]. intros t' [= <-]. split_and!; simpl; eauto with fw.
  - solve_len.
  - by apply Forall_app_2; [apply is_bytes_slice|apply Forall_drop].
  - apply Z.mod_pos_bound. lia.
  - apply Z.mod_pos_bound. lia.
Qed.

Lemma pn532_poll_felica_wp c w :
  inv w → wp (pn532_poll_felica c) w (λ r w', inv w' ∧
    ∀ t', r = Ok (Some t') → wf_felica t').
Proof.
  intros Hinv. unfold pn532_poll_felica. wp_command.
  apply target_found_wp. intros found _.
  wp_case; wp_tries; [done|]. wp_case; wp_tries; [done|]. reflect_bools.
  wp_access. wp_case; wp_tries; [done|]. do 3 wp_access.
  split; [done|]. intros t' [= <-].
  split_and!; simpl; rewrite ?length_take, ?length_drop; try lia; eauto with fw.
Qed.

Lemma pn532_mifare_authenticate_wp t c b k u w :
  inv w → 6 ≤ length k → 4 ≤ length u →
  wp (pn532_mifare_authenticate t c b k u) w (λ _ w', inv w').
Proof.
  intros Hinv Hk Hu. unfold pn532_mifare_authenticate. wp_tries. wp_access.
  apply wp_awrite; [solve_len|]. wp_tries. wp_access.
  apply wp_awrite; [solve_len|].
  wp_command. wp_case; reflect_bools; wp_tries; [|done]. by wp_access.
Qed.

Lemma pn532_mifare_read_block_wp t b w :
  inv w → wp (pn532_mifare_read_block t b) w (λ r w', inv w' ∧
    ∀ d, r = Ok d → length d = 16 ∧ is_bytes d).
Proof.
  intros Hinv. unfold pn532_mifare_read_block. wp_command.
  wp_case; wp_tries; [done|]. reflect_bools. wp_access. wp_case; wp_tries; [done|].
  wp_access. split; [done|]. intros d [= <-].
  rewrite length_take, length_drop. split; [lia|auto with fw].
Qed.

Lemma pn532_felica_transact_wp t q n cap w :
  inv w → n ≤ length q →
  wp (pn532_felica_transact t q n cap) w (λ r w', inv w' ∧
    ∀ d, r = Ok d → length d ≤ cap ∧ is_bytes d).
Proof.
  intros Hinv Hn. unfold pn532_felica_transact.
  wp_case; wp_tries; [done|]. reflect_bools.
  apply wp_push; [simpl; lia|]. wp_tries. wp_access.
  apply wp_push_all; [solve_len|].
  wp_tries. eapply wp_mono.
  { apply command_wp; [done|].
    solve_len. }
  intros [resp|e] w' [Hi Hr]; [|done]. destruct (Hr _ eq_refl) as [_ Hb]. wp_tries.
  wp_case; wp_tries; [done|]. reflect_bools. wp_access.
  wp_case; wp_tries; [done|]. reflect_bools. wp_access.
  split; [done|]. intros d [= <-].
  rewrite length_take, length_drop. split; [lia|auto with fw].
Qed.

#[export] Instance pn532_nfc_laws : NfcLaws W inv.
Proof.
  split.
  - exact pn532_init_wp.
  - exact pn532_set_radio_wp.
  - exact pn532_poll_type_a_wp.
  - exact pn532_poll_felica_wp.
  - intros. by apply pn532_mifare_authenticate_wp.
  - intros. by apply pn532_mifare_read_block_wp.
  - intros. by apply pn532_felica_transact_wp.
Qed.
End interface.

(** ** Functional behaviour *)

Section frames.
Context {W : Type} `{Platform W}.
Implicit Types w : W.

Lemma length_information_frame tfi code p :
  length (information_frame tfi code p) = length p + 9.
Proof. unfold information_frame. solve_len. Qed.

(** What [write_frame] puts on the wire. *)
Lemma write_frame_run c l n w :
  n ≤ length l → n ≤ 252 →
  write_frame c l n w =
    Val (i2c_master_transmit (information_frame PN532_HOST_TO_PN532 c (take n l))
           PN532_I2C_TRANSFER_TIMEOUT_MS w).
Proof.
  intros Hl Hn. apply wp_val. unfold write_frame, PN532_FRAME_CAPACITY.
  wp_case; reflect_bools; [lia|]. wp_steps.
  do 7 (apply wp_push; [simpl; lia|]; wp_steps). cbn [app].
  assert (Hfin : ∀ frame cs x, length frame ≤ 260 →
    x = i2c_master_transmit (frame ++ [u8 (0 - cs); 0%Z]) PN532_I2C_TRANSFER_TIMEOUT_MS w →
    wp (let* frame := push 280 frame (u8 (0 - cs)) in
        let* frame := push 280 frame 0x00 in
        prim (i2c_master_transmit frame PN532_I2C_TRANSFER_TIMEOUT_MS)) w
       (λ a s', (a, s') = x)).
  { intros frame cs x Hlen ->. wp_steps. apply wp_push; [lia|]. wp_steps.
    apply wp_push; [solve_len|]. wp_steps. rewrite <- app_assoc. by destruct i2c_master_transmit. }
  wp_case; reflect_bools; wp_steps.
  - apply wp_aread; [lia|]. wp_steps. apply wp_push_all; [solve_len|]. wp_steps.
    apply wp_bind_inv, Hfin; [solve_len|]. cbn [fst snd app].
    unfold information_frame. rewrite length_take_le by lia. cbn [app].
    rewrite drop_0, sum8_Zsum by apply u8_is_byte. by rewrite u8_add_l, u8_opp_r.
  - replace n with 0 by lia. apply wp_bind_inv, Hfin; [solve_len|].
    unfold information_frame. cbn [fst snd app take length]. by rewrite u8_opp_r, Z.add_0_r.
Qed.

Lemma write_frame_too_long c l n w :
  252 < n → write_frame c l n w = Val (Err ESP_ERR_INVALID_SIZE, w).
Proof.
  intros Hn. unfold write_frame. by rewrite (proj2 (Nat.ltb_lt _ _)) by lia.
Qed.

(** [check_response] on a buffer cut at the boundaries its length byte
    announces. *)
Lemma check_response_run c cap f0 f1 f2 f4 f5 f6 p d q rest w :
  let f3 := Z.of_nat (length p + 2) in
  let frame := f0 :: f1 :: f2 :: f3 :: f4 :: f5 :: f6 :: p ++ d :: q :: rest in
  length frame = PN532_FRAME_CAPACITY → length p ≤ 252 →
  check_response c cap frame w = Val (
    (if negb (f0 =? 0) || negb (f1 =? 0) || negb (f2 =? 0xFF) || negb (u8 (f3 + f4) =? 0)
     then Err ESP_ERR_INVALID_RESPONSE
     else if negb (u8 (f5 + f6 + Zsum p + d) =? 0) || negb (q =? 0)
     then Err ESP_ERR_INVALID_CRC
     else if negb (f5 =? PN532_PN532_TO_HOST) || negb (f6 =? u8 (c + 1))
     then Err ESP_ERR_INVALID_RESPONSE
     else if (cap <? length p)%nat then Err ESP_ERR_INVALID_SIZE
     else Ok p)%Z, w).
Proof.
  intros f3 frame Hlen Hp. subst f3 frame. apply wp_val. unfold check_response.
  unfold PN532_FRAME_CAPACITY in *.
  assert (Hd : ∀ k, (p ++ d :: q :: rest) !! (length p + k) = (d :: q :: rest) !! k).
  { intros k. rewrite lookup_app_r by lia. f_equal. lia. }
  repeat (wp_steps; eapply wp_aget; [reflexivity|]). wp_steps.
  wp_case; wp_steps; [done|].
  repeat (wp_steps; eapply wp_aget; [reflexivity|]). wp_steps. rewrite Nat2Z.id.
  rewrite (proj2 (Nat.ltb_ge _ 2)), (proj2 (Nat.eqb_neq _ 255)) by lia. cbn [orb].
  wp_case; wp_steps; [done|].
  wp_case; reflect_bools; [lia|]. wp_steps.
  apply wp_aread; [lia|]. wp_steps.
  replace (5 + (length p + 2)) with (7 + (length p + 0)) by lia.
  eapply wp_aget; [etransitivity; [apply Hd|reflexivity]|]. wp_steps.
  replace (7 + (length p + 0) + 1) with (7 + (length p + 1)) by lia.
  eapply wp_aget; [etransitivity; [apply Hd|reflexivity]|]. wp_steps.
  replace (length p + 2) with (S (S (length p))) by lia.
  cbn [drop take]. rewrite take_app_length. unfold sum8 at 1. cbn [foldl].
  rewrite sum8_Zsum by apply u8_is_byte.
  rewrite !u8_add_l. replace (0 + f5)%Z with f5 by lia.
  rewrite <- (Z.add_assoc (u8 _)), u8_add_l, (Z.add_assoc (f5 + f6)).
  wp_case; wp_steps; [done|].
  do 2 (eapply wp_aget; [reflexivity|]; wp_steps).
  wp_case; wp_steps; [done|]. replace (S (S (length p)) - 2) with (length p) by lia.
  wp_case; wp_steps; [done|]. apply wp_aread; [simpl in *; lia|]. wp_steps.
  change (drop 7 (f0 :: _)) with (p ++ d :: q :: rest). by rewrite take_app_length.
Qed.

(** A length byte outside [2, 254] is refused. *)
Lemma check_response_bad_length c cap f0 f1 f2 f3 f4 tl w :
  (Z.to_nat f3 < 2 ∨ Z.to_nat f3 = 255) →
  check_response c cap (f0 :: f1 :: f2 :: f3 :: f4 :: tl) w
    = Val (Err ESP_ERR_INVALID_RESPONSE, w).
Proof.
  intros Hn. apply wp_val. unfold check_response.
  repeat (wp_steps; eapply wp_aget; [reflexivity|]). wp_steps.
  wp_case; wp_steps; [done|].
  repeat (wp_steps; eapply wp_aget; [reflexivity|]). wp_steps.
  replace (_ || _) with true; [done|]. symmetry. apply orb_true_iff. left.
  apply orb_true_iff. destruct Hn; [left; by apply Nat.ltb_lt|right; by apply Nat.eqb_eq].
Qed.

(** A buffer with an acceptable length byte, cut where that byte says. *)
Lemma frame_cut f3 (tl : list Z) :
  is_byte f3 → 2 ≤ Z.to_nat f3 → length tl = 273 →
  ∃ p d q rest, tl = p ++ d :: q :: rest ∧ f3 = Z.of_nat (length p + 2) ∧
    length p ≤ 253.
Proof.
  intros Hb Hn Hlen. unfold is_byte in Hb.
  pose proof (take_drop (Z.to_nat f3 - 2) tl) as Htl.
  assert (Hp : length (take (Z.to_nat f3 - 2) tl) = Z.to_nat f3 - 2) by solve_len.
  assert (Hr : 2 ≤ length (drop (Z.to_nat f3 - 2) tl)) by solve_len.
  revert Htl Hp Hr. generalize (take (Z.to_nat f3 - 2) tl) as p.
  generalize (drop (Z.to_nat f3 - 2) tl) as r. intros [|d [|q rest]] p <- Hp Hr;
    [simpl in *; lia..|].
  exists p, d, q, rest. split_and!; [done|lia|lia].
Qed.

Lemma check_response_exact c cap frame w :
  length frame = PN532_FRAME_CAPACITY → is_bytes frame → is_byte c →
  ∀ p, check_response c cap frame w = Val (Ok p, w) ↔
    length p ≤ cap ∧ length p ≤ 252 ∧
    ∃ rest, frame = information_frame PN532_PN532_TO_HOST (u8 (c + 1)) p ++ rest.
Proof.
  intros Hlen Hb Hc p. split.
  - intros Hrun. pose proof Hlen as Hlen'. unfold PN532_FRAME_CAPACITY in Hlen.
    destruct frame as [|f0 [|f1 [|f2 [|f3 [|f4 [|f5 [|f6 tl]]]]]]]; try done.
    injection Hlen as Hlen.
    repeat match goal with Hf : is_bytes (_ :: _) |- _ => apply Forall_cons in Hf as [? Hf] end.
    destruct (decide (Z.to_nat f3 < 2 ∨ Z.to_nat f3 = 255)) as [Hn|Hn];
      [by rewrite check_response_bad_length in Hrun|].
    destruct (frame_cut f3 tl) as (p' & d & q & rest & -> & -> & Hp');
      [done|lia|done|].
    rewrite check_response_run in Hrun by (done || lia).
    apply Forall_app in Hb as [Hbp [Hd [Hq _]%Forall_cons]%Forall_cons].
    repeat match type of Hrun with context [if ?b then _ else _] =>
      destruct b eqn:?; [done|] end.
    injection Hrun as ->. reflect_bools. split_and!; [done|lia|].
    exists rest. unfold information_frame. subst f0 f1 f2 q f5 f6.
    assert (Hn8 : u8 (Z.of_nat (length p + 2)) = Z.of_nat (length p + 2))
      by (apply u8_id; unfold is_byte; lia).
    rewrite Hn8. cbn [app]. do 4 f_equal.
    + f_equal; [by apply u8_complement|]. do 2 f_equal. rewrite <- app_assoc. f_equal. cbn [app].
      f_equal. by apply u8_complement.
  - intros (Hcap & Hp & rest & ->). unfold information_frame in *.
    assert (Hn8 : u8 (Z.of_nat (length p + 2)) = Z.of_nat (length p + 2))
      by (apply u8_id; unfold is_byte; lia).
    rewrite Hn8 in *. cbn [app] in *. rewrite <- app_assoc in *. cbn [app] in *.
    rewrite check_response_run by done. rewrite !u8_cancel, !Z.eqb_refl.
    cbn [Z.eqb negb orb]. by rewrite (proj2 (Nat.ltb_ge _ _)) by lia.
Qed.
End frames.

Section exchange.
Context {W : Type} `{PlatformLaws W inv clock}.

Lemma read_data_ok n w d w' :
  inv w →
  read_data n w = Val (Ok d, w') ↔
    n ≤ PN532_FRAME_CAPACITY ∧ ∃ status,
      i2c_master_receive (n + 1) PN532_I2C_TRANSFER_TIMEOUT_MS w = (Ok (status :: d), w') ∧
      Z.land status PN532_I2C_READY ≠ 0%Z.
Proof.
  intros Hinv. unfold read_data. destruct (PN532_FRAME_CAPACITY <? n)%nat eqn:Hn;
    reflect_bools; [split; [done|lia]|].
  pose proof (receive_law (n + 1) PN532_I2C_TRANSFER_TIMEOUT_MS w Hinv) as (_ & _ & Hl).
  unfold tbind, bind, prim.
  destruct (i2c_master_receive (n + 1) PN532_I2C_TRANSFER_TIMEOUT_MS w) as [[rx|e] w1];
    cbn [fst snd] in *; [|split; [done|intros (_ & ? & ? & _); done]].
  destruct (Hl rx eq_refl) as [Hlen _]. destruct rx as [|status rx]; [simpl in *; lia|].
  simpl in Hlen. cbn. destruct (Z.land status PN532_I2C_READY =? 0)%Z eqn:Hs; reflect_bools.
  - split; [done|]. intros (_ & ? & [= <- ?] & ?). done.
  - unfold aread. simpl. rewrite (proj2 (Nat.leb_le _ _)) by lia. cbn.
    rewrite drop_0, take_ge by lia. split.
    + intros [= <- <-]. eauto.
    + intros (_ & ? & [= <- <- <-] & _). done.
Qed.

Lemma read_ack_ok w w' :
  inv w →
  read_ack w = Val (Ok tt, w') ↔
    ∃ status, Z.land status PN532_I2C_READY ≠ 0%Z ∧
      i2c_master_receive 7 PN532_I2C_TRANSFER_TIMEOUT_MS w =
        (Ok (status :: expected_ack), w').
Proof.
  intros Hinv. unfold read_ack. rewrite tbind_ok_iff. split.
  - intros (d & w1 & Hd & [= Hok <-]). apply read_data_ok in Hd as (_ & status & Hr & ?); [|done].
    case_bool_decide; [subst d|done]. eauto.
  - intros (status & Hs & Hr). exists expected_ack, w'. split; [|done].
    apply read_data_ok; [done|]. split; [unfold PN532_FRAME_CAPACITY; simpl; lia|]. eauto.
Qed.

Lemma transmit_inv l t w r w' : inv w → i2c_master_transmit l t w = (r, w') → inv w'.
Proof. intros Hi Hr. pose proof (transmit_law l t w Hi) as Hl. by rewrite Hr in Hl. Qed.

Lemma wait_ready_inv w r w' :
  inv w → wait_ready PN532_COMMAND_TIMEOUT_MS w = Val (r, w') → inv w'.
Proof.
  intros Hi Hr. pose proof (wait_ready_wp PN532_COMMAND_TIMEOUT_MS w Hi ltac:(done)) as Hwp.
  unfold wp in Hwp. rewrite Hr in Hwp. tauto.
Qed.

Lemma receive_inv n t w l w' :
  inv w → i2c_master_receive n t w = (Ok l, w') → inv w' ∧ length l = n ∧ is_bytes l.
Proof.
  intros Hi Hr. pose proof (receive_law n t w Hi) as Hl. rewrite Hr in Hl.
  destruct Hl as (? & _ & Hl). by destruct (Hl l eq_refl).
Qed.

Lemma read_response_ok c cap w p w' :
  inv w → is_byte c →
  tbind (read_data PN532_FRAME_CAPACITY) (check_response c cap) w = Val (Ok p, w') ↔
    length p ≤ cap ∧ length p ≤ 252 ∧ ∃ status rest,
      i2c_master_receive 281 PN532_I2C_TRANSFER_TIMEOUT_MS w =
        (Ok (status :: information_frame PN532_PN532_TO_HOST (u8 (c + 1)) p ++ rest), w') ∧
      Z.land status PN532_I2C_READY ≠ 0%Z.
Proof.
  intros Hi Hc. rewrite tbind_ok_iff. split.
  - intros (frame & w1 & Hrd & Hrun).
    apply read_data_ok in Hrd as (_ & status & Hrx & Hs); [|done].
    destruct (receive_inv _ _ _ _ _ Hi Hrx) as (_ & Hlen & [_ Hb]%Forall_cons).
    apply eq_add_S in Hlen.
    assert (w1 = w') as ->.
    { pose proof (check_response_wp (inv := λ w, w = w1) c cap frame w1 eq_refl Hlen Hb) as Hw.
      unfold wp in Hw. rewrite Hrun in Hw. symmetry. apply Hw. }
    apply check_response_exact in Hrun as (? & ? & rest & ->); [|done..].
    split_and!; [done..|]. eauto.
  - intros (? & ? & status & rest & Hrx & Hs).
    destruct (receive_inv _ _ _ _ _ Hi Hrx) as (_ & Hlen & [_ Hb]%Forall_cons).
    apply eq_add_S in Hlen. eexists _, w'. split; [by apply read_data_ok; eauto|].
    apply check_response_exact; [done..|]. eauto.
Qed.
End exchange.

(** What the PN532 answers to InListPassiveTarget with one target: the number of
    targets, the target number and the target data (for Type A: ATQA, SAK, the
    UID with its length; for FeliCa: the polling response with IDm, PMm and the
    system code). *)
Definition type_a_response (tg atqa sak : Z) (uid rest : list Z) : list Z :=
  [1; tg; u8 (Z.shiftr atqa 8); u8 atqa; sak; Z.of_nat (length uid)]%Z ++ uid ++ rest.

Definition felica_response (tg system_code : Z) (idm pmm : list Z) : list Z :=
  [1; tg; 20; 1]%Z ++ idm ++ pmm ++ [u8 (Z.shiftr system_code 8); u8 system_code].

(** An I2C read that delivers [data], ready bit first. *)
Definition ready (data : list Z) : result (list Z) := Ok (PN532_I2C_READY :: data).

(** The reads of one exchange answered by [payload]: ready, ACK, ready, frame. *)
Definition answer (code : Z) (payload : list Z) : list (result (list Z)) :=
  [ready []; ready expected_ack; ready [];
   ready (information_frame PN532_PN532_TO_HOST (u8 (code + 1)) payload)].

Section claims.
Context {W : Type} `{PlatformLaws W inv clock}.

(** C3: [command] is the whole PN532 exchange and nothing else: it succeeds with
    payload [p] exactly when the reference frame of the request was written, an
    ACK was read, and a ready read delivered the reference frame of the answer
    with payload [p] (of at most [cap] bytes), whatever follows it in the
    buffer. *)
Theorem command_exchange c req n cap p w w' :
  inv w → n ≤ length req → is_byte c →
  command c req n cap w = Val (Ok p, w') ↔
    n ≤ 252 ∧ length p ≤ cap ∧ length p ≤ 252 ∧ ∃ w1 w2 w3 w4 s1 s2 rest,
      i2c_master_transmit (information_frame PN532_HOST_TO_PN532 c (take n req))
        PN532_I2C_TRANSFER_TIMEOUT_MS w = (Ok tt, w1) ∧
      wait_ready PN532_COMMAND_TIMEOUT_MS w1 = Val (Ok tt, w2) ∧
      i2c_master_receive 7 PN532_I2C_TRANSFER_TIMEOUT_MS w2 =
        (Ok (s1 :: expected_ack), w3) ∧ Z.land s1 PN532_I2C_READY ≠ 0%Z ∧
      wait_ready PN532_COMMAND_TIMEOUT_MS w3 = Val (Ok tt, w4) ∧
      i2c_master_receive 281 PN532_I2C_TRANSFER_TIMEOUT_MS w4 =
        (Ok (s2 :: information_frame PN532_PN532_TO_HOST (u8 (c + 1)) p ++ rest), w') ∧
      Z.land s2 PN532_I2C_READY ≠ 0%Z.
Proof.
  intros Hinv Hn Hc. unfold command. rewrite tbind_ok_iff.
  destruct (decide (n ≤ 252)) as [Hn'|Hn'].
  2: { rewrite write_frame_too_long by lia. split; [intros (? & ? & ? & _); done|lia]. }
  rewrite write_frame_run by done.
  split.
  - intros ([] & w1 & [= Hw] & Hrun). pose proof (transmit_inv _ _ _ _ _ Hinv Hw) as Hv1.
    apply tbind_ok_iff in Hrun as ([] & w2 & Hwait & Hrun).
    pose proof (wait_ready_inv _ _ _ Hv1 Hwait) as Hv2.
    apply tbind_ok_iff in Hrun as ([] & w3 & Hack & Hrun).
    apply read_ack_ok in Hack as (s1 & Hs1 & Hack); [|done].
    destruct (receive_inv _ _ _ _ _ Hv2 Hack) as (Hv3 & _).
    apply tbind_ok_iff in Hrun as ([] & w4 & Hwait2 & Hrun).
    pose proof (wait_ready_inv _ _ _ Hv3 Hwait2) as Hv4.
    apply read_response_ok in Hrun as (? & ? & s2 & rest & ? & ?); [|done..].
    split_and!; [done..|]. by exists w1, w2, w3, w4, s1, s2, rest.
  - intros (_ & ? & ? & w1 & w2 & w3 & w4 & s1 & s2 & rest & Hw & Hwait & Hack & Hs1 & Hwait2 & Hrx & Hs2).
    pose proof (transmit_inv _ _ _ _ _ Hinv Hw) as Hv1.
    pose proof (wait_ready_inv _ _ _ Hv1 Hwait) as Hv2.
    destruct (receive_inv _ _ _ _ _ Hv2 Hack) as (Hv3 & _).
    pose proof (wait_ready_inv _ _ _ Hv3 Hwait2) as Hv4.
    exists tt, w1. split; [by rewrite Hw|]. apply tbind_ok_iff. exists tt, w2. split; [done|].
    apply tbind_ok_iff. exists tt, w3. split; [apply read_ack_ok; eauto|].
    apply tbind_ok_iff. exists tt, w4. split; [done|]. apply read_response_ok; eauto 10.
Qed.

(** C10: the driver keeps every promise of pn532.h's interface: on any platform
    that obeys its documented laws each operation terminates, never reads or
    writes outside its buffers (nor reads a byte the PN532 did not send), keeps
    the platform's invariant, and hands out only well-formed targets, blocks and
    responses. *)
Theorem driver_implements_nfc : @NfcLaws W pn532_nfc inv.
Proof. exact pn532_nfc_laws. Qed.

(** C27: [wait_ready] terminates for every timeout, and answers ESP_ERR_TIMEOUT
    only when the timeout has really elapsed (or when the I2C driver itself
    reported that code). *)
Theorem wait_ready_bounded T w :
  inv w → (0 ≤ T)%Z →
  ∃ r w', wait_ready T w = Val (r, w') ∧ inv w' ∧
    (r = Err ESP_ERR_TIMEOUT → (clock w + T * 1000 ≤ clock w')%Z ∨
       ∃ w0 w1, i2c_master_receive 1 PN532_I2C_TRANSFER_TIMEOUT_MS w0 =
                (Err ESP_ERR_TIMEOUT, w1)).
Proof.
  intros Hinv HT. pose proof (wait_ready_wp T w Hinv HT) as Hw.
  apply wp_run in Hw as (r & w' & ? & ? & ? & ?). eauto 10.
Qed.
End claims.

Section wire.
Context {W : Type} `{Platform W}.

(** [write_frame] transmits the reference frame of the command and the first
    [n] payload bytes, or refuses a payload over 252 bytes without touching the
    bus. *)
Theorem write_frame_correct c l n w :
  n ≤ length l →
  write_frame c l n w =
    if (n <=? 252)%nat
    then Val (i2c_master_transmit (information_frame PN532_HOST_TO_PN532 c (take n l))
                PN532_I2C_TRANSFER_TIMEOUT_MS w)
    else Val (Err ESP_ERR_INVALID_SIZE, w).
Proof.
  intros Hn. destruct (n <=? 252)%nat eqn:Hle; reflect_bools;
    [by apply write_frame_run|by apply write_frame_too_long].
Qed.

Lemma target_found_cons n l : target_found (W := W) (n :: l) = ret (0 <? n)%Z.
Proof. done. Qed.

(** C32: a Type A target reported by the PN532 is decoded back to its target
    number, ATQA, SAK and UID; the UID array keeps its old bytes beyond the
    UID. *)
Theorem poll_type_a_decodes t tg atqa sak uid rest w w' :
  length (ta_uid t) = 10 → length uid ≤ 10 → (0 ≤ atqa < 65536)%Z →
  command PN532_COMMAND_IN_LIST_PASSIVE_TARGET [0x01; 0x00]%Z 2 64 w =
    Val (Ok (type_a_response tg atqa sak uid rest), w') →
  pn532_poll_type_a t w =
    Val (Ok (Some (TypeATarget tg (uid ++ drop (length uid) (ta_uid t)) (length uid) sak atqa)), w').
Proof.
  intros Hten Huid Hatqa Hcmd. unfold pn532_poll_type_a. cbn [length].
  rewrite (tbind_ok _ _ _ _ _ Hcmd). apply wp_val. unfold type_a_response. clear Hcmd.
  cbn [app]. wp_steps. rewrite target_found_cons. apply wp_ret. cbn [negb Z.ltb Z.compare].
  wp_case; reflect_bools; [autorewrite with fw_len in *; lia|]. wp_steps.
  eapply wp_aget; [reflexivity|]. wp_steps. rewrite Nat2Z.id. clear Heqb.
  wp_case; wp_steps; [apply orb_true_iff in Heqb as [?|?]; reflect_bools;
    autorewrite with fw_len in *; lia|].
  do 4 (eapply wp_aget; [reflexivity|]; wp_steps).
  apply wp_aread; [solve_len|]. wp_steps.
  change (drop 6 _) with (uid ++ rest). rewrite take_app_length.
  apply wp_awrite; [lia|]. wp_steps. by rewrite u16_join.
Qed.

(** A FeliCa polling response is decoded back to its target number, IDm and
    PMm, the request carrying the system code big-endian. *)
Theorem poll_felica_decodes sc tg idm pmm rest w w' :
  length idm = 8 → length pmm = 8 →
  command PN532_COMMAND_IN_LIST_PASSIVE_TARGET
    [0x01; 0x01; 0x00; u8 (Z.shiftr sc 8); u8 sc; 0x01; 0x00]%Z 7 64 w =
    Val (Ok (felica_response tg sc idm pmm ++ rest), w') →
  pn532_poll_felica sc w = Val (Ok (Some (FelicaTarget tg idm pmm)), w').
Proof.
  intros Hidm Hpmm Hcmd. unfold pn532_poll_felica. cbn [length].
  rewrite (tbind_ok _ _ _ _ _ Hcmd). apply wp_val. clear Hcmd.
  explode_lists. unfold felica_response. cbn [app]. reflexivity.
Qed.
End wire.

(** ** Witnesses *)

(** A fresh platform whose PN532 will answer [payload] to command [code]. *)
Definition answering (code : Z) (payload : list Z) : sim := sim_boot (answer code payload).

Lemma command_exchange_witness :
  ∃ w', command 0x32 [0x01; 0x01]%Z 2 8 (answering 0x32 []) = Val (Ok [], w') ∧
    ∃ w1, i2c_master_transmit [0x00; 0x00; 0xFF; 0x04; 0xFC; 0xD4; 0x32; 0x01; 0x01; 0xF8; 0x00]%Z
            PN532_I2C_TRANSFER_TIMEOUT_MS (answering 0x32 []) = (Ok tt, w1).
Proof.
  eexists. split; [vm_compute; reflexivity|].
  edestruct (command_exchange (W := sim) 0x32 [0x01; 0x01]%Z 2 8 [] (answering 0x32 []))
    as [(_ & _ & _ & w1 & _ & _ & _ & _ & _ & _ & Hw & _) _];
    [apply sim_boot_inv|simpl; lia|split; lia|vm_compute; reflexivity|].
  exists w1. exact Hw.
Defined.

Lemma driver_implements_nfc_witness : @NfcLaws sim pn532_nfc sim_inv.
Proof. exact (driver_implements_nfc (clock := sim_clock)). Defined.

(** A PN532 that never becomes ready: the timeout of 600 ms is real. *)
Lemma wait_ready_bounded_witness :
  ∃ r w', wait_ready 600 (sim_boot []) = Val (r, w') ∧ sim_inv w'.
Proof.
  destruct (wait_ready_bounded (inv := sim_inv) (clock := sim_clock) 600 (sim_boot []))
    as (r & w' & Hr & Hi & _); [apply sim_boot_inv|lia|].
  exists r, w'. split; [exact Hr|exact Hi].
Defined.

Lemma write_frame_correct_witness :
  write_frame 0x4A [0x01; 0x00]%Z 2 (sim_boot []) =
    Val (i2c_master_transmit [0x00; 0x00; 0xFF; 0x04; 0xFC; 0xD4; 0x4A; 0x01; 0x00; 0xE1; 0x00]%Z
           PN532_I2C_TRANSFER_TIMEOUT_MS (sim_boot [])).
Proof. rewrite write_frame_correct by (simpl; lia). reflexivity. Defined.

Definition sample_target : pn532_type_a_target_t :=
  TypeATarget 0 [9; 9; 9; 9; 9; 9; 9; 9; 9; 9]%Z 0 0 0.

Lemma poll_type_a_decodes_witness :
  ∃ w', pn532_poll_type_a sample_target
          (answering 0x4A (type_a_response 1 0x0004 0x08 [0xDE; 0xAD; 0xBE; 0xEF]%Z [])) =
        Val (Ok (Some (TypeATarget 1 [0xDE; 0xAD; 0xBE; 0xEF; 9; 9; 9; 9; 9; 9]%Z 4 0x08 0x0004)), w').
Proof.
  eexists. eapply (poll_type_a_decodes sample_target 1 0x0004 0x08 [0xDE; 0xAD; 0xBE; 0xEF]%Z []);
    [reflexivity|simpl; lia|lia|vm_compute; reflexivity].
Defined.

Lemma poll_felica_decodes_witness :
  ∃ w', pn532_poll_felica 0x0003
          (answering 0x4A (felica_response 1 0x0003 [1; 2; 3; 4; 5; 6; 7; 8]%Z
                             [11; 12; 13; 14; 15; 16; 17; 18]%Z ++ [])) =
        Val (Ok (Some (FelicaTarget 1 [1; 2; 3; 4; 5; 6; 7; 8]%Z
                         [11; 12; 13; 14; 15; 16; 17; 18]%Z)), w').
Proof.
  eexists. eapply (poll_felica_decodes _ 1 [1; 2; 3; 4; 5; 6; 7; 8]%Z
    [11; 12; 13; 14; 15; 16; 17; 18]%Z []);
    [reflexivity|reflexivity|vm_compute; reflexivity].
Defined.
