(* ===== verification/Reader.v ===== *)
(** * reader.c: card semantics over the PN532 driver

    The reader's state, its observation [reader_read_card] with the FeliCa
    system-code policy, and the MIFARE and FeliCa operations the SEGA protocol
    uses, over the [Nfc] interface. *)
From S2P Require Import Prelude Platform Sim Pn532Iface Pn532.

(** ** reader.h *)

Inductive reader_card_type_t : Type :=
  | READER_CARD_NONE
  | READER_CARD_MIFARE
  | READER_CARD_FELICA.

(** The enumerators' values. *)
Definition card_type_code (t : reader_card_type_t) : Z :=
  match t with
  | READER_CARD_NONE => 0
  | READER_CARD_MIFARE => 1
  | READER_CARD_FELICA => 2
  end.

Record reader_card_t : Type := Card {
  card_type : reader_card_type_t;
  card_mifare_uid : list Z;
  card_luid : list Z;
  card_blocks : list Z;
  card_idm : list Z;
  card_pmm : list Z;
  card_has_blocks : bool;
}.

#[export] Instance reader_card_type_eq_dec : EqDecision reader_card_type_t.
Proof. solve_decision. Defined.

#[export] Instance reader_card_eq_dec : EqDecision reader_card_t.
Proof. solve_decision. Defined.

Definition READER_KEY_AIME : Z := 0.
Definition READER_KEY_BANA : Z := 1.

(** [memset(card, 0, sizeof( *card))] *)
Definition zero_card : reader_card_t :=
  Card READER_CARD_NONE (replicate 4 0%Z) (replicate 10 0%Z) (replicate 32 0%Z)
    (replicate 8 0%Z) (replicate 8 0%Z) false.

Definition set_card_luid (luid : list Z) (c : reader_card_t) : reader_card_t :=
  Card (card_type c) (card_mifare_uid c) luid (card_blocks c) (card_idm c) (card_pmm c)
    (card_has_blocks c).

Definition set_card_blocks (blocks : list Z) (has : bool) (c : reader_card_t) : reader_card_t :=
  Card (card_type c) (card_mifare_uid c) (card_luid c) blocks (card_idm c) (card_pmm c) has.

(** ** The static variables of reader.c *)

Definition default_aime_key : list Z := [0x57; 0x43; 0x43; 0x46; 0x76; 0x32]%Z.
Definition default_bana_key : list Z := [0x60; 0x90; 0xD0; 0x06; 0x32; 0xF5]%Z.
Definition FELICA_SYSTEM_CODE_TRANSIT : Z := 0x0003.
Definition FELICA_SYSTEM_CODE_WILDCARD : Z := 0xFFFF.

Record reader_t : Type := Reader {
  mifare_keys : list (list Z);
  active_key_type : Z;
  active_mifare : pn532_type_a_target_t;
  active_felica : pn532_felica_target_t;
  felica_system_code : Z;
  radio_enabled : bool;
}.

(** Their values at program start. *)
Definition reader_boot : reader_t :=
  Reader [replicate 6 0%Z; replicate 6 0%Z] 0
    (TypeATarget 0 (replicate 10 0%Z) 0 0 0)
    (FelicaTarget 0 (replicate 8 0%Z) (replicate 8 0%Z))
    FELICA_SYSTEM_CODE_TRANSIT true.

Definition set_mifare_keys (k : list (list Z)) (r : reader_t) : reader_t :=
  Reader k (active_key_type r) (active_mifare r) (active_felica r)
    (felica_system_code r) (radio_enabled r).
Definition set_active_key_type (k : Z) (r : reader_t) : reader_t :=
  Reader (mifare_keys r) k (active_mifare r) (active_felica r)
    (felica_system_code r) (radio_enabled r).
Definition set_active_mifare (t : pn532_type_a_target_t) (r : reader_t) : reader_t :=
  Reader (mifare_keys r) (active_key_type r) t (active_felica r)
    (felica_system_code r) (radio_enabled r).
Definition set_active_felica (t : pn532_felica_target_t) (r : reader_t) : reader_t :=
  Reader (mifare_keys r) (active_key_type r) (active_mifare r) t
    (felica_system_code r) (radio_enabled r).
Definition set_felica_system_code (c : Z) (r : reader_t) : reader_t :=
  Reader (mifare_keys r) (active_key_type r) (active_mifare r) (active_felica r)
    c (radio_enabled r).
Definition set_radio_enabled (b : bool) (r : reader_t) : reader_t :=
  Reader (mifare_keys r) (active_key_type r) (active_mifare r) (active_felica r)
    (felica_system_code r) b.

(** The loop of [valid_luid]: [None] is its early [return false]. *)
Fixpoint luid_scan (luid : list Z) (nonzero : bool) : option bool :=
  match luid with
  | [] => Some nonzero
  | b :: luid =>
      if ((9 <? Z.shiftr b 4) || (9 <? Z.land b 0x0F))%Z then None
      else luid_scan luid (nonzero || negb (b =? 0)%Z)
  end.

Definition valid_luid (luid : list Z) : bool :=
  match luid_scan luid false with
  | None => false
  | Some nonzero => nonzero && negb (Z.shiftr (hd 0%Z luid) 4 =? 3)%Z
  end.

(** The system code of the next scan after one that found no FeliCa target. *)
Definition other_system_code (code : Z) : Z :=
  if (code =? FELICA_SYSTEM_CODE_TRANSIT)%Z
  then FELICA_SYSTEM_CODE_WILDCARD else FELICA_SYSTEM_CODE_TRANSIT.

Section reader.
Context {W : Type} `{Nfc W}.

Definition get_reader : M (reader_t * W) reader_t := λ s, Val (s.1, s).

Definition update_reader (f : reader_t → reader_t) : M (reader_t * W) unit :=
  modify (λ s, (f s.1, s.2)).

(** [mifare_keys[i]] *)
Definition key_at (keys : list (list Z)) (i : Z) : M (reader_t * W) (list Z) :=
  match keys !! Z.to_nat i with Some k => ret k | None => ub end.

(** Returns [*card] with the result, because an error leaves what was already
    written in it. *)
Definition read_mifare_with_key (target : pn532_type_a_target_t)
    (auth_command auth_block : Z) (key : list Z) (card : reader_card_t)
    : M W (reader_card_t * result unit) :=
  let* r := nfc_mifare_authenticate (ta_target target) auth_command auth_block key
              (ta_uid target) in
  match r with
  | Err e => ret (card, Err e)
  | Ok _ =>
      let* r := nfc_mifare_read_block (ta_target target) 1 in
      match r with
      | Err e => ret (card, Err e)
      | Ok data =>
          let* blocks := awrite (card_blocks card) 0 data in
          let card := set_card_blocks blocks (card_has_blocks card) card in
          let* r := nfc_mifare_read_block (ta_target target) 2 in
          match r with
          | Err e => ret (card, Err e)
          | Ok data =>
              let* blocks := awrite (card_blocks card) 16 data in
              ret (set_card_blocks blocks true card, Ok tt)
          end
      end
  end.

Definition reader_init : M (reader_t * W) (result unit) :=
  do* update_reader (λ r, set_mifare_keys
        (<[Z.to_nat READER_KEY_AIME:=default_aime_key]> (mifare_keys r)) r) in
  do* update_reader (λ r, set_mifare_keys
        (<[Z.to_nat READER_KEY_BANA:=default_bana_key]> (mifare_keys r)) r) in
  lift nfc_init.

(** [pn532_poll_type_a(&active_mifare, &found)]: [Ok found]. *)
Definition poll_active_mifare : M (reader_t * W) (result bool) :=
  let* r := get_reader in
  try* polled := lift (nfc_poll_type_a (active_mifare r)) in
  match polled with
  | Some t => do* update_reader (set_active_mifare t) in ret (Ok true)
  | None => ret (Ok false)
  end.

(** The tail of [reader_read_card]: a four-byte Type A UID was found. *)
Definition read_mifare_card : M (reader_t * W) reader_card_t :=
  let* r := get_reader in
  let* uid := aread (ta_uid (active_mifare r)) 0 4 in
  let card := Card READER_CARD_MIFARE uid (card_luid zero_card) (card_blocks zero_card)
                (card_idm zero_card) (card_pmm zero_card) false in
  let* aime_key := key_at (mifare_keys r) READER_KEY_AIME in
  let* read := lift (read_mifare_with_key (active_mifare r) 0x61 2 aime_key card) in
  if is_ok read.2 then
    let* luid := aread (card_blocks read.1) (16 + 6) 10 in
    let card := set_card_luid luid read.1 in
    ret (if valid_luid (card_luid card) then card
         else set_card_luid (replicate 10 0%Z) card)
  else
    let card := set_card_blocks (replicate 32 0%Z) false read.1 in
    let* bana_key := key_at (mifare_keys r) READER_KEY_BANA in
    let* read := lift (read_mifare_with_key (active_mifare r) 0x60 1 bana_key card) in
    ret read.1.

Definition reader_read_card : M (reader_t * W) (result reader_card_t) :=
  let* r := get_reader in
  if negb (radio_enabled r) then ret (Ok zero_card) else
  let* polled := lift (nfc_poll_felica (felica_system_code r)) in
  match polled with
  | Ok (Some t) =>
      do* update_reader (set_active_felica t) in
      let* idm := aread (fe_idm t) 0 8 in
      let* pmm := aread (fe_pmm t) 0 8 in
      ret (Ok (Card READER_CARD_FELICA (card_mifare_uid zero_card) (card_luid zero_card)
                 (card_blocks zero_card) idm pmm false))
  | _ =>
      do* (if is_ok polled
           then update_reader (set_felica_system_code (other_system_code (felica_system_code r)))
           else ret tt) in
      try* found := poll_active_mifare in
      let* r := get_reader in
      if negb found || negb (ta_uid_size (active_mifare r) =? 4)%nat then ret (Ok zero_card)
      else let* card := read_mifare_card in ret (Ok card)
  end.

Definition reader_mifare_select (uid : list Z) : M (reader_t * W) (result unit) :=
  let* r := get_reader in
  if negb (ta_uid_size (active_mifare r) =? 4)%nat then ret (Err ESP_ERR_NOT_FOUND) else
  let* active := aread (ta_uid (active_mifare r)) 0 4 in
  let* uid := aread uid 0 4 in
  ret (if bool_decide (active = uid) then Ok tt else Err ESP_ERR_NOT_FOUND).

Definition reader_mifare_set_key (key_type : Z) (key : list Z) : M (reader_t * W) (result unit) :=
  if (READER_KEY_BANA <? key_type)%Z then ret (Err ESP_ERR_INVALID_ARG) else
  let* key := aread key 0 6 in
  let* r := get_reader in
  let* _old := key_at (mifare_keys r) key_type in
  do* update_reader (λ r, set_mifare_keys (<[Z.to_nat key_type:=key]> (mifare_keys r)) r) in
  ret (Ok tt).

Definition reader_mifare_authenticate (key_type : Z) (payload : list Z) (payload_size : nat)
    : M (reader_t * W) (result unit) :=
  if (READER_KEY_BANA <? key_type)%Z then ret (Err ESP_ERR_INVALID_ARG) else
  do* update_reader (set_active_key_type key_type) in
  ret (Ok tt).

Definition reader_mifare_read_block (uid : list Z) (block_number : Z)
    : M (reader_t * W) (result (list Z)) :=
  check* reader_mifare_select uid in
  let* r := get_reader in
  let auth_command := if (active_key_type r =? READER_KEY_AIME)%Z then 0x61%Z else 0x60%Z in
  let* key := key_at (mifare_keys r) (active_key_type r) in
  check* lift (nfc_mifare_authenticate (ta_target (active_mifare r)) auth_command block_number
                 key (ta_uid (active_mifare r))) in
  lift (nfc_mifare_read_block (ta_target (active_mifare r)) block_number).

Definition reader_felica_transact (request : list Z) (request_size response_capacity : nat)
    : M (reader_t * W) (result (list Z)) :=
  let* r := get_reader in
  lift (nfc_felica_transact (fe_target (active_felica r)) request request_size
          response_capacity).

Definition reader_radio_set (enabled : bool) : M (reader_t * W) (result unit) :=
  check* lift (nfc_set_radio enabled) in
  do* update_reader (set_radio_enabled enabled) in
  ret (Ok tt).

Definition reader_set_led {S : Type} (red green blue : Z) : M S unit := ret tt.
End reader.

(** ** Invariants *)

Definition wf_keys (keys : list (list Z)) : Prop :=
  length keys = 2 ∧ Forall (λ k, length k = 6 ∧ is_bytes k) keys.

Definition wf_reader (r : reader_t) : Prop :=
  wf_keys (mifare_keys r) ∧
  (active_key_type r = READER_KEY_AIME ∨ active_key_type r = READER_KEY_BANA) ∧
  wf_type_a (active_mifare r) ∧ wf_felica (active_felica r) ∧
  (felica_system_code r = FELICA_SYSTEM_CODE_TRANSIT ∨
   felica_system_code r = FELICA_SYSTEM_CODE_WILDCARD).

(** A LUID the reader reports: none, or twenty decimal digits. *)
Definition luid_ok (luid : list Z) : Prop :=
  luid = replicate 10 0%Z ∨ valid_luid luid = true.

(** A card the reader reports. *)
Record wf_card (c : reader_card_t) : Prop := {
  wf_card_uid : length (card_mifare_uid c) = 4 ∧ is_bytes (card_mifare_uid c);
  wf_card_luid : length (card_luid c) = 10 ∧ is_bytes (card_luid c) ∧ luid_ok (card_luid c);
  wf_card_blocks : length (card_blocks c) = 32 ∧ is_bytes (card_blocks c);
  wf_card_idm : length (card_idm c) = 8 ∧ is_bytes (card_idm c);
  wf_card_pmm : length (card_pmm c) = 8 ∧ is_bytes (card_pmm c);
  wf_card_none : card_type c = READER_CARD_NONE → c = zero_card;
  wf_card_felica : card_type c = READER_CARD_FELICA →
    c = Card READER_CARD_FELICA (card_mifare_uid zero_card) (card_luid zero_card)
          (card_blocks zero_card) (card_idm c) (card_pmm c) false;
  wf_card_mifare : card_type c = READER_CARD_MIFARE →
    card_idm c = card_idm zero_card ∧ card_pmm c = card_pmm zero_card;
  wf_card_no_blocks : card_has_blocks c = false → card_luid c = replicate 10 0%Z;
}.

(** ** Lemmas *)

Lemma reader_boot_wf : wf_reader reader_boot.
Proof.
  pose proof is_byte_0. pose proof (is_bytes_replicate 6).
  pose proof (is_bytes_replicate 8). pose proof (is_bytes_replicate 10).
  split_and!; [|by left| | |by left]; simpl.
  - split; [done|]. by repeat apply Forall_cons_2; [..|constructor].
  - split_and!; try done; simpl; lia.
  - by split_and!.
Qed.

Lemma zero_card_wf : wf_card zero_card.
Proof.
  pose proof (is_bytes_replicate 4). pose proof (is_bytes_replicate 10).
  pose proof (is_bytes_replicate 32). pose proof (is_bytes_replicate 8).
  split; simpl; try done. split_and!; [done..|by left].
Qed.
#[export] Hint Resolve reader_boot_wf zero_card_wf : fw.

Lemma wf_keys_lookup keys i :
  wf_keys keys → (i = READER_KEY_AIME ∨ i = READER_KEY_BANA) →
  ∃ k, keys !! Z.to_nat i = Some k ∧ length k = 6 ∧ is_bytes k.
Proof.
  unfold READER_KEY_AIME, READER_KEY_BANA. intros [Hlen Hk] Hi.
  destruct (lookup_lt_is_Some_2 keys (Z.to_nat i)) as [k Hl]; [lia|].
  exists k. split; [done|]. by apply (Forall_lookup_1 _ _ _ _ Hk Hl).
Qed.

Lemma wf_keys_insert keys i k :
  wf_keys keys → length k = 6 → is_bytes k → wf_keys (<[i:=k]> keys).
Proof.
  intros [Hlen Hk] ??. split; [by rewrite length_insert|]. by apply Forall_insert.
Qed.

Section reader_laws.
Context {W : Type} `{NfcLaws W inv}.

(** The state invariant of the reader over its world. *)
Definition reader_inv (s : reader_t * W) : Prop := wf_reader s.1 ∧ inv s.2.

Lemma wp_get_reader s (Q : reader_t → reader_t * W → Prop) :
  Q s.1 s → wp get_reader s Q.
Proof. done. Qed.

Lemma wp_update_reader f r w (Q : unit → reader_t * W → Prop) :
  Q tt (f r, w) → wp (update_reader f) (r, w) Q.
Proof. done. Qed.

Lemma wp_key_at keys i k s (Q : list Z → reader_t * W → Prop) :
  keys !! Z.to_nat i = Some k → Q k s → wp (key_at keys i) s Q.
Proof. unfold key_at. by intros ->. Qed.

(** What [read_mifare_with_key] leaves of the card. *)
Lemma read_mifare_with_key_wp t cmd blk key card w :
  inv w → wf_type_a t → is_byte cmd → is_byte blk → length key = 6 → is_bytes key →
  length (card_blocks card) = 32 → is_bytes (card_blocks card) →
  wp (read_mifare_with_key t cmd blk key card) w (λ cr w', inv w' ∧
    ∃ blocks, length blocks = 32 ∧ is_bytes blocks ∧
      (cr.2 = Ok tt ∧ cr.1 = set_card_blocks blocks true card ∨
       is_ok cr.2 = false ∧ cr.1 = set_card_blocks blocks (card_has_blocks card) card)).
Proof.
  intros Hinv (Ht & Hul & Hub & _) Hcmd Hblk Hk Hkb Hlen Hb.
  assert (Hsame : ∀ c : reader_card_t, c = set_card_blocks (card_blocks c) (card_has_blocks c) c)
    by (by intros []).
  unfold read_mifare_with_key. wp_steps.
  eapply wp_mono; [apply nfc_authenticate_law; try done; lia|].
  intros [[]|e] w1 Hi1; wp_steps; [|split; [done|]; exists (card_blocks card); eauto].
  eapply wp_mono; [apply nfc_read_block_law; [done..|split; lia]|].
  intros [d1|e] w2 [Hi2 Hd1]; wp_steps; [|split; [done|]; exists (card_blocks card); eauto].
  destruct (Hd1 d1 eq_refl) as [Hl1 Hb1].
  apply wp_awrite; [lia|]. wp_steps. set (b1 := take 0 _ ++ _).
  assert (Hb1l : length b1 = 32 ∧ is_bytes b1)
    by (unfold b1; split; [solve_len|auto with fw]).
  eapply wp_mono; [apply nfc_read_block_law; [done..|split; lia]|].
  intros [d2|e] w3 [Hi3 Hd2]; wp_steps; [|split; [done|]; exists b1; destruct Hb1l; eauto 10].
  destruct (Hd2 d2 eq_refl) as [Hl2 Hb2]. simpl.
  apply wp_awrite; [lia|]. wp_steps. split; [done|]. eexists. split; [|split; [|left; done]].
  - destruct Hb1l. solve_len.
  - destruct Hb1l. auto with fw.
Qed.

Lemma wf_mifare_card uid luid blocks has :
  length uid = 4 → is_bytes uid → length luid = 10 → is_bytes luid → luid_ok luid →
  length blocks = 32 → is_bytes blocks → (has = false → luid = replicate 10 0%Z) →
  wf_card (Card READER_CARD_MIFARE uid luid blocks (card_idm zero_card) (card_pmm zero_card) has).
Proof. intros. split; simpl; auto; try done; split; try done; apply (is_bytes_replicate 8). Qed.

Lemma wf_felica_card t :
  wf_felica t →
  wf_card (Card READER_CARD_FELICA (card_mifare_uid zero_card) (card_luid zero_card)
             (card_blocks zero_card) (fe_idm t) (fe_pmm t) false).
Proof.
  intros (_ & ? & ? & ? & ?). destruct zero_card_wf. by split.
Qed.

(** The AIME key is tried first, then the BANA key; either way the card keeps
    the UID, and a LUID is reported only from block 2 read with the AIME key. *)
Lemma read_mifare_card_wp r w :
  wf_reader r → inv w →
  wp read_mifare_card (r, w) (λ c s, s.1 = r ∧ inv s.2 ∧ wf_card c ∧
    card_type c = READER_CARD_MIFARE ∧
    card_mifare_uid c = take 4 (ta_uid (active_mifare r)) ∧
    (card_luid c ≠ replicate 10 0%Z → card_luid c = take 10 (drop 22 (card_blocks c)))).
Proof.
  intros Hwf Hinv. pose proof Hwf as (Hkeys & _ & Hm & _).
  pose proof Hm as (_ & Hul & Hub & _).
  destruct (wf_keys_lookup _ READER_KEY_AIME Hkeys) as (ka & Hka & Hkal & Hkab); [by left|].
  destruct (wf_keys_lookup _ READER_KEY_BANA Hkeys) as (kb & Hkb & Hkbl & Hkbb); [by right|].
  assert (Hu : length (take 4 (drop 0 (ta_uid (active_mifare r)))) = 4) by solve_len.
  unfold read_mifare_card. wp_steps. apply wp_get_reader. wp_steps. cbn [fst].
  apply wp_aread; [lia|]. wp_steps. apply (wp_key_at _ _ _ _ _ Hka). wp_steps.
  eapply wp_mono; [apply read_mifare_with_key_wp; try done; try (split; lia);
    apply (is_bytes_replicate 32)|].
  intros [c1 r1] w1 (Hi1 & blocks & Hbl & Hbb & Hcase). cbn [fst snd] in *.
  destruct Hcase as [[-> ->]|[-> ->]]; cbn [is_ok fst snd]; wp_steps.
  - apply wp_aread; [simpl; lia|]. wp_steps. cbn [card_blocks set_card_blocks].
    split; [done|]. split; [done|].
    destruct (valid_luid _) eqn:Hv; (split; [|split; [done|split; [by simpl; rewrite drop_0|]]]).
    + apply wf_mifare_card; [done|by apply is_bytes_slice|simpl; solve_len|
        by apply is_bytes_slice|by right|done|done|done].
    + done.
    + apply wf_mifare_card; [done|by apply is_bytes_slice|done|
        apply (is_bytes_replicate 10)|by left|done|done|done].
    + by intros [].
  - apply (wp_key_at _ _ _ _ _ Hkb). wp_steps.
    eapply wp_mono; [apply read_mifare_with_key_wp; try done; try (split; lia);
      apply (is_bytes_replicate 32)|].
    intros [c2 r2] w2 (Hi2 & blocks2 & Hbl2 & Hbb2 & Hcase). cbn [fst snd] in *. wp_steps.
    split; [by destruct Hcase as [[_ ->]|[_ ->]]|]. split; [done|].
    destruct Hcase as [[_ ->]|[_ ->]]; (split; [|split; [done|split; [by simpl; rewrite drop_0|by intros []]]]);
      (apply wf_mifare_card; [done|by apply is_bytes_slice|done|
        apply (is_bytes_replicate 10)|by left|done|done|done]).
Qed.

(** What an observation leaves alone, and what it may report. *)
Definition observation (r : reader_t) (res : result reader_card_t) (s : reader_t * W) : Prop :=
  reader_inv s ∧
  mifare_keys s.1 = mifare_keys r ∧ active_key_type s.1 = active_key_type r ∧
  radio_enabled s.1 = radio_enabled r ∧
  ∀ c, res = Ok c → wf_card c ∧
    (radio_enabled r = false → c = zero_card) ∧
    (card_type c = READER_CARD_FELICA →
       card_idm c = fe_idm (active_felica s.1) ∧ card_pmm c = fe_pmm (active_felica s.1)) ∧
    (card_type c = READER_CARD_MIFARE →
       ta_uid_size (active_mifare s.1) = 4 ∧
       card_mifare_uid c = take 4 (ta_uid (active_mifare s.1))).

Lemma zero_card_observation r r' w' :
  reader_inv (r', w') → mifare_keys r' = mifare_keys r →
  active_key_type r' = active_key_type r → radio_enabled r' = radio_enabled r →
  observation r (Ok zero_card) (r', w').
Proof.
  intros. split_and!; try done. intros c [= <-]. split_and!; try done; apply zero_card_wf.
Qed.

Lemma error_observation r r' w' e :
  reader_inv (r', w') → mifare_keys r' = mifare_keys r →
  active_key_type r' = active_key_type r → radio_enabled r' = radio_enabled r →
  observation r (Err e) (r', w').
Proof. by intros. Qed.

(** The Type A half of an observation. *)
Lemma type_a_observation_wp r r0 w :
  reader_inv (r, w) → radio_enabled r0 = true → mifare_keys r = mifare_keys r0 →
  active_key_type r = active_key_type r0 → radio_enabled r = radio_enabled r0 →
  wp (try* found := poll_active_mifare in
      let* r := get_reader in
      if negb found || negb (ta_uid_size (active_mifare r) =? 4)%nat then ret (Ok zero_card)
      else let* card := read_mifare_card in ret (Ok card)) (r, w)
    (λ res s, observation r0 res s ∧ felica_system_code s.1 = felica_system_code r).
Proof.
  intros [Hwf Hi] Hradio Hk Ht Hr. cbn [fst snd] in *.
  pose proof Hwf as (Hkeys & Hkt & Hm & Hf & Hc).
  unfold poll_active_mifare. wp_tries. apply wp_get_reader. wp_tries.
  eapply wp_mono; [by apply nfc_poll_type_a_law|].
  intros [[t|]|e] w1 [Hi1 Hta]; wp_tries.
  - apply wp_update_reader. wp_tries. apply wp_get_reader. wp_tries.
    specialize (Hta t eq_refl).
    assert (Hwf' : wf_reader (set_active_mifare t r)) by (split_and!; done).
    wp_case; wp_tries; [split; [by apply zero_card_observation|done]|].
    cbn [negb orb] in *. reflect_bools.
    eapply wp_mono; [by apply read_mifare_card_wp|].
    intros c [r2 w2] (Hr2 & Hi2 & Hwc & Htype & Huid & _). cbn [fst snd] in *. subst r2. wp_tries.
    split; [|done]. split_and!; try done. intros c' [= <-]. split_and!; try done; congruence.
  - apply wp_get_reader. wp_tries. split; [by apply zero_card_observation|done].
  - split; [by apply error_observation|done].
Qed.

Lemma reader_read_card_wp r w :
  wf_reader r → inv w →
  wp reader_read_card (r, w) (λ res s, observation r res s).
Proof.
  intros Hwf Hi. pose proof Hwf as (Hkeys & Hkt & Hm & Hf & Hc).
  unfold reader_read_card. wp_steps. apply wp_get_reader. wp_steps. cbn [fst].
  wp_case; wp_steps; [by apply zero_card_observation|]. reflect_bools.
  eapply wp_mono; [by apply nfc_poll_felica_law|].
  intros [[t|]|e] w1 [Hi1 Hfe]; wp_steps; cbn [is_ok].
  - specialize (Hfe t eq_refl). pose proof Hfe as (_ & Hil & Hib & Hpl & Hpb).
    apply wp_update_reader. wp_steps. apply wp_aread; [lia|]. wp_steps.
    apply wp_aread; [lia|]. wp_steps. rewrite !drop_0, !take_ge by lia.
    split_and!; try done.
    intros c [= <-]. split_and!; try done; [by apply wf_felica_card|simpl; congruence].
  - apply wp_update_reader. wp_steps.
    eapply wp_mono; [apply (type_a_observation_wp (set_felica_system_code _ r) r); try done|].
    + split; [split_and!; try done|done]. unfold other_system_code. simpl.
      destruct (_ =? _)%Z; auto.
    + by intros res s [? _].
  - apply wp_ret. eapply wp_mono; [by apply (type_a_observation_wp r r)|]. by intros res s [? _].
Qed.

(** *** The other operations *)

Lemma reader_init_wp r w :
  wf_reader r → inv w → wp reader_init (r, w) (λ _ s, reader_inv s).
Proof.
  intros Hwf Hi. pose proof Hwf as (Hkeys & ? & ? & ? & ?).
  unfold reader_init. wp_steps. apply wp_update_reader. wp_steps.
  apply wp_update_reader. wp_steps. eapply wp_mono; [by apply nfc_init_law|]. intros res w' Hi'.
  split; [|done]. split_and!; try done. simpl. repeat apply wf_keys_insert; try done.
  - unfold default_aime_key. solve_bytes.
  - unfold default_bana_key. solve_bytes.
Qed.

Lemma reader_mifare_select_wp uid r w :
  wf_reader r → inv w → 4 ≤ length uid →
  wp (reader_mifare_select uid) (r, w) (λ res s, s = (r, w)).
Proof.
  intros (_ & _ & (_ & Hul & _) & _) Hi Hlen. unfold reader_mifare_select.
  wp_steps. apply wp_get_reader. wp_steps. cbn [fst]. wp_case; wp_steps; [done|].
  apply wp_aread; [lia|]. wp_steps. apply wp_aread; [lia|]. by wp_steps.
Qed.

Lemma reader_mifare_set_key_wp kt key r w :
  wf_reader r → inv w → is_byte kt → 6 ≤ length key → is_bytes key →
  wp (reader_mifare_set_key kt key) (r, w) (λ _ s, reader_inv s).
Proof.
  intros Hwf Hi Hkt Hlen Hb. pose proof Hwf as (Hkeys & ? & ? & ? & ?).
  unfold reader_mifare_set_key. wp_case; wp_steps; [done|].
  unfold READER_KEY_BANA, is_byte in *. reflect_bools.
  apply wp_aread; [lia|]. wp_steps. apply wp_get_reader. wp_steps. cbn [fst].
  destruct (wf_keys_lookup _ kt Hkeys) as (k & Hk & _).
  { unfold READER_KEY_AIME, READER_KEY_BANA. lia. }
  apply (wp_key_at _ _ _ _ _ Hk). wp_steps. apply wp_update_reader. wp_steps.
  split; [|done]. split_and!; try done. simpl.
  apply wf_keys_insert; [done|solve_len|auto with fw].
Qed.

Lemma reader_mifare_authenticate_wp kt payload n r w :
  wf_reader r → inv w → is_byte kt →
  wp (reader_mifare_authenticate kt payload n) (r, w) (λ _ s, reader_inv s).
Proof.
  intros Hwf Hi Hkt. pose proof Hwf as (? & ? & ? & ? & ?).
  unfold reader_mifare_authenticate. wp_case; wp_steps; [done|].
  apply wp_update_reader. wp_steps. split; [|done]. split_and!; try done. simpl.
  unfold READER_KEY_AIME, READER_KEY_BANA, is_byte in *. reflect_bools. lia.
Qed.

Lemma reader_mifare_read_block_wp uid b r w :
  wf_reader r → inv w → 4 ≤ length uid → is_byte b →
  wp (reader_mifare_read_block uid b) (r, w) (λ res s, reader_inv s ∧
    ∀ d, res = Ok d → length d = 16 ∧ is_bytes d).
Proof.
  intros Hwf Hi Hlen Hb. pose proof Hwf as (Hkeys & Hkt & Hm & ? & ?).
  pose proof Hm as (Ht & Hul & Hub & _).
  unfold reader_mifare_read_block. wp_tries.
  eapply wp_mono; [by apply reader_mifare_select_wp|]. intros [[]|e] s ->; [|done].
  wp_tries. apply wp_get_reader. wp_tries. cbn [fst].
  destruct (wf_keys_lookup _ _ Hkeys Hkt) as (k & Hk & Hkl & Hkb).
  apply (wp_key_at _ _ _ _ _ Hk). wp_tries.
  eapply wp_mono.
  { apply nfc_authenticate_law; try done; [destruct (_ =? _)%Z; split; lia|lia|lia]. }
  intros [[]|e] w1 Hi1; [|done]. wp_tries.
  eapply wp_mono; [by apply nfc_read_block_law|]. by intros [d|e] w2 [? ?].
Qed.

Lemma reader_felica_transact_wp q n cap r w :
  wf_reader r → inv w → n ≤ length q → is_bytes q →
  wp (reader_felica_transact q n cap) (r, w) (λ res s, reader_inv s ∧
    ∀ d, res = Ok d → length d ≤ cap ∧ is_bytes d).
Proof.
  intros Hwf Hi Hn Hq. pose proof Hwf as (_ & _ & _ & (? & _) & _).
  unfold reader_felica_transact. wp_steps. apply wp_get_reader. wp_steps.
  eapply wp_mono; [by apply nfc_transact_law|]. by intros [d|e] w' [? ?].
Qed.

Lemma reader_radio_set_wp b r w :
  wf_reader r → inv w → wp (reader_radio_set b) (r, w) (λ _ s, reader_inv s).
Proof.
  intros Hwf Hi. pose proof Hwf as (? & ? & ? & ? & ?). unfold reader_radio_set. wp_tries.
  eapply wp_mono; [by apply nfc_set_radio_law|]. intros [[]|e] w1 Hi1; [|done].
  wp_tries. by apply wp_update_reader.
Qed.
End reader_laws.

(** ** Arbitrary use of the reader *)

(** The calls of reader.h, as the SEGA protocol and the main loop make them. *)
Inductive reader_call : Type :=
  | CallInit
  | CallReadCard
  | CallSelect (uid : list Z)
  | CallSetKey (key_type : Z) (key : list Z)
  | CallAuthenticate (key_type : Z) (payload : list Z) (payload_size : nat)
  | CallReadBlock (uid : list Z) (block : Z)
  | CallTransact (request : list Z) (request_size capacity : nat)
  | CallRadio (enabled : bool).

(** The callers' obligations: a pointer covers the bytes read through it. *)
Definition valid_call (c : reader_call) : Prop :=
  match c with
  | CallInit | CallReadCard | CallRadio _ => True
  | CallSelect uid => 4 ≤ length uid
  | CallSetKey kt key => is_byte kt ∧ 6 ≤ length key ∧ is_bytes key
  | CallAuthenticate kt _ _ => is_byte kt
  | CallReadBlock uid b => 4 ≤ length uid ∧ is_byte b
  | CallTransact q n _ => n ≤ length q ∧ is_bytes q
  end.

Definition run_call {W} `{Nfc W} (c : reader_call) : M (reader_t * W) unit :=
  match c with
  | CallInit => bind reader_init (λ _, ret tt)
  | CallReadCard => bind reader_read_card (λ _, ret tt)
  | CallSelect uid => bind (reader_mifare_select uid) (λ _, ret tt)
  | CallSetKey kt key => bind (reader_mifare_set_key kt key) (λ _, ret tt)
  | CallAuthenticate kt p n => bind (reader_mifare_authenticate kt p n) (λ _, ret tt)
  | CallReadBlock uid b => bind (reader_mifare_read_block uid b) (λ _, ret tt)
  | CallTransact q n cap => bind (reader_felica_transact q n cap) (λ _, ret tt)
  | CallRadio b => bind (reader_radio_set b) (λ _, ret tt)
  end.

Lemma run_call_wp {W} `{NfcLaws W inv} c (s : reader_t * W) :
  valid_call c → reader_inv (inv := inv) s →
  wp (run_call c) s (λ _ s', reader_inv (inv := inv) s').
Proof.
  destruct s as [r w]. intros Hc [Hwf Hi]. cbn [fst snd] in *.
  assert (Hdrop : ∀ {A} (m : M (reader_t * W) A),
    wp m (r, w) (λ _ s, reader_inv (inv := inv) s) →
    wp (bind m (λ _, ret tt)) (r, w) (λ _ s, reader_inv (inv := inv) s)).
  { intros A m Hm. apply wp_bind. eapply wp_mono; [exact Hm|]. done. }
  destruct c; simpl in Hc; destruct_and?; apply Hdrop.
  - by apply reader_init_wp.
  - eapply wp_mono; [by apply reader_read_card_wp|]. by intros res s (? & _).
  - eapply wp_mono; [by apply (reader_mifare_select_wp (inv := inv))|]. by intros res s ->.
  - by apply reader_mifare_set_key_wp.
  - by apply reader_mifare_authenticate_wp.
  - eapply wp_mono; [by apply reader_mifare_read_block_wp|]. by intros res s [? _].
  - eapply wp_mono; [by apply reader_felica_transact_wp|]. by intros res s [? _].
  - by apply reader_radio_set_wp.
Qed.

(** ** Properties *)

(** The nibbles of a packed-BCD byte. *)
Definition bcd_byte (b : Z) : Prop := (b / 16 ≤ 9)%Z ∧ (b mod 16 ≤ 9)%Z.

Lemma nibbles b : Z.shiftr b 4 = (b / 16)%Z ∧ Z.land b 0x0F = (b mod 16)%Z.
Proof.
  split; [by rewrite Z.shiftr_div_pow2|].
  change 0x0F%Z with (Z.ones 4). by rewrite Z.land_ones.
Qed.

Lemma luid_scan_spec l nz :
  luid_scan l nz =
    if decide (Forall bcd_byte l)
    then Some (nz || bool_decide (Exists (λ b, b ≠ 0%Z) l)) else None.
Proof.
  revert nz. induction l as [|b l IH]; intros nz; cbn [luid_scan].
  - case_decide as Hd; [|by destruct Hd; apply Forall_nil].
    rewrite bool_decide_eq_false_2 by (by intros ?%Exists_nil). by rewrite orb_false_r.
  - destruct (nibbles b) as [-> ->].
    destruct ((9 <? b / 16) || (9 <? b mod 16))%Z eqn:Hn.
    + destruct (decide (Forall bcd_byte (b :: l))) as [Hd|]; [|done]. apply Forall_cons in Hd as [[??] _].
      apply orb_true_iff in Hn as [?|?]; reflect_bools; lia.
    + reflect_bools. rewrite IH.
      destruct (decide (Forall bcd_byte l)) as [Hl|Hl];
        destruct (decide (Forall bcd_byte (b :: l))) as [Hbl|Hbl]; rewrite Forall_cons in Hbl.
      * f_equal. rewrite <- orb_assoc. f_equal. apply Bool.eq_iff_eq_true.
        rewrite orb_true_iff, negb_true_iff, Z.eqb_neq, !bool_decide_eq_true, Exists_cons. done.
      * destruct Hbl. done.
      * destruct Hl. tauto.
      * done.
Qed.

Section reader_claims.
Context {W : Type} `{NfcLaws W inv}.

(** However the SEGA host and the main loop interleave their calls, the
    reader never faults and never hangs: from program start every sequence of
    calls with valid pointers returns, and leaves well-formed state (both keys
    six bytes, a known key type, well-formed targets, a known system code). *)
Theorem reader_always_safe calls w :
  inv w → Forall valid_call calls →
  ∃ r' w', foreach calls run_call (reader_boot, w) = Val (tt, (r', w')) ∧
    wf_reader r' ∧ inv w'.
Proof.
  intros Hi Hcalls.
  assert (Hwp : wp (foreach calls run_call) (reader_boot, w)
    (λ _ s', reader_inv (inv := inv) s')).
  { apply (wp_foreach _ valid_call); [|done|by split; [apply reader_boot_wf|]].
    intros. by apply run_call_wp. }
  apply wp_run in Hwp as ([] & [r' w'] & ? & ? & ?). eauto.
Qed.

(** C7: an observation returns, changes neither keys nor radio, and reports a
    well-formed card: nothing at all, a FeliCa card carrying the IDm and PMm of
    the active target, or a MIFARE card with the active four-byte UID whose LUID
    is either all zero or a valid access code; with the radio off it reports
    nothing. *)
Theorem read_card_observes r w :
  wf_reader r → inv w →
  ∃ res r' w', reader_read_card (r, w) = Val (res, (r', w')) ∧
    observation (inv := inv) r res (r', w').
Proof.
  intros Hwf Hi. pose proof (reader_read_card_wp r w Hwf Hi) as Hwp.
  apply wp_run in Hwp as (res & [r' w'] & ? & ?). eauto.
Qed.

(** C30: the FeliCa system-code policy: a scan that finds no FeliCa target switches
    between the transit code and the wildcard, a scan that finds one (or whose
    poll fails) keeps the code. *)
Theorem system_code_policy r w polled w1 :
  wf_reader r → inv w → radio_enabled r = true →
  nfc_poll_felica (felica_system_code r) w = Val (polled, w1) →
  ∃ res s, reader_read_card (r, w) = Val (res, s) ∧
    felica_system_code s.1 =
      match polled with
      | Ok None => other_system_code (felica_system_code r)
      | _ => felica_system_code r
      end.
Proof.
  intros Hwf Hi Hradio Hpoll. pose proof Hwf as (? & ? & ? & ? & Hc).
  pose proof (nfc_poll_felica_law (felica_system_code r) w Hi) as Hlaw.
  unfold wp in Hlaw. rewrite Hpoll in Hlaw. destruct Hlaw as [Hi1 Ht].
  enough (Hwp : wp reader_read_card (r, w) (λ _ s, felica_system_code s.1 =
      match polled with
      | Ok None => other_system_code (felica_system_code r)
      | _ => felica_system_code r
      end)) by (apply wp_run in Hwp as (res & s & ? & ?); eauto).
  unfold reader_read_card. wp_steps. apply wp_get_reader. wp_steps. cbn [fst].
  rewrite Hradio. cbn [negb]. wp_steps. apply wp_run.
  exists polled, w1. split; [done|]. destruct polled as [[t|]|e]; cbn [is_ok].
  - destruct (Ht t eq_refl) as (_ & ? & _ & ? & _). wp_steps. apply wp_update_reader. wp_steps.
    apply wp_aread; [lia|]. wp_steps. apply wp_aread; [lia|]. by wp_steps.
  - wp_steps. apply wp_update_reader. wp_steps.
    eapply wp_mono; [apply (type_a_observation_wp (inv := inv) (set_felica_system_code _ r) r); try done|].
    + split; [split_and!; try done|done]. unfold other_system_code. simpl.
      destruct (_ =? _)%Z; auto.
    + by intros res s [_ ?].
  - wp_steps. eapply wp_mono; [by apply (type_a_observation_wp (inv := inv) r r)|].
    by intros res s [_ ?].
Qed.






(** With the radio switched off, observations report no card, change nothing
    and leave the bus alone. *)
Theorem radio_off_is_silent r (w : W) r' w' :
  reader_radio_set false (r, w) = Val (Ok tt, (r', w')) →
  reader_read_card (r', w') = Val (Ok zero_card, (r', w')).
Proof.
  unfold reader_radio_set. intros ([] & s1 & Hrun & Hset)%tbind_ok_iff.
  unfold lift in Hrun. cbn [fst snd] in *. destruct (nfc_set_radio false w) as [[res w2]| |]; [|done..].
  injection Hrun as -> <-. unfold bind, update_reader, modify in Hset. simpl in Hset.
  injection Hset as <- <-. done.
Qed.
End reader_claims.

(** C31: [valid_luid] accepts exactly the packed-BCD numbers (every nibble at most 9)
    that are not all zero and do not start with the digit 3. *)
Theorem valid_luid_exact luid :
  valid_luid luid = true ↔
    Forall bcd_byte luid ∧ Exists (λ b, b ≠ 0%Z) luid ∧ (hd 0 luid / 16 ≠ 3)%Z.
Proof.
  unfold valid_luid. rewrite luid_scan_spec. destruct (nibbles (hd 0%Z luid)) as [-> _].
  destruct (decide (Forall bcd_byte luid)) as [Hd|Hd]; [|split; [done|by intros [? _]]].
  cbn [orb]. rewrite andb_true_iff, bool_decide_eq_true, negb_true_iff, Z.eqb_neq. tauto.
Qed.

(** ** Witnesses *)



Lemma reader_always_safe_witness :
  ∃ r' w', foreach [CallInit; CallReadCard; CallSetKey 1 [1; 2; 3; 4; 5; 6]%Z; CallRadio false]
             run_call (reader_boot, sim_boot []) = Val (tt, (r', w')) ∧
    wf_reader r' ∧ sim_inv w'.
Proof.
  apply (reader_always_safe (inv := sim_inv)); [apply sim_boot_inv|].
  repeat apply Forall_cons_2; try apply Forall_nil_2; simpl; try done.
  split_and!; [split; lia|lia|solve_bytes].
Defined.

Lemma read_card_observes_witness :
  ∃ res r' w', reader_read_card (reader_boot, sim_boot []) = Val (res, (r', w')) ∧
    observation (inv := sim_inv) reader_boot res (r', w').
Proof.
  apply read_card_observes; [apply reader_boot_wf|apply sim_boot_inv].
Defined.

(** One scan without a FeliCa target: the next one polls the wildcard. *)
Lemma system_code_policy_witness :
  ∃ res s, reader_read_card (reader_boot, answering 0x4A [0%Z]) = Val (res, s) ∧
    felica_system_code s.1 = 0xFFFF%Z.
Proof.
  edestruct (system_code_policy (inv := sim_inv) reader_boot (answering 0x4A [0%Z]) (Ok None))
    as (res & s & Hrun & Hcode);
    [apply reader_boot_wf|apply sim_boot_inv|reflexivity|vm_compute; reflexivity|].
  exists res, s. split; [exact Hrun|exact Hcode].
Defined.


Lemma radio_off_is_silent_witness :
  ∃ r' w', reader_radio_set false (reader_boot, answering 0x32 []) = Val (Ok tt, (r', w')) ∧
    reader_read_card (r', w') = Val (Ok zero_card, (r', w')).
Proof.
  eexists _, _. split; [vm_compute; reflexivity|].
  apply (radio_off_is_silent reader_boot (answering 0x32 [])). vm_compute. reflexivity.
Defined.
