(* ===== verification/UsbDevice.v ===== *)
(** * usb_device.c: descriptors, the message queue and the senders

    The composite device's HID descriptors as data, the TinyUSB callbacks that
    feed the queue, and the functions that send on the three interfaces, over
    the [UsbPlatform] and [Platform] interfaces. *)
From stdpp Require Import strings.
From S2P Require Import Prelude Platform Sim.

Definition PRHP_REPORT_SIZE : nat := 64.

(** ** Interfaces, endpoints, identity *)

Definition INTERFACE_CDC_CONTROL : Z := 0.
Definition INTERFACE_CDC_DATA : Z := 1.
Definition INTERFACE_HID_PRHP : Z := 2.
Definition INTERFACE_HID_CARDIO : Z := 3.
Definition INTERFACE_COUNT : Z := 4.

Definition ENDPOINT_CDC_NOTIFICATION : Z := 0x81.
Definition ENDPOINT_CDC_OUT : Z := 0x02.
Definition ENDPOINT_CDC_IN : Z := 0x82.
Definition ENDPOINT_PRHP_OUT : Z := 0x03.
Definition ENDPOINT_PRHP_IN : Z := 0x83.
Definition ENDPOINT_CARDIO_IN : Z := 0x84.

(** ** Report descriptors *)

Definition prhp_report_descriptor : list Z := [
  0x06; 0x50; 0xFF;
  0x09; 0x01;
  0xA1; 0x01;
  0x15; 0x00;
  0x26; 0xFF; 0x00;
  0x75; 0x08;
  0x95; Z.of_nat PRHP_REPORT_SIZE;
  0x09; 0x01;
  0x81; 0x02;
  0x95; Z.of_nat PRHP_REPORT_SIZE;
  0x09; 0x01;
  0x91; 0x02;
  0xC0]%Z.

Definition cardio_report_descriptor : list Z := [
  0x06; 0xCA; 0xFF;
  0x09; 0x01;
  0xA1; 0x01;
  0x85; 0x01;
  0x09; 0x41;
  0x15; 0x00;
  0x26; 0xFF; 0x00;
  0x75; 0x08;
  0x95; 0x08;
  0x81; 0x02;
  0x85; 0x02;
  0x09; 0x42;
  0x15; 0x00;
  0x26; 0xFF; 0x00;
  0x75; 0x08;
  0x95; 0x08;
  0x81; 0x02;
  0xC0]%Z.

Definition tud_hid_descriptor_report_cb (instance : Z) : list Z :=
  if (instance =? 0)%Z then prhp_report_descriptor else cardio_report_descriptor.

(** A report a descriptor declares, as a HID host computes it. *)
Inductive report_kind : Type := Input | Output.

Record hid_report : Type := HidReportDecl {
  hid_kind : report_kind;
  hid_page : Z;
  hid_usage : Z;
  hid_id : Z;
  hid_bits : Z;
}.

(** The host's parser state: the global items and the last local usage. *)
Record hid_state : Type := HidState {
  st_page : Z; st_usage : Z; st_id : Z; st_size : Z; st_count : Z;
}.

(** HID 1.11, 6.2.2.2: short items (tag and type in the upper six bits of the
    prefix, the data size in the lower two) up to two data bytes; [None] on an
    item this subset does not know. *)
Fixpoint hid_parse (fuel : nat) (s : hid_state) (d : list Z) : option (list hid_report) :=
  match fuel, d with
  | _, [] => Some []
  | O, _ => None
  | S fuel, prefix :: d =>
      let size := Z.to_nat (Z.land prefix 0x03) in
      if (2 <? size)%nat || (length d <? size)%nat then None else
      let data := match take size d with [a] => a | [a; b] => (a + 256 * b)%Z | _ => 0%Z end in
      let rest := drop size d in
      let tag := Z.land prefix 0xFC in
      if (tag =? 0x04)%Z then
        hid_parse fuel (HidState data (st_usage s) (st_id s) (st_size s) (st_count s)) rest
      else if (tag =? 0x08)%Z then
        hid_parse fuel (HidState (st_page s) data (st_id s) (st_size s) (st_count s)) rest
      else if (tag =? 0x84)%Z then
        hid_parse fuel (HidState (st_page s) (st_usage s) data (st_size s) (st_count s)) rest
      else if (tag =? 0x74)%Z then
        hid_parse fuel (HidState (st_page s) (st_usage s) (st_id s) data (st_count s)) rest
      else if (tag =? 0x94)%Z then
        hid_parse fuel (HidState (st_page s) (st_usage s) (st_id s) (st_size s) data) rest
      else if (tag =? 0x80)%Z then
        cons (HidReportDecl Input (st_page s) (st_usage s) (st_id s) (st_size s * st_count s)) <$>
          hid_parse fuel s rest
      else if (tag =? 0x90)%Z then
        cons (HidReportDecl Output (st_page s) (st_usage s) (st_id s) (st_size s * st_count s)) <$>
          hid_parse fuel s rest
      else if (tag =? 0x14)%Z || (tag =? 0x24)%Z || (tag =? 0xA0)%Z || (tag =? 0xC0)%Z then
        hid_parse fuel s rest
      else None
  end.

Definition hid_reports (d : list Z) : option (list hid_report) :=
  hid_parse (length d) (HidState 0 0 0 0 0) d.

(** ** Device, string and configuration descriptors *)

(** The constants of TinyUSB the descriptors are written with: the lengths its
    descriptor macros expand to, and the codes of usb standard fields. *)
Record tinyusb_constants : Type := TinyUsbConstants {
  TUD_CONFIG_DESC_LEN : Z;
  TUD_CDC_DESC_LEN : Z;
  TUD_HID_INOUT_DESC_LEN : Z;
  TUD_HID_DESC_LEN : Z;
  TUSB_DESC_CONFIG_ATT_REMOTE_WAKEUP : Z;
  HID_ITF_PROTOCOL_NONE : Z;
  sizeof_tusb_desc_device_t : Z;
  TUSB_DESC_DEVICE : Z;
  TUSB_CLASS_MISC : Z;
  MISC_SUBCLASS_COMMON : Z;
  MISC_PROTOCOL_IAD : Z;
  CFG_TUD_ENDPOINT0_SIZE : Z;
}.

Record tusb_desc_device_t : Type := TusbDescDevice {
  bLength : Z; bDescriptorType : Z; bcdUSB : Z;
  bDeviceClass : Z; bDeviceSubClass : Z; bDeviceProtocol : Z; bMaxPacketSize0 : Z;
  idVendor : Z; idProduct : Z; bcdDevice : Z;
  iManufacturer : Z; iProduct : Z; iSerialNumber : Z; bNumConfigurations : Z;
}.

(** A use of a TinyUSB descriptor macro, with the macro's arguments. *)
Inductive usb_descriptor : Type :=
  | TUD_CONFIG_DESCRIPTOR (config_num itf_count str_index total_len attribute power_ma : Z)
  | TUD_CDC_DESCRIPTOR (itf_num str_index ep_notif ep_notif_size ep_out ep_in ep_size : Z)
  | TUD_HID_INOUT_DESCRIPTOR
      (itf_num str_index protocol report_desc_len ep_out ep_in ep_size ep_interval : Z)
  | TUD_HID_DESCRIPTOR (itf_num str_index protocol report_desc_len ep_in ep_size ep_interval : Z).

Definition string_descriptor : list string := [
  String (Ascii.ascii_of_nat 0x09) (String (Ascii.ascii_of_nat 0x04) EmptyString);
  "PA Reader";
  "PA Reader NFC";
  "000001";
  "SEGA Reader";
  "PA Reader PRHP";
  "PA Reader CardIO"]%string.

Section descriptors.
Context (tu : tinyusb_constants).

Definition device_descriptor : tusb_desc_device_t := {|
  bLength := sizeof_tusb_desc_device_t tu;
  bDescriptorType := TUSB_DESC_DEVICE tu;
  bcdUSB := 0x0200;
  bDeviceClass := TUSB_CLASS_MISC tu;
  bDeviceSubClass := MISC_SUBCLASS_COMMON tu;
  bDeviceProtocol := MISC_PROTOCOL_IAD tu;
  bMaxPacketSize0 := CFG_TUD_ENDPOINT0_SIZE tu;
  idVendor := 0x5041;
  idProduct := 0x5245;
  bcdDevice := 0x0100;
  iManufacturer := 0x01;
  iProduct := 0x02;
  iSerialNumber := 0x03;
  bNumConfigurations := 0x01;
|}%Z.

Definition CONFIGURATION_TOTAL_LENGTH : Z :=
  TUD_CONFIG_DESC_LEN tu + TUD_CDC_DESC_LEN tu + TUD_HID_INOUT_DESC_LEN tu + TUD_HID_DESC_LEN tu.

Definition configuration_descriptor : list usb_descriptor := [
  TUD_CONFIG_DESCRIPTOR 1 INTERFACE_COUNT 0 CONFIGURATION_TOTAL_LENGTH
    (TUSB_DESC_CONFIG_ATT_REMOTE_WAKEUP tu) 100;
  TUD_CDC_DESCRIPTOR INTERFACE_CDC_CONTROL 4 ENDPOINT_CDC_NOTIFICATION 8
    ENDPOINT_CDC_OUT ENDPOINT_CDC_IN 64;
  TUD_HID_INOUT_DESCRIPTOR INTERFACE_HID_PRHP 5 (HID_ITF_PROTOCOL_NONE tu)
    (Z.of_nat (length prhp_report_descriptor)) ENDPOINT_PRHP_OUT ENDPOINT_PRHP_IN
    (Z.of_nat PRHP_REPORT_SIZE) 1;
  TUD_HID_DESCRIPTOR INTERFACE_HID_CARDIO 6 (HID_ITF_PROTOCOL_NONE tu)
    (Z.of_nat (length cardio_report_descriptor)) ENDPOINT_CARDIO_IN 9 1]%Z.

(** What a host reads from the uses of the macros (their documented meaning):
    the bytes each expands to, the interfaces it defines (a CDC function is a
    control and a data interface), the strings it names, its endpoints. *)
Definition descriptor_length (d : usb_descriptor) : Z :=
  match d with
  | TUD_CONFIG_DESCRIPTOR _ _ _ _ _ _ => TUD_CONFIG_DESC_LEN tu
  | TUD_CDC_DESCRIPTOR _ _ _ _ _ _ _ => TUD_CDC_DESC_LEN tu
  | TUD_HID_INOUT_DESCRIPTOR _ _ _ _ _ _ _ _ => TUD_HID_INOUT_DESC_LEN tu
  | TUD_HID_DESCRIPTOR _ _ _ _ _ _ _ => TUD_HID_DESC_LEN tu
  end.
End descriptors.

Definition descriptor_interfaces (d : usb_descriptor) : list Z :=
  match d with
  | TUD_CONFIG_DESCRIPTOR _ _ _ _ _ _ => []
  | TUD_CDC_DESCRIPTOR itf _ _ _ _ _ _ => [itf; itf + 1]%Z
  | TUD_HID_INOUT_DESCRIPTOR itf _ _ _ _ _ _ _ => [itf]
  | TUD_HID_DESCRIPTOR itf _ _ _ _ _ _ => [itf]
  end.

Definition descriptor_string (d : usb_descriptor) : Z :=
  match d with
  | TUD_CONFIG_DESCRIPTOR _ _ str _ _ _ => str
  | TUD_CDC_DESCRIPTOR _ str _ _ _ _ _ => str
  | TUD_HID_INOUT_DESCRIPTOR _ str _ _ _ _ _ _ => str
  | TUD_HID_DESCRIPTOR _ str _ _ _ _ _ => str
  end.

(** The IN and the OUT endpoints. *)
Definition descriptor_endpoints (d : usb_descriptor) : list Z * list Z :=
  match d with
  | TUD_CONFIG_DESCRIPTOR _ _ _ _ _ _ => ([], [])
  | TUD_CDC_DESCRIPTOR _ _ notif _ out inp _ => ([notif; inp], [out])
  | TUD_HID_INOUT_DESCRIPTOR _ _ _ _ out inp _ _ => ([inp], [out])
  | TUD_HID_DESCRIPTOR _ _ _ _ inp _ _ => ([inp], [])
  end.

(** A HID function: the length it announces for its report descriptor, whether
    it has an OUT endpoint, and the size of its endpoints. TinyUSB numbers the
    HID functions, its [instance]s, in the order of the configuration. *)
Record hid_function : Type := HidFunction {
  hf_descriptor_length : Z; hf_has_out : bool; hf_endpoint_size : Z;
}.

Definition descriptor_hid (d : usb_descriptor) : list hid_function :=
  match d with
  | TUD_HID_INOUT_DESCRIPTOR _ _ _ len _ _ size _ => [HidFunction len true size]
  | TUD_HID_DESCRIPTOR _ _ _ len _ size _ => [HidFunction len false size]
  | _ => []
  end.

(** The bytes of a report on the wire: a report ID, when there is one, comes first. *)
Definition report_bytes (r : hid_report) : Z :=
  hid_bits r `div` 8 + (if (hid_id r =? 0)%Z then 0 else 1).

(** The HID functions, the first being number [instance], are well formed: the
    announced length is that of the report descriptor the callback returns for
    the instance, and every report the descriptor declares is whole bytes, has an
    endpoint of its direction and fits in one packet of it. *)
Fixpoint wf_hid_functions (instance : Z) (fs : list hid_function) : Prop :=
  match fs with
  | [] => True
  | f :: fs =>
      let d := tud_hid_descriptor_report_cb instance in
      hf_descriptor_length f = Z.of_nat (length d) ∧
      (∃ rs, hid_reports d = Some rs ∧
         Forall (λ r, (hid_bits r `mod` 8 = 0 ∧ report_bytes r ≤ hf_endpoint_size f ≤ 64)%Z ∧
                      (hid_kind r = Output → hf_has_out f = true)) rs) ∧
      wf_hid_functions (instance + 1) fs
  end.

(** A configuration a host can use (USB 2.0, 9.6): the header announces the
    bytes and the interfaces that follow, interfaces are numbered from 0 in
    order, endpoint addresses are distinct with bit 7 set exactly on the IN ones
    and never endpoint 0, and strings exist. *)
Definition wf_configuration (tu : tinyusb_constants) (strings : list string)
    (c : list usb_descriptor) : Prop :=
  match c with
  | TUD_CONFIG_DESCRIPTOR num itf_count _ total_len _ power_ma :: _ =>
      num = 1%Z ∧ total_len = foldr Z.add 0%Z (descriptor_length tu <$> c) ∧
      c ≫= descriptor_interfaces = Z.of_nat <$> seq 0 (Z.to_nat itf_count) ∧
      (0 ≤ power_ma ≤ 500)%Z ∧
      (let inputs := c ≫= λ d, (descriptor_endpoints d).1 in
       let outputs := c ≫= λ d, (descriptor_endpoints d).2 in
       NoDup (inputs ++ outputs) ∧
       Forall (λ e, 0x81 ≤ e ≤ 0x8F)%Z inputs ∧ Forall (λ e, 0x01 ≤ e ≤ 0x0F)%Z outputs) ∧
      Forall (λ d, 0 ≤ descriptor_string d < Z.of_nat (length strings))%Z c ∧
      wf_hid_functions 0 (c ≫= descriptor_hid)
  | _ => False
  end.

(** ** Callbacks and senders *)

Section device.
Context {W : Type} `{Platform W} `{UsbPlatform W}.

Definition tud_hid_get_report_cb (instance report_id report_type : Z) (buffer : list Z)
    (requested_length : Z) : M W Z := ret 0%Z.

Definition tud_hid_set_report_cb (instance report_id report_type : Z) (buffer : list Z)
    (size : nat) : M W unit :=
  if negb (instance =? 0)%Z || negb (report_id =? 0)%Z || negb (size =? PRHP_REPORT_SIZE)%nat
  then ret tt else
  let* bytes := aread buffer 0 PRHP_REPORT_SIZE in
  let* data := awrite (replicate USB_MESSAGE_CAPACITY 0%Z) 0 bytes in
  let* _sent := prim (xQueueSend (UsbMessage USB_MESSAGE_HID PRHP_REPORT_SIZE data) 0) in
  ret tt.

Definition cdc_receive_callback (interface : Z) : M W unit :=
  let* r := prim (tinyusb_cdcacm_read interface USB_MESSAGE_CAPACITY) in
  match r with
  | Ok bytes =>
      let* data := awrite (replicate USB_MESSAGE_CAPACITY 0%Z) 0 bytes in
      if (0 <? length bytes)%nat then
        let* _sent := prim (xQueueSend (UsbMessage USB_MESSAGE_CDC (length bytes) data) 0) in
        ret tt
      else ret tt
  | Err _ => ret tt
  end.

Definition usb_device_init : M W (result unit) :=
  let* created := prim (xQueueCreate 16) in
  if negb created then ret (Err ESP_ERR_NO_MEM) else
  check* prim tinyusb_driver_install in
  prim tinyusb_cdcacm_init.

Definition usb_device_receive (timeout_ms : Z) : M W (option usb_message_t) :=
  prim (xQueueReceive timeout_ms).

(** The [for] loop of [send_hid], [attempts] iterations left. *)
Fixpoint send_hid_loop (attempts : nat) (instance report_id : Z) (report : list Z)
    : M W (result unit) :=
  match attempts with
  | O => ret (Err ESP_ERR_TIMEOUT)
  | S attempts =>
      let* mounted := prim tud_mounted in
      if negb mounted then ret (Err ESP_ERR_INVALID_STATE) else
      let* ready := prim (tud_hid_n_ready instance) in
      if (ready : bool) then
        let* sent := prim (tud_hid_n_report instance report_id report) in
        ret (if (sent : bool) then Ok tt else Err ESP_FAIL)
      else
        do* modify (vTaskDelay 1) in
        send_hid_loop attempts instance report_id report
  end.

Definition send_hid (instance report_id : Z) (report : list Z) (size : nat)
    : M W (result unit) :=
  let* data := aread report 0 size in
  send_hid_loop 100 instance report_id data.

Definition usb_device_send_prhp (report : list Z) : M W (result unit) :=
  send_hid 0 0 report PRHP_REPORT_SIZE.

Definition usb_device_send_cardio (report_id : Z) (card_id : list Z) : M W (result unit) :=
  send_hid 1 report_id card_id 8.

Definition usb_device_send_cdc (data : list Z) (size : nat) : M W (result unit) :=
  let* data := aread data 0 size in
  check* (let* code := prim (tinyusb_cdcacm_write_queue data) in ret (esp_of_int code)) in
  prim (tinyusb_cdcacm_write_flush 0).
End device.

(** ** The contract of [send_hid] *)

Section send_spec.
Context {W : Type} `{Platform W} `{UsbPlatform W}.

(** [k] times in a row the device was mounted but the endpoint was busy, and
    the task slept a millisecond. *)
Inductive waits (instance : Z) : nat → W → W → Prop :=
  | waits_0 w : waits instance 0 w w
  | waits_S k w w1 w2 w3 :
      tud_mounted w = (true, w1) → tud_hid_n_ready instance w1 = (false, w2) →
      waits instance k (vTaskDelay 1 w2) w3 → waits instance (S k) w w3.

(** The attempt that ends the loop: the device is gone, or the report is
    handed over once. *)
Inductive send_attempt (instance report_id : Z) (data : list Z) : W → result unit → W → Prop :=
  | send_unmounted w w1 :
      tud_mounted w = (false, w1) →
      send_attempt instance report_id data w (Err ESP_ERR_INVALID_STATE) w1
  | send_report w w1 w2 (sent : bool) w3 :
      tud_mounted w = (true, w1) → tud_hid_n_ready instance w1 = (true, w2) →
      tud_hid_n_report instance report_id data w2 = (sent, w3) →
      send_attempt instance report_id data w (if sent then Ok tt else Err ESP_FAIL) w3.

Lemma send_hid_loop_exact n i id data w r w' :
  send_hid_loop n i id data w = Val (r, w') ↔
    (∃ k w0, k < n ∧ waits i k w w0 ∧ send_attempt i id data w0 r w') ∨
    (waits i n w w' ∧ r = Err ESP_ERR_TIMEOUT).
Proof.
  revert w. induction n as [|n IH]; intros w; cbn [send_hid_loop].
  - split; [intros [= <- <-]; right; by split; [constructor|]|].
    intros [(k & w0 & Hk & _)|[Hw ->]]; [lia|]. by inversion Hw.
  - unfold bind, prim, modify, ret. destruct (tud_mounted w) as [[] w1] eqn:Hm; cbn [negb].
    2: { split.
      - intros [= <- <-]. left. exists 0, w. split; [lia|]. split; [constructor|by constructor].
      - intros [(k & w0 & _ & Hw & Ha)|[Hw _]]; [|inversion Hw; subst; by unify_runs].
        inversion Hw; subst; [|by unify_runs]. inversion Ha; subst; by unify_runs. }
    destruct (tud_hid_n_ready i w1) as [[] w2] eqn:Hr.
    + destruct (tud_hid_n_report i id data w2) as [sent w3] eqn:Hs. split.
      * intros [= <- <-]. left. exists 0, w. split; [lia|]. split; [constructor|by econstructor].
      * intros [(k & w0 & _ & Hw & Ha)|[Hw _]]; [|inversion Hw; subst; by unify_runs].
        inversion Hw; subst; [|by unify_runs]. inversion Ha; subst; by unify_runs.
    + rewrite IH. split.
      * intros [(k & w0 & Hk & Hw & Ha)|[Hw ->]].
        -- left. exists (S k), w0. split; [lia|]. split; [by econstructor|done].
        -- right. split; [by econstructor|done].
      * intros [(k & w0 & Hk & Hw & Ha)|[Hw ->]].
        -- left. inversion Hw; subst; [inversion Ha; subst; by unify_runs|].
           unify_runs. eexists _, w0. split; [|by split]. lia.
        -- right. split; [|done]. inversion Hw; subst. by unify_runs.
Qed.
Lemma send_hid_unmounted i id report n w w1 :
  n ≤ length report → tud_mounted w = (false, w1) →
  send_hid i id report n w = Val (Err ESP_ERR_INVALID_STATE, w1).
Proof.
  intros Hn Hm. unfold send_hid, aread. rewrite (proj2 (Nat.leb_le _ _)) by lia.
  unfold bind, prim, ret. cbn [send_hid_loop]. unfold bind, prim. by rewrite Hm.
Qed.
End send_spec.

(** ** Lemmas: everything keeps the world's invariant *)

Section device_laws.
Context {W : Type} `{PlatformLaws W inv clock} `{!UsbPlatform W} `{!UsbLaws W inv} `{!UsbTaskLaws W inv}.

Lemma send_hid_wp i id report n w :
  inv w → n ≤ length report → wp (send_hid i id report n) w (λ _ w', inv w').
Proof.
  intros Hi Hn. unfold send_hid. wp_steps. apply wp_aread; [lia|].
  generalize (take n (drop 0 report)) as data. intros data. clear Hn report.
  generalize 100 as attempts. intros attempts. revert w Hi.
  induction attempts as [|k IH]; intros w Hi; cbn [send_hid_loop]; wp_steps; [done|].
  pose proof (mounted_law w Hi) as Hi1. destruct (tud_mounted w) as [[] w1]; wp_steps; [|done].
  cbn [negb]. wp_steps. pose proof (ready_law i w1 Hi1) as Hi2.
  destruct (tud_hid_n_ready i w1) as [[] w2]; wp_steps.
  - pose proof (report_law i id data w2 Hi2) as Hi3. by destruct tud_hid_n_report.
  - by apply IH, (delay_law (inv := inv) 1 w2 Hi2).
Qed.

Lemma send_prhp_wp report w :
  inv w → length report = 64 → wp (usb_device_send_prhp report) w (λ _ w', inv w').
Proof. intros. apply send_hid_wp; [done|]. unfold PRHP_REPORT_SIZE. lia. Qed.

Lemma send_cardio_wp id card_id w :
  inv w → length card_id = 8 → wp (usb_device_send_cardio id card_id) w (λ _ w', inv w').
Proof. intros. apply send_hid_wp; [done|lia]. Qed.

Lemma usb_device_init_wp w : inv w → wp usb_device_init w (λ _ w', inv w').
Proof.
  intros Hi. unfold usb_device_init. wp_tries.
  pose proof (queue_create_law 16 w Hi) as Hi1. destruct (xQueueCreate 16 w) as [[] w1];
    cbn [negb]; wp_tries; [|done].
  pose proof (install_law w1 Hi1) as Hi2.
  destruct (tinyusb_driver_install w1) as [[[]|e] w2]; [|done]. wp_tries.
  pose proof (cdc_init_law w2 Hi2) as Hi3. by destruct (tinyusb_cdcacm_init w2).
Qed.

Lemma usb_device_receive_wp t w :
  inv w → wp (usb_device_receive t) w (λ m w', inv w' ∧ ∀ x, m = Some x → wf_message x).
Proof.
  intros Hi. unfold usb_device_receive. wp_steps.
  pose proof (queue_receive_law t w Hi) as [? ?]. by destruct (xQueueReceive t w).
Qed.

End device_laws.

Section serial_laws.
Context {W : Type} `{Platform W} `{!UsbPlatform W} `{!CdcLaws W inv}.

Lemma send_cdc_wp data n w :
  inv w → n ≤ length data → wp (usb_device_send_cdc data n) w (λ _ w', inv w').
Proof.
  intros Hi Hn. unfold usb_device_send_cdc. wp_steps. apply wp_aread; [lia|]. wp_tries.
  pose proof (write_queue_law (take n (drop 0 data)) w Hi) as Hi1.
  destruct tinyusb_cdcacm_write_queue as [code w1]. unfold esp_of_int.
  destruct (code =? 0)%Z; [|done]. wp_tries.
  pose proof (write_flush_law 0 w1 Hi1) as Hi2. by destruct tinyusb_cdcacm_write_flush.
Qed.

Lemma message_data_wf bytes :
  length bytes ≤ USB_MESSAGE_CAPACITY → is_bytes bytes →
  let data := take 0 (replicate USB_MESSAGE_CAPACITY 0%Z) ++ bytes ++
              drop (0 + length bytes) (replicate USB_MESSAGE_CAPACITY 0%Z) in
  length data = USB_MESSAGE_CAPACITY ∧ is_bytes data.
Proof.
  intros Hl Hb data. split; [|by apply is_bytes_splice; [apply is_bytes_replicate|]].
  unfold data. rewrite length_splice; rewrite length_replicate; done.
Qed.

Lemma set_report_wp i id ty buffer n w :
  inv w → n ≤ length buffer → is_bytes buffer →
  wp (tud_hid_set_report_cb i id ty buffer n) w (λ _ w', inv w').
Proof.
  intros Hi Hn Hb. unfold tud_hid_set_report_cb, PRHP_REPORT_SIZE.
  wp_case; wp_steps; [done|]. reflect_bools. subst.
  apply wp_aread; [lia|]. wp_steps.
  assert (Hl : length (take 64 (drop 0 buffer)) = 64) by solve_len.
  apply wp_awrite; [rewrite Hl, length_replicate; unfold USB_MESSAGE_CAPACITY; lia|]. wp_steps.
  assert (Hwf : wf_message (UsbMessage USB_MESSAGE_HID 64
    (take 0 (replicate USB_MESSAGE_CAPACITY 0%Z) ++ take 64 (drop 0 buffer) ++
     drop (0 + length (take 64 (drop 0 buffer))) (replicate USB_MESSAGE_CAPACITY 0%Z)))).
  { destruct (message_data_wf (take 64 (drop 0 buffer))) as [? ?];
      [rewrite Hl; unfold USB_MESSAGE_CAPACITY; lia|auto with fw|].
    split_and!; [done|done|simpl; unfold USB_MESSAGE_CAPACITY; lia]. }
  pose proof (queue_send_law _ 0 w Hi Hwf) as Hi1. by destruct (xQueueSend _ 0 w).
Qed.

Lemma cdc_receive_wp interface w :
  inv w → wp (cdc_receive_callback interface) w (λ _ w', inv w').
Proof.
  intros Hi. unfold cdc_receive_callback. wp_steps.
  pose proof (cdc_read_law interface USB_MESSAGE_CAPACITY w Hi) as [Hi1 Hl].
  destruct (tinyusb_cdcacm_read interface USB_MESSAGE_CAPACITY w) as [[bytes|e] w1];
    cbn [fst snd] in *; wp_steps; [|done].
  destruct (Hl bytes eq_refl) as [Hlen Hb]. destruct (message_data_wf bytes Hlen Hb) as [? ?].
  apply wp_awrite; [rewrite length_replicate; lia|]. wp_steps. wp_case; wp_steps; [|done].
  match goal with |- context [xQueueSend ?m 0 w1] =>
    pose proof (queue_send_law m 0 w1 Hi1 ltac:(done)) as Hi2; by destruct (xQueueSend m 0 w1) end.
Qed.
End serial_laws.

(** ** Lemmas: the descriptors *)

Lemma reports_prhp :
  hid_reports (tud_hid_descriptor_report_cb 0) =
    Some [HidReportDecl Input 0xFF50 0x01 0 (8 * Z.of_nat PRHP_REPORT_SIZE);
          HidReportDecl Output 0xFF50 0x01 0 (8 * Z.of_nat PRHP_REPORT_SIZE)].
Proof. vm_compute. reflexivity. Qed.

Lemma reports_cardio :
  hid_reports (tud_hid_descriptor_report_cb 1) =
    Some [HidReportDecl Input 0xFFCA 0x41 1 (8 * 8); HidReportDecl Input 0xFFCA 0x42 2 (8 * 8)].
Proof. vm_compute. reflexivity. Qed.

Lemma configuration_wf tu :
  wf_configuration tu string_descriptor (configuration_descriptor tu).
Proof.
  unfold configuration_descriptor, wf_configuration.
  split; [done|]. split; [cbn; unfold CONFIGURATION_TOTAL_LENGTH; lia|].
  split; [vm_compute; reflexivity|]. split; [lia|]. split; [|split].
  - cbn. split; [|split].
    + apply (bool_decide_unpack _). vm_compute. done.
    + repeat constructor; done.
    + repeat constructor; done.
  - repeat constructor; done.
  - cbn -[tud_hid_descriptor_report_cb]. split_and!; [done| |done| |done].
    + exists [HidReportDecl Input 0xFF50 0x01 0 (8 * Z.of_nat PRHP_REPORT_SIZE);
              HidReportDecl Output 0xFF50 0x01 0 (8 * Z.of_nat PRHP_REPORT_SIZE)].
      split; [exact reports_prhp|]. repeat constructor; vm_compute; congruence.
    + exists [HidReportDecl Input 0xFFCA 0x41 1 (8 * 8); HidReportDecl Input 0xFFCA 0x42 2 (8 * 8)].
      split; [exact reports_cardio|]. repeat constructor; vm_compute; congruence.
Qed.

(** ** Properties *)

(** C34: the USB configuration is well formed for every value of TinyUSB's
    constants: the header announces the bytes and the four interfaces that follow,
    interfaces are numbered in order, the six endpoint addresses are distinct and
    carry the right direction bit, every string index (those of the device
    descriptor too) is in the string table, each HID function announces the length
    of the report descriptor its callback returns, every declared report, its
    report ID included, fits in one packet of an endpoint of its direction; and the
    reports declared are, on the PRHP interface, 64 bytes each way without report ID
    on page 0xFF50 and, on the CardIO interface, two eight-byte inputs with report
    IDs 1 and 2 on page 0xFFCA and no output. *)
Theorem configuration_consistent tu :
  wf_configuration tu string_descriptor (configuration_descriptor tu) ∧
  Forall (λ i, 1 ≤ i < Z.of_nat (length string_descriptor))%Z
    [iManufacturer (device_descriptor tu); iProduct (device_descriptor tu);
     iSerialNumber (device_descriptor tu)] ∧
  bNumConfigurations (device_descriptor tu) = 1%Z ∧
  hid_reports (tud_hid_descriptor_report_cb 0) =
    Some [HidReportDecl Input 0xFF50 0x01 0 (8 * Z.of_nat PRHP_REPORT_SIZE);
          HidReportDecl Output 0xFF50 0x01 0 (8 * Z.of_nat PRHP_REPORT_SIZE)] ∧
  hid_reports (tud_hid_descriptor_report_cb 1) =
    Some [HidReportDecl Input 0xFFCA 0x41 1 (8 * 8); HidReportDecl Input 0xFFCA 0x42 2 (8 * 8)].
Proof.
  split; [apply configuration_wf|].
  split; [repeat constructor; vm_compute; congruence|]. split; [reflexivity|].
  exact (conj reports_prhp reports_cardio).
Qed.

Section device_claims.
Context {W : Type} `{Platform W} `{UsbPlatform W}.

(** C35: sending a HID report always returns, within a hundred attempts: either
    the device was found unmounted (ESP_ERR_INVALID_STATE), or the first ready
    attempt handed the report over exactly once and reports TinyUSB's answer, or
    the endpoint stayed busy for a hundred attempts (ESP_ERR_TIMEOUT) and nothing
    was sent. *)
Theorem send_hid_exact i id report n w r w' :
  n ≤ length report →
  send_hid i id report n w = Val (r, w') ↔
    (∃ k w0, k < 100 ∧ waits i k w w0 ∧ send_attempt i id (take n report) w0 r w') ∨
    (waits i 100 w w' ∧ r = Err ESP_ERR_TIMEOUT).
Proof.
  intros Hn. unfold send_hid, aread. rewrite (proj2 (Nat.leb_le _ _)) by lia.
  cbn [drop]. unfold bind at 1, ret at 1. rewrite drop_0. apply send_hid_loop_exact.
Qed.

(** C40: the response path of the SEGA interface flushes the CDC queue only when
    the queueing call returned 0; any other value is returned as an error, with
    the flush skipped. *)
Theorem send_cdc_flushes_on_zero data n w :
  n ≤ length data →
  usb_device_send_cdc data n w =
    let '(code, w1) := tinyusb_cdcacm_write_queue (take n data) w in
    if (code =? 0)%Z then Val (tinyusb_cdcacm_write_flush 0 w1)
    else Val (Err (ESP_ERR_CODE code), w1).
Proof.
  intros Hn. unfold usb_device_send_cdc, aread. rewrite (proj2 (Nat.leb_le _ _)) by lia.
  unfold bind at 1, ret at 1. rewrite drop_0. unfold tbind, bind, prim, ret.
  destruct (tinyusb_cdcacm_write_queue (take n data) w) as [code w1].
  unfold esp_of_int. by destruct (code =? 0)%Z.
Qed.

(** The PRHP output callback queues a report exactly when it arrives on HID
    instance 0, without report ID and with the full 64 bytes; the queued message
    starts with those bytes and is zero beyond them. *)
Theorem set_report_queues i id ty buffer n w :
  n ≤ length buffer →
  tud_hid_set_report_cb i id ty buffer n w =
    if bool_decide (i = 0%Z ∧ id = 0%Z ∧ n = PRHP_REPORT_SIZE)
    then Val (tt, (xQueueSend (UsbMessage USB_MESSAGE_HID PRHP_REPORT_SIZE
                     (take 64 buffer ++ replicate 448 0%Z)) 0 w).2)
    else Val (tt, w).
Proof.
  intros Hn. unfold tud_hid_set_report_cb. case_bool_decide as Hc.
  - destruct Hc as (-> & -> & ->). unfold PRHP_REPORT_SIZE in *. cbn [Z.eqb Nat.eqb negb orb].
    apply wp_val. cbn [Nat.eqb negb orb]. change ((64 =? 64)%nat) with true. cbn [negb].
    wp_steps. apply wp_aread; [lia|]. wp_steps. rewrite drop_0.
    assert (Hl : length (take 64 buffer) = 64) by solve_len.
    apply wp_awrite; [rewrite Hl, length_replicate; unfold USB_MESSAGE_CAPACITY; lia|]. wp_steps.
    rewrite Hl, drop_replicate. cbn [take app Nat.sub Nat.add].
    change (512 - 64) with 448. by destruct xQueueSend.
  - destruct (_ || _)%bool eqn:Hf; [done|]. exfalso. apply Hc. reflect_bools. done.
Qed.
End device_claims.

(** ** Witnesses *)

Lemma send_hid_exact_witness :
  (∃ k w0, k < 100 ∧ waits 0 k (sim_boot []) w0 ∧
     send_attempt 0 0 (replicate 64 7%Z) w0 (Ok tt)
       (sim_log (HidReport 0 0 (replicate 64 7%Z)) (sim_boot []))) ∨
  (waits 0 100 (sim_boot []) (sim_log (HidReport 0 0 (replicate 64 7%Z)) (sim_boot [])) ∧
     (Ok tt : result unit) = Err ESP_ERR_TIMEOUT).
Proof.
  apply (send_hid_exact 0 0 (replicate 64 7%Z) 64); [simpl; lia|reflexivity].
Defined.

(** A queueing call that reports the number of bytes queued: no flush. *)
Lemma send_cdc_flushes_on_zero_witness :
  usb_device_send_cdc [1; 2; 3]%Z 3 (sim_boot []) =
    Val (Err (ESP_ERR_CODE 3), sim_log (CdcQueued [1; 2; 3]%Z) (sim_boot [])).
Proof. rewrite send_cdc_flushes_on_zero by (simpl; lia). reflexivity. Defined.

Lemma set_report_queues_witness :
  tud_hid_set_report_cb 0 0 2 (replicate 64 5%Z) 64 (sim_boot []) =
    Val (tt, sim_set_queue [UsbMessage USB_MESSAGE_HID 64 (replicate 64 5%Z ++ replicate 448 0%Z)]
               (sim_boot [])).
Proof. rewrite set_report_queues by (simpl; lia). reflexivity. Defined.
