(* ===== verification/Prhp.v ===== *)
(** * prhp.c: the PRHP codec and dispatcher of the firmware

    [prhp_publish_card_state] and [prhp_dispatch] with their helpers, the reference
    layout of the reports they send, and the exact answer the dispatcher gives to
    every 64-byte report. *)
From S2P Require Import Prelude Platform Sim Pn532Iface Reader UsbDevice.

Definition PRHP_REQUEST : Z := 0x01.
Definition PRHP_RESPONSE : Z := 0x02.
Definition PRHP_SIGNAL : Z := 0x03.

Definition PRHP_GET_VERSION : Z := 0x01.
Definition PRHP_CARD_STATE : Z := 0x02.
Definition PRHP_SET_LED : Z := 0x03.

Definition PRHP_SUCCESS : Z := 0x00.
Definition PRHP_UNKNOWN_OPCODE : Z := 0x01.
Definition PRHP_INVALID_MESSAGE : Z := 0x02.

Section prhp.
Context {W : Type} `{Platform W} `{UsbPlatform W}.

(** [read_le16(&bytes[off])] *)
Definition read_le16 (bytes : list Z) (off : nat) : M W Z :=
  let* b0 := aget bytes off in
  let* b1 := aget bytes (off + 1) in
  ret (u16 (Z.lor b0 (u16 (Z.shiftl b1 8)))).

(** [write_le16(&bytes[off], value)] *)
Definition write_le16 (bytes : list Z) (off : nat) (value : Z) : M W (list Z) :=
  let* bytes := aput bytes off (u8 value) in
  aput bytes (off + 1) (u8 (Z.shiftr value 8)).

Definition begin_response (opcode status sequence : Z) : M W (list Z) :=
  let response := replicate PRHP_REPORT_SIZE 0%Z in
  let* response := aput response 0 PRHP_RESPONSE in
  let* response := aput response 1 opcode in
  let* response := write_le16 response 2 sequence in
  aput response 4 status.

Definition send_error (opcode status sequence : Z) : M W unit :=
  let* response := begin_response opcode status sequence in
  let* _sent := usb_device_send_prhp response in
  ret tt.

(** The report [prhp_publish_card_state] builds. *)
Definition card_state_signal (card : reader_card_t) : M W (list Z) :=
  let signal := replicate PRHP_REPORT_SIZE 0%Z in
  let* signal := aput signal 0 PRHP_SIGNAL in
  let* signal := aput signal 1 PRHP_CARD_STATE in
  let* signal :=
    (if bool_decide (card_type card = READER_CARD_MIFARE) && negb (card_has_blocks card)
     then aput signal 5 (card_type_code READER_CARD_NONE)
     else aput signal 5 (u8 (card_type_code (card_type card)))) in
  let* kind := aget signal 5 in
  if (kind =? card_type_code READER_CARD_MIFARE)%Z then
    let* signal := awrite signal 6 (card_luid card) in
    awrite signal 16 (card_blocks card)
  else if (kind =? card_type_code READER_CARD_FELICA)%Z then
    awrite signal 6 (card_idm card)
  else ret signal.

Definition prhp_publish_card_state (card : reader_card_t) : M W unit :=
  let* signal := card_state_signal card in
  let* _sent := usb_device_send_prhp signal in
  ret tt.

Definition prhp_dispatch (request : list Z) : M W unit :=
  let* message_type := aget request 0 in
  let* opcode := aget request 1 in
  let* sequence := read_le16 request 2 in
  let* status := aget request 4 in
  if negb (status =? 0)%Z then
    if ((message_type =? PRHP_REQUEST) && negb (sequence =? 0))%Z
    then send_error opcode PRHP_INVALID_MESSAGE sequence
    else ret tt
  else if (message_type =? PRHP_SIGNAL)%Z then
    if ((sequence =? 0) && (opcode =? PRHP_SET_LED))%Z then
      let* red := aget request 5 in
      let* green := aget request 6 in
      let* blue := aget request 7 in
      reader_set_led red green blue
    else ret tt
  else if (negb (message_type =? PRHP_REQUEST) || (sequence =? 0))%Z then ret tt
  else if (opcode =? PRHP_GET_VERSION)%Z then
    let* response := begin_response opcode PRHP_SUCCESS sequence in
    let* response := aput response 5 0 in
    let* response := aput response 6 1 in
    let* _sent := usb_device_send_prhp response in
    ret tt
  else send_error opcode PRHP_UNKNOWN_OPCODE sequence.
End prhp.

(** ** Reference layout (RFC 0001, sections 4, 7 and 8) *)

(** A report: header, body, zero padding to 64 bytes. *)
Definition prhp_report (ty opcode sequence status : Z) (body : list Z) : list Z :=
  [ty; opcode; u8 sequence; u8 (Z.shiftr sequence 8); status] ++ body ++
  replicate (59 - length body) 0%Z.

(** The body of CARD_STATE for an observation: a MIFARE card whose blocks could not
    be read is no PRHP card. *)
Definition card_state_body (card : reader_card_t) : list Z :=
  match card_type card with
  | READER_CARD_MIFARE =>
      if card_has_blocks card then 1%Z :: card_luid card ++ card_blocks card else [0%Z]
  | READER_CARD_FELICA => 2%Z :: card_idm card
  | READER_CARD_NONE => [0%Z]
  end.

Definition card_state_report (card : reader_card_t) : list Z :=
  prhp_report PRHP_SIGNAL PRHP_CARD_STATE 0 0 (card_state_body card).

(** The fields of a report's header. *)
Definition header_type (r : list Z) : Z := r !!! 0.
Definition header_opcode (r : list Z) : Z := r !!! 1.
Definition header_sequence (r : list Z) : Z := (r !!! 2%nat + 256 * r !!! 3%nat)%Z.
Definition header_status (r : list Z) : Z := r !!! 4.

(** The dispatcher's answer: nothing unless the report is a REQUEST with a
    sequence; then one RESPONSE that copies opcode and sequence. *)
Definition prhp_reply (request : list Z) : option (list Z) :=
  let opcode := header_opcode request in
  let sequence := header_sequence request in
  if negb (header_type request =? PRHP_REQUEST)%Z || (sequence =? 0)%Z then None
  else if negb (header_status request =? 0)%Z
  then Some (prhp_report PRHP_RESPONSE opcode sequence PRHP_INVALID_MESSAGE [])
  else if (opcode =? PRHP_GET_VERSION)%Z
  then Some (prhp_report PRHP_RESPONSE opcode sequence PRHP_SUCCESS [0; 1]%Z)
  else Some (prhp_report PRHP_RESPONSE opcode sequence PRHP_UNKNOWN_OPCODE []).

(** ** Lemmas *)

Lemma length_prhp_report ty op seq st body :
  length body ≤ 59 → length (prhp_report ty op seq st body) = 64.
Proof. intros. unfold prhp_report. solve_len. Qed.

Lemma length_card_state_body c : wf_card c → length (card_state_body c) ≤ 59.
Proof.
  intros [_ (Hl & _) (Hb & _) (Hi & _) _ _ _ _ _]. unfold card_state_body.
  destruct (card_type c); [|destruct (card_has_blocks c)|]; solve_len.
Qed.

Lemma le16_join lo hi :
  is_byte lo → is_byte hi → u16 (Z.lor lo (u16 (Z.shiftl hi 8))) = (lo + 256 * hi)%Z.
Proof.
  unfold is_byte. intros Hlo Hhi.
  assert (Hs : u16 (Z.shiftl hi 8) = Z.shiftl hi 8).
  { unfold u16. rewrite Z.shiftl_mul_pow2 by lia. apply Z.mod_small. lia. }
  rewrite Hs, Z.lor_comm, join16 by done. unfold u16. rewrite Z.mod_small; lia.
Qed.

Section prhp_laws.
Context {W : Type} `{Platform W} `{UsbPlatform W}.
Implicit Types w : W.

Lemma begin_response_run op st seq w :
  begin_response op st seq w = Val (prhp_report PRHP_RESPONSE op seq st [], w).
Proof. reflexivity. Qed.

Lemma card_state_signal_run c w :
  wf_card c → card_state_signal c w = Val (card_state_report c, w).
Proof.
  intros [_ (Hl & _) (Hb & _) (Hi & _) _ _ _ _ _].
  unfold card_state_report, card_state_body.
  destruct c as [[] uid luid blocks idm pmm has]; cbn in *; [|destruct has|].
  - reflexivity.
  - explode_lists. reflexivity.
  - reflexivity.
  - explode_lists. reflexivity.
Qed.

Lemma send_error_run op st seq w :
  send_error op st seq w =
    bind (usb_device_send_prhp (prhp_report PRHP_RESPONSE op seq st [])) (λ _, ret tt) w.
Proof. reflexivity. Qed.

(** The dispatcher's decision, as a function of the header. *)
Lemma prhp_dispatch_reply request w :
  64 ≤ length request → is_bytes request →
  prhp_dispatch request w =
    match prhp_reply request with
    | None => Val (tt, w)
    | Some response => bind (usb_device_send_prhp response) (λ _, ret tt) w
    end.
Proof.
  intros Hlen Hb.
  destruct request as [|ty [|op [|lo [|hi [|st [|r [|g [|b rest]]]]]]]]; simpl in Hlen; try lia.
  repeat match goal with Hf : is_bytes (_ :: _) |- _ => apply Forall_cons in Hf as [? Hf] end.
  unfold prhp_dispatch, read_le16, prhp_reply, header_type, header_opcode, header_sequence,
    header_status.
  unfold bind at 1 2 3 4 5 6, aget, ret at 1 2 3 4 5. cbn.
  rewrite le16_join by done.
  unfold PRHP_REQUEST, PRHP_SIGNAL.
  destruct (Z.eqb_spec st 0) as [->|], (Z.eqb_spec ty 1) as [->|], (Z.eqb_spec (lo + 256 * hi) 0);
    cbn -[Z.add Z.mul]; try done.
  - by destruct (op =? PRHP_GET_VERSION)%Z.
  - by repeat case_match.
  - by repeat case_match.
Qed.
End prhp_laws.

(** ** The world's invariant *)

Section prhp_wp.
Context {W : Type} `{PlatformLaws W inv clock} `{!UsbPlatform W} `{!UsbLaws W inv}.

Lemma prhp_reply_wf request r :
  is_bytes request → prhp_reply request = Some r → length r = 64 ∧
  header_type r = PRHP_RESPONSE ∧ header_opcode r = header_opcode request ∧
  (header_sequence request < 65536 → 0 ≤ header_sequence request →
   header_sequence r = header_sequence request)%Z.
Proof.
  intros Hb. unfold prhp_reply. repeat case_match; intros [= <-];
    (split_and!; [done..|]; intros; unfold header_sequence at 1;
     unfold prhp_report; cbn -[header_sequence Z.mul Z.add];
     rewrite u8_shiftr8 by lia; unfold u8;
     pose proof (Z.div_mod (header_sequence request) 256); lia).
Qed.

Lemma prhp_dispatch_wp request w :
  inv w → 64 ≤ length request → is_bytes request →
  wp (prhp_dispatch request) w (λ _ w', inv w').
Proof.
  intros Hi Hlen Hb. unfold wp. rewrite prhp_dispatch_reply by done.
  destruct (prhp_reply request) as [r|] eqn:Hr; [|done].
  destruct (prhp_reply_wf request r Hb Hr) as [Hl _].
  change (wp (bind (usb_device_send_prhp r) (λ _, ret tt)) w (λ _ w', inv w')).
  wp_steps. eapply wp_mono; [by apply send_prhp_wp|]. done.
Qed.

Lemma prhp_publish_wp c w :
  inv w → wf_card c → wp (prhp_publish_card_state c) w (λ _ w', inv w').
Proof.
  intros Hi Hc. unfold prhp_publish_card_state. wp_steps.
  apply wp_run. eexists _, _. split; [by apply card_state_signal_run|]. wp_steps.
  eapply wp_mono; [apply send_prhp_wp; [done|]|done].
  by apply length_prhp_report, length_card_state_body.
Qed.
End prhp_wp.

(** ** Properties *)

Section prhp_claims.
Context {W : Type} `{Platform W} `{UsbPlatform W}.

(** C6: the dispatcher is exactly the reply function: it sends nothing for a
    signal, a response or a request without sequence, and one report otherwise,
    a 64-byte RESPONSE with the request's opcode and sequence, whose status is
    INVALID_MESSAGE for a nonzero request status, SUCCESS with body 0.1 for
    GET_VERSION and UNKNOWN_OPCODE for the rest. *)
Theorem dispatch_exact request (w : W) :
  64 ≤ length request → is_bytes request →
  prhp_dispatch request w =
    match prhp_reply request with
    | None => Val (tt, w)
    | Some response => bind (usb_device_send_prhp response) (λ _, ret tt) w
    end ∧
  ∀ response, prhp_reply request = Some response →
    length response = 64 ∧ header_type response = PRHP_RESPONSE ∧
    header_opcode response = header_opcode request ∧
    header_sequence response = header_sequence request.
Proof.
  intros Hlen Hb. split; [by apply prhp_dispatch_reply|]. intros r Hr.
  destruct (prhp_reply_wf request r Hb Hr) as (? & ? & ? & Hs). split_and!; try done.
  destruct request as [|? [|? [|lo [|hi rest]]]]; simpl in Hlen; try lia.
  repeat match goal with Hf : is_bytes (_ :: _) |- _ => apply Forall_cons in Hf as [? Hf] end.
  unfold is_byte, header_sequence in *. cbn -[Z.mul Z.add header_sequence] in *.
  apply Hs; cbn -[Z.mul Z.add]; lia.
Qed.

(** Publishing a card sends one CARD_STATE signal, status 0 and sequence 0:
    LUID and blocks for a MIFARE card that was read, the IDm for a FeliCa card,
    the NONE body for everything else, zero padded to 64 bytes. *)
Theorem publish_exact c (w : W) :
  wf_card c →
  prhp_publish_card_state c w =
    bind (usb_device_send_prhp (card_state_report c)) (λ _, ret tt) w ∧
  length (card_state_report c) = 64.
Proof.
  intros Hc. split; [|by apply length_prhp_report, length_card_state_body].
  unfold prhp_publish_card_state. by erewrite bind_val by by apply card_state_signal_run.
Qed.
End prhp_claims.

(** ** Witnesses *)

(** GET_VERSION with sequence 0x1234. *)
Definition version_request : list Z :=
  ([1; 1; 0x34; 0x12; 0] ++ replicate 59 0)%Z.

Lemma dispatch_exact_witness :
  prhp_dispatch version_request (sim_boot []) =
    Val (tt, sim_log (HidReport 0 0 ([2; 1; 0x34; 0x12; 0; 0; 1] ++ replicate 57 0)%Z)
               (sim_boot [])).
Proof.
  assert (Hb : is_bytes version_request)
    by (apply Forall_app_2; [solve_bytes|apply is_bytes_replicate]).
  destruct (dispatch_exact version_request (sim_boot [])) as [-> _];
    [simpl; lia|exact Hb|]. vm_compute. reflexivity.
Defined.

Lemma publish_exact_witness :
  prhp_publish_card_state zero_card (sim_boot []) =
    Val (tt, sim_log (HidReport 0 0 ([3; 2] ++ replicate 62 0)%Z) (sim_boot [])).
Proof.
  destruct (publish_exact zero_card (sim_boot [])) as [-> _]; [apply zero_card_wf|].
  vm_compute. reflexivity.
Defined.
