(* ===== verification/Cardio.v ===== *)
(** * cardio.c: the CardIO HID reports

    [cardio_publish_card_state] and the reference layout of its reports: the
    FeliCa IDm under report id 2, an ISO 15693-style number made of a MIFARE UID
    under report id 1, eight zero bytes under report id 0 when there is no card.  The
    first two are reports the CardIO descriptor declares; no descriptor declares the
    third. *)
From S2P Require Import Prelude Platform Sim Pn532Iface Reader UsbDevice.

Definition CARDIO_REPORT_MIFARE : Z := 0x01.
Definition CARDIO_REPORT_FELICA : Z := 0x02.

Section cardio.
Context {W : Type} `{Platform W} `{UsbPlatform W}.

Definition cardio_publish_card_state (current : reader_card_t) : M W unit :=
  let card_id := replicate 8 0%Z in
  let* report :=
    (if bool_decide (card_type current = READER_CARD_FELICA) then
       let* card_id := awrite card_id 0 (card_idm current) in
       ret (CARDIO_REPORT_FELICA, card_id)
     else if bool_decide (card_type current = READER_CARD_MIFARE) then
       let* card_id := aput card_id 0 0xE0 in
       let* card_id := aput card_id 1 0x04 in
       let* card_id := awrite card_id 2 (card_mifare_uid current) in
       let* u0 := aget (card_mifare_uid current) 0 in
       let* card_id := aput card_id 6 u0 in
       let* u1 := aget (card_mifare_uid current) 1 in
       let* card_id := aput card_id 7 u1 in
       ret (CARDIO_REPORT_MIFARE, card_id)
     else ret (0%Z, card_id)) in
  let* _sent := usb_device_send_cardio report.1 report.2 in
  ret tt.
End cardio.

(** The report id and the eight bytes a card is published as. *)
Definition cardio_report (card : reader_card_t) : Z * list Z :=
  match card_type card with
  | READER_CARD_FELICA => (2%Z, card_idm card)
  | READER_CARD_MIFARE =>
      (1%Z, [0xE0; 0x04]%Z ++ card_mifare_uid card ++ take 2 (card_mifare_uid card))
  | READER_CARD_NONE => (0%Z, replicate 8 0%Z)
  end.

Section cardio_laws.
Context {W : Type} `{Platform W} `{UsbPlatform W}.

Lemma cardio_publish_run c (w : W) :
  wf_card c →
  cardio_publish_card_state c w =
    bind (usb_device_send_cardio (cardio_report c).1 (cardio_report c).2) (λ _, ret tt) w ∧
  length (cardio_report c).2 = 8.
Proof.
  intros [(Hu & _) _ _ (Hi & _) _ _ _ _ _]. unfold cardio_report.
  destruct c as [[] uid luid blocks idm pmm has]; cbn in *; explode_lists; done.
Qed.
End cardio_laws.

Section cardio_wp.
Context {W : Type} `{PlatformLaws W inv clock} `{!UsbPlatform W} `{!UsbLaws W inv}.

Lemma cardio_publish_wp c w :
  inv w → wf_card c → wp (cardio_publish_card_state c) w (λ _ w', inv w').
Proof.
  intros Hi Hc. destruct (cardio_publish_run c w Hc) as [Hrun Hl].
  unfold wp. rewrite Hrun.
  change (wp (bind (usb_device_send_cardio (cardio_report c).1 (cardio_report c).2)
    (λ _, ret tt)) w (λ _ w', inv w')).
  wp_steps. eapply wp_mono; [by apply send_cardio_wp|]. done.
Qed.
End cardio_wp.

(** A declared report carries what is sent: it is an input with that ID and as
    many bits as the data. *)
Definition carries (r : hid_report) (sent : Z * list Z) : Prop :=
  hid_kind r = Input ∧ hid_id r = sent.1 ∧ hid_bits r = (8 * Z.of_nat (length sent.2))%Z.

Lemma cardio_report_bytes c : wf_card c → is_bytes (cardio_report c).2.
Proof.
  intros [(Hu & Hub) _ _ (Hi & Hib) _ _ _ _ _]. unfold cardio_report.
  destruct (card_type c); cbn [snd]; [apply is_bytes_replicate| |done].
  apply Forall_app_2; [solve_bytes|]. apply Forall_app_2; [done|by apply Forall_take].
Qed.

Lemma cardio_report_inj c c' :
  wf_card c → wf_card c' → cardio_report c = cardio_report c' →
  card_type c = card_type c' ∧
  (card_type c = READER_CARD_MIFARE → card_mifare_uid c = card_mifare_uid c') ∧
  (card_type c = READER_CARD_FELICA → card_idm c = card_idm c').
Proof.
  intros [(Hu & _) _ _ _ _ _ _ _ _] [(Hu' & _) _ _ _ _ _ _ _ _]. unfold cardio_report.
  destruct (card_type c), (card_type c'); try done; intros [= Heq]; split_and!; try done.
  apply app_inj_1 in Heq as [? _]; [done|congruence].
Qed.

(** ** Properties *)

Section cardio_claims.
Context {W : Type} `{Platform W} `{UsbPlatform W}.

(** C38: publishing a card on the CardIO interface makes one call of [send_hid], on HID
    instance 1 with eight bytes: the IDm under report ID 2, or E0 04 followed by the
    UID and its first two bytes again under ID 1. The report descriptor of the
    interface declares that report, as an input of that ID and size, and two cards
    have the same report only if they are of the same type with the same UID or IDm.
    Without a card eight zero bytes are sent under ID 0, which no report of the
    descriptor has. *)
Theorem cardio_publish_exact c c' (w : W) :
  wf_card c → wf_card c' →
  cardio_publish_card_state c w =
    bind (send_hid 1 (cardio_report c).1 (cardio_report c).2 8) (λ _, ret tt) w ∧
  length (cardio_report c).2 = 8 ∧ is_bytes (cardio_report c).2 ∧
  (cardio_report c = cardio_report c' → card_type c = card_type c' ∧
     (card_type c = READER_CARD_MIFARE → card_mifare_uid c = card_mifare_uid c') ∧
     (card_type c = READER_CARD_FELICA → card_idm c = card_idm c')) ∧
  (∃ declared, hid_reports (tud_hid_descriptor_report_cb 1) = Some declared ∧
     (card_type c ≠ READER_CARD_NONE → ∃ r, r ∈ declared ∧ carries r (cardio_report c)) ∧
     (card_type c = READER_CARD_NONE →
      cardio_report c = (0%Z, replicate 8 0%Z) ∧
      Forall (λ r, hid_id r ≠ (cardio_report c).1) declared)).
Proof.
  intros Hc Hc'. destruct (cardio_publish_run c w Hc) as [Hrun Hl].
  split; [done|]. split; [done|]. split; [by apply cardio_report_bytes|].
  split; [by apply cardio_report_inj|]. eexists. split; [exact reports_cardio|].
  unfold carries. rewrite Hl. clear Hrun Hl. unfold cardio_report.
  split; intros Ht.
  - destruct (card_type c); [done|eexists; split; [apply list_elem_of_here|done]|].
    eexists. split; [apply list_elem_of_further, list_elem_of_here|done].
  - rewrite Ht. split; [done|]. by repeat constructor.
Qed.
End cardio_claims.

(** ** Witnesses *)

Definition felica_card (idm pmm : list Z) : reader_card_t :=
  Card READER_CARD_FELICA (card_mifare_uid zero_card) (card_luid zero_card)
    (card_blocks zero_card) idm pmm false.

Definition sample_felica_card : reader_card_t :=
  felica_card [1; 0x27; 2; 3; 4; 5; 6; 7]%Z [1; 2; 3; 4; 5; 6; 7; 8]%Z.

Lemma sample_felica_card_wf : wf_card sample_felica_card.
Proof.
  destruct zero_card_wf. split; try done; simpl; try (split; [done|]; solve_bytes).
Qed.

Lemma cardio_publish_exact_witness :
  cardio_publish_card_state sample_felica_card (sim_boot []) =
    Val (tt, sim_log (HidReport 1 2 [1; 0x27; 2; 3; 4; 5; 6; 7]%Z) (sim_boot [])) ∧
  cardio_report sample_felica_card ≠ cardio_report zero_card ∧
  cardio_publish_card_state zero_card (sim_boot []) =
    Val (tt, sim_log (HidReport 1 0 [0; 0; 0; 0; 0; 0; 0; 0]%Z) (sim_boot [])).
Proof.
  destruct (cardio_publish_exact sample_felica_card zero_card (sim_boot [])
              sample_felica_card_wf zero_card_wf) as (-> & _ & _ & Hinj & _).
  destruct (cardio_publish_exact zero_card zero_card (sim_boot [])
              zero_card_wf zero_card_wf) as (-> & _).
  split; [vm_compute; reflexivity|]. split; [|vm_compute; reflexivity].
  intros Heq. by destruct (Hinj Heq).
Defined.
