(* ===== verification/Sega.v ===== *)
(** * sega.c: the SEGA card-reader protocol over CDC

    The frame parser with its 257-byte buffer, the encoder of responses and the
    two dispatchers, over the reader and the USB device.  The second part gives the
    framing its specification (escaping, a parser on lists) and proves that the
    parser of the source implements it; the third states what each command
    answers. *)
From S2P Require Import Prelude Platform Sim Pn532Iface Pn532 Reader UsbDevice.

Definition SG_SYNC : Z := 0xE0.
Definition SG_ESCAPE : Z := 0xD0.

Definition SG_ADDRESS_NFC : Z := 0x00.
Definition SG_ADDRESS_LED : Z := 0x08.

Definition SG_NFC_GET_FW_VERSION : Z := 0x30.
Definition SG_NFC_GET_HW_VERSION : Z := 0x32.
Definition SG_NFC_RADIO_ON : Z := 0x40.
Definition SG_NFC_RADIO_OFF : Z := 0x41.
Definition SG_NFC_POLL : Z := 0x42.
Definition SG_NFC_MIFARE_SELECT_TAG : Z := 0x43.
Definition SG_NFC_MIFARE_SET_KEY_AIME : Z := 0x50.
Definition SG_NFC_MIFARE_AUTHENTICATE_AIME : Z := 0x51.
Definition SG_NFC_MIFARE_READ_BLOCK : Z := 0x52.
Definition SG_NFC_MIFARE_SET_KEY_BANA : Z := 0x54.
Definition SG_NFC_MIFARE_AUTHENTICATE_BANA : Z := 0x55.
Definition SG_NFC_TO_UPDATE_MODE : Z := 0x60.
Definition SG_NFC_SEND_HEX_DATA : Z := 0x61.
Definition SG_NFC_RESET : Z := 0x62.
Definition SG_NFC_FELICA_ENCAP : Z := 0x71.

Definition SG_LED_SET_COLOR : Z := 0x81.
Definition SG_LED_GET_INFO : Z := 0xF0.
Definition SG_LED_RESET : Z := 0xF5.

(** [sizeof(parser.bytes)], [sizeof(decoded)], [sizeof(encoded)] *)
Definition PARSER_CAPACITY : nat := 257.
Definition DECODED_CAPACITY : nat := 256.
Definition ENCODED_CAPACITY : nat := 520.

Record sg_parser_t : Type := Parser {
  synchronized : bool;
  escaped : bool;
  bytes : list Z;
  size : nat;
}.

(** The static variable at program start. *)
Definition parser_boot : sg_parser_t := Parser false false (replicate PARSER_CAPACITY 0%Z) 0.

Definition led_version : list Z :=
  [0x30; 0x30; 0x30; 0x2D; 0x30; 0x30; 0x30; 0x30; 0x30; 0xFF; 0x11; 0x40]%Z.
Definition hw_version : list Z := [0x38; 0x33; 0x37; 0x2D; 0x31; 0x35; 0x32; 0x38; 0x36]%Z.

(** [checksum += bytes[j]] for the indices [js]. *)
Fixpoint checksum_loop {S} (bytes : list Z) (js : list nat) (checksum : Z) : M S Z :=
  match js with
  | [] => ret checksum
  | j :: js =>
      let* b := aget bytes j in
      checksum_loop bytes js (u8 (checksum + b))
  end.

Section sega.
Context {W : Type} `{Platform W} `{UsbPlatform W} `{Nfc W}.

(** [output] is the part of the array written so far, [*size] its length. *)
Definition encode_byte {S} (byte : Z) (output : list Z) : M S (list Z) :=
  if ((byte =? SG_ESCAPE) || (byte =? SG_SYNC))%Z then
    let* output := push ENCODED_CAPACITY output SG_ESCAPE in
    push ENCODED_CAPACITY output (u8 (byte - 1))
  else push ENCODED_CAPACITY output byte.

(** The loop of [send_response]: [(checksum, encoded)] after the indices [idx]. *)
Fixpoint encode_loop {S} (decoded : list Z) (idx : list nat) (checksum : Z) (encoded : list Z)
    : M S (Z * list Z) :=
  match idx with
  | [] => ret (checksum, encoded)
  | i :: idx =>
      let* byte := aget decoded i in
      let* encoded := encode_byte byte encoded in
      encode_loop decoded idx (u8 (checksum + byte)) encoded
  end.

Definition send_response (request : list Z) (status : Z) (payload : list Z)
    (payload_size : nat) : M W unit :=
  if (249 <? payload_size)%nat then ret tt else
  let decoded := replicate DECODED_CAPACITY 0%Z in
  let decoded_size := 6 + payload_size in
  let* decoded := aput decoded 0 (u8 (Z.of_nat decoded_size)) in
  let* r1 := aget request 1 in
  let* decoded := aput decoded 1 r1 in
  let* r2 := aget request 2 in
  let* decoded := aput decoded 2 r2 in
  let* r3 := aget request 3 in
  let* decoded := aput decoded 3 r3 in
  let* decoded := aput decoded 4 status in
  let* decoded := aput decoded 5 (u8 (Z.of_nat payload_size)) in
  let* decoded :=
    (if (0 <? payload_size)%nat then
       let* src := aread payload 0 payload_size in
       awrite decoded 6 src
     else ret decoded) in
  let* loop := encode_loop decoded (seq 0 decoded_size) 0 [SG_SYNC] in
  let* encoded := encode_byte loop.1 loop.2 in
  let* _sent := usb_device_send_cdc encoded (length encoded) in
  ret tt.

Definition dispatch_led (request payload : list Z) (payload_size : nat)
    : M (reader_t * W) unit :=
  let* command := aget request 3 in
  if (command =? SG_LED_SET_COLOR)%Z then
    if (payload_size =? 3)%nat then
      let* red := aget payload 0 in
      let* green := aget payload 1 in
      let* blue := aget payload 2 in
      reader_set_led red green blue
    else ret tt
  else if (command =? SG_LED_RESET)%Z then
    do* reader_set_led 0 0 0 in
    lift (send_response request 0 [0%Z] 1)
  else if (command =? SG_LED_GET_INFO)%Z then
    lift (send_response request 0 led_version 12)
  else lift (send_response request 1 [] 0).

(** The last line of [dispatch_nfc], where the [break]s lead. *)
Definition respond_err (request : list Z) (err : result unit) : M (reader_t * W) unit :=
  lift (send_response request (if is_ok err then 0 else 1)%Z [] 0).

Definition dispatch_nfc (request payload : list Z) (payload_size : nat)
    : M (reader_t * W) unit :=
  let* command := aget request 3 in
  if (command =? SG_NFC_RESET)%Z then lift (send_response request 3 [] 0)
  else if (command =? SG_NFC_GET_FW_VERSION)%Z then
    lift (send_response request 0 [0x94%Z] 1)
  else if (command =? SG_NFC_GET_HW_VERSION)%Z then
    lift (send_response request 0 hw_version 9)
  else if (command =? SG_NFC_RADIO_ON)%Z then
    let* err := reader_radio_set true in respond_err request err
  else if (command =? SG_NFC_RADIO_OFF)%Z then
    let* err := reader_radio_set false in respond_err request err
  else if (command =? SG_NFC_POLL)%Z then
    let* observed := reader_read_card in
    match observed with
    | Err e => respond_err request (Err e)
    | Ok card =>
        let response := replicate 19 0%Z in
        if bool_decide (card_type card = READER_CARD_MIFARE) then
          let* response := aput response 0 1 in
          let* response := aput response 1 0x10 in
          let* response := aput response 2 4 in
          let* uid := aread (card_mifare_uid card) 0 4 in
          let* response := awrite response 3 uid in
          lift (send_response request 0 response 7)
        else if bool_decide (card_type card = READER_CARD_FELICA) then
          let* response := aput response 0 1 in
          let* response := aput response 1 0x20 in
          let* response := aput response 2 16 in
          let* idm := aread (card_idm card) 0 8 in
          let* response := awrite response 3 idm in
          let* pmm := aread (card_pmm card) 0 8 in
          let* response := awrite response 11 pmm in
          lift (send_response request 0 response 19)
        else lift (send_response request 0 response 1)
    end
  else if (command =? SG_NFC_MIFARE_SELECT_TAG)%Z then
    let* err := (if negb (payload_size =? 4)%nat then ret (Err ESP_ERR_INVALID_SIZE)
                 else reader_mifare_select payload) in
    respond_err request err
  else if ((command =? SG_NFC_MIFARE_SET_KEY_AIME) ||
           (command =? SG_NFC_MIFARE_SET_KEY_BANA))%Z then
    let* err :=
      (if negb (payload_size =? 6)%nat then ret (Err ESP_ERR_INVALID_SIZE) else
       let ty := if (command =? SG_NFC_MIFARE_SET_KEY_AIME)%Z
                 then READER_KEY_AIME else READER_KEY_BANA in
       reader_mifare_set_key ty payload) in
    respond_err request err
  else if ((command =? SG_NFC_MIFARE_AUTHENTICATE_AIME) ||
           (command =? SG_NFC_MIFARE_AUTHENTICATE_BANA))%Z then
    let ty := if (command =? SG_NFC_MIFARE_AUTHENTICATE_AIME)%Z
              then READER_KEY_AIME else READER_KEY_BANA in
    let* err := reader_mifare_authenticate ty payload payload_size in
    respond_err request err
  else if (command =? SG_NFC_MIFARE_READ_BLOCK)%Z then
    if negb (payload_size =? 5)%nat then respond_err request (Err ESP_ERR_INVALID_SIZE) else
    let* block := aget payload 4 in
    let* read := reader_mifare_read_block payload block in
    match read with
    | Ok data => lift (send_response request 0 data 16)
    | Err e => respond_err request (Err e)
    end
  else if (command =? SG_NFC_FELICA_ENCAP)%Z then
    if (payload_size <? 9)%nat then respond_err request (Err ESP_ERR_INVALID_SIZE) else
    let* inner := aget payload 8 in
    if negb (payload_size =? 8 + Z.to_nat inner)%nat
    then respond_err request (Err ESP_ERR_INVALID_SIZE) else
    let* response := reader_felica_transact (drop 8 payload) (Z.to_nat inner) 250 in
    match response with
    | Ok data => lift (send_response request 0 data (length data))
    | Err e => respond_err request (Err e)
    end
  else if (command =? SG_NFC_TO_UPDATE_MODE)%Z then respond_err request (Ok tt)
  else if (command =? SG_NFC_SEND_HEX_DATA)%Z then
    lift (send_response request (if (payload_size =? 0x2B)%nat then 0x20 else 0)%Z [] 0)
  else lift (send_response request 1 [] 0).

Definition dispatch (request : list Z) (size : nat) : M (reader_t * W) unit :=
  if (size <? 5)%nat then ret tt else
  let* r0 := aget request 0 in
  if negb (Z.to_nat r0 =? size)%nat then ret tt else
  let* r4 := aget request 4 in
  if negb (Z.to_nat r4 =? size - 5)%nat then ret tt else
  let payload := drop 5 request in
  let payload_size := Z.to_nat r4 in
  let* address := aget request 1 in
  if (address =? SG_ADDRESS_NFC)%Z then dispatch_nfc request payload payload_size
  else if (address =? SG_ADDRESS_LED)%Z then dispatch_led request payload payload_size
  else ret tt.

Definition get_parser : M (sg_parser_t * (reader_t * W)) sg_parser_t := λ s, Val (s.1, s).

Definition update_parser (f : sg_parser_t → sg_parser_t)
    : M (sg_parser_t * (reader_t * W)) unit := modify (λ s, (f s.1, s.2)).

Definition reset_parser : M (sg_parser_t * (reader_t * W)) unit :=
  update_parser (λ p, Parser false false (bytes p) 0).

Definition sega_init : M (sg_parser_t * (reader_t * W)) unit := reset_parser.

(** The end of the loop's body: a decoded byte goes into the buffer. *)
Definition receive_decoded (byte : Z) : M (sg_parser_t * (reader_t * W)) unit :=
  let* p := get_parser in
  if (PARSER_CAPACITY <=? size p)%nat then reset_parser else
  let* stored := aput (bytes p) (size p) byte in
  do* update_parser (λ p, Parser (synchronized p) (escaped p) stored (size p + 1)) in
  let* p := get_parser in
  if (0 <? size p)%nat then
    let* first := aget (bytes p) 0 in
    let expected := Z.to_nat first + 1 in
    if (size p =? expected)%nat then
      let* checksum := checksum_loop (bytes p) (seq 0 (size p - 1)) 0 in
      let* last := aget (bytes p) (size p - 1) in
      do* (if (checksum =? last)%Z then lift (dispatch (bytes p) (size p - 1)) else ret tt) in
      reset_parser
    else if (expected <? size p)%nat then reset_parser else ret tt
  else ret tt.

(** The body of the loop of [sega_receive]. *)
Definition receive_byte (byte : Z) : M (sg_parser_t * (reader_t * W)) unit :=
  let* p := get_parser in
  if negb (synchronized p) then
    if (byte =? SG_SYNC)%Z
    then update_parser (λ p, Parser true (escaped p) (bytes p) 0)
    else ret tt
  else if negb (escaped p) && (byte =? SG_SYNC)%Z then
    update_parser (λ p, Parser (synchronized p) (escaped p) (bytes p) 0)
  else if negb (escaped p) && (byte =? SG_ESCAPE)%Z then
    update_parser (λ p, Parser (synchronized p) true (bytes p) (size p))
  else if escaped p then
    do* update_parser (λ p, Parser (synchronized p) false (bytes p) (size p)) in
    receive_decoded (u8 (byte + 1))
  else receive_decoded byte.

Definition sega_receive (data : list Z) (size : nat)
    : M (sg_parser_t * (reader_t * W)) unit :=
  foreach (seq 0 size) (λ i, let* byte := aget data i in receive_byte byte).
End sega.

(** ** The framing, specified *)

Definition escape_byte (b : Z) : list Z :=
  if ((b =? SG_ESCAPE) || (b =? SG_SYNC))%Z then [SG_ESCAPE; u8 (b - 1)] else [b].

Definition escape (l : list Z) : list Z := l ≫= escape_byte.

(** A body on the wire: the sync byte, then the body and its checksum, escaped. *)
Definition sega_frame (body : list Z) : list Z := SG_SYNC :: escape (body ++ [sum8 0 body]).

Definition response_body (request : list Z) (status : Z) (payload : list Z) : list Z :=
  [Z.of_nat (6 + length payload); request !!! 1%nat; request !!! 2%nat; request !!! 3%nat;
   status; Z.of_nat (length payload)] ++ payload.

(** The parser on lists: between frames, or in a frame with the escape flag and
    the bytes decoded so far. *)
Inductive link_state : Type :=
  | Hunting
  | Receiving (escape_seen : bool) (buffer : list Z).

(** A decoded byte: it completes the frame when the buffer has as many bytes as
    its first one announces, and then the frame's body is delivered if the byte is
    its checksum. *)
Definition link_decoded (buffer : list Z) (b : Z) : link_state * option (list Z) :=
  if (length (buffer ++ [b]) =? Z.to_nat (hd 0%Z (buffer ++ [b])) + 1)%nat
  then (Hunting, if (sum8 0 buffer =? b)%Z then Some buffer else None)
  else (Receiving false (buffer ++ [b]), None).

Definition link_step (st : link_state) (b : Z) : link_state * option (list Z) :=
  match st with
  | Hunting => (if (b =? SG_SYNC)%Z then Receiving false [] else Hunting, None)
  | Receiving false buffer =>
      if (b =? SG_SYNC)%Z then (Receiving false [], None)
      else if (b =? SG_ESCAPE)%Z then (Receiving true buffer, None)
      else link_decoded buffer b
  | Receiving true buffer => link_decoded buffer (u8 (b + 1))
  end.

(** The bodies delivered, in order. *)
Fixpoint link_run (st : link_state) (data : list Z) : link_state * list (list Z) :=
  match data with
  | [] => (st, [])
  | b :: data =>
      let '(st, delivered) := link_step st b in
      let '(st, rest) := link_run st data in
      (st, match delivered with Some body => body :: rest | None => rest end)
  end.

(** The abstraction function and the invariant of the parser's variable. *)
Definition link_of (p : sg_parser_t) : link_state :=
  if synchronized p then Receiving (escaped p) (take (size p) (bytes p)) else Hunting.

Record wf_parser (p : sg_parser_t) : Prop := {
  wf_parser_bytes : length (bytes p) = PARSER_CAPACITY ∧ is_bytes (bytes p);
  wf_parser_escaped : synchronized p = false → escaped p = false;
  wf_parser_size : synchronized p = true → 0 < size p → size p ≤ Z.to_nat (bytes p !!! 0);
}.

(** ** Lemmas: encoding *)

Lemma parser_boot_wf : wf_parser parser_boot.
Proof. split; [split; [done|apply is_bytes_replicate]|done|done]. Qed.
#[export] Hint Resolve parser_boot_wf : fw.

Lemma length_escape_byte b : 1 ≤ length (escape_byte b) ≤ 2.
Proof. unfold escape_byte. destruct (_ || _)%bool; simpl; lia. Qed.

Lemma escape_app l1 l2 : escape (l1 ++ l2) = escape l1 ++ escape l2.
Proof. apply bind_app. Qed.

Lemma escape_cons b l : escape (b :: l) = escape_byte b ++ escape l.
Proof. done. Qed.

Lemma length_escape l : length l ≤ length (escape l) ≤ 2 * length l.
Proof.
  induction l as [|b l IH]; [simpl; lia|]. rewrite escape_cons, length_app.
  pose proof (length_escape_byte b). simpl length. lia.
Qed.

Lemma encode_byte_run {S} b out (s : S) :
  length out + 2 ≤ ENCODED_CAPACITY → encode_byte b out s = Val (out ++ escape_byte b, s).
Proof.
  intros Hlen. apply wp_val. unfold encode_byte, escape_byte. wp_case; wp_steps.
  - apply wp_push; [lia|]. wp_steps. apply wp_push; [solve_len|]. by rewrite <- app_assoc.
  - apply wp_push; [lia|]. done.
Qed.

Lemma encode_loop_run {S} decoded i n c out (s : S) :
  i + n ≤ length decoded → length out + 2 * n ≤ ENCODED_CAPACITY →
  encode_loop decoded (seq i n) c out s =
    Val ((sum8 c (take n (drop i decoded)), out ++ escape (take n (drop i decoded))), s).
Proof.
  revert i c out. induction n as [|n IH]; intros i c out Hi Hlen; cbn [seq encode_loop].
  - by rewrite app_nil_r.
  - destruct (lookup_lt_is_Some_2 decoded i) as [b Hb]; [lia|].
    rewrite (drop_S _ _ _ Hb). cbn [take]. unfold bind at 1, aget. rewrite Hb. unfold ret at 1.
    rewrite (bind_val _ _ _ _ _ (encode_byte_run b out s ltac:(lia))).
    rewrite IH; [|lia|pose proof (length_escape_byte b); solve_len].
    rewrite escape_cons, app_assoc. done.
Qed.

(** The array that holds the response before encoding. *)
Lemma response_array request status payload n :
  4 ≤ length request → n ≤ 249 → n ≤ length payload → 
  let head := <[5:=u8 (Z.of_nat n)]> (<[4:=status]> (<[3:=request !!! 3%nat]> (<[2:=request !!! 2%nat]>
    (<[1:=request !!! 1%nat]> (<[0:=u8 (Z.of_nat (6 + n))]> (replicate DECODED_CAPACITY 0%Z)))))) in
  take (6 + n) (take 6 head ++ take n payload ++ drop (6 + n) head) =
    response_body request status (take n payload).
Proof.
  intros Hreq Hn Hp head. rewrite app_assoc, take_app_length'.
  2: { unfold head. rewrite length_app, !length_take, !length_insert, length_replicate.
       unfold DECODED_CAPACITY. lia. }
  unfold response_body. f_equal. rewrite length_take, Nat.min_l by lia.
  rewrite <- (u8_id (Z.of_nat n)), <- (u8_id (Z.of_nat (6 + n))) by (unfold is_byte; lia).
  reflexivity.
Qed.

(** Runs the first command of a sequence, given how to prove its outcome. *)
Ltac run_step tac :=
  etransitivity; [apply bind_val; tac|]; cbn beta.

Section send_response.
Context {W : Type} `{Platform W} `{UsbPlatform W}.

Lemma send_response_run request status payload n (w : W) :
  4 ≤ length request → n ≤ length payload →
  send_response request status payload n w =
    if (249 <? n)%nat then Val (tt, w) else
    let frame := sega_frame (response_body request status (take n payload)) in
    bind (usb_device_send_cdc frame (length frame)) (λ _, ret tt) w.
Proof.
  intros Hreq Hp. unfold send_response. destruct (249 <? n)%nat eqn:Hn; [done|]. reflect_bools.
  assert (Hget : ∀ i (s : W), i < 4 → aget request i s = Val (request !!! i, s)).
  { intros i s Hi. unfold aget.
    rewrite (list_lookup_lookup_total_lt request i) by lia. done. }
  assert (Hput : ∀ l i v (s : W), i < length l → aput l i v s = Val (<[i:=v]> l, s)).
  { intros l i v s Hi. by apply wp_val, wp_aput. }
  do 9 run_step ltac:(first [apply Hput; rewrite ?length_insert, length_replicate; unfold DECODED_CAPACITY; lia
                            | apply Hget; lia]).
  pose proof (response_array request status payload n Hreq Hn Hp) as Harr. cbn zeta in Harr.
  set (head := <[5:=u8 (Z.of_nat n)]> _) in *.
  assert (Hhead : length head = DECODED_CAPACITY) by reflexivity.
  set (array := take 6 head ++ take n payload ++ drop (6 + n) head) in *.
  assert (Hal : length array = DECODED_CAPACITY).
  { unfold array. rewrite !length_app, !length_take, length_drop, Hhead.
    unfold DECODED_CAPACITY. lia. }
  rewrite (bind_val _ _ w array w).
  2: { destruct (0 <? n)%nat eqn:Hpos; reflect_bools.
    - apply wp_val. wp_steps. apply wp_aread; [lia|]. wp_steps. rewrite drop_0.
      apply wp_awrite; rewrite length_take, Nat.min_l by lia;
        [rewrite Hhead; unfold DECODED_CAPACITY; lia|done].
    - assert (n = 0) as -> by lia. unfold array. by rewrite take_0, take_drop. }
  unfold ENCODED_CAPACITY, DECODED_CAPACITY in *.
  rewrite (bind_val _ _ w _ w (encode_loop_run array 0 (6 + n) 0 [SG_SYNC] w
    ltac:(lia) ltac:(simpl; unfold ENCODED_CAPACITY; lia))).
  rewrite drop_0, Harr. cbn [fst snd].
  set (body := response_body request status (take n payload)).
  assert (Hbl : length body = 6 + n).
  { unfold body, response_body. rewrite length_app, length_take. simpl. lia. }
  clearbody body. pose proof (length_escape body) as Hel.
  run_step ltac:(apply encode_byte_run; rewrite length_app; simpl length; unfold ENCODED_CAPACITY; lia).
  unfold sega_frame. rewrite escape_app, app_comm_cons. rewrite (escape_cons (sum8 0 body) []).
  by rewrite app_nil_r.
Qed.
End send_response.

(** ** Lemmas: the parser on lists *)

Lemma link_run_app st d1 d2 :
  link_run st (d1 ++ d2) =
    ((link_run (link_run st d1).1 d2).1,
     (link_run st d1).2 ++ (link_run (link_run st d1).1 d2).2).
Proof.
  revert st. induction d1 as [|b d1 IH]; intros st; cbn [link_run app fst snd].
  - by destruct (link_run st d2).
  - destruct (link_step st b) as [st1 o]. rewrite IH.
    destruct (link_run st1 d1) as [st2 bodies]. cbn [fst snd]. by destruct o.
Qed.

(** One byte of the body in its wire form is one decoded byte. *)
Lemma link_run_escape_byte buf b :
  is_byte b → link_run (Receiving false buf) (escape_byte b) =
    ((link_decoded buf b).1, option_list (link_decoded buf b).2).
Proof.
  unfold is_byte. intros Hb. unfold escape_byte.
  destruct (_ || _)%bool eqn:He; cbn [link_run link_step].
  - change ((SG_ESCAPE =? SG_SYNC)%Z) with false. rewrite Z.eqb_refl.
    cbn [link_step]. rewrite u8_add_l. replace (b - 1 + 1)%Z with b by lia.
    rewrite u8_id by done. by destruct (link_decoded buf b) as [st [body|]].
  - apply orb_false_iff in He as [-> ->]. by destruct (link_decoded buf b) as [st [body|]].
Qed.

(** The body's bytes are collected as long as the announced length is not
    reached, and the checksum then delivers it. *)
Lemma link_run_body buf l :
  is_bytes l → buf ++ l ≠ [] → length (buf ++ l) = Z.to_nat (hd 0%Z (buf ++ l)) → 
  link_run (Receiving false buf) (escape (l ++ [sum8 0 (buf ++ l)])) =
    (Hunting, [buf ++ l]).
Proof.
  revert buf. induction l as [|b l IH]; intros buf Hl Hne Hlen.
  - rewrite app_nil_r in *. cbn [app]. rewrite escape_cons, link_run_app.
    rewrite link_run_escape_byte by auto with fw. unfold link_decoded.
    destruct buf as [|n buf]; [done|]. cbn [app hd] in *.
    rewrite app_comm_cons, length_app, Hlen. cbn [length].
    by rewrite Nat.eqb_refl, Z.eqb_refl.
  - apply Forall_cons in Hl as [Hb Hl]. cbn [app]. rewrite escape_cons, link_run_app.
    rewrite link_run_escape_byte by done.
    assert (Hmid : buf ++ b :: l = (buf ++ [b]) ++ l) by by rewrite <- app_assoc.
    rewrite Hmid in *.
    assert (Hd : link_decoded buf b = (Receiving false (buf ++ [b]), None)).
    { unfold link_decoded. destruct (Nat.eqb_spec (length (buf ++ [b]))
        (Z.to_nat (hd 0%Z (buf ++ [b])) + 1)) as [Heq|]; [|done].
      assert (hd 0%Z ((buf ++ [b]) ++ l) = hd 0%Z (buf ++ [b])) as Hhd by by destruct buf.
      rewrite Hhd, length_app in Hlen. lia. }
    rewrite Hd. cbn [fst snd option_list]. rewrite IH by done. done.
Qed.

(** Between frames, or in a frame without a pending escape, the sync byte starts one. *)
Lemma link_run_sync st body :
  st = Hunting ∨ (∃ buf, st = Receiving false buf) →
  is_bytes body → body ≠ [] → length body = Z.to_nat (hd 0%Z body) →
  link_run st (SG_SYNC :: escape (body ++ [sum8 0 body])) = (Hunting, [body]).
Proof.
  intros Hst Hb Hne Hlen. cbn [link_run].
  assert (Hstep : link_step st SG_SYNC = (Receiving false [], None)) by by destruct Hst as [->|[buf ->]].
  rewrite Hstep. pose proof (link_run_body [] body Hb Hne Hlen) as Hbody. cbn [app] in Hbody.
  by rewrite Hbody.
Qed.

(** Bytes short of the announced length are collected. *)
Lemma link_run_collect buf l :
  is_bytes l → buf ≠ [] → length buf + length l ≤ Z.to_nat (hd 0%Z buf) →
  link_run (Receiving false buf) (escape l) = (Receiving false (buf ++ l), []).
Proof.
  revert buf. induction l as [|b l IH]; intros buf Hl Hne Hlen; [by rewrite app_nil_r|].
  apply Forall_cons in Hl as [Hb Hl]. cbn [length] in Hlen.
  rewrite escape_cons, link_run_app, link_run_escape_byte by done.
  assert (Hhd : hd 0%Z (buf ++ [b]) = hd 0%Z buf) by by destruct buf.
  assert (Hd : link_decoded buf b = (Receiving false (buf ++ [b]), None)).
  { unfold link_decoded. rewrite Hhd, length_app. cbn [length].
    by rewrite (proj2 (Nat.eqb_neq _ _)) by lia. }
  rewrite Hd. cbn [fst snd option_list app].
  rewrite IH; [by rewrite <- app_assoc|done|by destruct buf|]. rewrite Hhd, length_app. cbn [length]. lia.
Qed.

(** After an escape byte the sync byte is data. *)
Lemma link_run_swallowed buf l :
  is_bytes l → length (buf ++ [0xE1%Z]) + length l ≤ Z.to_nat (hd 0%Z (buf ++ [0xE1%Z])) →
  link_run (Receiving true buf) (SG_SYNC :: escape l) = (Receiving false ((buf ++ [0xE1%Z]) ++ l), []).
Proof.
  intros Hl Hlen. cbn [link_run link_step]. change (u8 (SG_SYNC + 1)) with 0xE1%Z.
  unfold link_decoded. rewrite (proj2 (Nat.eqb_neq _ _)) by lia.
  rewrite link_run_collect; [done|done|by destruct buf|done].
Qed.


Lemma escape_byte_no_sync b : is_byte b → Forall (λ x, x ≠ SG_SYNC) (escape_byte b).
Proof.
  unfold is_byte, escape_byte, SG_ESCAPE, SG_SYNC. intros Hb.
  destruct (_ || _)%bool eqn:He.
  - apply orb_true_iff in He as [->%Z.eqb_eq | ->%Z.eqb_eq]; by repeat constructor.
  - reflect_bools. by repeat constructor.
Qed.

Lemma escape_no_sync l : is_bytes l → Forall (λ x, x ≠ SG_SYNC) (escape l).
Proof.
  induction 1 as [|b l Hb _ IH]; [constructor|].
  rewrite escape_cons. apply Forall_app_2; [by apply escape_byte_no_sync|done].
Qed.

Lemma is_bytes_escape l : is_bytes l → is_bytes (escape l).
Proof.
  induction 1 as [|b l Hb _ IH]; [constructor|]. rewrite escape_cons.
  apply Forall_app_2; [|done]. unfold escape_byte.
  destruct (_ || _)%bool; repeat apply Forall_cons_2; auto with fw.
  split; by vm_compute.
Qed.

(** ** Lemmas: the parser of the source implements it *)

Lemma checksum_loop_run {S} l n c (s : S) :
  ∀ i, i + n ≤ length l →
  checksum_loop l (seq i n) c s = Val (sum8 c (take n (drop i l)), s).
Proof.
  revert c. induction n as [|n IH]; intros c i Hi; [done|]. cbn [seq checksum_loop].
  destruct (lookup_lt_is_Some_2 l i) as [b Hb]; [lia|].
  rewrite (drop_S _ _ _ Hb). cbn [take]. unfold bind, aget. rewrite Hb. unfold ret.
  rewrite IH by lia. done.
Qed.

Lemma take_insert_snoc (l : list Z) i b :
  i < length l → take (S i) (<[i:=b]> l) = take i l ++ [b].
Proof.
  intros Hi. rewrite (take_S_r _ _ b) by by apply list_lookup_insert_eq.
  by rewrite take_insert_ge by lia.
Qed.

Section parser.
Context {W : Type} `{Platform W} `{UsbPlatform W} `{Nfc W}.

(** Storing the byte and deciding what it completes. *)
Lemma receive_decoded_store l n b first (s : reader_t * W) :
  length l = PARSER_CAPACITY → n ≤ 255 → <[n:=b]> l !! 0 = Some first →
  receive_decoded b (Parser true false l n, s) =
    (if (n + 1 =? Z.to_nat first + 1)%nat then
       bind (bind (checksum_loop (<[n:=b]> l) (seq 0 n) 0) (λ checksum,
         if (checksum =? b)%Z then lift (dispatch (<[n:=b]> l) n) else ret tt)) (λ _, reset_parser)
     else if (Z.to_nat first + 1 <? n + 1)%nat then reset_parser else ret tt)
    (Parser true false (<[n:=b]> l) (n + 1), s).
Proof.
  unfold PARSER_CAPACITY. intros Hl Hn Hfirst.
  assert (Hlast : <[n:=b]> l !! n = Some b) by (apply list_lookup_insert_eq; lia).
  unfold receive_decoded, bind at 1, get_parser at 1, PARSER_CAPACITY. cbn [fst size bytes].
  rewrite (proj2 (Nat.leb_gt _ _)) by lia. unfold aput. rewrite (proj2 (Nat.ltb_lt _ _)) by lia.
  unfold bind at 1, ret at 1. unfold bind at 1, update_parser at 1, modify.
  cbn [fst snd synchronized escaped size bytes].
  unfold bind at 1, get_parser at 1. cbn [fst size bytes].
  rewrite (proj2 (Nat.ltb_lt _ _)) by lia.
  unfold bind at 1, aget at 1. rewrite Hfirst. unfold ret at 1.
  replace (n + 1 - 1) with n by lia.
  destruct (_ =? _)%nat; [|done]. unfold bind at 1 4 5.
  destruct (checksum_loop _ _ _ _) as [[c s']| |]; [|done..].
  unfold bind at 1, aget. by rewrite Hlast.
Qed.

(** A decoded byte.  The guard on the buffer's size and the reset of an
    overlong frame are never reached. *)
Lemma receive_decoded_run p (s : reader_t * W) b :
  wf_parser p → synchronized p = true → is_byte b → 
  let esc := escaped p in
  esc = false →
  ∃ p', wf_parser p' ∧
    link_of p' = (link_decoded (take (size p) (bytes p)) b).1 ∧
    receive_decoded b (p, s) =
      match (link_decoded (take (size p) (bytes p)) b).2 with
      | None => Val (tt, (p', s))
      | Some body => lift (dispatch (bytes p') (length body)) (p', s)
      end ∧
    ∀ body, (link_decoded (take (size p) (bytes p)) b).2 = Some body →
      take (length body) (bytes p') = body.
Proof.
  intros [[Hl Hb] _ Hs] Hsync Hbyte esc Hesc. subst esc.
  destruct p as [sy es l n]. cbn [synchronized escaped bytes size] in *. subst sy es.
  unfold PARSER_CAPACITY in *.
  assert (Hn : n ≤ 255).
  { destruct (decide (0 < n)) as [Hpos|]; [|lia]. specialize (Hs eq_refl Hpos).
    assert (is_byte (l !!! 0)) as Hb0.
    { apply (is_bytes_lookup l 0); [done|]. apply list_lookup_lookup_total_lt. lia. }
    unfold is_byte in Hb0. lia. }
  set (l' := <[n:=b]> l).
  assert (Hl' : length l' = 257) by (by unfold l'; rewrite length_insert).
  assert (Hb' : is_bytes l') by by apply Forall_insert.
  assert (Hsnoc : take n l ++ [b] = take (S n) l') by (symmetry; apply take_insert_snoc; lia).
  destruct (lookup_lt_is_Some_2 l' 0) as [first Hfirst]; [lia|].
  assert (Hhd : hd 0%Z (take (S n) l') = first) by by destruct l'; simpl in *; congruence.
  assert (Htn : take n l' = take n l) by (apply take_insert_ge; lia).
  pose proof (receive_decoded_store l n b first s Hl Hn Hfirst) as Hrun. fold l' in Hrun.
  unfold link_decoded. rewrite Hrun, Hsnoc, Hhd, length_take, Nat.min_l by lia.
  replace (S n) with (n + 1) by lia.
  destruct (n + 1 =? Z.to_nat first + 1)%nat eqn:Hfull; reflect_bools.
  - exists (Parser false false l' 0). split; [by split|]. split; [done|].
    unfold bind. rewrite checksum_loop_run by lia. rewrite drop_0, Htn. cbn [fst snd].
    destruct (sum8 0 (take n l) =? b)%Z; cbn [fst snd].
    + rewrite length_take, Nat.min_l by lia. split.
      * unfold lift. cbn [fst snd bytes]. by destruct (dispatch l' n s) as [[[] s']| |].
      * intros body [= <-]. cbn [bytes]. by rewrite length_take, Nat.min_l by lia.
    + by split.
  - assert (Hlt : n + 1 ≤ Z.to_nat first).
    { destruct (decide (n = 0)) as [->|]; [lia|].
      specialize (Hs eq_refl ltac:(lia)).
      assert (l !!! 0 = first) as Hf0; [|lia].
      apply list_lookup_total_correct. rewrite <- Hfirst. unfold l'.
      by rewrite list_lookup_insert_ne by lia. }
    rewrite (proj2 (Nat.ltb_ge _ _)) by lia.
    exists (Parser true false l' (n + 1)). split; [|by cbn [fst snd]].
    split; [done|done|]. intros _ _. cbn [size bytes].
    by rewrite (list_lookup_total_correct _ _ _ Hfirst).
Qed.

Lemma receive_byte_run p (s : reader_t * W) b :
  wf_parser p → is_byte b →
  ∃ p', wf_parser p' ∧ link_of p' = (link_step (link_of p) b).1 ∧
    receive_byte b (p, s) =
      match (link_step (link_of p) b).2 with
      | None => Val (tt, (p', s))
      | Some body => lift (dispatch (bytes p') (length body)) (p', s)
      end ∧
    ∀ body, (link_step (link_of p) b).2 = Some body → take (length body) (bytes p') = body.
Proof.
  intros Hwf Hb. pose proof Hwf as [Hbytes Hesc Hsize].
  destruct p as [[] es l n]; cbn [synchronized escaped bytes size] in *.
  - unfold link_of. cbn [synchronized escaped bytes size link_step].
    unfold receive_byte, bind at 1, get_parser at 1. cbn [fst synchronized escaped negb andb].
    destruct es; cbn [negb andb].
    + unfold bind at 1, update_parser at 1, modify. cbn [fst snd synchronized escaped bytes size].
      apply (receive_decoded_run (Parser true false l n)); auto with fw. by split.
    + destruct (b =? SG_SYNC)%Z; [|destruct (b =? SG_ESCAPE)%Z].
      * exists (Parser true false l 0). split; [split; cbn; try done; lia|by rewrite take_0].
      * exists (Parser true true l n). by split; [split|].
      * by apply (receive_decoded_run (Parser true false l n)).
  - rewrite (Hesc eq_refl) in *. unfold link_of. cbn [synchronized link_step].
    unfold receive_byte, bind at 1, get_parser at 1. cbn [fst synchronized negb].
    destruct (b =? SG_SYNC)%Z.
    + exists (Parser true false l 0). split; [split; cbn; try done; lia|]. by rewrite take_0.
    + exists (Parser false false l n). by split; [split|].
Qed.
End parser.

(** ** What each command answers *)

(** The payload of a POLL response. *)
Definition poll_body (card : reader_card_t) : list Z :=
  match card_type card with
  | READER_CARD_MIFARE => [1; 0x10; 4]%Z ++ card_mifare_uid card
  | READER_CARD_FELICA => [1; 0x20; 16]%Z ++ card_idm card ++ card_pmm card
  | READER_CARD_NONE => [0%Z]
  end.

Section answers.
Context {W : Type} `{Platform W} `{UsbPlatform W} `{Nfc W}.

Definition answer_of {A} (r : result A) (data : A → list Z) : Z * list Z :=
  match r with Ok a => (0%Z, data a) | Err _ => (1%Z, []) end.

Definition no_data (u : unit) : list Z := [].

(** Runs a reader operation if the payload has the right size. *)
Definition ask {A} (sized : bool) (call : M (reader_t * W) (result A)) (data : A → list Z)
    : M (reader_t * W) (Z * list Z) :=
  if sized then bind call (λ r, ret (answer_of r data)) else ret (1%Z, []).

(** The NFC command table: the reader operation a command runs, and the status
    and payload of its one response. *)
Definition nfc_command (command : Z) (payload : list Z) (n : nat)
    : M (reader_t * W) (Z * list Z) :=
  let cmd c := (command =? c)%Z in
  if cmd SG_NFC_RESET then ret (3%Z, [])
  else if cmd SG_NFC_GET_FW_VERSION then ret (0%Z, [0x94%Z])
  else if cmd SG_NFC_GET_HW_VERSION then ret (0%Z, hw_version)
  else if cmd SG_NFC_RADIO_ON then ask true (reader_radio_set true) no_data
  else if cmd SG_NFC_RADIO_OFF then ask true (reader_radio_set false) no_data
  else if cmd SG_NFC_POLL then ask true reader_read_card poll_body
  else if cmd SG_NFC_MIFARE_SELECT_TAG then
    ask (n =? 4)%nat (reader_mifare_select payload) no_data
  else if cmd SG_NFC_MIFARE_SET_KEY_AIME then
    ask (n =? 6)%nat (reader_mifare_set_key READER_KEY_AIME payload) no_data
  else if cmd SG_NFC_MIFARE_SET_KEY_BANA then
    ask (n =? 6)%nat (reader_mifare_set_key READER_KEY_BANA payload) no_data
  else if cmd SG_NFC_MIFARE_AUTHENTICATE_AIME then
    ask true (reader_mifare_authenticate READER_KEY_AIME payload n) no_data
  else if cmd SG_NFC_MIFARE_AUTHENTICATE_BANA then
    ask true (reader_mifare_authenticate READER_KEY_BANA payload n) no_data
  else if cmd SG_NFC_MIFARE_READ_BLOCK then
    ask (n =? 5)%nat (reader_mifare_read_block payload (payload !!! 4%nat)) id
  else if cmd SG_NFC_FELICA_ENCAP then
    let inner := Z.to_nat (payload !!! 8%nat) in
    ask ((9 <=? n) && (n =? 8 + inner))%nat
      (reader_felica_transact (drop 8 payload) inner 250) id
  else if cmd SG_NFC_TO_UPDATE_MODE then ret (0%Z, [])
  else if cmd SG_NFC_SEND_HEX_DATA then
    ret (if (n =? 0x2B)%nat then 0x20%Z else 0%Z, [])
  else ret (1%Z, []).

(** The LED command table; setting the colour is not answered. *)
Definition led_command (command : Z) : option (Z * list Z) :=
  if (command =? SG_LED_SET_COLOR)%Z then None
  else if (command =? SG_LED_RESET)%Z then Some (0%Z, [0%Z])
  else if (command =? SG_LED_GET_INFO)%Z then Some (0%Z, led_version)
  else Some (1%Z, []).

(** The one response, which a payload above 249 bytes suppresses. *)
Definition reply (request : list Z) (answer : Z * list Z) : M (reader_t * W) unit :=
  if (249 <? length answer.2)%nat then ret tt else
  let frame := sega_frame (response_body request answer.1 answer.2) in
  lift (bind (usb_device_send_cdc frame (length frame)) (λ _, ret tt)).

(** A request is [length; address; sequence; command; payload length] and the
    payload, both lengths being right. *)
Definition valid_request (request : list Z) (size : nat) : bool :=
  (5 <=? size)%nat && (Z.to_nat (request !!! 0%nat) =? size)%nat &&
  (Z.to_nat (request !!! 4%nat) =? size - 5)%nat.

Definition sega_answer (request : list Z) (size : nat) : M (reader_t * W) unit :=
  if negb (valid_request request size) then ret tt
  else if (request !!! 1%nat =? SG_ADDRESS_NFC)%Z then
    bind (nfc_command (request !!! 3%nat) (drop 5 request) (size - 5)) (reply request)
  else if (request !!! 1%nat =? SG_ADDRESS_LED)%Z then
    match led_command (request !!! 3%nat) with
    | Some answer => reply request answer
    | None => ret tt
    end
  else ret tt.
End answers.

Section answers_laws.
Context {W : Type} `{PlatformLaws W inv clock} `{!UsbPlatform W} `{!CdcLaws W inv}.
Context `{!Nfc W} `{!NfcLaws W inv}.
Abbreviation rinv := (reader_inv (W := W) (inv := inv)).
Implicit Types s : reader_t * W.

Lemma aget_total {S} (l : list Z) i (s : S) : i < length l → aget l i s = Val (l !!! i, s).
Proof. intros Hi. unfold aget. by rewrite (list_lookup_lookup_total_lt l i). Qed.

Lemma lift_send_response request st payload n s :
  4 ≤ length request → n ≤ length payload →
  lift (send_response request st payload n) s = reply request (st, take n payload) s.
Proof.
  intros. unfold lift at 1, reply. rewrite send_response_run by done. cbn [snd].
  rewrite length_take, Nat.min_l by lia. destruct s as [r w].
  by destruct (249 <? n)%nat.
Qed.

Lemma send_all request st payload n s :
  4 ≤ length request → length payload = n →
  lift (send_response request st payload n) s = reply request (st, payload) s.
Proof. intros ? <-. rewrite lift_send_response by done. by rewrite take_ge by done. Qed.

Lemma respond_err_run request err s :
  4 ≤ length request →
  respond_err request err s = reply request (answer_of err no_data) s.
Proof. intros. unfold respond_err. rewrite send_all by done. by destruct err as [[]|]. Qed.

(** A reader call and what is made of its result. *)
Lemma ask_run {A} sized (call : M (reader_t * W) (result A)) data request s k :
  (sized = true → ∀ r s', call s = Val (r, s') →
     k r s' = reply request (answer_of r data) s') →
  (if sized then bind call k else reply request (1%Z, [])) s =
    bind (ask sized call data) (reply request) s.
Proof.
  intros Hk. unfold ask. destruct sized; [|done]. unfold bind.
  destruct (call s) as [[r s']| |]; [|done..]. by rewrite (Hk eq_refl r s').
Qed.

(** The [size] checks of the handlers, in the shape of [ask]. *)
Lemma sized_call_run sized (call : M (reader_t * W) (result unit)) request s :
  4 ≤ length request →
  bind (if negb sized then ret (Err ESP_ERR_INVALID_SIZE) else call) (respond_err request) s =
    bind (ask sized call no_data) (reply request) s.
Proof.
  intros Hl. destruct sized; cbn [negb].
  - apply (ask_run true call no_data request s). intros _ r s' _. by apply respond_err_run.
  - unfold ask, bind. apply (respond_err_run request (Err _)). done.
Qed.

Lemma respond_card_run request card s :
  4 ≤ length request → wf_card card →
  (let response := replicate 19 0%Z in
   if bool_decide (card_type card = READER_CARD_MIFARE) then
     let* response := aput response 0 1 in
     let* response := aput response 1 0x10 in
     let* response := aput response 2 4 in
     let* uid := aread (card_mifare_uid card) 0 4 in
     let* response := awrite response 3 uid in
     lift (send_response request 0 response 7)
   else if bool_decide (card_type card = READER_CARD_FELICA) then
     let* response := aput response 0 1 in
     let* response := aput response 1 0x20 in
     let* response := aput response 2 16 in
     let* idm := aread (card_idm card) 0 8 in
     let* response := awrite response 3 idm in
     let* pmm := aread (card_pmm card) 0 8 in
     let* response := awrite response 11 pmm in
     lift (send_response request 0 response 19)
   else lift (send_response request 0 response 1)) s = reply request (0%Z, poll_body card) s.
Proof.
  intros Hl [(Hu & _) _ _ (Hi & _) (Hp & _) _ _ _ _]. unfold poll_body.
  destruct card as [[] uid luid blocks idm pmm has]; cbn [card_type card_mifare_uid card_idm
    card_pmm] in *; repeat (rewrite bool_decide_eq_false_2 by done);
    repeat (rewrite bool_decide_eq_true_2 by done).
  - by rewrite lift_send_response by (simpl; lia).
  - explode_lists. unfold aput, aread, awrite, bind, ret. simpl replicate. 
    cbn -[lift send_response reply]. by rewrite lift_send_response by (simpl; lia).
  - explode_lists. unfold aput, aread, awrite, bind, ret.
    cbn -[lift send_response reply]. by rewrite lift_send_response by (simpl; lia).
Qed.

Lemma dispatch_nfc_run request payload n s :
  rinv s → 4 ≤ length request → n ≤ length payload → is_bytes payload →
  dispatch_nfc request payload n s =
    bind (nfc_command (request !!! 3%nat) payload n) (reply request) s.
Proof.
  intros Hs Hl Hn Hb. destruct s as [r w]. destruct Hs as [Hr Hw]. cbn [fst snd] in *.
  unfold dispatch_nfc. rewrite (bind_val _ _ _ _ _ (aget_total request 3 (r, w) ltac:(lia))).
  unfold nfc_command. generalize (request !!! 3). intros command. cbn zeta.
  destruct (command =? SG_NFC_RESET)%Z; [by apply send_all|].
  destruct (command =? SG_NFC_GET_FW_VERSION)%Z; [by apply send_all|].
  destruct (command =? SG_NFC_GET_HW_VERSION)%Z; [by apply send_all|].
  destruct (command =? SG_NFC_RADIO_ON)%Z; [by apply (sized_call_run true)|].
  destruct (command =? SG_NFC_RADIO_OFF)%Z; [by apply (sized_call_run true)|].
  destruct (command =? SG_NFC_POLL)%Z.
  { apply (ask_run true reader_read_card poll_body). intros _ [card|e] s' Hrun.
    - apply respond_card_run; [done|].
      pose proof (reader_read_card_wp r w Hr Hw) as Hwp. unfold wp in Hwp. rewrite Hrun in Hwp.
      destruct Hwp as (_ & _ & _ & _ & Hc). by destruct (Hc card eq_refl).
    - by apply respond_err_run. }
  destruct (command =? SG_NFC_MIFARE_SELECT_TAG)%Z; [by apply sized_call_run|].
  destruct (command =? SG_NFC_MIFARE_SET_KEY_AIME)%Z; [by apply sized_call_run|]. cbn [orb].
  destruct (command =? SG_NFC_MIFARE_SET_KEY_BANA)%Z; [by apply sized_call_run|].
  destruct (command =? SG_NFC_MIFARE_AUTHENTICATE_AIME)%Z; [by apply (sized_call_run true)|].
  cbn [orb].
  destruct (command =? SG_NFC_MIFARE_AUTHENTICATE_BANA)%Z; [by apply (sized_call_run true)|].
  destruct (command =? SG_NFC_MIFARE_READ_BLOCK)%Z.
  { destruct (Nat.eqb_spec n 5) as [->|]; cbn [negb]; [|by apply respond_err_run].
    rewrite (bind_val _ _ _ _ _ (aget_total payload 4 (r, w) ltac:(lia))).
    apply (ask_run true). intros _ [data|e] s' Hrun; [|by apply respond_err_run].
    apply send_all; [done|].
    pose proof (reader_mifare_read_block_wp payload (payload !!! 4) r w Hr Hw ltac:(lia)
      (is_bytes_lookup _ _ _ Hb (list_lookup_lookup_total_lt payload 4 ltac:(lia)))) as Hwp.
    unfold wp in Hwp. rewrite Hrun in Hwp. by apply Hwp. }
  destruct (command =? SG_NFC_FELICA_ENCAP)%Z.
  { destruct (Nat.ltb_spec n 9).
    { rewrite (proj2 (Nat.leb_gt 9 n)) by lia. by apply respond_err_run. }
    rewrite (proj2 (Nat.leb_le 9 n)) by lia.
    rewrite (bind_val _ _ _ _ _ (aget_total payload 8 (r, w) ltac:(lia))).
    destruct (n =? 8 + Z.to_nat (payload !!! 8))%nat; cbn [negb andb];
      [|by apply respond_err_run].
    apply (ask_run true). intros _ [data|e] s' _; [by apply send_all|by apply respond_err_run]. }
  destruct (command =? SG_NFC_TO_UPDATE_MODE)%Z; [by apply (respond_err_run request (Ok tt))|].
  destruct (command =? SG_NFC_SEND_HEX_DATA)%Z; [by apply send_all|]. by apply send_all.
Qed.

Lemma dispatch_led_run request payload n s :
  4 ≤ length request → n ≤ length payload →
  dispatch_led request payload n s =
    match led_command (request !!! 3%nat) with
    | Some answer => reply request answer
    | None => ret tt
    end s.
Proof.
  intros Hl Hn. unfold dispatch_led.
  rewrite (bind_val _ _ _ _ _ (aget_total request 3 s ltac:(lia))). unfold led_command.
  destruct (_ =? SG_LED_SET_COLOR)%Z.
  { destruct (Nat.eqb_spec n 3) as [->|]; [|done].
    rewrite (bind_val _ _ _ _ _ (aget_total payload 0 s ltac:(lia))).
    rewrite (bind_val _ _ _ _ _ (aget_total payload 1 s ltac:(lia))).
    by rewrite (bind_val _ _ _ _ _ (aget_total payload 2 s ltac:(lia))). }
  destruct (_ =? SG_LED_RESET)%Z; [by apply send_all|].
  destruct (_ =? SG_LED_GET_INFO)%Z; by apply send_all.
Qed.

(** [dispatch] on the parser's buffer. *)
Lemma dispatch_run request n s :
  rinv s → n ≤ length request → is_bytes request →
  dispatch request n s = sega_answer request n s.
Proof.
  intros Hs Hn Hb. unfold dispatch, sega_answer, valid_request.
  destruct (Nat.ltb_spec n 5) as [|H5]; [by rewrite (proj2 (Nat.leb_gt 5 n)) by lia|].
  rewrite (proj2 (Nat.leb_le 5 n)) by lia. cbn [andb].
  rewrite (bind_val _ _ _ _ _ (aget_total request 0 s ltac:(lia))).
  destruct (_ =? n)%nat; cbn [negb andb]; [|done].
  rewrite (bind_val _ _ _ _ _ (aget_total request 4 s ltac:(lia))).
  destruct (Nat.eqb_spec (Z.to_nat (request !!! 4)) (n - 5)) as [->|]; cbn [negb]; [|done].
  rewrite (bind_val _ _ _ _ _ (aget_total request 1 s ltac:(lia))).
  destruct (_ =? SG_ADDRESS_NFC)%Z.
  - apply dispatch_nfc_run; [done|lia|solve_len|by apply Forall_drop].
  - destruct (_ =? SG_ADDRESS_LED)%Z; [|done]. apply dispatch_led_run; [lia|solve_len].
Qed.

Lemma ask_wp {A} sized (call : M (reader_t * W) (result A)) data s :
  rinv s → (sized = true → wp call s (λ _ s', rinv s')) →
  wp (ask sized call data) s (λ _ s', rinv s').
Proof.
  intros Hs Hc. unfold ask. destruct sized; [|done]. wp_steps.
  eapply wp_mono; [by apply Hc|]. done.
Qed.

Lemma nfc_command_wp command payload n s :
  rinv s → n ≤ length payload → is_bytes payload →
  wp (nfc_command command payload n) s (λ _ s', rinv s').
Proof.
  intros Hs Hn Hb. destruct s as [r w]. pose proof Hs as [Hr Hw]. cbn [fst snd] in *.
  assert (Hkey : is_byte READER_KEY_AIME ∧ is_byte READER_KEY_BANA) by (split; by vm_compute).
  destruct Hkey as [Ha Hba].
  assert (Hget : ∀ i, i < length payload → is_byte (payload !!! i)).
  { intros i Hi. by apply (is_bytes_lookup payload i), list_lookup_lookup_total_lt. }
  unfold nfc_command. repeat (wp_case; [first
    [ by wp_steps
    | apply ask_wp; [done|]; intros Hsz; reflect_bools ]|]); try by wp_steps.
  - by apply reader_radio_set_wp.
  - by apply reader_radio_set_wp.
  - eapply wp_mono; [by apply reader_read_card_wp|]. by intros res s [? _].
  - eapply wp_mono; [apply (reader_mifare_select_wp (inv := inv)); try done; lia|].
    by intros res s ->.
  - apply reader_mifare_set_key_wp; try done. lia.
  - apply reader_mifare_set_key_wp; try done. lia.
  - by apply reader_mifare_authenticate_wp.
  - by apply reader_mifare_authenticate_wp.
  - eapply wp_mono; [apply reader_mifare_read_block_wp; try done; [lia|apply Hget; lia]|].
    by intros res s [? _].
  - eapply wp_mono; [apply reader_felica_transact_wp; try done; [|by apply Forall_drop]|].
    + rewrite length_drop. lia.
    + by intros res s [? _].
Qed.

Lemma reply_wp request answer s :
  rinv s → wp (reply request answer) s (λ _ s', rinv s').
Proof.
  intros [Hr Hw]. destruct s as [r w]. unfold reply. wp_case; wp_steps; [done|].
  eapply wp_mono; [by apply send_cdc_wp|]. intros res w' Hw'. wp_steps. by split.
Qed.

Lemma dispatch_wp request n s :
  rinv s → n ≤ length request → is_bytes request →
  wp (dispatch request n) s (λ _ s', rinv s').
Proof.
  intros Hs Hn Hb. unfold wp. rewrite dispatch_run by done.
  change (wp (sega_answer request n) s (λ _ s', rinv s')). unfold sega_answer.
  wp_case; [by wp_steps|]. apply negb_false_iff in Heqb. unfold valid_request in Heqb.
  reflect_bools. wp_case.
  - wp_steps. eapply wp_mono; [apply nfc_command_wp; [done|solve_len|by apply Forall_drop]|].
    intros answer s' Hs'. by apply reply_wp.
  - wp_case; [|by wp_steps]. destruct (led_command _); [by apply reply_wp|by wp_steps].
Qed.

(** The frames delivered are dispatched in order, each from a buffer that
    starts with its body. *)
Inductive serves : list (list Z) → reader_t * W → reader_t * W → Prop :=
  | serves_nil s : serves [] s s
  | serves_cons body bodies request s s1 s2 :
      take (length body) request = body →
      sega_answer request (length body) s = Val (tt, s1) →
      serves bodies s1 s2 → serves (body :: bodies) s s2.

Lemma receive_wp p s data n :
  wf_parser p → rinv s → n ≤ length data → is_bytes data →
  wp (sega_receive data n) (p, s) (λ _ ps, wf_parser ps.1 ∧ rinv ps.2 ∧
    link_of ps.1 = (link_run (link_of p) (take n data)).1 ∧
    serves (link_run (link_of p) (take n data)).2 s ps.2).
Proof.
  intros Hp Hs Hn Hb. unfold sega_receive.
  enough (Hgen : ∀ n i p s, wf_parser p → rinv s → i + n ≤ length data →
    wp (foreach (seq i n) (λ i, let* byte := aget data i in receive_byte byte)) (p, s)
      (λ _ ps, wf_parser ps.1 ∧ rinv ps.2 ∧
        link_of ps.1 = (link_run (link_of p) (take n (drop i data))).1 ∧
        serves (link_run (link_of p) (take n (drop i data))).2 s ps.2)) by by apply Hgen.
  clear p s n Hp Hs Hn. induction n as [|n IH]; intros i p s Hp Hs Hi.
  { split_and!; [done..|constructor]. }
  destruct (lookup_lt_is_Some_2 data i) as [b Hbi]; [lia|].
  pose proof (is_bytes_lookup _ _ _ Hb Hbi) as Hbb.
  rewrite (drop_S _ _ _ Hbi). cbn [take seq foreach link_run].
  destruct (receive_byte_run p s b Hp Hbb) as (p' & Hp' & Hlink & Hrun & Hbuf).
  destruct (link_step (link_of p) b) as [st o] eqn:Hstep. cbn [fst snd] in *. subst st.
  apply wp_bind. apply wp_bind. apply (wp_aget _ _ _ _ _ Hbi).
  unfold wp at 1. rewrite Hrun. destruct o as [body|].
  - specialize (Hbuf body eq_refl). pose proof (wf_parser_bytes _ Hp') as [_ Hbs].
    assert (Hlen : length body ≤ length (bytes p')) by (rewrite <- Hbuf, length_take; lia).
    pose proof (dispatch_wp (bytes p') (length body) s Hs Hlen Hbs) as Hd.
    apply wp_run in Hd as ([] & s1 & Hd & Hs1). unfold lift. cbn [fst snd]. rewrite Hd.
    eapply wp_mono; [apply IH; [done|done|lia]|].
    intros _ [p2 s2] (? & ? & Hl2 & Hserve). cbn [fst snd] in *.
    destruct (link_run (link_of p') _) as [st bodies]. cbn [fst snd] in *.
    split_and!; try done. econstructor; [done| |done]. by rewrite <- dispatch_run.
  - eapply wp_mono; [apply IH; [done|done|lia]|].
    intros _ [p2 s2] (? & ? & Hl2 & Hserve). cbn [fst snd] in *.
    destruct (link_run (link_of p') _) as [st bodies]. by split_and!.
Qed.
End answers_laws.

(** ** Properties *)

Section sega_claims.
Context {W : Type} `{PlatformLaws W inv clock} `{!UsbPlatform W} `{!CdcLaws W inv}.
Context `{!Nfc W} `{!NfcLaws W inv}.

(** C4: whatever bytes arrive from the host, in whatever state an earlier prefix
    left the parser, [sega_receive] returns: it never reads or writes outside
    its buffers (the checks for an overlong buffer are never the ones that save
    it), it keeps the parser and the reader well formed, moves the parser as the
    specification on lists does, and serves exactly the frames that delivers, in
    order. *)
Theorem sega_receive_refines p (s : reader_t * W) data n :
  wf_parser p → reader_inv (inv := inv) s → n ≤ length data → is_bytes data →
  ∃ p' s', sega_receive data n (p, s) = Val (tt, (p', s')) ∧
    wf_parser p' ∧ reader_inv (inv := inv) s' ∧
    link_of p' = (link_run (link_of p) (take n data)).1 ∧
    serves (link_run (link_of p) (take n data)).2 s s'.
Proof.
  intros Hp Hs Hn Hb. pose proof (receive_wp p s data n Hp Hs Hn Hb) as Hwp.
  apply wp_run in Hwp as ([] & [p' s'] & ? & ?). by exists p', s'.
Qed.

(** C11: a request the host frames is served exactly once if it arrives between frames
    or inside an abandoned frame, unless an escape byte was the last of that frame: the
    parser collects the frame of a body whose first byte is its length, delivers the
    body, and is between frames again.  After an escape byte the request is not
    recognised: its sync byte is decoded as the byte E1 of the abandoned frame, and if
    that frame announces more bytes than the request has, the request is swallowed by it
    with nothing served. *)
Theorem framed_request_served p (s : reader_t * W) body :
  wf_parser p → reader_inv (inv := inv) s →
  is_bytes body → body ≠ [] → length body = Z.to_nat (hd 0%Z body) →
  ∃ p' s', sega_receive (sega_frame body) (length (sega_frame body)) (p, s) =
      Val (tt, (p', s')) ∧
    wf_parser p' ∧ reader_inv (inv := inv) s' ∧
    (escaped p = false → link_of p' = Hunting ∧ serves [body] s s') ∧
    (escaped p = true →
     let abandoned := take (size p) (bytes p) ++ [0xE1%Z] in
     length abandoned + length body + 1 ≤ Z.to_nat (hd 0%Z abandoned) →
     link_of p' = Receiving false (abandoned ++ body ++ [sum8 0 body]) ∧ s' = s).
Proof.
  intros Hp Hs Hb Hne Hlen.
  assert (Hbc : is_bytes (body ++ [sum8 0 body])).
  { apply Forall_app_2; [done|]. auto using Forall_nil with fw. }
  assert (Hframe : is_bytes (sega_frame body)).
  { apply Forall_cons_2; [split; by vm_compute|]. by apply is_bytes_escape. }
  pose proof (receive_wp p s (sega_frame body) (length (sega_frame body)) Hp Hs
    (le_n _) Hframe) as Hwp.
  rewrite firstn_all in Hwp. apply wp_run in Hwp as ([] & [p' s'] & Hrun & Hp' & Hs' & Hlink & Hserve).
  cbn [fst snd] in *. exists p', s'. split; [done|]. split; [done|]. split; [done|].
  unfold sega_frame in Hlink, Hserve. split.
  - intros Hesc. rewrite (link_run_sync _ body) in Hlink, Hserve
      by (done || by unfold link_of; destruct (synchronized p); [rewrite Hesc; right; eexists|left]).
    by split.
  - intros Hesc Hroom.
    assert (Hsync : synchronized p = true).
    { destruct (synchronized p) eqn:Hy; [done|]. pose proof (wf_parser_escaped p Hp Hy). congruence. }
    unfold link_of in Hlink at 2. unfold link_of in Hserve. rewrite Hsync, Hesc in Hlink, Hserve.
    assert (Hfit : length (take (size p) (bytes p) ++ [0xE1%Z]) + length (body ++ [sum8 0 body]) ≤
      Z.to_nat (hd 0%Z (take (size p) (bytes p) ++ [0xE1%Z])))
      by (rewrite (length_app body); cbn [length]; lia).
    rewrite (link_run_swallowed _ _ Hbc Hfit) in Hlink, Hserve.
    split; [done|]. by inversion Hserve.
Qed.

(** C9: [dispatch] is the command table: a request with a wrong length or another
    address is ignored; an NFC command runs its reader operation and is answered once
    with its status and data if the data has at most 249 bytes, and not at all if it has
    more (which only the 250 bytes of a FeliCa exchange can be); an LED command is
    answered once, except for setting the colour. *)
Theorem dispatch_answers request n (s : reader_t * W) :
  reader_inv (inv := inv) s → n ≤ length request → is_bytes request →
  dispatch request n s = sega_answer request n s.
Proof. apply (dispatch_run (inv := inv)). Qed.

(** C12: a response of up to 249 payload bytes is written as one frame, of at most
    513 of the 520 bytes of the buffer, with the sync byte only at its start, and
    a host with the same framing recovers from it the request's address, sequence
    and command, the status and the payload. *)
Theorem send_response_frames request status payload n (w : W) :
  4 ≤ length request → is_bytes request → is_byte status →
  n ≤ length payload → is_bytes payload → n ≤ 249 →
  let body := response_body request status (take n payload) in
  send_response request status payload n w =
    bind (usb_device_send_cdc (sega_frame body) (length (sega_frame body))) (λ _, ret tt) w ∧
  length (sega_frame body) ≤ 513 ∧
  Forall (λ b, b ≠ SG_SYNC) (tail (sega_frame body)) ∧
  link_run Hunting (sega_frame body) = (Hunting, [body]).
Proof.
  intros Hreq Hrb Hst Hp Hpb Hn body.
  assert (Hl : length body = 6 + n).
  { unfold body, response_body. rewrite length_app, length_take. simpl. lia. }
  assert (Hb : is_bytes body).
  { assert (Hget : ∀ i, i < 4 → is_byte (request !!! i)).
    { intros i Hi. apply (is_bytes_lookup request i); [done|].
      apply list_lookup_lookup_total_lt. lia. }
    apply Forall_app_2; [|by apply Forall_take].
    repeat apply Forall_cons_2; try (apply Hget; lia); auto using Forall_nil;
      unfold is_byte; rewrite length_take; lia. }
  assert (Hbc : is_bytes (body ++ [sum8 0 body])).
  { apply Forall_app_2; [done|]. auto using Forall_nil with fw. }
  split_and!.
  - rewrite send_response_run by done. by rewrite (proj2 (Nat.ltb_ge 249 n) Hn).
  - unfold sega_frame. pose proof (length_escape (body ++ [sum8 0 body])) as Hel.
    rewrite length_app in Hel. simpl in *. lia.
  - by apply escape_no_sync.
  - unfold sega_frame. cbn [link_run link_step]. rewrite Z.eqb_refl.
    pose proof (link_run_body [] body Hb) as Hrun. cbn [app] in Hrun.
    rewrite Hrun; [done|done|]. rewrite Hl. unfold body, response_body. cbn [app hd].
    rewrite length_take. lia.
Qed.

(** C39: a FeliCa exchange the reader completes with 250 bytes, the capacity
    [dispatch_nfc] offers it, is not answered at all: [send_response] drops the
    payload and the host sees neither data nor an error. *)
Theorem felica_full_response_lost request payload n (r r' : reader_t) (w w' : W) data :
  4 ≤ length request → request !!! 3%nat = SG_NFC_FELICA_ENCAP →
  9 ≤ n → n ≤ length payload → n = 8 + Z.to_nat (payload !!! 8%nat) →
  reader_felica_transact (drop 8 payload) (n - 8) 250 (r, w) = Val (Ok data, (r', w')) →
  length data = 250 →
  dispatch_nfc request payload n (r, w) = Val (tt, (r', w')).
Proof.
  intros Hl Hc H9 Hn Hinner Hrun Hd. unfold dispatch_nfc.
  rewrite (bind_val _ _ _ _ _ (aget_total request 3 (r, w) ltac:(lia))), Hc.
  cbn [Z.eqb SG_NFC_RESET SG_NFC_GET_FW_VERSION SG_NFC_GET_HW_VERSION SG_NFC_RADIO_ON
       SG_NFC_RADIO_OFF SG_NFC_POLL SG_NFC_MIFARE_SELECT_TAG SG_NFC_MIFARE_SET_KEY_AIME
       SG_NFC_MIFARE_SET_KEY_BANA SG_NFC_MIFARE_AUTHENTICATE_AIME
       SG_NFC_MIFARE_AUTHENTICATE_BANA SG_NFC_MIFARE_READ_BLOCK SG_NFC_FELICA_ENCAP
       Pos.eqb orb].
  rewrite (proj2 (Nat.ltb_ge n 9) H9).
  rewrite (bind_val _ _ _ _ _ (aget_total payload 8 (r, w) ltac:(lia))).
  rewrite <- Hinner, Nat.eqb_refl. cbn [negb].
  replace (Z.to_nat (payload !!! 8)) with (n - 8) by lia.
  rewrite (bind_val _ _ _ _ _ Hrun). rewrite Hd. done.
Qed.
End sega_claims.

(** ** Witnesses *)

(** GET_FW_VERSION to the NFC address, sequence 7. *)
Definition fw_version_request : list Z := [5; 0; 7; 0x30; 0]%Z.

Lemma reader_boot_inv rx : reader_inv (inv := sim_inv) (reader_boot, sim_boot rx).
Proof. split; [apply reader_boot_wf|apply sim_boot_inv]. Qed.

Lemma sega_receive_refines_witness :
  ∃ p' s', sega_receive [1; 2; 0xE0; 0xE0; 0xD0; 0xDF]%Z 6 (parser_boot, (reader_boot, sim_boot [])) =
      Val (tt, (p', s')) ∧ link_of p' = Receiving false [0xE0%Z].
Proof.
  destruct (sega_receive_refines (inv := sim_inv) parser_boot (reader_boot, sim_boot [])
    [1; 2; 0xE0; 0xE0; 0xD0; 0xDF]%Z 6) as (p' & s' & Hrun & _ & _ & Hlink & _);
    [apply parser_boot_wf|apply reader_boot_inv|simpl; lia|solve_bytes|].
  exists p', s'. split; [exact Hrun|exact Hlink].
Defined.

(** A parser inside a frame of 64 bytes that broke off after an escape byte. *)
Definition broken_off : sg_parser_t :=
  Parser true true (64%Z :: replicate 256 0%Z) 1.

Lemma framed_request_served_witness :
  (∃ p' s', sega_receive (sega_frame fw_version_request) 7
      (parser_boot, (reader_boot, sim_boot [])) = Val (tt, (p', s')) ∧
    link_of p' = Hunting ∧
    serves [fw_version_request] (reader_boot, sim_boot []) s' ∧
    sim_usb s'.2 = [CdcQueued (sega_frame [7; 0; 7; 0x30; 0; 1; 0x94]%Z)]) ∧
  (∃ p', sega_receive (sega_frame fw_version_request) 7 (broken_off, (reader_boot, sim_boot [])) =
      Val (tt, (p', (reader_boot, sim_boot []))) ∧
    link_of p' = Receiving false [64; 0xE1; 5; 0; 7; 0x30; 0; 0x3C]%Z).
Proof.
  split.
  - destruct (framed_request_served (inv := sim_inv) parser_boot (reader_boot, sim_boot [])
      fw_version_request) as (p' & s' & Hrun & _ & _ & Hserved & _);
      [apply parser_boot_wf|apply reader_boot_inv|solve_bytes|done|reflexivity|].
    destruct (Hserved eq_refl) as [Hlink Hserve].
    exists p', s'. split; [exact Hrun|]. split; [exact Hlink|]. split; [exact Hserve|].
    revert Hrun. vm_compute. intros [= _ <-]. reflexivity.
  - destruct (framed_request_served (inv := sim_inv) broken_off (reader_boot, sim_boot [])
      fw_version_request) as (p' & s' & Hrun & _ & _ & _ & Hlost);
      [|apply reader_boot_inv|solve_bytes|done|reflexivity|].
    + split; [split; [reflexivity|]|done|intros _ _; vm_compute; lia].
      apply Forall_cons_2; [split; by vm_compute|apply is_bytes_replicate].
    + destruct (Hlost eq_refl) as [Hlink ->]; [vm_compute; lia|].
      exists p'. split; [exact Hrun|]. rewrite Hlink. vm_compute. reflexivity.
Defined.

Lemma dispatch_answers_witness :
  dispatch fw_version_request 5 (reader_boot, sim_boot []) =
    sega_answer fw_version_request 5 (reader_boot, sim_boot []).
Proof.
  apply (dispatch_answers (inv := sim_inv)); [apply reader_boot_inv|simpl; lia|solve_bytes].
Defined.

Lemma send_response_frames_witness :
  send_response fw_version_request 0 [0x94%Z] 1 (sim_boot []) =
    Val (tt, sim_log (CdcQueued [0xE0; 7; 0; 7; 0x30; 0; 1; 0x94; 0xD3]%Z) (sim_boot [])).
Proof.
  destruct (send_response_frames fw_version_request 0 [0x94%Z] 1 (sim_boot []))
    as [-> _]; [simpl; lia|solve_bytes|split; lia|simpl; lia|solve_bytes|lia|].
  vm_compute. reflexivity.
Defined.

(** A card that answers an encapsulated command with 250 bytes. *)
Definition encap_request : list Z := ([17; 0; 1; 0x71; 9] ++ replicate 8 0 ++ [1])%Z.

Lemma felica_full_response_lost_witness :
  ∃ w', dispatch_nfc encap_request (drop 5 encap_request) 9
          (reader_boot, answering 0x40 (0%Z :: replicate 250 1%Z)) =
        Val (tt, (reader_boot, w')) ∧ sim_usb w' = [].
Proof.
  eexists. split.
  - apply (felica_full_response_lost encap_request (drop 5 encap_request) 9 reader_boot reader_boot
      (answering 0x40 (0%Z :: replicate 250 1%Z)) _ (replicate 250 1%Z));
      [simpl; lia|reflexivity|lia|simpl; lia|reflexivity|vm_compute; reflexivity|reflexivity].
  - reflexivity.
Defined.
