(* ===== verification/App.v ===== *)
(** * app_main.c: the firmware

    [app_main] over all components: initialisation, the loop with its message
    handling and its card scans, and the environment's callbacks between the
    iterations.  The whole firmware is proved safe over the PN532 driver, from
    program start and for every sequence of events; scans publish exactly the
    transitions they observe, at a limited rate. *)
From S2P Require Import Prelude Platform Sim Pn532Iface Pn532 Reader UsbDevice Prhp Cardio Sega.

Definition CARD_SCAN_INTERVAL_US : Z := 200000.

(** The local variables of [app_main] that live across iterations. *)
Record app_locals : Type := AppLocals {
  current : reader_card_t;
  next_scan : Z;
}.

Definition app_locals_boot : app_locals := AppLocals zero_card 0.

Section app.
Context {W : Type} `{Platform W} `{UsbPlatform W} `{Nfc W}.

(** Everything the firmware's static variables hold, and the world. *)
Definition fw_state : Type := sg_parser_t * (reader_t * W).

Definition on_world {A} (m : M W A) : M fw_state A := lift (lift m).

(** The part of [app_main] before the loop.  [ESP_ERROR_CHECK] aborts the program
    on an error, here the [Err] that is returned. *)
Definition app_init : M fw_state (result unit) :=
  check* lift reader_init in
  do* sega_init in
  on_world usb_device_init.

Definition handle_message (m : usb_message_t) : M fw_state unit :=
  match msg_type m with
  | USB_MESSAGE_HID =>
      if (msg_size m =? PRHP_REPORT_SIZE)%nat then on_world (prhp_dispatch (msg_data m))
      else ret tt
  | USB_MESSAGE_CDC => sega_receive (msg_data m) (msg_size m)
  end.

(** The rest of the loop's body once a scan is due.  [memcmp] of the two records
    compares every byte of every field; the padding of both is zero. *)
Definition scan_card (l : app_locals) : M fw_state app_locals :=
  let* observed := lift reader_read_card in
  match observed with
  | Err _ => ret l
  | Ok observed =>
      if bool_decide (current l = observed) then ret l else
      do* on_world (prhp_publish_card_state observed) in
      do* on_world (cardio_publish_card_state observed) in
      ret (AppLocals observed (next_scan l))
  end.

(** The body of the loop once [usb_device_receive] has returned. *)
Definition app_serve (received : option usb_message_t) (l : app_locals) : M fw_state app_locals :=
  do* (match received with Some m => handle_message m | None => ret tt end) in
  let* now := on_world (prim esp_timer_get_time) in
  if (now <? next_scan l)%Z then ret l else
  scan_card (AppLocals (current l) (now + CARD_SCAN_INTERVAL_US)).

Definition app_iteration (l : app_locals) : M fw_state app_locals :=
  let* received := on_world (usb_device_receive 50) in
  app_serve received l.

(** What happens around the loop: an iteration, or a callback of the USB stack. *)
Inductive fw_event : Type :=
  | Iterate
  | SetReport (instance report_id report_type : Z) (buffer : list Z) (size : nat)
  | CdcReceived (interface : Z).

Definition fw_step (e : fw_event) (l : app_locals) : M fw_state app_locals :=
  match e with
  | Iterate => app_iteration l
  | SetReport i id ty buffer n =>
      do* on_world (tud_hid_set_report_cb i id ty buffer n) in ret l
  | CdcReceived i => do* on_world (cdc_receive_callback i) in ret l
  end.

Fixpoint fw_run (es : list fw_event) (l : app_locals) : M fw_state app_locals :=
  match es with
  | [] => ret l
  | e :: es => let* l := fw_step e l in fw_run es l
  end.

(** [app_main]: [None] when initialisation aborted. *)
Definition app_main (es : list fw_event) : M fw_state (option app_locals) :=
  let* init := app_init in
  match init with
  | Err _ => ret None
  | Ok _ => let* l := fw_run es app_locals_boot in ret (Some l)
  end.
End app.

(** The USB stack passes the callback a buffer of the size it announces. *)
Definition valid_event (e : fw_event) : Prop :=
  match e with
  | SetReport _ _ _ buffer n => n ≤ length buffer ∧ is_bytes buffer
  | _ => True
  end.

(** ** The invariant *)

Section app_laws.
Context {W : Type} `{PlatformLaws W inv clock} `{!UsbPlatform W} `{!UsbLaws W inv} `{!UsbTaskLaws W inv}.
Context `{!Nfc W} `{!NfcLaws W inv}.

Record fw_inv (s : fw_state (W := W)) : Prop := {
  fw_inv_parser : wf_parser s.1;
  fw_inv_reader : wf_reader s.2.1;
  fw_inv_world : inv s.2.2;
}.

Definition locals_ok (l : app_locals) : Prop := wf_card (current l).

Lemma on_world_wp {A} (m : M W A) s (P : A → W → Prop) :
  fw_inv s → (inv s.2.2 → wp m s.2.2 (λ a w', P a w' ∧ inv w')) →
  wp (on_world m) s (λ a s', P a s'.2.2 ∧ fw_inv s').
Proof.
  destruct s as [p [r w]]. intros [Hp Hr Hw] Hm. cbn [fst snd] in *. unfold on_world. wp_steps.
  eapply wp_mono; [by apply Hm|]. intros a w' [? ?]. by split_and!.
Qed.

Lemma on_world_inv {A} (m : M W A) s :
  fw_inv s → (inv s.2.2 → wp m s.2.2 (λ _ w', inv w')) →
  wp (on_world m) s (λ _ s', fw_inv s').
Proof.
  intros Hs Hm. eapply wp_mono; [apply (on_world_wp m s (λ _ _, True) Hs)|].
  - intros Hw. eapply wp_mono; [by apply Hm|]. done.
  - by intros a s' [_ ?].
Qed.

Lemma handle_message_wp m s :
  fw_inv s → wf_message m → wp (handle_message m) s (λ _ s', fw_inv s').
Proof.
  intros Hs (Hl & Hb & Hn). unfold handle_message, USB_MESSAGE_CAPACITY in *.
  destruct (msg_type m).
  - wp_case; [|by wp_steps]. apply on_world_inv; [done|]. intros Hw.
    apply (prhp_dispatch_wp (inv := inv)); [done|lia|done].
  - destruct s as [p rw]. destruct Hs as [Hp Hr Hw].
    eapply wp_mono; [apply (receive_wp (inv := inv)); [done|by split|lia|done]|].
    by intros _ ps (? & [? ?] & _).
Qed.

Lemma read_card_wp s :
  fw_inv s → wp (lift reader_read_card) s (λ res s', fw_inv s' ∧
    ∀ c, res = Ok c → wf_card c).
Proof.
  destruct s as [p [r w]]. intros [Hp Hr Hw]. cbn [fst snd] in *. wp_steps.
  eapply wp_mono; [by apply (reader_read_card_wp (inv := inv))|].
  intros res [r' w'] ([? ?] & _ & _ & _ & Hc). split; [by split|].
  intros c ->. by apply Hc.
Qed.

Lemma scan_card_wp l s :
  fw_inv s → locals_ok l → wp (scan_card l) s (λ l' s', fw_inv s' ∧ locals_ok l').
Proof.
  intros Hs Hl. unfold scan_card. wp_steps. eapply wp_mono; [by apply read_card_wp|].
  intros [c|e] s1 [Hs1 Hc]; [|by wp_steps]. wp_case; wp_steps; [done|].
  specialize (Hc c eq_refl).
  eapply wp_mono; [apply on_world_inv; [done|]; intros; by apply (prhp_publish_wp (inv := inv))|].
  intros [] s2 Hs2. wp_steps.
  eapply wp_mono; [apply on_world_inv; [done|]; intros; by apply (cardio_publish_wp (inv := inv))|].
  intros [] s3 Hs3. by wp_steps.
Qed.

Lemma app_serve_wp received l s :
  fw_inv s → locals_ok l → (∀ m, received = Some m → wf_message m) →
  wp (app_serve received l) s (λ l' s', fw_inv s' ∧ locals_ok l').
Proof.
  intros Hs Hl Hm. unfold app_serve. wp_steps.
  assert (Hh : wp (match received with Some m => handle_message m | None => ret tt end) s
    (λ _ s', fw_inv s')) by (destruct received; [by apply handle_message_wp, Hm|done]).
  eapply wp_mono; [exact Hh|]. intros [] s2 Hs2. wp_steps.
  eapply wp_mono; [apply on_world_inv; [done|]|].
  { intros Hw. wp_steps. pose proof (get_time_law (inv := inv) s2.2.2 Hw) as [? _].
    by destruct (esp_timer_get_time s2.2.2). }
  intros now s3 Hs3. wp_case; [by wp_steps|]. by apply scan_card_wp.
Qed.

Lemma app_iteration_wp l s :
  fw_inv s → locals_ok l → wp (app_iteration l) s (λ l' s', fw_inv s' ∧ locals_ok l').
Proof.
  intros Hs Hl. unfold app_iteration. wp_steps.
  eapply wp_mono; [apply (on_world_wp _ _ (λ m _, ∀ x, m = Some x → wf_message x)); [done|]|].
  { intros Hw. eapply wp_mono; [by apply (usb_device_receive_wp (inv := inv))|].
    by intros m w' [? ?]. }
  intros received s1 [Hm Hs1]. by apply app_serve_wp.
Qed.

Lemma fw_callback_wp e l s :
  e ≠ Iterate → valid_event e → fw_inv s → locals_ok l →
  wp (fw_step e l) s (λ l' s', fw_inv s' ∧ locals_ok l').
Proof.
  intros Hcb He Hs Hl. destruct e as [|i id ty buffer n|i]; cbn [fw_step]; [done|..].
  - destruct He as [??]. wp_steps. eapply wp_mono; [apply on_world_inv; [done|]|by intros].
    intros Hw. by apply (set_report_wp (inv := inv)).
  - wp_steps. eapply wp_mono; [apply on_world_inv; [done|]|by intros].
    intros Hw. by apply (cdc_receive_wp (inv := inv)).
Qed.

Lemma fw_step_wp e l s :
  valid_event e → fw_inv s → locals_ok l →
  wp (fw_step e l) s (λ l' s', fw_inv s' ∧ locals_ok l').
Proof.
  intros He Hs Hl. destruct e; [by apply app_iteration_wp|by apply fw_callback_wp..].
Qed.

Lemma fw_run_wp es l s :
  Forall valid_event es → fw_inv s → locals_ok l →
  wp (fw_run es l) s (λ l' s', fw_inv s' ∧ locals_ok l').
Proof.
  intros Hes. revert l s. induction Hes as [|e es He Hes IH]; intros l s Hs Hl; [done|].
  cbn [fw_run]. wp_steps. eapply wp_mono; [by apply fw_step_wp|].
  intros l' s' [??]. by apply IH.
Qed.

Lemma app_init_wp w :
  inv w → wp app_init (parser_boot, (reader_boot, w)) (λ _ s', fw_inv s').
Proof.
  intros Hw. unfold app_init. wp_tries.
  eapply wp_mono; [apply (reader_init_wp (inv := inv)); [apply reader_boot_wf|done]|].
  intros [[]|e] [r w1] [Hr Hw1].
  - wp_tries. unfold sega_init, reset_parser, update_parser. wp_tries.
    apply on_world_inv; [|intros; by apply (usb_device_init_wp (inv := inv))].
    split; [exact parser_boot_wf|exact Hr|exact Hw1].
  - split; [exact parser_boot_wf|exact Hr|exact Hw1].
Qed.
End app_laws.

(** ** Scans over time *)

Section schedule.
Context {W : Type} `{Platform W} `{UsbPlatform W} `{Nfc W}.
Implicit Types (s : fw_state (W := W)) (card : reader_card_t).

(** An iteration up to its reading of the timer: waiting for a message, serving it. *)
Definition app_wait : M (fw_state (W := W)) Z :=
  let* received := on_world (usb_device_receive 50) in
  do* (match received with Some m => handle_message m | None => ret tt end) in
  on_world (prim esp_timer_get_time).

(** The schedule the loop is to keep. [fw_scans due es card s times card' s']: with
    [card] published and no scan due before the time [due], the events [es] lead from
    [s] to [s'] and to [card'] published, scanning at the timer readings [times]. A
    callback does not scan; an iteration scans exactly if its reading of the timer is
    not before [due], and the next scan is then due 200000 us after that reading. *)
Inductive fw_scans : Z → list fw_event → reader_card_t → fw_state (W := W) →
    list Z → reader_card_t → fw_state (W := W) → Prop :=
  | scans_nil due card s : fw_scans due [] card s [] card s
  | scans_callback due e es card s s1 times card' s' :
      e ≠ Iterate → (∀ l, fw_step e l s = Val (l, s1)) →
      fw_scans due es card s1 times card' s' →
      fw_scans due (e :: es) card s times card' s'
  | scans_idle due es card s now s1 times card' s' :
      app_wait s = Val (now, s1) → (now < due)%Z →
      fw_scans due es card s1 times card' s' →
      fw_scans due (Iterate :: es) card s times card' s'
  | scans_due due es card s now s1 next card1 s2 times card' s' :
      app_wait s = Val (now, s1) → (due ≤ now)%Z → next = (now + 200000)%Z →
      scan_card (AppLocals card next) s1 = Val (AppLocals card1 next, s2) →
      fw_scans next es card1 s2 times card' s' →
      fw_scans due (Iterate :: es) card s (now :: times) card' s'.

Lemma scan_card_next l s l' s' :
  scan_card l s = Val (l', s') → l' = AppLocals (current l') (next_scan l).
Proof.
  unfold scan_card, bind. destruct (lift reader_read_card s) as [[[c|e] s1]| |]; try done.
  - case_bool_decide; [by intros [= <- _]; destruct l|].
    destruct (on_world _ s1) as [[[] s2]| |]; try done.
    destruct (on_world _ s2) as [[[] s3]| |]; try done. by intros [= <- _].
  - by intros [= <- _]; destruct l.
Qed.

Lemma app_iteration_split l s :
  app_iteration l s =
    bind app_wait (λ now, if (now <? next_scan l)%Z then ret l else
      scan_card (AppLocals (current l) (now + CARD_SCAN_INTERVAL_US))) s.
Proof.
  unfold app_iteration, app_serve, app_wait, bind.
  destruct (on_world (usb_device_receive 50) s) as [[m s1]| |]; [|done..].
  by destruct (match m with Some m => handle_message m | None => ret tt end s1) as [[[] s2]| |].
Qed.

Lemma fw_callback_locals e s l0 l0' s1 :
  e ≠ Iterate → fw_step e l0 s = Val (l0', s1) →
  l0' = l0 ∧ ∀ l, fw_step e l s = Val (l, s1).
Proof.
  intros He. destruct e; [done|..]; cbn [fw_step]; unfold bind;
    (destruct (on_world _ s) as [[[] s2]| |]; [|done..]); intros [= <- <-]; done.
Qed.

Lemma fw_run_scans es l s l' s' :
  fw_run es l s = Val (l', s') →
  ∃ times, fw_scans (next_scan l) es (current l) s times (current l') s'.
Proof.
  revert l s. induction es as [|e es IH]; intros l s; cbn [fw_run].
  { intros [= <- <-]. eexists. constructor. }
  unfold bind at 1. destruct (fw_step e l s) as [[l1 s1]| |] eqn:Hstep; [|done..].
  intros Hrun. apply IH in Hrun as [times Hrun].
  assert (e = Iterate ∨ e ≠ Iterate) as [->|He] by (destruct e; auto).
  2: { apply fw_callback_locals in Hstep as [-> Hstep]; [|done]. exists times. by econstructor. }
  cbn [fw_step] in Hstep. rewrite app_iteration_split in Hstep. unfold bind in Hstep.
  destruct (app_wait s) as [[now s0]| |] eqn:Hwait; [|done..].
  destruct (now <? next_scan l)%Z eqn:Hdue; reflect_bools.
  - injection Hstep as <- <-. exists times. by eapply scans_idle.
  - pose proof (scan_card_next _ _ _ _ Hstep) as Hl1. destruct l1 as [card1 next].
    injection Hl1 as ->. exists (now :: times). by eapply scans_due.
Qed.

(** Readings at least 200000 us apart, the first not before [due]. *)
Fixpoint spaced_from (due : Z) (times : list Z) : Prop :=
  match times with
  | [] => True
  | t :: times => (due ≤ t)%Z ∧ spaced_from (t + 200000) times
  end.

Lemma fw_scans_spaced due es card s times card' s' :
  fw_scans due es card s times card' s' → spaced_from due times.
Proof. induction 1; cbn; subst; auto. Qed.

Lemma spaced_from_nth due times i t :
  spaced_from due times → times !! i = Some t → (due + Z.of_nat i * 200000 ≤ t)%Z.
Proof.
  revert due i. induction times as [|t0 times IH]; intros due [|i] Hs; [done..| |];
    cbn [lookup list_lookup]; destruct Hs as [Hd Hs].
  - intros [= ->]. lia.
  - intros Hi. pose proof (IH _ _ Hs Hi). lia.
Qed.

Lemma spaced_from_pair due times i j ti tj :
  spaced_from due times → i < j → times !! i = Some ti → times !! j = Some tj →
  (ti + Z.of_nat (j - i) * 200000 ≤ tj)%Z.
Proof.
  revert due i j. induction times as [|t times IH]; intros due i j Hs Hij; [done|].
  destruct Hs as [_ Hs]. destruct j as [|j]; [lia|]. destruct i as [|i]; cbn [lookup list_lookup].
  - intros [= ->] Hj. pose proof (spaced_from_nth _ _ _ _ Hs Hj). lia.
  - intros Hi Hj. rewrite Nat.sub_succ. eapply IH; eauto with lia.
Qed.
End schedule.

Lemma length_card_report c : wf_card c → PRHP_REPORT_SIZE ≤ length (card_state_report c).
Proof.
  intros Hc. unfold card_state_report. rewrite length_prhp_report; [done|].
  by apply length_card_state_body.
Qed.

(** ** Properties *)

Section app_claims.
Context {W : Type} `{PlatformLaws W inv clock} `{!UsbPlatform W} `{!UsbLaws W inv} `{!UsbTaskLaws W inv}.

(** C1: the whole firmware, driver included, is memory safe and never hangs: from
    program start, for every sequence of loop iterations and USB callbacks (with
    the buffers the USB stack passes), [app_main] aborts in its initialisation or
    runs the sequence to its end with the parser, the reader and the published
    card well formed. *)
Theorem firmware_always_safe es w :
  inv w → Forall valid_event es →
  ∃ l s, app_main es (parser_boot, (reader_boot, w)) = Val (l, s) ∧
    fw_inv (inv := inv) s ∧ ∀ locals, l = Some locals → wf_card (current locals).
Proof.
  intros Hw Hes.
  assert (Hwp : wp (app_main es) (parser_boot, (reader_boot, w)) (λ l s,
    fw_inv (inv := inv) s ∧ ∀ locals, l = Some locals → wf_card (current locals))).
  { unfold app_main. wp_steps. eapply wp_mono; [by apply (app_init_wp (inv := inv))|].
    intros [[]|e] s Hs; wp_steps; [|by split].
    eapply wp_mono; [apply (fw_run_wp (inv := inv)); [done|done|apply zero_card_wf]|].
    intros l s' [??]. wp_steps. split; [done|]. by intros ? [= <-]. }
  apply wp_run in Hwp as (l & s & ? & ? & ?). by exists l, s.
Qed.

(** C8: a scan publishes exactly the transitions: a failed observation or one equal
    to the published card sends nothing and changes nothing; any other one is
    published first as CARD_STATE on the PRHP interface, then on the CardIO
    interface, and becomes the published card. *)
Theorem scan_publishes_transitions `{!Nfc W} `{!NfcLaws W inv} l (s s1 : fw_state) observed :
  fw_inv (inv := inv) s → lift reader_read_card s = Val (observed, s1) →
  scan_card l s =
    match observed with
    | Err _ => Val (l, s1)
    | Ok card =>
        if decide (current l = card) then Val (l, s1) else
        (do* on_world (usb_device_send_prhp (card_state_report card)) in
         do* on_world (usb_device_send_cardio (cardio_report card).1 (cardio_report card).2) in
         ret (AppLocals card (next_scan l))) s1
    end.
Proof.
  intros Hs Hrun. pose proof (read_card_wp (inv := inv) s Hs) as Hwp.
  unfold wp in Hwp. rewrite Hrun in Hwp. destruct Hwp as [_ Hc].
  unfold scan_card. rewrite (bind_val _ _ _ _ _ Hrun).
  destruct observed as [card|e]; [|done]. specialize (Hc card eq_refl).
  case_bool_decide as Heq; case_decide; try done. clear Heq.
  assert (Hp : ∀ s0 : fw_state, on_world (prhp_publish_card_state card) s0 =
    (do* on_world (usb_device_send_prhp (card_state_report card)) in ret tt) s0).
  { intros [p [r w]]. unfold on_world, lift, bind. cbn [fst snd].
    unfold prhp_publish_card_state, bind. rewrite card_state_signal_run by done.
    by destruct (usb_device_send_prhp _ w) as [[res w']| |]. }
  assert (Hq : ∀ s0 : fw_state, on_world (cardio_publish_card_state card) s0 =
    (do* on_world (usb_device_send_cardio (cardio_report card).1 (cardio_report card).2) in
     ret tt) s0).
  { intros [p [r w]]. unfold on_world, lift, bind. cbn [fst snd].
    destruct (cardio_publish_run card w Hc) as [-> _]. unfold bind.
    by destruct (usb_device_send_cardio _ _ w) as [[res w']| |]. }
  unfold bind in *. rewrite Hp.
  destruct (on_world (usb_device_send_prhp _) s1) as [[res s2]| |]; [|done..].
  cbn [ret]. rewrite Hq. by destruct (on_world (usb_device_send_cardio _ _) s2) as [[? ?]| |].
Qed.

(** The other side of publishing transitions only: the results of the two sends are not
    looked at. A card first observed while no host has the device configured is not sent
    to anybody, [send_hid] giving up at once, but it is held as published; so as long as
    it stays on the reader every later scan, of any interface state, sends nothing. *)
Theorem unmounted_transition_lost `{!Nfc W} `{!NfcLaws W inv} l p r (w w1 w2 : W) s card :
  fw_inv (inv := inv) s → lift reader_read_card s = Val (Ok card, (p, (r, w))) →
  current l ≠ card → tud_mounted w = (false, w1) → tud_mounted w1 = (false, w2) →
  scan_card l s = Val (AppLocals card (next_scan l), (p, (r, w2))) ∧
  ∀ next s' s1', lift reader_read_card s' = Val (Ok card, s1') →
    scan_card (AppLocals card next) s' = Val (AppLocals card next, s1').
Proof.
  intros Hs Hrun Hne Hm1 Hm2. pose proof (read_card_wp (inv := inv) s Hs) as Hwp.
  unfold wp in Hwp. rewrite Hrun in Hwp. destruct Hwp as [_ Hc]. specialize (Hc card eq_refl).
  split.
  - unfold scan_card. rewrite (bind_val _ _ _ _ _ Hrun). rewrite bool_decide_eq_false_2 by done.
    destruct (cardio_publish_run card w1 Hc) as [Hpub Hl].
    unfold on_world, lift, bind. cbn [fst snd]. unfold prhp_publish_card_state, bind.
    rewrite card_state_signal_run by done. unfold usb_device_send_prhp.
    rewrite (send_hid_unmounted _ _ _ _ _ _ (length_card_report card Hc) Hm1). cbn [ret fst snd].
    rewrite Hpub. unfold bind, usb_device_send_cardio.
    by rewrite (send_hid_unmounted 1 _ _ 8 w1 w2) by (done || lia).
  - intros next s' s1' Hrun'. unfold scan_card. rewrite (bind_val _ _ _ _ _ Hrun').
    by rewrite bool_decide_eq_true_2.
Qed.

(** C33: scans are rate limited: every run of the loop keeps the schedule in which an
    iteration reads the card exactly if the timer it reads after serving its message has
    reached the due time, which is 200 ms after the timer reading of the scan before; so
    between the scans number [i] and [j] of a run, however late some of them are, the
    timer advances by at least [j - i] times 200 ms (late scans are never made up for by
    a burst), and the first scan is not before the due time at the start. *)
Theorem scans_are_spaced `{!Nfc W} es l (s s' : fw_state (W := W)) l' :
  fw_run es l s = Val (l', s') →
  ∃ times, fw_scans (next_scan l) es (current l) s times (current l') s' ∧
    (∀ t, head times = Some t → (next_scan l ≤ t)%Z) ∧
    ∀ i j ti tj, i < j → times !! i = Some ti → times !! j = Some tj →
      (ti + Z.of_nat (j - i) * 200000 ≤ tj)%Z.
Proof.
  intros Hrun. apply fw_run_scans in Hrun as [times Hrun]. exists times. split; [done|].
  apply fw_scans_spaced in Hrun. split.
  - intros t Ht. destruct times as [|t0 times]; [done|]. injection Ht as ->. apply Hrun.
  - intros i j ti tj. by apply spaced_from_pair with (next_scan l).
Qed.
End app_claims.

(** ** Witnesses *)

(** The host's GET_VERSION arrives; the loop answers it. *)
Definition version_events : list fw_event :=
  [SetReport 0 0 2 version_request 64; Iterate; CdcReceived 0; Iterate].

Lemma firmware_always_safe_witness :
  ∃ l s, app_main version_events (parser_boot, (reader_boot, sim_boot [])) = Val (l, s) ∧
    fw_inv (inv := sim_inv) s ∧ ∀ locals, l = Some locals → wf_card (current locals).
Proof.
  apply firmware_always_safe; [apply sim_boot_inv|].
  repeat apply Forall_cons_2; try apply Forall_nil_2; try done.
  split; [simpl; lia|]. apply Forall_app_2; [solve_bytes|apply is_bytes_replicate].
Defined.

(** A FeliCa card comes into the field of a booted reader. *)
Definition felica_arrives : sim :=
  answering 0x4A (felica_response 1 3 (card_idm sample_felica_card) (card_pmm sample_felica_card)).

Lemma scan_publishes_transitions_witness :
  ∃ l' s', scan_card app_locals_boot (parser_boot, (reader_boot, felica_arrives)) = Val (l', s') ∧
    current l' = sample_felica_card ∧
    sim_usb s'.2.2 = [HidReport 0 0 (card_state_report sample_felica_card);
                      HidReport 1 2 (card_idm sample_felica_card)].
Proof.
  destruct (lift reader_read_card (parser_boot, (reader_boot, felica_arrives)))
    as [[observed s1]| |] eqn:Hread; try (vm_compute in Hread; discriminate Hread).
  pose proof (scan_publishes_transitions (inv := sim_inv) app_locals_boot
    (parser_boot, (reader_boot, felica_arrives)) s1 observed) as Hscan.
  rewrite Hscan; [|split; [apply parser_boot_wf|apply reader_boot_wf|apply sim_boot_inv]|exact Hread].
  vm_compute in Hread. injection Hread as <- <-.
  eexists _, _. split; [vm_compute; reflexivity|]. vm_compute. split; reflexivity.
Defined.

(** A FeliCa card is on the reader before a host has configured the device, 100 ms
    later: two scans observe it, the second with the device mounted, and no report is
    sent. *)
Definition felica_early : sim :=
  let response := answer 0x4A (felica_response 1 3 (card_idm sample_felica_card)
                                 (card_pmm sample_felica_card)) in
  sim_boot_unattached 100000 (response ++ response).

Example early_card_never_sent :
  ∃ l s, fw_run (replicate 5 Iterate) app_locals_boot
      (parser_boot, (reader_boot, felica_early)) = Val (l, s) ∧
    current l = sample_felica_card ∧ sim_usb s.2.2 = [] ∧ sim_rx s.2.2 = [] ∧
    (tud_mounted s.2.2).1 = true ∧ next_scan l = 450500%Z.
Proof. eexists _, _. split; [vm_compute; reflexivity|]. by vm_compute. Qed.

(** Five iterations of the loop without messages, each waiting 50 ms: the card is read
    in the first, at 50 ms, and the fifth, at 250.5 ms. *)
Definition five_iterations : list fw_event := replicate 5 Iterate.

Lemma scans_are_spaced_witness :
  ∃ l' s' times, fw_run five_iterations app_locals_boot
      (parser_boot, (reader_boot, felica_arrives)) = Val (l', s') ∧
    next_scan l' = 450500%Z ∧
    fw_scans 0 five_iterations zero_card (parser_boot, (reader_boot, felica_arrives))
      times sample_felica_card s' ∧
    ∀ i j ti tj, i < j → times !! i = Some ti → times !! j = Some tj →
      (ti + Z.of_nat (j - i) * 200000 ≤ tj)%Z.
Proof.
  destruct (fw_run five_iterations app_locals_boot (parser_boot, (reader_boot, felica_arrives)))
    as [[l' s']| |] eqn:Hrun; try (vm_compute in Hrun; discriminate Hrun).
  destruct (scans_are_spaced five_iterations app_locals_boot _ _ _ Hrun) as (times & Hs & _ & Ht).
  exists l', s', times. split; [done|].
  assert (Hl : l' = AppLocals sample_felica_card 450500)
    by (vm_compute in Hrun; injection Hrun as <- _; reflexivity).
  split; [by rewrite Hl|]. split; [|exact Ht].
  replace sample_felica_card with (current l') by by rewrite Hl. exact Hs.
Defined.
