(* ===== verification/Queue.v ===== *)
(** * The message queue between the USB callbacks and the main loop

    [usb_device.c] queues messages from the callbacks of the USB stack,
    [app_main.c] receives them one per iteration.  Over an interface that says
    the queue is first in, first out, every queued message is handled, in its
    turn, whatever callbacks happen in between. *)
From S2P Require Import Prelude Platform Sim Pn532Iface Pn532 Reader UsbDevice Prhp Cardio Sega App.

(** ** The queue, as a list of messages *)

(** [pending w] are the messages in the queue, the oldest first: receiving takes
    the oldest, every other call leaves those that are there in place (a callback
    that runs meanwhile may add to the end; a send on a full queue does not). *)
Class MessageQueue (W : Type) `{Platform W} `{UsbPlatform W} (pending : W → list usb_message_t) := {
  receive_pending t w m q : pending w = m :: q →
    (xQueueReceive t w).1 = Some m ∧ q `prefix_of` pending (xQueueReceive t w).2;
  new_bus_pending w : pending w `prefix_of` pending (i2c_new_master_bus w).2;
  add_device_pending w : pending w `prefix_of` pending (i2c_master_bus_add_device w).2;
  probe_pending a t w : pending w `prefix_of` pending (i2c_master_probe a t w).2;
  i2c_receive_pending n t w : pending w `prefix_of` pending (i2c_master_receive n t w).2;
  transmit_pending l t w : pending w `prefix_of` pending (i2c_master_transmit l t w).2;
  get_time_pending w : pending w `prefix_of` pending (esp_timer_get_time w).2;
  delay_pending t w : pending w `prefix_of` pending (vTaskDelay t w);
  mounted_pending w : pending w `prefix_of` pending (tud_mounted w).2;
  ready_pending i w : pending w `prefix_of` pending (tud_hid_n_ready i w).2;
  report_pending i r l w : pending w `prefix_of` pending (tud_hid_n_report i r l w).2;
  cdc_read_pending i n w : pending w `prefix_of` pending (tinyusb_cdcacm_read i n w).2;
  write_queue_pending l w : pending w `prefix_of` pending (tinyusb_cdcacm_write_queue l w).2;
  write_flush_pending t w : pending w `prefix_of` pending (tinyusb_cdcacm_write_flush t w).2;
  send_pending m t w : pending w `prefix_of` pending (xQueueSend m t w).2;
}.

#[export] Instance fw_event_eq_dec : EqDecision fw_event.
Proof. solve_decision. Defined.

(** How many iterations of the loop a sequence of events has. *)
Definition iterates (es : list fw_event) : nat :=
  length (filter (.= Iterate) es).

Lemma iterates_Iterate es : iterates (Iterate :: es) = S (iterates es).
Proof. unfold iterates. by rewrite filter_cons_True. Qed.

Lemma iterates_callback e es : e ≠ Iterate → iterates (e :: es) = iterates es.
Proof. intros. unfold iterates. by rewrite filter_cons_False. Qed.

(** ** Lemmas: waiting messages stay while others are served *)

Section queue_laws.
Context {W : Type} `{PlatformLaws W inv clock} `{!UsbPlatform W} `{!UsbLaws W inv}.
Context `{!UsbTaskLaws W inv} `{!MessageQueue W pending}.
Implicit Types s : fw_state (W := W).

(** The invariant, and at least [q] waiting.  Every call but receiving keeps it,
    so everything proved of the code over any invariant holds of it. *)
Definition waiting (q : list usb_message_t) (w : W) : Prop := inv w ∧ q `prefix_of` pending w.

#[local] Instance waiting_platform q : PlatformLaws W (waiting q) clock.
Proof.
  split; intros; match goal with Hw : waiting _ _ |- _ => destruct Hw as [Hi Hq] end.
  - split; [by apply new_master_bus_law|]. by etrans; [|apply new_bus_pending].
  - split; [by apply add_device_law|]. by etrans; [|apply add_device_pending].
  - split; [by apply probe_law|]. by etrans; [|apply probe_pending].
  - destruct (receive_law n t w Hi) as (? & ? & ?). split; [|done]. split; [done|].
    by etrans; [|apply i2c_receive_pending].
  - split; [by apply transmit_law|]. by etrans; [|apply transmit_pending].
  - destruct (get_time_law w Hi) as [? ?]. split; [|done]. split; [done|].
    by etrans; [|apply get_time_pending].
  - destruct (delay_law t w Hi) as [? ?]. split; [|done]. split; [done|].
    by etrans; [|apply delay_pending].
Qed.

#[local] Instance waiting_cdc q : CdcLaws W (waiting q).
Proof.
  split; intros; match goal with Hw : waiting _ _ |- _ => destruct Hw as [Hi Hq] end.
  - destruct (cdc_read_law i n w Hi) as [? ?]. split; [|done]. split; [done|].
    by etrans; [|apply cdc_read_pending].
  - split; [by apply write_queue_law|]. by etrans; [|apply write_queue_pending].
  - split; [by apply write_flush_law|]. by etrans; [|apply write_flush_pending].
  - split; [by apply queue_send_law|]. by etrans; [|apply send_pending].
Qed.

#[local] Instance waiting_usb q : UsbLaws W (waiting q).
Proof.
  split; [apply _|..]; intros; match goal with Hw : waiting _ _ |- _ => destruct Hw as [Hi Hq] end.
  - split; [by apply mounted_law|]. by etrans; [|apply mounted_pending].
  - split; [by apply ready_law|]. by etrans; [|apply ready_pending].
  - split; [by apply report_law|]. by etrans; [|apply report_pending].
Qed.

Lemma fw_inv_waiting q s :
  fw_inv (inv := waiting q) s ↔ fw_inv (inv := inv) s ∧ q `prefix_of` pending s.2.2.
Proof.
  split.
  - intros [? ? [? ?]]. split; [|done]. by split.
  - intros [[? ? ?] ?]. split; [done..|]. by split.
Qed.

(** The queue gives its head. *)
Lemma receive_head s m q :
  fw_inv (inv := inv) s → m :: q `prefix_of` pending s.2.2 →
  ∃ s1, on_world (usb_device_receive 50) s = Val (Some m, s1) ∧ wf_message m ∧
    fw_inv (inv := waiting q) s1.
Proof.
  destruct s as [p [r w]]. intros [Hp Hr Hw] [rest Hq]. cbn [fst snd] in *.
  destruct (receive_pending 50 w m (q ++ rest) Hq) as [Hm Hpend].
  destruct (queue_receive_law 50 w Hw) as [Hw' Hwf].
  unfold on_world, usb_device_receive, prim, lift. cbn [fst snd].
  destruct (xQueueReceive 50 w) as [[m'|] w']; [|done]. cbn [fst snd] in *.
  simplify_eq. eexists. split; [done|]. split; [by apply Hwf|].
  split; [done|done|]. split; [done|]. etrans; [|exact Hpend]. by apply prefix_app_r.
Qed.

Lemma iteration_head l s m q :
  fw_inv (inv := inv) s → locals_ok l → m :: q `prefix_of` pending s.2.2 →
  ∃ s1 l' s', on_world (usb_device_receive 50) s = Val (Some m, s1) ∧
    app_iteration l s = app_serve (Some m) l s1 ∧
    app_serve (Some m) l s1 = Val (l', s') ∧ fw_inv (inv := waiting q) s' ∧ locals_ok l'.
Proof.
  intros Hs Hl Hq. destruct (receive_head s m q Hs Hq) as (s1 & Hrun & Hm & Hs1).
  pose proof (app_serve_wp (inv := waiting q) (Some m) l s1 Hs1 Hl) as Hwp.
  apply wp_run in Hwp as (l' & s' & ? & ? & ?); [|by intros ? [= <-]].
  exists s1, l', s'. split; [done|]. split; [|done].
  unfold app_iteration. by rewrite (bind_val _ _ _ _ _ Hrun).
Qed.

Lemma serve_in_turn es l s pre m post :
  fw_inv (inv := inv) s → locals_ok l → Forall valid_event es →
  (pre ++ m :: post) `prefix_of` pending s.2.2 → length pre < iterates es →
  ∃ es1 es2 l1 s1 s2, es = es1 ++ Iterate :: es2 ∧ iterates es1 = length pre ∧
    fw_run es1 l s = Val (l1, s1) ∧
    on_world (usb_device_receive 50) s1 = Val (Some m, s2) ∧
    fw_run es l s = (let* l2 := app_serve (Some m) l1 in fw_run es2 l2) s2.
Proof.
  intros Hs Hl Hes. revert l s pre Hs Hl.
  induction Hes as [|e es He Hes IH]; intros l s pre Hs Hl Hq Hlen; [by cbn in Hlen; lia|].
  destruct (decide (e = Iterate)) as [->|Hne].
  - destruct pre as [|x pre].
    + destruct (iteration_head l s m post Hs Hl Hq) as (s1 & l' & s' & Hrecv & Hit & _).
      exists [], es, l, s, s1. split_and!; [done|done|done|done|].
      cbn [fw_run fw_step]. unfold bind at 1. by rewrite Hit.
    + destruct (iteration_head l s x (pre ++ m :: post) Hs Hl Hq)
        as (s1 & l' & s' & _ & Hit & Hserve & [Hs' Hq']%fw_inv_waiting & Hl').
      destruct (IH l' s' pre Hs' Hl' Hq') as (es1 & es2 & l1 & s2 & s3 & -> & Hn & Hrun & Hrecv & Htail);
        [by rewrite iterates_Iterate in Hlen; cbn in Hlen; lia|].
      assert (Hstep : fw_step Iterate l s = Val (l', s')) by (cbn [fw_step]; by rewrite Hit).
      exists (Iterate :: es1), es2, l1, s2, s3. split_and!; [done|by rewrite iterates_Iterate, Hn| |done|];
        cbn [fw_run app]; by rewrite (bind_val _ _ _ _ _ Hstep).
  - assert (Hs0 : fw_inv (inv := waiting (pre ++ m :: post)) s) by by apply fw_inv_waiting.
    pose proof (fw_callback_wp (inv := waiting (pre ++ m :: post)) e l s Hne He Hs0 Hl) as Hwp.
    apply wp_run in Hwp as (l' & s' & Hstep & [Hs' Hq']%fw_inv_waiting & Hl').
    rewrite iterates_callback in Hlen by done.
    destruct (IH l' s' pre Hs' Hl' Hq' Hlen) as (es1 & es2 & l1 & s2 & s3 & -> & Hn & Hrun & Hrecv & Htail).
    exists (e :: es1), es2, l1, s2, s3. split_and!; [done|by rewrite iterates_callback| |done|];
      cbn [fw_run app]; by rewrite (bind_val _ _ _ _ _ Hstep).
Qed.
End queue_laws.

(** ** Properties *)

Section queue_claims.
Context {W : Type} `{PlatformLaws W inv clock} `{!UsbPlatform W} `{!UsbLaws W inv}.
Context `{!UsbTaskLaws W inv} `{!MessageQueue W pending}.

(** C24: every queued message is served, and in its turn: from any state in which
    [m] waits behind [pre], any sequence of loop iterations and USB callbacks with
    more than [length pre] iterations runs to its end, and the iteration number
    [length pre] of it receives exactly [m] and handles it, whatever commands the
    messages before it carried and whatever the callbacks queued meanwhile. *)
Theorem queued_messages_handled es l (s : fw_state) pre m post :
  fw_inv (inv := inv) s → locals_ok l → Forall valid_event es →
  pending s.2.2 = pre ++ m :: post → length pre < iterates es →
  (∃ es1 es2 l1 s1 s2, es = es1 ++ Iterate :: es2 ∧ iterates es1 = length pre ∧
     fw_run es1 l s = Val (l1, s1) ∧
     on_world (usb_device_receive 50) s1 = Val (Some m, s2) ∧
     fw_run es l s = (do* handle_message m in
                      let* now := on_world (prim esp_timer_get_time) in
                      let* l2 := (if (now <? next_scan l1)%Z then ret l1 else
                                  scan_card (AppLocals (current l1) (now + CARD_SCAN_INTERVAL_US))) in
                      fw_run es2 l2) s2) ∧
  ∃ l' s', fw_run es l s = Val (l', s') ∧ fw_inv (inv := inv) s'.
Proof.
  intros Hs Hl Hes Hq Hlen. split.
  - destruct (serve_in_turn es l s pre m post) as (es1 & es2 & l1 & s1 & s2 & ? & ? & ? & ? & Htail);
      try done; [by rewrite Hq|].
    exists es1, es2, l1, s1, s2. split_and!; try done. rewrite Htail. unfold app_serve, bind.
    destruct (handle_message m s2) as [[[] s3]| |]; [|done..].
    by destruct (on_world (prim esp_timer_get_time) s3) as [[now s4]| |].
  - pose proof (fw_run_wp (inv := inv) es l s Hes Hs Hl) as Hwp.
    apply wp_run in Hwp as (l' & s' & ? & ? & _). by exists l', s'.
Qed.
End queue_claims.

(** ** Witnesses *)

#[export] Instance sim_message_queue : MessageQueue sim sim_queue.
Proof.
  split; intros; simpl; try done.
  - match goal with Hq : sim_queue w = _ |- _ => by rewrite Hq end.
  - unfold sim_receive. by destruct (sim_rx w) as [|[]].
  - by destruct (_ <=? _)%Z.
  - destruct (_ <? _)%nat; [|done]. by apply prefix_app_r.
Qed.

(** Behind a message of the serial interface, a version request; the same request
    arrives again between the iterations. *)
Definition version_message : usb_message_t :=
  UsbMessage USB_MESSAGE_HID 64 (version_request ++ replicate 448 0%Z).

Definition two_messages : sim :=
  sim_set_queue [UsbMessage USB_MESSAGE_CDC 1 (replicate 512 0xE0%Z); version_message] (sim_boot []).

Lemma version_request_bytes : is_bytes version_request.
Proof. apply Forall_app_2; [solve_bytes|apply is_bytes_replicate]. Qed.

Lemma two_messages_inv : sim_inv two_messages.
Proof.
  repeat apply Forall_cons_2; [| |apply Forall_nil_2]; (split; [reflexivity|split]).
  - by apply Forall_replicate.
  - simpl; unfold USB_MESSAGE_CAPACITY; lia.
  - apply Forall_app_2; [apply version_request_bytes|apply is_bytes_replicate].
  - simpl; unfold USB_MESSAGE_CAPACITY; lia.
Qed.

Lemma queued_messages_handled_witness :
  ∃ es1 es2 l1 (s1 s2 : fw_state),
    [Iterate; SetReport 0 0 2 version_request 64; Iterate] = es1 ++ Iterate :: es2 ∧
    iterates es1 = 1 ∧
    fw_run es1 app_locals_boot (parser_boot, (reader_boot, two_messages)) = Val (l1, s1) ∧
    on_world (usb_device_receive 50) s1 = Val (Some version_message, s2).
Proof.
  destruct (queued_messages_handled (inv := sim_inv) (pending := sim_queue)
    [Iterate; SetReport 0 0 2 version_request 64; Iterate] app_locals_boot
    (parser_boot, (reader_boot, two_messages))
    [UsbMessage USB_MESSAGE_CDC 1 (replicate 512 0xE0%Z)] version_message [])
    as [(es1 & es2 & l1 & s1 & s2 & ? & ? & ? & ? & _) _].
  - split; [apply parser_boot_wf|apply reader_boot_wf|apply two_messages_inv].
  - apply zero_card_wf.
  - repeat apply Forall_cons_2; try apply Forall_nil_2; try done.
    split; [simpl; lia|apply version_request_bytes].
  - reflexivity.
  - vm_compute. lia.
  - by exists es1, es2, l1, s1, s2.
Defined.
