(* ===== verification/Protocol.v ===== *)
(** * internal/protocol: the PRHP codecs of the host DLL

    The Go package that encodes requests and decodes responses and card-state
    signals.  A Go slice is a list of bytes; an index outside it panics, which is
    [Ub] here; an error return is the left of a sum. *)
From S2P Require Import Prelude.

Definition ReportSize : nat := 64.

Inductive MessageType : Type := MessageRequest | MessageResponse | MessageSignal.

#[export] Instance message_type_eq_dec : EqDecision MessageType.
Proof. solve_decision. Defined.

(** The constants' values; any other byte is no [MessageType] constant. *)
Definition message_type_code (t : MessageType) : Z :=
  match t with MessageRequest => 1 | MessageResponse => 2 | MessageSignal => 3 end.

Definition OpcodeGetVersion : Z := 0x01.
Definition OpcodeCardState : Z := 0x02.
Definition OpcodeSetLED : Z := 0x03.

Definition StatusSuccess : Z := 0x00.
Definition StatusUnknownOpcode : Z := 0x01.
Definition StatusInvalidMessage : Z := 0x02.

Inductive proto_error : Type :=
  | ErrInvalidReport
  | ErrInvalidType
  | ErrUnexpectedCode
  | ErrUnexpectedType
  | ErrUnknownCard
  | StatusError (opcode status : Z).

Record Header : Type := MkHeader {
  Type_ : MessageType;
  Opcode : Z;
  Sequence : Z;
  Status : Z;
}.

Inductive CardType : Type := CardNone | CardMIFARE | CardFeliCa.

Record Card : Type := MkCard {
  CardType_ : CardType;
  LUID : list Z;
  Blocks : list Z;
  IDm : list Z;
}.

Record Version : Type := MkVersion { Major : Z; Minor : Z }.

(** [Card{Type: t}] *)
Definition empty_card (t : CardType) : Card :=
  MkCard t (replicate 10 0%Z) (replicate 32 0%Z) (replicate 8 0%Z).

Section codecs.
Context {S : Type}.

(** [if err != nil { return err }] *)
Definition ok_bind {A B} (m : M S (proto_error + A)) (k : A → M S (proto_error + B))
    : M S (proto_error + B) :=
  bind m (λ r, match r with inl e => ret (inl e) | inr a => k a end).

(** [binary.LittleEndian.Uint16(raw[i:i+2])] *)
Definition get_uint16 (raw : list Z) (i : nat) : M S Z :=
  let* b0 := aget raw i in
  let* b1 := aget raw (i + 1) in
  ret (u16 (Z.lor b0 (Z.shiftl b1 8))).

(** [binary.LittleEndian.PutUint16(raw[i:i+2], v)] *)
Definition put_uint16 (raw : list Z) (i : nat) (v : Z) : M S (list Z) :=
  let* raw := aput raw i (u8 v) in
  aput raw (i + 1) (u8 (Z.shiftr v 8)).

Definition DecodeHeader (raw : list Z) : M S (proto_error + Header) :=
  if negb (length raw =? ReportSize)%nat then ret (inl ErrInvalidReport) else
  let* ty := aget raw 0 in
  let* opcode := aget raw 1 in
  let* sequence := get_uint16 raw 2 in
  let* status := aget raw 4 in
  if (ty =? message_type_code MessageRequest)%Z then
    if ((sequence =? 0) || negb (status =? StatusSuccess))%Z then ret (inl ErrInvalidReport)
    else ret (inr (MkHeader MessageRequest opcode sequence status))
  else if (ty =? message_type_code MessageResponse)%Z then
    if (sequence =? 0)%Z then ret (inl ErrInvalidReport)
    else ret (inr (MkHeader MessageResponse opcode sequence status))
  else if (ty =? message_type_code MessageSignal)%Z then
    if (negb (sequence =? 0) || negb (status =? StatusSuccess))%Z
    then ret (inl ErrInvalidReport)
    else ret (inr (MkHeader MessageSignal opcode sequence status))
  else ret (inl ErrInvalidType).

Definition NewRequest (opcode sequence : Z) : M S (list Z) :=
  let raw := replicate ReportSize 0%Z in
  let* raw := aput raw 0 (message_type_code MessageRequest) in
  let* raw := aput raw 1 opcode in
  put_uint16 raw 2 sequence.

Definition NewSignal (opcode : Z) : M S (list Z) :=
  let raw := replicate ReportSize 0%Z in
  let* raw := aput raw 0 (message_type_code MessageSignal) in
  aput raw 1 opcode.

Definition validateResponse (raw : list Z) (opcode : Z) : M S (proto_error + Header) :=
  ok_bind (DecodeHeader raw) (λ header,
    if negb (bool_decide (Type_ header = MessageResponse)) then ret (inl ErrUnexpectedType)
    else if negb (Opcode header =? opcode)%Z then ret (inl ErrUnexpectedCode)
    else if negb (Status header =? StatusSuccess)%Z
    then ret (inl (StatusError (Opcode header) (Status header)))
    else ret (inr header)).

(** The loop of [validateLUID]; [true] is its [nil]. *)
Definition validateLUID (luid : list Z) : bool :=
  forallb (λ value, negb ((9 <? Z.shiftr value 4) || (9 <? Z.land value 0x0F))%Z) luid.

Definition DecodeCardStateSignal (raw : list Z) : M S (proto_error + Card) :=
  ok_bind (DecodeHeader raw) (λ header,
    if negb (bool_decide (Type_ header = MessageSignal)) then ret (inl ErrUnexpectedType)
    else if negb (Opcode header =? OpcodeCardState)%Z then ret (inl ErrUnexpectedCode)
    else
      let* ty := aget raw 5 in
      if (ty =? 0)%Z then ret (inr (empty_card CardNone))
      else if (ty =? 1)%Z then
        let* luid := aread raw 6 10 in
        let* blocks := aread raw 16 32 in
        if validateLUID luid
        then ret (inr (MkCard CardMIFARE luid blocks (replicate 8 0%Z)))
        else ret (inl ErrInvalidReport)
      else if (ty =? 2)%Z then
        let* idm := aread raw 6 8 in
        ret (inr (MkCard CardFeliCa (replicate 10 0%Z) (replicate 32 0%Z) idm))
      else ret (inl ErrUnknownCard)).

Definition EncodeSetLED (red green blue : Z) : M S (list Z) :=
  let* raw := NewSignal OpcodeSetLED in
  let* raw := aput raw 5 red in
  let* raw := aput raw 6 green in
  aput raw 7 blue.

Definition EncodeGetVersion (sequence : Z) : M S (list Z) :=
  NewRequest OpcodeGetVersion sequence.

Definition DecodeGetVersionResponse (raw : list Z) : M S (proto_error + Version) :=
  ok_bind (validateResponse raw OpcodeGetVersion) (λ _,
    let* major := aget raw 5 in
    let* minor := aget raw 6 in
    ret (inr (MkVersion major minor))).
End codecs.

(** The digits, as the bytes of the string; ['0'] is 0x30. *)
Definition FormatLUID (luid : list Z) : list Z :=
  luid ≫= λ value, [u8 (0x30 + Z.shiftr value 4); u8 (0x30 + Z.land value 0x0F)].

Definition hex : list Z :=
  [0x30; 0x31; 0x32; 0x33; 0x34; 0x35; 0x36; 0x37; 0x38; 0x39;
   0x41; 0x42; 0x43; 0x44; 0x45; 0x46]%Z.

Definition FormatIDm (idm : list Z) : list Z :=
  idm ≫= λ value, [hex !!! Z.to_nat (Z.shiftr value 4); hex !!! Z.to_nat (Z.land value 0x0F)].

(** ** The header, specified *)

(** RFC 0001, section 4: what makes a header well formed. *)
Definition wf_header (h : Header) : Prop :=
  is_byte (Opcode h) ∧ is_byte (Status h) ∧ (0 ≤ Sequence h < 65536)%Z ∧
  match Type_ h with
  | MessageRequest => Sequence h ≠ 0%Z ∧ Status h = StatusSuccess
  | MessageResponse => Sequence h ≠ 0%Z
  | MessageSignal => Sequence h = 0%Z ∧ Status h = StatusSuccess
  end.

Definition encode_header (h : Header) : list Z :=
  [message_type_code (Type_ h); Opcode h; u8 (Sequence h); u8 (Z.shiftr (Sequence h) 8); Status h].

(** ** Lemmas *)

Lemma uint16_bytes lo hi :
  is_byte lo → is_byte hi → u16 (Z.lor lo (Z.shiftl hi 8)) = (hi * 256 + lo)%Z.
Proof.
  intros ??. rewrite Z.lor_comm, join16 by done. unfold is_byte, u16 in *. apply Z.mod_small. lia.
Qed.

Lemma uint16_split s :
  (0 ≤ s < 65536)%Z → u16 (Z.lor (u8 s) (Z.shiftl (u8 (Z.shiftr s 8)) 8)) = s.
Proof. intros. rewrite Z.lor_comm. by apply u16_join. Qed.

Lemma uint16_inj lo hi :
  is_byte lo → is_byte hi →
  let s := (hi * 256 + lo)%Z in u8 s = lo ∧ u8 (Z.shiftr s 8) = hi ∧ (0 ≤ s < 65536)%Z.
Proof.
  intros Hlo Hhi s. unfold is_byte in *. assert (0 ≤ s < 65536)%Z by (subst s; lia).
  rewrite u8_shiftr8 by done. split_and!; try lia.
  - unfold u8, s. rewrite Z.add_comm, Z_mod_plus_full. by apply Z.mod_small.
  - unfold s. rewrite Z.div_add_l by lia. rewrite Z.div_small by lia. lia.
Qed.

(** What [DecodeHeader] makes of the five fields. *)
Definition header_of (ty op sq st : Z) : proto_error + Header :=
  if (ty =? 1)%Z then
    if ((sq =? 0) || negb (st =? 0))%Z then inl ErrInvalidReport
    else inr (MkHeader MessageRequest op sq st)
  else if (ty =? 2)%Z then
    if (sq =? 0)%Z then inl ErrInvalidReport else inr (MkHeader MessageResponse op sq st)
  else if (ty =? 3)%Z then
    if (negb (sq =? 0) || negb (st =? 0))%Z then inl ErrInvalidReport
    else inr (MkHeader MessageSignal op sq st)
  else inl ErrInvalidType.

Lemma header_of_iff ty op sq st h :
  is_byte op → is_byte st → (0 ≤ sq < 65536)%Z →
  (header_of ty op sq st = inr h ↔ wf_header h ∧
   ty = message_type_code (Type_ h) ∧ op = Opcode h ∧ sq = Sequence h ∧ st = Status h).
Proof.
  intros Hop Hst Hsq. unfold header_of, wf_header, StatusSuccess. split.
  - repeat case_match; intros [= <-]; cbn [Type_ Opcode Sequence Status];
      repeat match goal with H : (_ || _)%bool = _ |- _ => apply orb_false_iff in H as [??] end;
      reflect_bools; by subst.
  - destruct h as [[] op' sq' st']; cbn [Type_ Opcode Sequence Status message_type_code];
      intros ((_ & _ & _ & Hc) & -> & <- & <- & <-); cbn [Z.eqb Pos.eqb].
    + destruct Hc as [Hs ->]. by rewrite (proj2 (Z.eqb_neq _ _) Hs).
    + by rewrite (proj2 (Z.eqb_neq _ _) Hc).
    + by destruct Hc as [-> ->].
Qed.

Lemma decode_header_run {S} ty op lo hi st body (s : S) :
  is_byte lo → is_byte hi → length body = 59 →
  DecodeHeader (ty :: op :: lo :: hi :: st :: body) s =
    Val (header_of ty op (hi * 256 + lo) st, s).
Proof.
  intros Hlo Hhi Hl. unfold DecodeHeader, ReportSize. cbn [length]. rewrite Hl.
  change (negb (64 =? 64)%nat) with false. unfold get_uint16, bind, aget, ret.
  cbn [lookup list_lookup Nat.add]. rewrite uint16_bytes by done.
  unfold header_of, StatusSuccess, message_type_code. by repeat case_match.
Qed.

Lemma decode_encoded_header {S} h body (s : S) :
  wf_header h → length body = 59 → DecodeHeader (encode_header h ++ body) s = Val (inr h, s).
Proof.
  intros Hwf Hl. pose proof Hwf as (Hop & Hst & Hsq & _). unfold encode_header. cbn [app].
  rewrite decode_header_run by auto with fw. f_equal. f_equal.
  rewrite <- uint16_bytes, uint16_split by auto with fw. by apply header_of_iff.
Qed.

(** ** Properties *)

(** C36: [DecodeHeader] never panics, and it accepts exactly the well-formed reports:
    64 bytes that are a well-formed header's encoding (a request has a sequence and
    status zero, a response has a sequence, a signal has neither) and a body; the
    header returned is that header. *)
Theorem decode_header_exact {S} raw (s : S) :
  is_bytes raw →
  ∃ r, DecodeHeader raw s = Val (r, s) ∧
    ∀ h, r = inr h ↔ wf_header h ∧ ∃ body, raw = encode_header h ++ body ∧ length body = 59.
Proof.
  intros Hb. destruct (decide (length raw = 64)) as [Hl|Hl].
  2: { exists (inl ErrInvalidReport). split.
    - unfold DecodeHeader, ReportSize. by rewrite (proj2 (Nat.eqb_neq _ _) Hl).
    - intros h. split; [done|]. intros (_ & body & -> & Hbl). destruct Hl.
      by rewrite length_app, Hbl. }
  destruct raw as [|ty [|op [|lo [|hi [|st body]]]]]; try done.
  repeat match goal with Hf : is_bytes (_ :: _) |- _ => apply Forall_cons in Hf as [? Hf] end.
  destruct (uint16_inj lo hi) as (Hlo & Hhi & Hs); [done..|].
  eexists. split; [apply decode_header_run; try done; simpl in Hl; lia|]. intros h.
  rewrite header_of_iff by done. split.
  - intros (Hwf & -> & -> & Hsq & ->). split; [done|]. exists body. split; [|simpl in Hl; lia].
    unfold encode_header. rewrite <- Hsq, Hlo, Hhi. done.
  - intros (Hwf & body' & Heq & _). split; [done|]. unfold encode_header in Heq. cbn [app] in Heq.
    injection Heq as -> -> -> -> -> _. split_and!; try done.
    rewrite <- uint16_bytes by auto with fw. apply uint16_split. by destruct Hwf as (_ & _ & ? & _).
Qed.

(** Reads the decimal digits of a formatted LUID back. *)
Fixpoint parse_bcd (digits : list Z) : list Z :=
  match digits with
  | hi :: lo :: digits => ((hi - 0x30) * 16 + (lo - 0x30))%Z :: parse_bcd digits
  | _ => []
  end.

Definition is_digit (d : Z) : Prop := (0x30 ≤ d ≤ 0x39)%Z.

Lemma nibble_bounds b :
  is_byte b → Z.shiftr b 4 = (b / 16)%Z ∧ Z.land b 0x0F = (b mod 16)%Z ∧
  (0 ≤ b / 16 < 16)%Z ∧ (0 ≤ b mod 16 < 16)%Z ∧ b = (16 * (b / 16) + b mod 16)%Z.
Proof.
  unfold is_byte. intros Hb. pose proof (Z.div_mod b 16 ltac:(lia)).
  pose proof (Z.mod_pos_bound b 16 ltac:(lia)). split_and!; try lia.
  - by rewrite Z.shiftr_div_pow2.
  - change 0x0F%Z with (Z.ones 4). by rewrite Z.land_ones.
Qed.

(** C37: [FormatLUID] writes twenty characters that determine the LUID, and they are
    decimal digits exactly for the LUIDs [validateLUID] accepts. *)
Theorem format_luid_roundtrip luid :
  length luid = 10 → is_bytes luid →
  length (FormatLUID luid) = 20 ∧ parse_bcd (FormatLUID luid) = luid ∧
  (Forall is_digit (FormatLUID luid) ↔ validateLUID luid = true).
Proof.
  intros Hl Hb. replace 20 with (2 * length luid) by lia. clear Hl.
  induction Hb as [|b luid Hb _ (IHl & IHp & IHd)].
  { split_and!; [done..|]. split; [done|constructor]. }
  destruct (nibble_bounds b Hb) as (Hhi & Hlo & Hbh & Hbl & Hsplit).
  change (FormatLUID (b :: luid)) with
    (u8 (0x30 + Z.shiftr b 4) :: u8 (0x30 + Z.land b 0x0F) :: FormatLUID luid).
  rewrite Hhi, Hlo, !u8_id by (unfold is_byte; lia). cbn [length parse_bcd]. split_and!.
  - rewrite IHl. lia.
  - rewrite IHp. f_equal. lia.
  - rewrite !Forall_cons, IHd. unfold validateLUID. cbn [forallb]. rewrite Hhi, Hlo.
    rewrite andb_true_iff, negb_true_iff, orb_false_iff, !Z.ltb_ge. unfold is_digit.
    split; intros; destruct_and?; split_and!; try done; lia.
Qed.

(** The value of a hexadecimal digit [FormatIDm] writes. *)
Definition hex_value (c : Z) : Z := if (c <=? 0x39)%Z then (c - 0x30)%Z else (c - 0x37)%Z.

Fixpoint parse_hex (digits : list Z) : list Z :=
  match digits with
  | hi :: lo :: digits => (hex_value hi * 16 + hex_value lo)%Z :: parse_hex digits
  | _ => []
  end.

Lemma hex_value_digit n : (0 ≤ n < 16)%Z → hex_value (hex !!! Z.to_nat n) = n.
Proof.
  intros Hn. assert (Hall : Forall (λ i, hex_value (hex !!! i) = Z.of_nat i) (seq 0 16))
    by by repeat constructor.
  rewrite Forall_forall in Hall. rewrite (Hall (Z.to_nat n)); [lia|].
  apply elem_of_seq. lia.
Qed.

(** [FormatIDm] writes sixteen characters from which every IDm is read back. *)
Theorem format_idm_roundtrip idm :
  length idm = 8 → is_bytes idm →
  length (FormatIDm idm) = 16 ∧ parse_hex (FormatIDm idm) = idm.
Proof.
  intros Hl Hb. replace 16 with (2 * length idm) by lia. clear Hl.
  induction Hb as [|b idm Hb _ (IHl & IHp)]; [done|].
  destruct (nibble_bounds b Hb) as (Hhi & Hlo & Hbh & Hbl & Hsplit).
  change (FormatIDm (b :: idm)) with
    (hex !!! Z.to_nat (Z.shiftr b 4) :: hex !!! Z.to_nat (Z.land b 0x0F) :: FormatIDm idm).
  rewrite Hhi, Hlo. cbn [length parse_hex]. rewrite !hex_value_digit by done. split.
  - rewrite IHl. lia.
  - rewrite IHp. f_equal. lia.
Qed.

(** ** Witnesses *)

Lemma decode_header_exact_witness :
  DecodeHeader ([1; 1; 0x34; 0x12; 0] ++ replicate 59 0)%Z tt =
    Val (inr (MkHeader MessageRequest 1 0x1234 0), tt).
Proof.
  destruct (decode_header_exact ([1; 1; 0x34; 0x12; 0] ++ replicate 59 0)%Z tt) as (r & -> & Hr).
  - apply Forall_app_2; [solve_bytes|apply is_bytes_replicate].
  - assert (Hh : r = inr (MkHeader MessageRequest 1 0x1234 0)); [|by rewrite Hh].
    apply Hr. split.
    + split_and!; cbn; unfold is_byte, StatusSuccess; lia.
    + exists (replicate 59 0%Z). split; reflexivity.
Defined.

Lemma format_luid_roundtrip_witness :
  parse_bcd (FormatLUID [0x01; 0x23; 0x45; 0x67; 0x89; 0x01; 0x23; 0x45; 0x67; 0x89]%Z) =
    [0x01; 0x23; 0x45; 0x67; 0x89; 0x01; 0x23; 0x45; 0x67; 0x89]%Z.
Proof.
  apply (format_luid_roundtrip [0x01; 0x23; 0x45; 0x67; 0x89; 0x01; 0x23; 0x45; 0x67; 0x89]%Z);
    [reflexivity|solve_bytes].
Defined.

Lemma format_idm_roundtrip_witness :
  parse_hex (FormatIDm [0xAB; 1; 2; 3; 4; 5; 6; 0xF7]%Z) = [0xAB; 1; 2; 3; 4; 5; 6; 0xF7]%Z.
Proof.
  apply (format_idm_roundtrip [0xAB; 1; 2; 3; 4; 5; 6; 0xF7]%Z); [reflexivity|solve_bytes].
Defined.
