(* ===== verification/HostLink.v ===== *)
(** * The PRHP link: firmware and host together

    What the firmware's PRHP code (Prhp.v) sends is what the host's codecs
    (Protocol.v) understand, and the other way round.  Nothing new is modelled
    here; these are the theorems across the two programs. *)
From S2P Require Import Prelude Platform Sim Pn532Iface Reader UsbDevice Prhp Cardio Protocol.

(** The card the host should see for an observation of the reader. *)
Definition host_card (c : reader_card_t) : Protocol.Card :=
  match card_type c with
  | READER_CARD_MIFARE =>
      if card_has_blocks c
      then MkCard CardMIFARE (card_luid c) (card_blocks c) (replicate 8 0%Z)
      else empty_card CardNone
  | READER_CARD_FELICA => MkCard CardFeliCa (replicate 10 0%Z) (replicate 32 0%Z) (card_idm c)
  | READER_CARD_NONE => empty_card CardNone
  end.

(** The host takes a report for the response to the request with this sequence. *)
Definition routed_to {S} (response : list Z) (opcode sequence status : Z) (s : S) : Prop :=
  DecodeHeader response s = Val (inr (MkHeader MessageResponse opcode sequence status), s).

(** The firmware takes a report without sending or changing anything. *)
Definition taken_silently {W} `{Platform W} `{UsbPlatform W} (report : list Z) (w : W) : Prop :=
  prhp_dispatch report w = Val (tt, w).

(** ** Lemmas *)

Lemma luid_scan_validate luid nz :
  luid_scan luid nz ≠ None → validateLUID luid = true.
Proof.
  revert nz. induction luid as [|b luid IH]; intros nz; [done|]. cbn [luid_scan].
  unfold validateLUID. cbn [forallb]. destruct (_ || _)%bool; [done|]. apply IH.
Qed.

Lemma luid_ok_validate luid : luid_ok luid → validateLUID luid = true.
Proof.
  intros [->|Hv]; [done|]. apply (luid_scan_validate luid false).
  unfold valid_luid in Hv. by destruct (luid_scan luid false).
Qed.

(** A report of the firmware, as the host's decoder takes it apart. *)
Lemma decode_report {S} ty op sq st body (s : S) :
  (0 ≤ sq < 65536)%Z → length body ≤ 59 →
  DecodeHeader (prhp_report ty op sq st body) s = Val (header_of ty op sq st, s).
Proof.
  intros Hsq Hl. unfold prhp_report. cbn [app].
  rewrite decode_header_run; [|by auto with fw..|solve_len].
  rewrite <- uint16_bytes by auto with fw. by rewrite uint16_split.
Qed.

Lemma decode_card_signal {S} c (s : S) :
  wf_card c →
  DecodeHeader (card_state_report c) s = Val (inr (MkHeader MessageSignal 2 0 0), s).
Proof.
  intros Hc. unfold card_state_report. rewrite decode_report; [done|lia|].
  by apply length_card_state_body.
Qed.

Lemma decode_report_card {S} c (s : S) :
  wf_card c → DecodeCardStateSignal (card_state_report c) s = Val (inr (host_card c), s).
Proof.
  intros Hc. unfold DecodeCardStateSignal, ok_bind.
  rewrite (bind_val _ _ _ _ _ (decode_card_signal c s Hc)).
  cbn [Type_ Opcode]. rewrite bool_decide_eq_true_2 by done.
  change (negb true) with false. change (negb (2 =? OpcodeCardState)%Z) with false. cbn match.
  destruct Hc as [_ (Hl & _ & Hv) (Hb & _) (Hi & _) _ _ _ _ _].
  apply luid_ok_validate in Hv.
  unfold card_state_report, card_state_body, host_card.
  destruct c as [[] uid luid blocks idm pmm has]; cbn in Hl, Hb, Hi, Hv |- *; [done| |].
  - destruct has; [|done]. explode_lists. cbn in Hv |- *. unfold bind, aget, aread, ret.
    cbn. unfold validateLUID. cbn. by rewrite Hv.
  - explode_lists. done.
Qed.

(** The version query and its answer, for a sequence. *)
Definition version_request_of (sq : Z) : list Z :=
  [1; 1; u8 sq; u8 (Z.shiftr sq 8); 0]%Z ++ replicate 59 0%Z.

Definition version_response_of (sq : Z) : list Z :=
  prhp_report PRHP_RESPONSE PRHP_GET_VERSION sq PRHP_SUCCESS [0; 1]%Z.

Lemma wf_version_request sq :
  (0 < sq < 65536)%Z →
  length (version_request_of sq) = 64 ∧ is_bytes (version_request_of sq) ∧
  header_sequence (version_request_of sq) = sq.
Proof.
  intros Hsq. unfold version_request_of. split_and!; [done| |].
  - apply Forall_app_2; [|apply is_bytes_replicate].
    repeat apply Forall_cons_2; auto using Forall_nil with fw; by vm_compute.
  - unfold header_sequence. cbn -[Z.mul Z.add]. rewrite u8_shiftr8 by lia. unfold u8.
    pose proof (Z.div_mod sq 256). lia.
Qed.

Lemma version_response_header {S} sq (s : S) :
  (0 < sq < 65536)%Z →
  DecodeHeader (version_response_of sq) s =
    Val (inr (MkHeader MessageResponse OpcodeGetVersion sq StatusSuccess), s).
Proof.
  intros Hsq. unfold version_response_of. rewrite decode_report by (simpl; lia).
  unfold header_of, PRHP_RESPONSE.
  cbn [Z.eqb Pos.eqb]. by rewrite (proj2 (Z.eqb_neq sq 0)) by lia.
Qed.

Lemma version_response_decodes {S} sq (s : S) :
  (0 < sq < 65536)%Z →
  DecodeGetVersionResponse (version_response_of sq) s = Val (inr (MkVersion 0 1), s).
Proof.
  intros Hsq. unfold DecodeGetVersionResponse, validateResponse, ok_bind, bind.
  by rewrite version_response_header.
Qed.

Lemma version_request_answered {W} `{Platform W} `{UsbPlatform W} sq (w : W) :
  (0 < sq < 65536)%Z →
  prhp_dispatch (version_request_of sq) w =
    bind (usb_device_send_prhp (version_response_of sq)) (λ _, ret tt) w.
Proof.
  intros Hsq. destruct (wf_version_request sq Hsq) as (Hl & Hb & Hs).
  rewrite prhp_dispatch_reply by (lia || done). unfold prhp_reply. rewrite Hs.
  change (header_type (version_request_of sq)) with 1%Z.
  change (header_status (version_request_of sq)) with 0%Z.
  change (header_opcode (version_request_of sq)) with 1%Z. by rewrite (proj2 (Z.eqb_neq sq 0)) by lia.
Qed.

Lemma reply_decodes {S} request response (s : S) :
  64 ≤ length request → is_bytes request → prhp_reply request = Some response →
  ∃ status,
    routed_to response (header_opcode request) (header_sequence request) status s ∧
    (status = StatusSuccess ↔
       header_status request = 0%Z ∧ header_opcode request = OpcodeGetVersion) ∧
    (status ≠ StatusSuccess →
       validateResponse response (header_opcode request) s =
         Val (inl (StatusError (header_opcode request) status), s)).
Proof.
  intros Hl Hb.
  assert (Hsq : (0 ≤ header_sequence request < 65536)%Z).
  { destruct request as [|? [|? [|lo [|hi rest]]]]; simpl in Hl; try lia.
    repeat match goal with Hf : is_bytes (_ :: _) |- _ => apply Forall_cons in Hf as [? Hf] end.
    unfold header_sequence, is_byte in *. cbn -[Z.mul Z.add]. lia. }
  assert (Hrep : ∀ st body, length body ≤ 59 → header_sequence request ≠ 0%Z →
    DecodeHeader (prhp_report PRHP_RESPONSE (header_opcode request) (header_sequence request) st body) s =
    Val (inr (MkHeader MessageResponse (header_opcode request) (header_sequence request) st), s)).
  { intros st body Hbl Hnz. rewrite decode_report by done.
    unfold header_of, PRHP_RESPONSE. cbn [Z.eqb Pos.eqb]. by rewrite (proj2 (Z.eqb_neq _ _) Hnz). }
  assert (Hval : ∀ r st, st ≠ StatusSuccess →
    DecodeHeader r s =
      Val (inr (MkHeader MessageResponse (header_opcode request) (header_sequence request) st), s) →
    validateResponse r (header_opcode request) s =
      Val (inl (StatusError (header_opcode request) st), s)).
  { intros r st Hst Hd. unfold validateResponse, ok_bind, bind. rewrite Hd.
    cbn [Type_ Opcode Status]. rewrite bool_decide_eq_true_2 by done. rewrite Z.eqb_refl. cbn [negb].
    by rewrite (proj2 (Z.eqb_neq _ _) Hst). }
  unfold prhp_reply. destruct (_ || _)%bool eqn:Hc; [done|]. apply orb_false_iff in Hc as [_ Hnz].
  apply Z.eqb_neq in Hnz.
  unfold OpcodeGetVersion, StatusSuccess in *.
  destruct (Z.eqb_spec (header_status request) 0) as [Hs|Hs]; cbn [negb];
    [destruct (Z.eqb_spec (header_opcode request) PRHP_GET_VERSION) as [Ho|Ho]|]; intros [= <-].
  - exists 0%Z. split; [apply Hrep; [simpl; lia|done]|]. by split.
  - exists 1%Z. split; [apply Hrep; [simpl; lia|done]|]. split; [split; [done|by intros [_ ?]]|].
    intros. apply Hval; [done|]. apply Hrep; [simpl; lia|done].
  - exists 2%Z. split; [apply Hrep; [simpl; lia|done]|]. split; [split; [done|by intros [? _]]|].
    intros. apply Hval; [done|]. apply Hrep; [simpl; lia|done].
Qed.

(** ** Properties *)

(** C5: the host decodes every card the reader publishes, without error and without
    loss: LUID and blocks of a MIFARE card that was read, the IDm of a FeliCa card,
    no card otherwise (a MIFARE card without blocks included). *)
Theorem card_state_roundtrip {S} c (s : S) :
  wf_card c →
  ∃ report, card_state_signal c s = Val (report, s) ∧
    DecodeCardStateSignal report s = Val (inr (host_card c), s).
Proof.
  intros Hc. exists (card_state_report c). split; [by apply card_state_signal_run|].
  by apply decode_report_card.
Qed.

(** C25: the version query: whatever nonzero sequence the host picks, the firmware
    answers the report [EncodeGetVersion] builds by sending one response, which the
    host routes to that sequence and decodes as version 0.1. *)
Theorem version_query {W} `{Platform W} `{UsbPlatform W} sq (w : W) :
  (0 < sq < 65536)%Z →
  ∃ request response,
    EncodeGetVersion sq w = Val (request, w) ∧
    prhp_dispatch request w = bind (usb_device_send_prhp response) (λ _, ret tt) w ∧
    routed_to response OpcodeGetVersion sq StatusSuccess w ∧
    DecodeGetVersionResponse response w = Val (inr (MkVersion 0 1), w).
Proof.
  intros Hsq. exists (version_request_of sq), (version_response_of sq).
  split; [reflexivity|]. split; [by apply version_request_answered|].
  split; [by apply version_response_header|by apply version_response_decodes].
Qed.

(** The LED signal is taken without an answer: the firmware sends nothing for
    what [EncodeSetLED] builds, whatever the colour. *)
Theorem set_led_silent {W} `{Platform W} `{UsbPlatform W} red green blue (w : W) :
  is_byte red → is_byte green → is_byte blue →
  ∃ signal, EncodeSetLED red green blue w = Val (signal, w) ∧
    length signal = 64 ∧ taken_silently signal w.
Proof.
  intros Hr Hg Hb. eexists. split; [reflexivity|]. split; [reflexivity|].
  unfold taken_silently. rewrite prhp_dispatch_reply; [reflexivity|simpl; lia|].
  repeat (apply Forall_cons_2; [first [done|apply is_byte_0|by split]|]). apply Forall_nil_2.
Qed.

(** C26: whatever report of 64 bytes a host sends, the dispatcher answers it with one
    response of 64 bytes if it is a request with a nonzero sequence, and otherwise takes
    it without sending or changing anything. The host's decoder accepts the response
    with the request's opcode and sequence; its status is success exactly for a
    GET_VERSION request with status 0, and any other is reported as a [StatusError]. *)
Theorem replies_decode {W} `{Platform W} `{UsbPlatform W} request (w : W) :
  length request = 64 → is_bytes request →
  if (header_type request =? PRHP_REQUEST)%Z && negb (header_sequence request =? 0)%Z then
    ∃ response status,
      prhp_dispatch request w = bind (usb_device_send_prhp response) (λ _, ret tt) w ∧
      length response = 64 ∧
      routed_to response (header_opcode request) (header_sequence request) status w ∧
      (status = StatusSuccess ↔
         header_status request = 0%Z ∧ header_opcode request = OpcodeGetVersion) ∧
      (status ≠ StatusSuccess →
         validateResponse response (header_opcode request) w =
           Val (inl (StatusError (header_opcode request) status), w))
  else taken_silently request w.
Proof.
  intros Hl Hb. unfold taken_silently. rewrite prhp_dispatch_reply by (lia || done).
  destruct (prhp_reply request) as [response|] eqn:Hr.
  - assert (Hc : (header_type request =? PRHP_REQUEST)%Z && negb (header_sequence request =? 0)%Z = true).
    { unfold prhp_reply in Hr. by destruct (_ =? PRHP_REQUEST)%Z, (header_sequence request =? 0)%Z. }
    rewrite Hc. destruct (reply_decodes request response w) as (status & ? & ? & ?); [lia|done|done|].
    exists response, status. split; [done|]. split; [|done].
    by apply (prhp_reply_wf request).
  - unfold prhp_reply in Hr.
    destruct (_ =? PRHP_REQUEST)%Z, (header_sequence request =? 0)%Z; cbn [negb orb andb] in *; try done.
    by repeat case_match.
Qed.

(** ** Witnesses *)

Lemma card_state_roundtrip_witness :
  ∃ report, card_state_signal sample_felica_card tt = Val (report, tt) ∧
    DecodeCardStateSignal report tt =
      Val (inr (MkCard CardFeliCa (replicate 10 0%Z) (replicate 32 0%Z)
                  [1; 0x27; 2; 3; 4; 5; 6; 7]%Z), tt).
Proof. apply (card_state_roundtrip sample_felica_card tt sample_felica_card_wf). Defined.

Lemma version_query_witness :
  ∃ request response, EncodeGetVersion 0x1234 (sim_boot []) = Val (request, sim_boot []) ∧
    prhp_dispatch request (sim_boot []) =
      bind (usb_device_send_prhp response) (λ _, ret tt) (sim_boot []) ∧
    DecodeHeader response (sim_boot []) =
      Val (inr (MkHeader MessageResponse OpcodeGetVersion 0x1234 0), sim_boot []) ∧
    DecodeGetVersionResponse response (sim_boot []) = Val (inr (MkVersion 0 1), sim_boot []).
Proof. apply (version_query 0x1234 (sim_boot [])). lia. Defined.

Lemma set_led_silent_witness :
  ∃ signal, EncodeSetLED 255 0 7 (sim_boot []) = Val (signal, sim_boot []) ∧
    length signal = 64 ∧ prhp_dispatch signal (sim_boot []) = Val (tt, sim_boot []).
Proof. apply set_led_silent; split; lia. Defined.

(** An opcode the firmware does not know is answered, through the driver, with an error
    the host recognises. *)
Definition unknown_request : list Z := [1; 0x77; 5; 0; 0]%Z ++ replicate 59 0%Z.

Lemma replies_decode_witness :
  ∃ response status,
    prhp_dispatch unknown_request (sim_boot []) =
      Val (tt, sim_log (HidReport 0 0 response) (sim_boot [])) ∧
    routed_to response 0x77 5 status (sim_boot []) ∧
    validateResponse response 0x77 (sim_boot []) =
      Val (inl (StatusError 0x77 status), sim_boot []).
Proof.
  destruct (replies_decode unknown_request (sim_boot []))
    as (response & status & Hd & Hl & Hr & Hs & Hv).
  - reflexivity.
  - apply Forall_app_2; [solve_bytes|apply is_bytes_replicate].
  - exists response, status. split; [|split; [exact Hr|]].
    + rewrite Hd. unfold usb_device_send_prhp, send_hid, aread, PRHP_REPORT_SIZE.
      rewrite Hl, drop_0, (take_ge response 64) by by rewrite Hl. reflexivity.
    + apply Hv. intros H. apply Hs in H as [_ H]. discriminate H.
Defined.
