(* ===== verification/Caller.v ===== *)
(** * internal/hid/caller.go: request correlation in the host

    The [Caller]: sequences, pending calls and the cache between them.  The cache is
    a third-party LRU with lifetimes, the class [CallCache].  [Allocate] and
    [Consume] are modelled twice: as functions, and as programs of goroutines that
    take one atomic step at a time, so that the theorems cover every
    interleaving of callers, the read loop and expiry. *)
From stdpp Require Import gmap.
From S2P Require Import Prelude.

(** ** The cache *)

(** [freelru.SyncedLRU[uint16, *pendingCall]]; a pending call is named by its index
    in the heap.  [cache_wait] is the passing of time. *)
Class CallCache (W : Type) := {
  cache_get : Z → W → option nat * W;
  cache_add : Z → nat → Z → W → W;
  cache_remove : Z → W → W;
  cache_wait : W → W;
}.

(** [live] is what [Get] finds.  Every operation can evict or expire entries; only
    [Add] makes one live. *)
Class CallCacheLaws (W : Type) `{CallCache W} (live : W → gmap Z nat) := {
  cache_get_law k w : (cache_get k w).1 = live w !! k ∧ live (cache_get k w).2 ⊆ live w;
  cache_add_law k c t w : live (cache_add k c t w) ⊆ <[k:=c]> (live w);
  cache_add_hit k c t w : (0 < t)%Z → live (cache_add k c t w) !! k = Some c;
  cache_remove_law k w : live (cache_remove k w) ⊆ delete k (live w);
  cache_wait_law w : live (cache_wait w) ⊆ live w;
}.

Definition callerCapacity : nat := 1024.

(** ** The caller *)

(** [response] is the content of the channel, whose capacity is one. *)
Record pendingCall : Type := PendingCall {
  response : option (list Z);
  consumed : bool;
}.

(** The fields of [Caller], and the pending calls ever made. *)
Record Caller (W : Type) : Type := MkCaller {
  next : Z;
  calls : W;
  heap : list pendingCall;
}.
Arguments MkCaller {W} next calls heap.
Arguments next {W} c.
Arguments calls {W} c.
Arguments heap {W} c.

Inductive caller_error : Type :=
  | ErrInvalidTimeout
  | ErrSequenceExhausted
  | ErrUnknownSequence.

Definition u32 (z : Z) : Z := (z mod 4294967296)%Z.

Section caller.
Context {W : Type} `{CallCache W}.
Implicit Types s : Caller W.

Definition NewCaller (empty : W) : Caller W := MkCaller 0 empty [].

(** [uint16(c.next.Add(1))] *)
Definition next_sequence : M (Caller W) Z := prim (λ s,
  (u16 (u32 (next s + 1)), MkCaller (u32 (next s + 1)) (calls s) (heap s))).

Definition calls_get (sequence : Z) : M (Caller W) (option nat) := prim (λ s,
  ((cache_get sequence (calls s)).1, MkCaller (next s) (cache_get sequence (calls s)).2 (heap s))).

(** [call := &pendingCall{...}; c.calls.AddWithLifetime(sequence, call, timeout)] *)
Definition add_call (sequence timeout : Z) : M (Caller W) nat := prim (λ s,
  (length (heap s), MkCaller (next s) (cache_add sequence (length (heap s)) timeout (calls s))
                     (heap s ++ [PendingCall None false]))).

Definition calls_remove (sequence : Z) : M (Caller W) unit :=
  modify (λ s, MkCaller (next s) (cache_remove sequence (calls s)) (heap s)).

Fixpoint allocate_loop (attempts : nat) (timeout : Z)
    : M (Caller W) (caller_error + Z * nat) :=
  match attempts with
  | O => ret (inl ErrSequenceExhausted)
  | S attempts =>
      let* sequence := next_sequence in
      if (sequence =? 0)%Z then allocate_loop attempts timeout else
      let* found := calls_get sequence in
      match found with
      | Some _ => allocate_loop attempts timeout
      | None => let* call := add_call sequence timeout in ret (inr (sequence, call))
      end
  end.

Definition Allocate (timeout : Z) : M (Caller W) (caller_error + Z * nat) :=
  if (timeout <=? 0)%Z then ret (inl ErrInvalidTimeout)
  else allocate_loop (Z.to_nat 0xFFFF) timeout.

(** [call.consumed.CompareAndSwap(false, true)] *)
Definition compare_and_swap (call : nat) : M (Caller W) bool := λ s,
  match heap s !! call with
  | None => Ub
  | Some p =>
      if consumed p then Val (false, s)
      else Val (true, MkCaller (next s) (calls s)
                        (<[call:=PendingCall (response p) true]> (heap s)))
  end.

(** [call.response <- raw]; a send to a full channel blocks, here without end. *)
Definition send_channel (call : nat) (raw : list Z) : M (Caller W) unit := λ s,
  match heap s !! call with
  | None => Ub
  | Some p =>
      match response p with
      | Some _ => OutOfFuel
      | None => Val (tt, MkCaller (next s) (calls s)
                           (<[call:=PendingCall (Some raw) (consumed p)]> (heap s)))
      end
  end.

Definition Consume (sequence : Z) (raw : list Z) : M (Caller W) (option caller_error) :=
  let* found := calls_get sequence in
  match found with
  | None => ret (Some ErrUnknownSequence)
  | Some call =>
      let* swapped := compare_and_swap call in
      if negb swapped then ret (Some ErrUnknownSequence) else
      do* calls_remove sequence in
      do* send_channel call raw in
      ret None
  end.

(** ** Goroutines *)

(** Where a goroutine is in [Allocate] or [Consume]. *)
Inductive pc : Type :=
  | AllocNext (attempts : nat) (timeout : Z)
  | AllocGet (attempts : nat) (timeout sequence : Z)
  | AllocAdd (sequence timeout : Z)
  | AllocDone (r : caller_error + Z * nat)
  | ConsumeGet (sequence : Z) (raw : list Z)
  | ConsumeSwap (sequence : Z) (raw : list Z) (call : nat)
  | ConsumeRemove (sequence : Z) (raw : list Z) (call : nat)
  | ConsumeSend (sequence : Z) (raw : list Z) (call : nat)
  | ConsumeDone (r : option caller_error).

(** What an observer of the caller sees. *)
Inductive event : Type :=
  | Allocated (sequence : Z) (call : nat)
  | Delivered (sequence : Z) (call : nat) (raw : list Z).

(** One atomic step of a goroutine. *)
Definition thread_step (p : pc) : M (Caller W) (pc * list event) :=
  match p with
  | AllocNext O _ => ret (AllocDone (inl ErrSequenceExhausted), [])
  | AllocNext (S attempts) timeout =>
      let* sequence := next_sequence in
      ret (if (sequence =? 0)%Z then AllocNext attempts timeout
           else AllocGet attempts timeout sequence, [])
  | AllocGet attempts timeout sequence =>
      let* found := calls_get sequence in
      ret (match found with
           | Some _ => AllocNext attempts timeout
           | None => AllocAdd sequence timeout
           end, [])
  | AllocAdd sequence timeout =>
      let* call := add_call sequence timeout in
      ret (AllocDone (inr (sequence, call)), [Allocated sequence call])
  | ConsumeGet sequence raw =>
      let* found := calls_get sequence in
      ret (match found with
           | None => ConsumeDone (Some ErrUnknownSequence)
           | Some call => ConsumeSwap sequence raw call
           end, [])
  | ConsumeSwap sequence raw call =>
      let* swapped := compare_and_swap call in
      ret (if (swapped : bool) then ConsumeRemove sequence raw call
           else ConsumeDone (Some ErrUnknownSequence), [])
  | ConsumeRemove sequence raw call =>
      do* calls_remove sequence in ret (ConsumeSend sequence raw call, [])
  | ConsumeSend sequence raw call =>
      do* send_channel call raw in
      ret (ConsumeDone None, [Delivered sequence call raw])
  | AllocDone _ | ConsumeDone _ => ret (p, [])
  end.

(** The first step of [Allocate] and of [Consume]. *)
Definition start_allocate (timeout : Z) : pc :=
  if (timeout <=? 0)%Z then AllocDone (inl ErrInvalidTimeout)
  else AllocNext (Z.to_nat 0xFFFF) timeout.

Definition start_consume (sequence : Z) (raw : list Z) : pc := ConsumeGet sequence raw.

(** The caller with the goroutines that use it. *)
Record system : Type := System {
  caller : Caller W;
  threads : list pc;
}.

(** A goroutine calls [Allocate] or [Consume], one takes a step, time passes, or the
    owner of a channel receives from it. *)
Inductive step : system → list event → system → Prop :=
  | step_allocate s ts timeout :
      step (System s ts) [] (System s (ts ++ [start_allocate timeout]))
  | step_consume s ts sequence raw :
      step (System s ts) [] (System s (ts ++ [start_consume sequence raw]))
  | step_thread s ts i p p' es s' :
      ts !! i = Some p → thread_step p s = Val ((p', es), s') →
      step (System s ts) es (System s' (<[i:=p']> ts))
  | step_wait s ts :
      step (System s ts) [] (System (MkCaller (next s) (cache_wait (calls s)) (heap s)) ts)
  | step_receive s ts call raw b :
      heap s !! call = Some (PendingCall (Some raw) b) →
      step (System s ts) []
        (System (MkCaller (next s) (calls s) (<[call:=PendingCall None b]> (heap s))) ts).

(** What happened since the caller was made. *)
Inductive history (empty : W) : list event → system → Prop :=
  | history_start : history empty [] (System (NewCaller empty) [])
  | history_step es σ es' σ' :
      history empty es σ → step σ es' σ' → history empty (es ++ es') σ'.
End caller.

(** ** The invariant *)

Definition allocated (es : list event) : list (Z * nat) :=
  omap (λ e, match e with Allocated k c => Some (k, c) | _ => None end) es.

Definition delivered (es : list event) : list (Z * nat * list Z) :=
  omap (λ e, match e with Delivered k c raw => Some (k, c, raw) | _ => None end) es.

(** The calls that got a message. *)
Definition delivered_calls (es : list event) : list nat := map (λ d, d.1.2) (delivered es).

(** The call a consumer works on. *)
Definition target (p : pc) : option (Z * nat) :=
  match p with
  | ConsumeSwap k _ c | ConsumeRemove k _ c | ConsumeSend k _ c => Some (k, c)
  | _ => None
  end.

(** The call a consumer has won. *)
Definition holds (p : pc) : option nat :=
  match p with ConsumeRemove _ _ c | ConsumeSend _ _ c => Some c | _ => None end.

(** The sequence an allocator has drawn. *)
Definition drawn (p : pc) : option Z :=
  match p with AllocGet _ _ k | AllocAdd k _ => Some k | _ => None end.

Definition valid_sequence (k : Z) : Prop := (0 < k < 65536)%Z.

Definition is_consumed (heap : list pendingCall) (c : nat) : Prop :=
  ∃ p, heap !! c = Some p ∧ consumed p = true.

Lemma allocated_app es es' : allocated (es ++ es') = allocated es ++ allocated es'.
Proof. apply omap_app. Qed.

Lemma delivered_calls_app es es' :
  delivered_calls (es ++ es') = delivered_calls es ++ delivered_calls es'.
Proof. unfold delivered_calls, delivered. by rewrite omap_app, map_app. Qed.

Section invariant.
Context {W : Type} `{CallCacheLaws W live}.
Implicit Types s : Caller W.
Implicit Types es : list event.

Record caller_ok es s : Prop := {
  ok_live k c : live (calls s) !! k = Some c → (k, c) ∈ allocated es;
  ok_heap k c : (k, c) ∈ allocated es → c < length (heap s);
  ok_sequence k c : (k, c) ∈ allocated es → valid_sequence k;
  ok_fresh : NoDup (allocated es).*2;
  ok_consumed c : c ∈ delivered_calls es → is_consumed (heap s) c;
  ok_channel c p : heap s !! c = Some p → response p ≠ None → c ∈ delivered_calls es;
  ok_once : NoDup (delivered_calls es);
  ok_matched k c raw : (k, c, raw) ∈ delivered es → (k, c) ∈ allocated es;
}.

Record thread_ok es s (p : pc) : Prop := {
  ok_target k c : target p = Some (k, c) → (k, c) ∈ allocated es;
  ok_holds c : holds p = Some c → is_consumed (heap s) c ∧ c ∉ delivered_calls es;
  ok_drawn k : drawn p = Some k → valid_sequence k;
}.

(** No two consumers have won the same call. *)
Definition exclusive (ts : list pc) : Prop :=
  ∀ i j p q c, ts !! i = Some p → ts !! j = Some q →
    holds p = Some c → holds q = Some c → i = j.

Definition system_ok es (σ : system (W := W)) : Prop :=
  caller_ok es (caller σ) ∧ Forall (thread_ok es (caller σ)) (threads σ) ∧ exclusive (threads σ).

(** The caller can lose live entries, and nothing else needs proof. *)
Lemma caller_ok_shrink es n w s :
  live w ⊆ live (calls s) → caller_ok es s → caller_ok es (MkCaller n w (heap s)).
Proof. intros Hsub []. split; try done. intros k c Hk. apply ok_live0. by eapply lookup_weaken. Qed.

Lemma thread_ok_shrink es n w s p :
  thread_ok es s p → thread_ok es (MkCaller n w (heap s)) p.
Proof. by intros []. Qed.

Lemma exclusive_insert ts i p p' :
  exclusive ts → ts !! i = Some p →
  (∀ c, holds p' = Some c → ∀ j q, j ≠ i → ts !! j = Some q → holds q ≠ Some c) →
  exclusive (<[i:=p']> ts).
Proof.
  intros Hex Hi Hnew a b q r c Ha Hb Hq Hr.
  apply list_lookup_insert_Some in Ha as [(-> & <- & _)|[Hai Ha]];
    apply list_lookup_insert_Some in Hb as [(Hib & Hpr & _)|[Hbi Hb]]; subst; try done.
  - by destruct (Hnew c Hq b r (not_eq_sym Hbi) Hb).
  - by destruct (Hnew c Hr a q (not_eq_sym Hai) Ha).
  - by eapply Hex.
Qed.

Lemma exclusive_snoc ts p : exclusive ts → holds p = None → exclusive (ts ++ [p]).
Proof.
  intros Hex Hp a b q r c Ha Hb Hq Hr.
  apply lookup_app_Some in Ha as [Ha|[_ [_ <-]%list_lookup_singleton_Some]]; [|congruence].
  apply lookup_app_Some in Hb as [Hb|[_ [_ <-]%list_lookup_singleton_Some]]; [|congruence].
  by eapply Hex.
Qed.

(** A step of thread [i] that keeps the caller's facts for the other threads. *)
Lemma system_ok_insert es es' s s' ts i p p' :
  system_ok es (System s ts) → ts !! i = Some p →
  caller_ok es' s' → thread_ok es' s' p' →
  (∀ j q, j ≠ i → ts !! j = Some q → thread_ok es s q → thread_ok es' s' q) →
  (∀ c, holds p' = Some c → ∀ j q, j ≠ i → ts !! j = Some q → holds q ≠ Some c) →
  system_ok es' (System s' (<[i:=p']> ts)).
Proof.
  intros (_ & Hts & Hex) Hi Hs' Hp' Hothers Hnew. cbn [caller threads] in *.
  split; [done|]. split; [|by eapply exclusive_insert].
  apply Forall_lookup_2. intros j q Hj.
  apply list_lookup_insert_Some in Hj as [(_ & <- & _)|[Hij Hj]]; [done|].
  eapply Hothers; [done|done|]. by eapply Forall_lookup_1.
Qed.

(** The common case: nothing observable, only live entries lost, nothing won. *)
Lemma system_ok_quiet es s n w ts i p p' :
  system_ok es (System s ts) → ts !! i = Some p → live w ⊆ live (calls s) →
  (∀ k c, target p' = Some (k, c) → (k, c) ∈ allocated es) →
  (∀ c, holds p' = Some c → holds p = Some c) →
  (∀ k, drawn p' = Some k → valid_sequence k) →
  system_ok es (System (MkCaller n w (heap s)) (<[i:=p']> ts)).
Proof.
  intros Hok Hi Hsub Ht Hh Hd. pose proof Hok as (Hs & Hts & Hex). cbn [caller threads] in *.
  pose proof (Forall_lookup_1 _ _ _ _ Hts Hi) as Hp.
  eapply system_ok_insert; [done|done|by apply caller_ok_shrink| | |].
  - split; [done| |done]. intros c Hc. by apply (ok_holds _ _ _ Hp), Hh.
  - intros j q _ _. by apply thread_ok_shrink.
  - intros c Hc j q Hj Hq Hqc. destruct Hj. eapply (Hex j i); eauto.
Qed.

Lemma is_consumed_insert l c c' p :
  is_consumed l c → (consumed p = true ∨ c' ≠ c) → is_consumed (<[c':=p]> l) c.
Proof.
  intros (q & Hq & Hc) Hp. destruct (decide (c' = c)) as [->|Hne].
  - exists p. destruct Hp; [|done]. split; [|done].
    apply list_lookup_insert_eq. by eapply lookup_lt_Some.
  - exists q. by rewrite list_lookup_insert_ne.
Qed.

(** ** Every step keeps it *)

Lemma step_alloc_add es s ts i k t :
  system_ok es (System s ts) → ts !! i = Some (AllocAdd k t) →
  let c := length (heap s) in
  system_ok (es ++ [Allocated k c])
    (System (MkCaller (next s) (cache_add k c t (calls s)) (heap s ++ [PendingCall None false]))
       (<[i:=AllocDone (inr (k, c))]> ts)).
Proof.
  intros Hok Hi c. pose proof Hok as (Hs & Hts & _). cbn [caller threads] in *.
  pose proof (Forall_lookup_1 _ _ _ _ Hts Hi) as Hp. destruct Hs.
  assert (Hal : allocated (es ++ [Allocated k c]) = allocated es ++ [(k, c)])
    by apply allocated_app.
  assert (Hdl : delivered_calls (es ++ [Allocated k c]) = delivered_calls es)
    by (rewrite delivered_calls_app; apply app_nil_r).
  assert (Hdm : delivered (es ++ [Allocated k c]) = delivered es)
    by (unfold delivered; rewrite omap_app; apply app_nil_r).
  assert (Hcons : ∀ c', is_consumed (heap s) c' →
    is_consumed (heap s ++ [PendingCall None false]) c').
  { intros c' (q & Hq & ?). exists q. split; [by apply lookup_app_l_Some|done]. }
  eapply system_ok_insert; [done|done| | | |done].
  - split; cbn [calls heap]; rewrite ?Hal, ?Hdl, ?Hdm.
    + intros k' c' Hl. eapply lookup_weaken in Hl; [|apply cache_add_law].
      apply elem_of_app. apply lookup_insert_Some in Hl as [[<- <-]|[_ Hl]]; [right; by left|left; auto].
    + intros k' c' [Hin|Hin]%elem_of_app; rewrite length_app.
      * apply ok_heap0 in Hin. simpl. lia.
      * apply list_elem_of_singleton in Hin. injection Hin as -> ->. simpl. lia.
    + intros k' c' [Hin|Hin]%elem_of_app; [by eapply ok_sequence0|].
      apply list_elem_of_singleton in Hin. injection Hin as -> ->. by apply (ok_drawn _ _ _ Hp).
    + rewrite fmap_app. apply NoDup_app. split; [done|]. split; [|apply NoDup_singleton].
      intros c' ([k' c''] & -> & Hin)%list_elem_of_fmap Hc. apply list_elem_of_singleton in Hc.
      apply ok_heap0 in Hin. simpl in *. unfold c in *. lia.
    + intros c' Hc'. by apply Hcons, ok_consumed0.
    + intros c' q Hq Hr. apply lookup_app_Some in Hq as [Hq|[_ [_ <-]%list_lookup_singleton_Some]];
        [by eapply ok_channel0|done].
    + done.
    + intros k' c' raw Hin. apply elem_of_app. left. by eapply ok_matched0.
  - by split.
  - intros j q _ _ [Ht Hh Hd]. split; rewrite ?Hal, ?Hdl; [| |done].
    + intros k' c' Hc'. apply elem_of_app. left. by apply Ht.
    + intros c' Hc'. destruct (Hh c' Hc'). split; [by apply Hcons|done].
Qed.

Lemma step_swap es s ts i k raw c :
  system_ok es (System s ts) → ts !! i = Some (ConsumeSwap k raw c) →
  ∀ r s', compare_and_swap c s = Val (r, s') →
  system_ok es (System s' (<[i:=if r then ConsumeRemove k raw c
                                else ConsumeDone (Some ErrUnknownSequence)]> ts)).
Proof.
  intros Hok Hi r s' Hrun. pose proof Hok as (Hs & Hts & Hex). cbn [caller threads] in *.
  pose proof (Forall_lookup_1 _ _ _ _ Hts Hi) as Hp.
  unfold compare_and_swap in Hrun. destruct (heap s !! c) as [p|] eqn:Hc; [|done].
  destruct (consumed p) eqn:Hcon; injection Hrun as <- <-.
  { destruct s as [n w l]. by eapply (system_ok_quiet es (MkCaller n w l)). }
  destruct Hs.
  assert (Hundelivered : c ∉ delivered_calls es).
  { intros (q & Hq & Hqc)%ok_consumed0. congruence. }
  assert (Hcons : ∀ c', is_consumed (heap s) c' →
    is_consumed (<[c:=PendingCall (response p) true]> (heap s)) c')
    by (intros; apply is_consumed_insert; [done|by left]).
  eapply system_ok_insert; [done|done| | | |].
  - split; cbn [calls heap]; try done.
    + intros k' c'. rewrite length_insert. apply ok_heap0.
    + intros c' Hc'. by apply Hcons, ok_consumed0.
    + intros c' q Hq Hr. apply list_lookup_insert_Some in Hq as [(<- & <- & _)|[_ Hq]];
        [by eapply ok_channel0|by eapply ok_channel0].
  - split; cbn [target holds drawn]; [|intros c' [= <-]|done].
    + intros k' c' [= <- <-]. by apply (ok_target _ _ _ Hp).
    + split; [|done]. exists (PendingCall (response p) true). split; [|done].
      apply list_lookup_insert_eq. by eapply lookup_lt_Some.
  - intros j q _ _ [Ht Hh Hd]. split; [done| |done].
    intros c' Hc'. destruct (Hh c' Hc'). split; [by apply Hcons|done].
  - cbn [holds]. intros c' [= <-] j q Hj Hq Hqc.
    pose proof (Forall_lookup_1 _ _ _ _ Hts Hq) as Hqok.
    destruct (ok_holds _ _ _ Hqok c Hqc) as [(q' & Hq' & Hq'c) _]. congruence.
Qed.

(** The winner's send never finds the channel full. *)
Lemma send_ready es s ts i k raw c :
  system_ok es (System s ts) → ts !! i = Some (ConsumeSend k raw c) →
  heap s !! c = Some (PendingCall None true).
Proof.
  intros (Hs & Hts & _) Hi. cbn [caller threads] in *.
  pose proof (Forall_lookup_1 _ _ _ _ Hts Hi) as Hp.
  destruct (ok_holds _ _ _ Hp c eq_refl) as [([[r|] b] & Hq & Hqc) Hno]; simpl in Hqc; subst b; [|done].
  destruct Hno. by eapply (ok_channel _ _ Hs).
Qed.

Lemma step_send es s ts i k raw c :
  system_ok es (System s ts) → ts !! i = Some (ConsumeSend k raw c) →
  system_ok (es ++ [Delivered k c raw])
    (System (MkCaller (next s) (calls s) (<[c:=PendingCall (Some raw) true]> (heap s)))
       (<[i:=ConsumeDone None]> ts)).
Proof.
  intros Hok Hi. pose proof (send_ready _ _ _ _ _ _ _ Hok Hi) as Hc.
  pose proof Hok as (Hs & Hts & Hex). cbn [caller threads] in *.
  pose proof (Forall_lookup_1 _ _ _ _ Hts Hi) as Hp.
  destruct (ok_holds _ _ _ Hp c eq_refl) as [_ Hno]. destruct Hs.
  assert (Hal : allocated (es ++ [Delivered k c raw]) = allocated es)
    by (rewrite allocated_app; apply app_nil_r).
  assert (Hdl : delivered_calls (es ++ [Delivered k c raw]) = delivered_calls es ++ [c])
    by apply delivered_calls_app.
  assert (Hdm : delivered (es ++ [Delivered k c raw]) = delivered es ++ [(k, c, raw)])
    by (unfold delivered; by rewrite omap_app).
  assert (Hcons : ∀ c', is_consumed (heap s) c' →
    is_consumed (<[c:=PendingCall (Some raw) true]> (heap s)) c')
    by (intros; apply is_consumed_insert; [done|by left]).
  eapply system_ok_insert; [done|done| | | |done].
  - split; cbn [calls heap]; rewrite ?Hal, ?Hdl, ?Hdm; try done.
    + intros k' c'. rewrite length_insert. apply ok_heap0.
    + intros c' [Hin|Hin]%elem_of_app; [by apply Hcons, ok_consumed0|].
      apply list_elem_of_singleton in Hin as ->. exists (PendingCall (Some raw) true). split; [|done].
      apply list_lookup_insert_eq. by eapply lookup_lt_Some.
    + intros c' q Hq Hr. apply elem_of_app.
      apply list_lookup_insert_Some in Hq as [(<- & _ & _)|[_ Hq]]; [right; by left|left; eauto].
    + apply NoDup_app. split; [done|]. split; [|apply NoDup_singleton].
      by intros c' Hin ->%list_elem_of_singleton.
    + intros k' c' raw' [Hin|Hin]%elem_of_app; [by eapply ok_matched0|].
      apply list_elem_of_singleton in Hin. injection Hin as -> -> ->.
      by apply (ok_target _ _ _ Hp).
  - by split.
  - intros j q Hj Hq [Ht Hh Hd]. split; rewrite ?Hal, ?Hdl; [done| |done].
    intros c' Hc'. destruct (Hh c' Hc') as [? Hnd]. split; [by apply Hcons|].
    intros [Hin|Hin]%elem_of_app; [done|]. apply list_elem_of_singleton in Hin as ->.
    destruct Hj. by eapply (Hex j i q _ c).
Qed.

Lemma thread_step_ok es s ts i p p' es' s' :
  system_ok es (System s ts) → ts !! i = Some p → thread_step p s = Val ((p', es'), s') →
  system_ok (es ++ es') (System s' (<[i:=p']> ts)).
Proof.
  intros Hok Hi Hrun. destruct s as [n w l].
  pose proof Hok as (Hs & Hts & _). cbn [caller threads] in *.
  pose proof (Forall_lookup_1 _ _ _ _ Hts Hi) as Hp.
  destruct p as [[|a] t|a t k|k t|r|k raw|k raw c|k raw c|k raw c|r];
    cbn [thread_step] in Hrun.
  - injection Hrun as <- <- <-. rewrite app_nil_r.
    by eapply (system_ok_quiet es (MkCaller n w l)).
  - injection Hrun as <- <- <-. rewrite app_nil_r.
    eapply (system_ok_quiet es (MkCaller n w l)); [done|done|done| | |];
      destruct (Z.eqb_spec (u16 (u32 (n + 1))) 0); cbn; try done.
    intros k [= <-]. unfold valid_sequence, u16.
    pose proof (Z.mod_pos_bound (u32 (n + 1)) 65536 ltac:(lia)). unfold u16 in *. cbn in *. lia.
  - injection Hrun as <- <- <-. rewrite app_nil_r. destruct (cache_get_law k w) as [Hget Hsub].
    eapply (system_ok_quiet es (MkCaller n w l)); [done|done|done| | |]; cbn [calls];
      destruct ((cache_get k w).1); cbn; try done.
    intros k' [= <-]. by apply (ok_drawn _ _ _ Hp).
  - injection Hrun as <- <- <-. by apply (step_alloc_add es (MkCaller n w l)).
  - injection Hrun as <- <- <-. rewrite app_nil_r.
    by eapply (system_ok_quiet es (MkCaller n w l)).
  - injection Hrun as <- <- <-. rewrite app_nil_r. destruct (cache_get_law k w) as [Hget Hsub].
    cbn [calls] in *. rewrite Hget.
    eapply (system_ok_quiet es (MkCaller n w l)); [done|done|done| | |];
      destruct (live w !! k) eqn:Hl; cbn; try done.
    intros k' c' [= <- <-]. by apply (ok_live _ _ Hs).
  - unfold bind in Hrun. destruct (compare_and_swap c (MkCaller n w l)) as [[r s1]| |] eqn:Hswap;
      [|done..]. injection Hrun as <- <- <-. rewrite app_nil_r. by eapply step_swap.
  - injection Hrun as <- <- <-. rewrite app_nil_r.
    eapply (system_ok_quiet es (MkCaller n w l)); [done|done| | | |]; cbn; try done.
    + etransitivity; [apply cache_remove_law|]. apply delete_subseteq.
    + intros k' c' [= <- <-]. by apply (ok_target _ _ _ Hp).
  - unfold bind, send_channel in Hrun. rewrite (send_ready _ _ _ _ _ _ _ Hok Hi) in Hrun.
    injection Hrun as <- <- <-. by apply (step_send es (MkCaller n w l)).
  - injection Hrun as <- <- <-. rewrite app_nil_r.
    by eapply (system_ok_quiet es (MkCaller n w l)).
Qed.

Lemma spawn_ok es s ts p :
  system_ok es (System s ts) → target p = None → holds p = None → drawn p = None →
  system_ok es (System s (ts ++ [p])).
Proof.
  intros (Hs & Hts & Hex) Ht Hh Hd. split; [done|]. cbn [caller threads] in *.
  split; [|by apply exclusive_snoc]. apply Forall_app_2; [done|]. apply Forall_singleton.
  split; rewrite ?Ht, ?Hh, ?Hd; done.
Qed.

Lemma step_ok es σ es' σ' : system_ok es σ → step σ es' σ' → system_ok (es ++ es') σ'.
Proof.
  intros Hok Hstep. destruct Hstep as [s ts t|s ts k raw|s ts i p p' es' s' Hi Hrun|s ts|s ts c raw b Hc].
  - rewrite app_nil_r. unfold start_allocate. by case_match; apply spawn_ok.
  - rewrite app_nil_r. by apply spawn_ok.
  - by eapply thread_step_ok.
  - rewrite app_nil_r. destruct Hok as (Hs & Hts & Hex). split; [|split; [|done]].
    + apply caller_ok_shrink; [apply cache_wait_law|done].
    + cbn [caller threads] in *. eapply Forall_impl; [done|]. intros. by apply thread_ok_shrink.
  - rewrite app_nil_r. destruct Hok as (Hs & Hts & Hex). cbn [caller threads] in *.
    assert (Hcons : ∀ c', is_consumed (heap s) c' → is_consumed (<[c:=PendingCall None b]> (heap s)) c').
    { intros c' (q & Hq & Hqc). destruct (decide (c = c')) as [->|Hne].
      - exists (PendingCall None b). rewrite list_lookup_insert_eq by by eapply lookup_lt_Some.
        split; [done|]. by rewrite Hc in Hq; injection Hq as <-.
      - exists q. by rewrite list_lookup_insert_ne. }
    split; [|split; [|done]]; cbn [caller threads].
    + destruct Hs. split; cbn [calls heap]; try done.
      * intros k' c'. rewrite length_insert. apply ok_heap0.
      * intros c' Hc'. by apply Hcons, ok_consumed0.
      * intros c' q Hq Hr. apply list_lookup_insert_Some in Hq as [(_ & <- & _)|[_ Hq]]; [done|eauto].
    + eapply Forall_impl; [done|]. intros p [Ht Hh Hd]. split; [done| |done].
      intros c' Hc'. destruct (Hh c' Hc'). split; [by apply Hcons|done].
Qed.

Lemma history_ok empty es σ :
  live empty = ∅ → history empty es σ → system_ok es σ.
Proof.
  intros Hempty Hh. induction Hh as [|es σ es' σ' _ IH Hstep]; [|by eapply step_ok].
  split; [|split; [constructor|done]]. split; cbn; try done; try apply NoDup_nil_2;
    try (intros; exfalso; by eapply not_elem_of_nil).
  intros k c. by rewrite Hempty, lookup_empty.
Qed.
End invariant.

(** ** One goroutine alone *)

Section alone.
Context {W : Type} `{CallCache W}.
Implicit Types s : Caller W.

Fixpoint run_thread (steps : nat) (p : pc) : M (Caller W) pc :=
  match steps with
  | O => ret p
  | S steps => let* r := thread_step p in run_thread steps r.1
  end.

(** A goroutine that has returned stays where it is. *)
Lemma run_thread_done n p s : thread_step p s = Val ((p, []), s) → run_thread n p s = Val (p, s).
Proof.
  intros Hp. induction n as [|n IH]; [done|]. cbn [run_thread].
  by rewrite (bind_val _ _ _ _ _ Hp).
Qed.

Lemma run_allocate_loop attempts timeout n s :
  3 * attempts + 1 ≤ n →
  run_thread n (AllocNext attempts timeout) s =
    bind (allocate_loop attempts timeout) (λ r, ret (AllocDone r)) s.
Proof.
  revert n s. induction attempts as [|attempts IH]; intros n s Hn;
    (destruct n as [|n]; [lia|]); cbn [run_thread allocate_loop thread_step].
  - unfold bind at 1, ret at 1. cbn [fst]. by apply run_thread_done.
  - unfold bind. cbn [next_sequence prim]. unfold ret.
    destruct (_ =? 0)%Z; cbn [fst]; [by apply IH; lia|].
    destruct n as [|n]; [lia|]. cbn [run_thread thread_step]. unfold bind, calls_get, prim, ret.
    cbn [fst calls next heap].
    destruct (cache_get _ (calls s)).1 eqn:Hget; cbn [fst]; [by apply IH; lia|].
    destruct n as [|n]; [lia|]. cbn [run_thread thread_step]. unfold bind, add_call, prim, ret.
    cbn [fst calls next heap]. by apply run_thread_done.
Qed.

Lemma run_thread_step n p s p' es s' :
  thread_step p s = Val ((p', es), s') → run_thread (S n) p s = run_thread n p' s'.
Proof. intros Hp. cbn [run_thread]. by rewrite (bind_val _ _ _ _ _ Hp). Qed.

Lemma run_consume n sequence raw s :
  4 ≤ n →
  run_thread n (ConsumeGet sequence raw) s =
    bind (Consume sequence raw) (λ r, ret (ConsumeDone r)) s.
Proof.
  intros Hn. do 4 (destruct n as [|n]; [lia|]).
  set (s1 := MkCaller (next s) (cache_get sequence (calls s)).2 (heap s)).
  assert (Hcase : ∀ found, (cache_get sequence (calls s)).1 = found →
    calls_get sequence s = Val (found, s1)) by by intros ? <-.
  unfold Consume, bind at 1 2.
  destruct (cache_get sequence (calls s)).1 as [c|]; rewrite (Hcase _ eq_refl).
  2: { erewrite run_thread_step; [by apply run_thread_done|].
    cbn [thread_step]. by rewrite (bind_val _ _ _ _ _ (Hcase _ eq_refl)). }
  erewrite run_thread_step.
  2: { cbn [thread_step]. by rewrite (bind_val _ _ _ _ _ (Hcase _ eq_refl)). }
  cbn [run_thread thread_step]. unfold bind, ret.
  destruct (compare_and_swap c s1) as [[[] s2]| |]; [| |done..]; cbn [fst negb thread_step].
  - unfold bind, calls_remove, modify, ret. cbn [fst thread_step]. unfold bind, ret.
    destruct (send_channel c raw _) as [[[] s3]| |]; [|done..]. cbn [fst].
    by apply run_thread_done.
  - unfold ret at 1. cbn [fst thread_step]. unfold ret. cbn [fst]. by apply run_thread_done.
Qed.
End alone.

(** ** Free sequences *)

(** The sequences the next [n] attempts draw. *)
Definition upcoming (start : Z) (n : nat) : list Z :=
  map (λ i, ((start + Z.of_nat i) mod 65536)%Z) (seq 1 n).

Lemma upcoming_NoDup start n : (Z.of_nat n ≤ 65536)%Z → NoDup (upcoming start n).
Proof.
  intros Hn. unfold upcoming. apply NoDup_fmap_2_strong; [|apply NoDup_seq].
  intros i j [Hi1 Hi2]%elem_of_seq [Hj1 Hj2]%elem_of_seq Heq.
  enough (Z.of_nat i = Z.of_nat j) by lia.
  assert (Hmod : ((Z.of_nat i - Z.of_nat j) mod 65536 = 0)%Z).
  { replace (Z.of_nat i - Z.of_nat j)%Z with ((start + Z.of_nat i) - (start + Z.of_nat j))%Z by lia.
    rewrite Zminus_mod, Heq. by rewrite Z.sub_diag. }
  apply Z.mod_divide in Hmod as [q Hq]; [|lia]. lia.
Qed.

Lemma upcoming_S start n :
  upcoming start (S n) = ((start + 1) mod 65536)%Z :: upcoming (start + 1) n.
Proof.
  unfold upcoming. cbn [seq map]. f_equal. rewrite <- seq_shift, map_map.
  apply map_ext. intros i. f_equal. lia.
Qed.

Lemma u16_u32 z : u16 (u32 z) = (z mod 65536)%Z.
Proof.
  unfold u16, u32. apply Z.mod_mod_divide. by exists 65536%Z.
Qed.

Section free.
Context {W : Type} `{CallCacheLaws W live}.
Implicit Types s : Caller W.

Lemma upcoming_u32 z n : upcoming (u32 z) n = upcoming z n.
Proof.
  unfold upcoming. apply map_ext. intros i. rewrite <- !u16_u32. unfold u16, u32.
  by rewrite Zplus_mod_idemp_l.
Qed.

Lemma allocate_loop_outcome attempts timeout s :
  (0 < timeout)%Z →
  (∃ s', allocate_loop attempts timeout s = Val (inl ErrSequenceExhausted, s') ∧
     Forall (λ k, k = 0%Z ∨ k ∈ dom (live (calls s))) (upcoming (next s) attempts)) ∨
  (∃ k c s', allocate_loop attempts timeout s = Val (inr (k, c), s') ∧
     valid_sequence k ∧ live (calls s') !! k = Some c ∧
     c = length (heap s) ∧ heap s' = heap s ++ [PendingCall None false]).
Proof.
  intros Ht. revert s. induction attempts as [|n IH]; intros s.
  { left. exists s. split; [done|constructor]. }
  set (k := ((next s + 1) mod 65536)%Z). set (n1 := u32 (next s + 1)).
  assert (Hstep : allocate_loop (S n) timeout s =
    (if (k =? 0)%Z then allocate_loop n timeout (MkCaller n1 (calls s) (heap s)) else
     match (cache_get k (calls s)).1 with
     | Some _ => allocate_loop n timeout (MkCaller n1 (cache_get k (calls s)).2 (heap s))
     | None => Val (inr (k, length (heap s)),
                 MkCaller n1 (cache_add k (length (heap s)) timeout (cache_get k (calls s)).2)
                   (heap s ++ [PendingCall None false]))
     end)).
  { cbn [allocate_loop]. unfold bind at 1, next_sequence, prim. rewrite u16_u32. fold k n1.
    destruct (k =? 0)%Z; [done|]. unfold bind, calls_get, prim. cbn [calls next heap].
    by destruct (cache_get k (calls s)).1. }
  rewrite Hstep, upcoming_S. fold k. clear Hstep.
  pose proof (Z.mod_pos_bound (next s + 1) 65536 ltac:(lia)) as Hk. fold k in Hk.
  destruct (Z.eqb_spec k 0) as [Hk0|Hk0].
  { destruct (IH (MkCaller n1 (calls s) (heap s)))
      as [(s' & Hrun & Hall)|Hok]; cbn [next calls heap] in *; [|by right].
    left. exists s'. split; [done|]. constructor; [by left|].
    unfold n1 in Hall. by rewrite upcoming_u32 in Hall. }
  destruct (cache_get_law k (calls s)) as [Hget Hsub].
  destruct (cache_get k (calls s)).1 as [c|].
  - destruct (IH (MkCaller n1 (cache_get k (calls s)).2 (heap s)))
      as [(s' & Hrun & Hall)|Hok]; cbn [next calls heap] in *; [|by right].
    left. exists s'. split; [done|]. constructor.
    + right. apply elem_of_dom. by eexists.
    + unfold n1 in Hall. rewrite upcoming_u32 in Hall.
      eapply Forall_impl; [done|]. intros q [->|Hq]; [by left|].
      right. by apply (subseteq_dom _ _ Hsub).
  - right. exists k, (length (heap s)). eexists. split; [reflexivity|]. cbn [calls heap].
    split; [unfold valid_sequence; lia|]. by split; [apply cache_add_hit|].
Qed.

(** With room in the cache some attempt draws a free sequence. *)
Lemma allocate_outcome timeout s :
  (0 < timeout)%Z → size (live (calls s)) ≤ callerCapacity →
  ∃ k c s', Allocate timeout s = Val (inr (k, c), s') ∧
    valid_sequence k ∧ live (calls s') !! k = Some c ∧
    c = length (heap s) ∧ heap s' = heap s ++ [PendingCall None false].
Proof.
  intros Ht Hsize. unfold Allocate. rewrite (proj2 (Z.leb_gt timeout 0)) by done.
  destruct (allocate_loop_outcome (Z.to_nat 0xFFFF) timeout s Ht) as [(s' & _ & Hall)|Hok]; [|done].
  exfalso.
  assert (Hsub : (list_to_set (upcoming (next s) (Z.to_nat 0xFFFF)) : gset Z) ⊆
    {[0%Z]} ∪ dom (live (calls s))).
  { intros q Hq%elem_of_list_to_set. rewrite Forall_forall in Hall.
    apply elem_of_union. destruct (Hall q Hq) as [->|?]; [left; by apply elem_of_singleton|by right]. }
  apply subseteq_size in Hsub.
  rewrite size_list_to_set in Hsub by (apply upcoming_NoDup; lia).
  assert (Hlen : length (upcoming (next s) (Z.to_nat 0xFFFF)) = Z.to_nat 0xFFFF).
  { unfold upcoming. by rewrite length_map, length_seq. }
  rewrite Hlen in Hsub. unfold callerCapacity in *.
  pose proof (size_union_alt ({[0%Z]} : gset Z) (dom (live (calls s)))) as Hu.
  rewrite Hu, size_singleton in Hsub.
  pose proof (subseteq_size (dom (live (calls s)) ∖ {[0%Z]}) (dom (live (calls s)))
    (subseteq_difference_l _ _ _ (reflexivity _))) as Hd.
  rewrite size_dom in Hd. lia.
Qed.

Lemma consume_run s k c raw :
  live (calls s) !! k = Some c → heap s !! c = Some (PendingCall None false) →
  Consume k raw s = Val (None,
    MkCaller (next s) (cache_remove k (cache_get k (calls s)).2)
      (<[c:=PendingCall (Some raw) true]> (heap s))).
Proof.
  intros Hl Hc. destruct (cache_get_law k (calls s)) as [Hget _].
  unfold Consume, bind, calls_get, prim, compare_and_swap, calls_remove, modify, send_channel, ret.
  rewrite Hget, Hl. cbn [heap calls next]. rewrite Hc. cbn [consumed negb heap response].
  rewrite list_lookup_insert_eq by by eapply lookup_lt_Some. cbn [response consumed].
  by rewrite list_insert_insert_eq.
Qed.

Lemma consume_unknown s k raw :
  live (calls s) !! k = None →
  ∃ s', Consume k raw s = Val (Some ErrUnknownSequence, s') ∧ heap s' = heap s.
Proof.
  intros Hl. destruct (cache_get_law k (calls s)) as [Hget _].
  unfold Consume, bind, calls_get, prim, ret. rewrite Hget, Hl. by eexists.
Qed.
End free.

(** ** Properties *)

Section caller_claims.
Context {W : Type} `{CallCacheLaws W live}.
Implicit Types s : Caller W.

(** C13: under every interleaving of goroutines that allocate, consume and receive, and
    of expiry and eviction: no goroutine ever blocks on its channel or touches a call
    that does not exist; every pending call gets at most one message; and each
    message goes to the call that was allocated for the sequence it was consumed
    with, a sequence from 1 to 65535. *)
Theorem responses_delivered_once (empty : W) es (σ : system) :
  live empty = ∅ → history empty es σ →
  (∀ i p, threads σ !! i = Some p → ∃ r, thread_step p (caller σ) = Val r) ∧
  NoDup (delivered_calls es) ∧ NoDup (allocated es).*2 ∧
  ∀ k c raw, (k, c, raw) ∈ delivered es → (k, c) ∈ allocated es ∧ valid_sequence k.
Proof.
  intros Hempty Hh. pose proof (history_ok _ _ _ Hempty Hh) as Hok.
  pose proof Hok as (Hs & Hts & _). split_and!; [|apply Hs|apply Hs|].
  - intros i p Hi. pose proof (Forall_lookup_1 _ _ _ _ Hts Hi) as Hp. destruct σ as [s ts].
    cbn [caller threads] in *.
    destruct p as [[|a] t|a t k|k t|r|k raw|k raw c|k raw c|k raw c|r]; try by eexists.
    + pose proof (ok_heap _ _ Hs k c (ok_target _ _ _ Hp _ _ eq_refl)) as Hlt.
      apply lookup_lt_is_Some in Hlt as [q Hq]. cbn [thread_step].
      unfold bind, compare_and_swap. rewrite Hq. destruct (consumed q); by eexists.
    + cbn [thread_step]. unfold bind, send_channel.
      rewrite (send_ready _ _ _ _ _ _ _ Hok Hi). by eexists.
  - intros k c raw Hin. pose proof (ok_matched _ _ Hs _ _ _ Hin) as Hal.
    split; [done|]. by eapply (ok_sequence _ _ Hs).
Qed.

(** A request and its response: with at most 1024 live calls (the cache's
    capacity) [Allocate] finds a sequence, in at most 65535 attempts, and makes a new
    call; consuming that sequence delivers the raw report to this call and to no
    other; consuming it again is an error and delivers nothing. *)
Theorem request_response s timeout raw raw' :
  (0 < timeout)%Z → size (live (calls s)) ≤ callerCapacity →
  ∃ k c s1 s2 s3,
    Allocate timeout s = Val (inr (k, c), s1) ∧ valid_sequence k ∧ heap s !! c = None ∧
    Consume k raw s1 = Val (None, s2) ∧
    heap s2 = heap s ++ [PendingCall (Some raw) true] ∧
    Consume k raw' s2 = Val (Some ErrUnknownSequence, s3) ∧ heap s3 = heap s2.
Proof.
  intros Ht Hsize.
  destruct (allocate_outcome timeout s Ht Hsize) as (k & c & s1 & Hrun & Hk & Hl & -> & Hheap).
  assert (Hc : heap s1 !! length (heap s) = Some (PendingCall None false))
    by (rewrite Hheap; by apply list_lookup_middle).
  pose proof (consume_run s1 k (length (heap s)) raw Hl Hc) as Hcons.
  set (s2 := MkCaller _ _ _) in Hcons.
  destruct (consume_unknown s2 k raw') as (s3 & H3 & Hh3).
  { apply eq_None_not_Some. intros [c' Hc']. cbn [s2 calls] in Hc'.
    eapply lookup_weaken in Hc'; [|apply cache_remove_law].
    by rewrite lookup_delete_eq in Hc'. }
  exists k, (length (heap s)), s1, s2, s3. split_and!; try done; [by apply lookup_ge_None_2|].
  cbn [s2 heap]. rewrite Hheap. rewrite insert_app_r_alt by lia.
  by rewrite Nat.sub_diag.
Qed.

(** The goroutine programs whose interleavings are considered are the code: run
    alone, for long enough, they do what [Allocate] and [Consume] do, one atomic
    step after the other. *)
Theorem goroutines_run_code s timeout sequence raw :
  ∃ n, ∀ m, n ≤ m →
    run_thread m (start_allocate timeout) s =
      bind (Allocate timeout) (λ r, ret (AllocDone r)) s ∧
    run_thread m (start_consume sequence raw) s =
      bind (Consume sequence raw) (λ r, ret (ConsumeDone r)) s.
Proof.
  exists (3 * Z.to_nat 0xFFFF + 4). intros m Hm. split; [|apply run_consume; lia].
  unfold start_allocate, Allocate. destruct (timeout <=? 0)%Z.
  - by apply run_thread_done.
  - apply run_allocate_loop. lia.
Qed.
End caller_claims.

(** ** Witnesses *)

(** A cache that keeps everything until time passes, and then nothing. *)
#[export] Instance map_cache : CallCache (gmap Z nat) := {
  cache_get k w := (w !! k, w);
  cache_add k c _ w := <[k:=c]> w;
  cache_remove k w := delete k w;
  cache_wait _ := ∅;
}.

#[export] Instance map_cache_laws : CallCacheLaws (gmap Z nat) id.
Proof.
  split; intros; cbn; try done.
  - by apply lookup_insert_eq.
  - apply map_empty_subseteq.
Qed.

(** Lets the goroutines of a schedule take a step each. *)
Definition act {W} `{CallCache W} (i : nat) (r : list event * system (W := W))
    : list event * system (W := W) :=
  match threads r.2 !! i with
  | Some p =>
      match thread_step p (caller r.2) with
      | Val ((p', es), s) => (r.1 ++ es, System s (<[i:=p']> (threads r.2)))
      | _ => r
      end
  | None => r
  end.

Lemma history_act {W} `{CallCache W} (empty : W) schedule r :
  history empty r.1 r.2 →
  history empty (foldl (flip act) r schedule).1 (foldl (flip act) r schedule).2.
Proof.
  revert r. induction schedule as [|i schedule IH]; intros r Hr; [done|]. cbn [foldl]. apply IH.
  destruct r as [es [s ts]]. unfold flip, act. cbn [fst snd threads caller] in *.
  destruct (ts !! i) as [p|] eqn:Hi; [|done].
  destruct (thread_step p s) as [[[p' es'] s']| |] eqn:Hp; [|done..].
  eapply history_step; [done|]. by eapply step_thread.
Qed.

(** Two goroutines race to consume the response to a third one's request. *)
Definition race : list event * system (W := gmap Z nat) :=
  foldl (flip act)
    ([], System (NewCaller ∅) [start_allocate 1000; start_consume 1 [7%Z]; start_consume 1 [8%Z]])
    [0; 0; 0; 1; 2; 1; 2; 1; 1].

Lemma responses_delivered_once_witness :
  history ∅ race.1 race.2 ∧ delivered race.1 = [(1%Z, 0, [7%Z])] ∧ NoDup (delivered_calls race.1).
Proof.
  assert (Hh : history ∅ race.1 race.2).
  { apply history_act. cbn [fst snd].
    eapply (history_step _ []); [|apply (step_consume _ [_; _])].
    eapply (history_step _ []); [|apply (step_consume _ [_])].
    eapply (history_step _ []); [|apply (step_allocate _ [])]. apply history_start. }
  split; [exact Hh|]. split; [vm_compute; reflexivity|].
  apply (responses_delivered_once (live := id) ∅ race.1 race.2 eq_refl Hh).
Defined.

Lemma request_response_witness :
  ∃ k c s1 s2 s3,
    Allocate 1000 (NewCaller (∅ : gmap Z nat)) = Val (inr (k, c), s1) ∧ valid_sequence k ∧
    heap (NewCaller (∅ : gmap Z nat)) !! c = None ∧
    Consume k [1%Z] s1 = Val (None, s2) ∧ heap s2 = [] ++ [PendingCall (Some [1%Z]) true] ∧
    Consume k [2%Z] s2 = Val (Some ErrUnknownSequence, s3) ∧ heap s3 = heap s2.
Proof.
  apply (request_response (live := id) (NewCaller (∅ : gmap Z nat)) 1000 [1%Z] [2%Z]);
    [lia|]. vm_compute. lia.
Defined.
