(* ===== verification/Device.v ===== *)
(** * internal/hid/device.go: the host's HID device

    Choosing the device ([Open]), and the open device as goroutines that take
    atomic steps: callers of [Write], [Read] and [Close], and the write loop
    that owns the handle's writing side.  The hidapi binding is not part of the
    repository: the answers of its calls are choices of a step. *)
From stdpp Require Import strings.
From S2P Require Import Prelude Protocol.

Definition DefaultUsagePage : Z := 0xFF50.
Definition DefaultUsage : Z := 0x0001.

Inductive hid_error : Type :=
  | ErrEnumerate
  | ErrDeviceNotFound
  | ErrOpen
  | ErrShortReport
  | ErrClosed
  | ErrRead
  | ErrWrite
  | ErrClose
  | ErrInvalidWrite (e : proto_error).

Record DeviceConfig : Type := MkDeviceConfig {
  VendorID : Z;
  ProductID : Z;
  UsagePage : Z;
  Usage : Z;
  Serial : string;
}.

(** What the binding's enumeration says of a device: [khid.DeviceInfo]. *)
Record candidate : Type := Candidate {
  cand_path : string;
  cand_vendor : Z;
  cand_product : Z;
  cand_usage_page : Z;
  cand_usage : Z;
  cand_serial : string;
  cand_mfr : string;
  cand_product_str : string;
}.

Record DeviceInfo : Type := MkDeviceInfo {
  info_path : string;
  info_vendor : Z;
  info_product : Z;
  info_serial : string;
  info_manufacturer : string;
  info_product_str : string;
}.

(** ** Open *)

(** The zero fields of the configuration that are given a default. *)
Definition with_defaults (config : DeviceConfig) : DeviceConfig :=
  MkDeviceConfig (VendorID config) (ProductID config)
    (if (UsagePage config =? 0)%Z then DefaultUsagePage else UsagePage config)
    (if (Usage config =? 0)%Z then DefaultUsage else Usage config)
    (Serial config).

(** One call of the enumeration callback: the new value of [selected]. *)
Definition select_candidate (config : DeviceConfig) (selected : option candidate) (c : candidate)
    : option candidate :=
  if negb (cand_usage_page c =? UsagePage config)%Z || negb (cand_usage c =? Usage config)%Z
  then selected
  else if negb (bool_decide (Serial config = ""%string)) &&
          negb (bool_decide (cand_serial c = Serial config))
  then selected
  else Some c.

Section open.
(** [khid.Enumerate]: the devices with a vendor and product, [None] on failure;
    [khid.OpenPath]: whether opening the path succeeds. *)
Context (enumerate : Z → Z → option (list candidate)) (open_path : string → bool).

(** The error, or the candidate that was opened and what is reported of it. *)
Definition Open (config : DeviceConfig) : hid_error + candidate * DeviceInfo :=
  let config := with_defaults config in
  match enumerate (VendorID config) (ProductID config) with
  | None => inl ErrEnumerate
  | Some candidates =>
      match foldl (select_candidate config) None candidates with
      | None => inl ErrDeviceNotFound
      | Some selected =>
          if open_path (cand_path selected) then
            inr (selected, MkDeviceInfo (cand_path selected) (cand_vendor selected)
                             (cand_product selected) (cand_serial selected) (cand_mfr selected)
                             (cand_product_str selected))
          else inl ErrOpen
      end
  end.
End open.

(** ** The open device *)

Definition writesCapacity : nat := 64.

(** [Device]: the [writes] channel, oldest first; whether the channels [done] and
    [writerDone] are closed; the two flags. *)
Record Device : Type := MkDevice {
  writes : list (list Z);
  dev_done : bool;
  writerDone : bool;
  stopping : bool;
  closed : bool;
}.

(** The device as [Open] makes it. *)
Definition device_opened : Device := MkDevice [] false false false false.

(** [closeHandle] and [stop] are called from three places; what follows there. *)
Inductive after : Type :=
  | InRead (e : hid_error)
  | InLoop
  | InClose.

(** Where a goroutine is. *)
Inductive io_pc : Type :=
  | WriteCall (raw : list Z)
  | WriteLoad (raw : list Z)
  | WriteSelect (raw : list Z)
  | WriteDone (r : option hid_error)
  | ReadCall
  | ReadDone (r : hid_error + list Z)
  | LoopSelect
  | LoopReport (raw : list Z)
  | LoopReturn
  | LoopDone
  | StopSwap (k : after)
  | StopClose (k : after)
  | HandleSwap (k : after)
  | HandleClose (k : after)
  | CloseWait
  | CloseDone (r : option hid_error).

(** What a step does to the handle, or accepts into the queue. *)
Inductive io_event : Type :=
  | Queued (raw : list Z)
  | HandleWritten (report : list Z)
  | HandleClosed.

(** A read of the binding blocks until a report arrives or it fails; whether closing
    the handle wakes it is up to the binding. *)
Inductive read_answer : Type :=
  | ReadBlocks
  | ReadFails
  | ReadGives (raw : list Z).

(** The choices of a step: which ready case a [select] takes, and what the
    binding answers: the bytes a write took ([None]: it failed), what a read does,
    whether closing succeeded.  Writing and closing return. *)
Record choice : Type := Choice {
  take_done : bool;
  hid_wrote : option nat;
  hid_read : read_answer;
  hid_close_ok : bool;
}.

Definition set_writes (q : list (list Z)) (d : Device) : Device :=
  MkDevice q (dev_done d) (writerDone d) (stopping d) (closed d).

Definition after_stop (k : after) : io_pc :=
  match k with InRead e => ReadDone (inl e) | InLoop => HandleSwap InLoop | InClose => CloseWait end.

Definition after_handle (k : after) (r : option hid_error) : io_pc :=
  match k with InRead e => ReadDone (inl e) | InLoop => LoopReturn | InClose => CloseDone r end.

(** [writeReport]'s buffer. *)
Definition wire_report (raw : list Z) : M Device (list Z) :=
  awrite (replicate (ReportSize + 1) 0%Z) 1 raw.

(** One atomic step of a goroutine; [None] when it blocks or has ended, [Ub] when it
    panics by closing a closed channel. *)
Definition io_thread_step (c : choice) (p : io_pc) : M Device (option (io_pc * list io_event)) :=
  match p with
  | WriteCall raw =>
      ret (Some (if negb (length raw =? ReportSize)%nat
                 then WriteDone (Some (ErrInvalidWrite ErrInvalidReport)) else WriteLoad raw, []))
  | WriteLoad raw =>
      let* d := get in
      ret (Some (if stopping d then WriteDone (Some ErrClosed) else WriteSelect raw, []))
  | WriteSelect raw =>
      let* d := get in
      if dev_done d && (take_done c || negb (length (writes d) <? writesCapacity)%nat)
      then ret (Some (WriteDone (Some ErrClosed), []))
      else if (length (writes d) <? writesCapacity)%nat then
        do* modify (set_writes (writes d ++ [raw])) in
        ret (Some (WriteDone None, [Queued raw]))
      else ret None
  | ReadCall =>
      ret (match hid_read c with
           | ReadBlocks => None
           | ReadFails => Some (StopSwap (InRead ErrRead), [])
           | ReadGives raw =>
               Some (if negb (length raw =? ReportSize)%nat then StopSwap (InRead ErrShortReport)
                     else ReadDone (inr raw), [])
           end)
  | LoopSelect =>
      let* d := get in
      match writes d with
      | raw :: q =>
          if dev_done d && take_done c then ret (Some (LoopReturn, []))
          else do* modify (set_writes q) in ret (Some (LoopReport raw, []))
      | [] => ret (if dev_done d then Some (LoopReturn, []) else None)
      end
  | LoopReport raw =>
      let* report := wire_report raw in
      ret (Some (if bool_decide (hid_wrote c = Some (length report))
                 then LoopSelect else StopSwap InLoop, [HandleWritten report]))
  | LoopReturn =>
      let* d := get in
      if writerDone d then ub else
      do* modify (λ d, MkDevice (writes d) (dev_done d) true (stopping d) (closed d)) in
      ret (Some (LoopDone, []))
  | StopSwap k =>
      let* d := get in
      if stopping d then ret (Some (after_stop k, [])) else
      do* modify (λ d, MkDevice (writes d) (dev_done d) (writerDone d) true (closed d)) in
      ret (Some (StopClose k, []))
  | StopClose k =>
      let* d := get in
      if dev_done d then ub else
      do* modify (λ d, MkDevice (writes d) true (writerDone d) (stopping d) (closed d)) in
      ret (Some (after_stop k, []))
  | HandleSwap k =>
      let* d := get in
      if closed d then ret (Some (after_handle k None, [])) else
      do* modify (λ d, MkDevice (writes d) (dev_done d) (writerDone d) (stopping d) true) in
      ret (Some (HandleClose k, []))
  | HandleClose k =>
      ret (Some (after_handle k (if hid_close_ok c then None else Some ErrClose), [HandleClosed]))
  | CloseWait =>
      let* d := get in
      ret (if writerDone d then Some (HandleSwap InClose, []) else None)
  | WriteDone _ | ReadDone _ | LoopDone | CloseDone _ => ret None
  end.

(** The first steps of the calls, and of the goroutine [Open] starts. *)
Definition start_write (raw : list Z) : io_pc := WriteCall raw.
Definition start_read : io_pc := ReadCall.
Definition start_close : io_pc := StopSwap InClose.
Definition start_loop : io_pc := LoopSelect.

Record io_system : Type := IoSystem {
  io_device : Device;
  io_threads : list io_pc;
}.

(** A goroutine takes a step. *)
Inductive io_run : io_system → list io_event → io_system → Prop :=
  | io_run_thread d ts i c p p' es d' :
      ts !! i = Some p → io_thread_step c p d = Val (Some (p', es), d') →
      io_run (IoSystem d ts) es (IoSystem d' (<[i:=p']> ts)).

(** Somebody calls [Write], [Read] or [Close], or a goroutine takes a step. *)
Inductive io_step : io_system → list io_event → io_system → Prop :=
  | io_call d ts p :
      p = start_read ∨ p = start_close ∨ (∃ raw, p = start_write raw) →
      io_step (IoSystem d ts) [] (IoSystem d (ts ++ [p]))
  | io_thread σ es σ' : io_run σ es σ' → io_step σ es σ'.

(** What happened since the device was opened. *)
Inductive io_history : list io_event → io_system → Prop :=
  | io_history_open : io_history [] (IoSystem device_opened [start_loop])
  | io_history_step es σ es' σ' :
      io_history es σ → io_step σ es' σ' → io_history (es ++ es') σ'.

(** ** The invariant *)

(** The reports the queue accepted, the reports written to the handle, and how often
    the handle was closed. *)
Definition queued (es : list io_event) : list (list Z) :=
  omap (λ e, match e with Queued raw => Some raw | _ => None end) es.

Definition wire (es : list io_event) : list (list Z) :=
  omap (λ e, match e with HandleWritten report => Some report | _ => None end) es.

Definition closes (es : list io_event) : nat :=
  length (omap (λ e, match e with HandleClosed => Some tt | _ => None end) es).

(** Once the handle is closed nothing happens to it any more. *)
Definition quiet_once_closed (es : list io_event) : Prop :=
  ∀ es1 es2, es = es1 ++ HandleClosed :: es2 → wire es2 = [] ∧ closes es2 = 0.

(** The write loop is one goroutine. *)
Definition is_loop (p : io_pc) : bool :=
  match p with
  | LoopSelect | LoopReport _ | LoopReturn | LoopDone
  | StopSwap InLoop | StopClose InLoop | HandleSwap InLoop | HandleClose InLoop => true
  | _ => false
  end.

(** It writes no more. *)
Definition loop_past (p : io_pc) : bool :=
  match p with HandleClose InLoop | LoopReturn | LoopDone => true | _ => false end.

(** The report it has taken from the queue. *)
Definition flight (p : io_pc) : list (list Z) :=
  match p with LoopReport raw => [raw] | _ => [] end.

(** Goroutines that have won the right to close [done] and to close the handle. *)
Definition stop_holder (p : io_pc) : nat := match p with StopClose _ => 1 | _ => 0 end.
Definition close_holder (p : io_pc) : nat := match p with HandleClose _ => 1 | _ => 0 end.

Definition io_thread_ok (d : Device) (p : io_pc) : Prop :=
  match p with
  | WriteLoad raw | WriteSelect raw | LoopReport raw => length raw = ReportSize
  | HandleSwap (InRead _) | HandleClose (InRead _) => False
  | CloseWait => stopping d = true
  | HandleSwap InClose => stopping d = true ∧ writerDone d = true
  | HandleClose InClose | CloseDone _ =>
      stopping d = true ∧ writerDone d = true ∧ closed d = true
  | HandleClose InLoop => closed d = true
  | _ => True
  end.

Record io_ok (es : list io_event) (σ : io_system) : Prop := {
  ok_threads : Forall (io_thread_ok (io_device σ)) (io_threads σ);
  ok_loop p : io_threads σ !! 0 = Some p → is_loop p = true ∧
    (writerDone (io_device σ) = true ↔ p = LoopDone) ∧
    (closed (io_device σ) = true → loop_past p = true) ∧
    queued es = (drop 1 <$> wire es) ++ flight p ++ writes (io_device σ);
  ok_has_loop : ∃ p, io_threads σ !! 0 = Some p;
  ok_others i p : i ≠ 0 → io_threads σ !! i = Some p → is_loop p = false;
  ok_stop : weight stop_holder (io_threads σ) + Nat.b2n (dev_done (io_device σ)) =
    Nat.b2n (stopping (io_device σ));
  ok_close : weight close_holder (io_threads σ) + closes es = Nat.b2n (closed (io_device σ));
  ok_wire : Forall (λ r, ∃ raw, r = 0%Z :: raw ∧ length raw = ReportSize) (wire es);
  ok_queue : Forall (λ raw, length raw = ReportSize) (writes (io_device σ));
  ok_quiet : quiet_once_closed es;
}.

Lemma queued_app es es' : queued (es ++ es') = queued es ++ queued es'.
Proof. apply omap_app. Qed.

Lemma wire_app es es' : wire (es ++ es') = wire es ++ wire es'.
Proof. apply omap_app. Qed.

Lemma closes_app es es' : closes (es ++ es') = closes es + closes es'.
Proof. unfold closes. by rewrite omap_app, length_app. Qed.

(** Flags are only ever set. *)
Definition grows (d d' : Device) : Prop :=
  (stopping d = true → stopping d' = true) ∧ (writerDone d = true → writerDone d' = true) ∧
  (closed d = true → closed d' = true).

Lemma io_thread_ok_grows d d' p : grows d d' → io_thread_ok d p → io_thread_ok d' p.
Proof. intros (? & ? & ?). destruct p as [| | | | | | | | | |[]|[]|[]|[]| |]; cbn; intuition. Qed.

Lemma quiet_app es es' :
  quiet_once_closed es → (closes es = 0 ∨ (wire es' = [] ∧ closes es' = 0)) → 
  (es' = [] ∨ ∃ e, es' = [e]) → quiet_once_closed (es ++ es').
Proof.
  intros Hq Hc [->|[e ->]]; [by rewrite app_nil_r|]. intros es1 es2 Heq.
  destruct es2 as [|x es2 _] using rev_ind; [done|].
  rewrite app_comm_cons, app_assoc in Heq. apply app_inj_tail in Heq as [-> ->].
  destruct (Hq es1 es2 eq_refl) as [Hw Hn]. rewrite wire_app, closes_app, Hw, Hn.
  destruct Hc as [Hc|[-> ->]]; [|done]. rewrite closes_app in Hc. cbn in Hc. lia.
Qed.

(** What a step of one goroutine has to establish. *)
Record step_ok (d : Device) (p : io_pc) (es : list io_event) (d' : Device) (p' : io_pc) : Prop := {
  step_grows : grows d d';
  step_thread : io_thread_ok d' p';
  step_loop : is_loop p' = is_loop p;
  step_stop : stop_holder p' + Nat.b2n (dev_done d') + Nat.b2n (stopping d) =
    stop_holder p + Nat.b2n (dev_done d) + Nat.b2n (stopping d');
  step_close : close_holder p' + closes es + Nat.b2n (closed d) =
    close_holder p + Nat.b2n (closed d');
  step_queue : flight p ++ writes d ++ queued es = (drop 1 <$> wire es) ++ flight p' ++ writes d';
  step_lengths : Forall (λ raw, length raw = ReportSize) (writes d');
  step_wire : Forall (λ r, ∃ raw, r = 0%Z :: raw ∧ length raw = ReportSize) (wire es);
  step_event : es = [] ∨ ∃ e, es = [e];
  step_silent : wire es ≠ [] → is_loop p = true ∧ loop_past p = false;
  step_owner : if is_loop p then (writerDone d' = true ↔ p' = LoopDone) ∧
                                 (closed d' = true → loop_past p' = true)
               else writerDone d' = writerDone d ∧
                    (closed d' = true → closed d = true ∨ writerDone d = true);
}.

Lemma wire_report_run raw d :
  length raw = ReportSize → wire_report raw d = Val (0%Z :: raw, d).
Proof.
  intros Hl. unfold wire_report, awrite. rewrite length_replicate, Hl. cbn [Nat.leb Nat.add ReportSize].
  unfold ret. rewrite drop_ge by by rewrite length_replicate. by rewrite app_nil_r.
Qed.

(** The facts about the device a goroutine relies on when it takes a step. *)
Definition step_pre (d : Device) (p : io_pc) : Prop :=
  io_thread_ok d p ∧ Forall (λ raw, length raw = ReportSize) (writes d) ∧
  (is_loop p = true → (writerDone d = true ↔ p = LoopDone) ∧ (closed d = true → loop_past p = true)) ∧
  (stop_holder p = 1 → stopping d = true ∧ dev_done d = false).

Ltac step_cases :=
  repeat match goal with
  | |- context [match ?x with _ => _ end] => destruct x eqn:?; cbn [negb andb orb] in *
  | H : context [match ?x with _ => _ end] |- _ => destruct x eqn:?; cbn [negb andb orb] in *
  end.

(** The fields of [step_ok] on a step that is known. *)
Ltac solve_step :=
  try match goal with k : after |- _ => destruct k end;
  split; unfold grows; cbn in *; rewrite ?app_nil_r;
  repeat match goal with Hq : writes _ = _ |- _ => rewrite Hq in * end;
  repeat match goal with Hf : Forall _ (_ :: _) |- _ => apply Forall_cons in Hf as [? Hf] end;
  reflect_bools; intuition (eauto; try congruence; try lia);
  repeat match goal with Hb : _ = true |- _ => rewrite Hb | Hb : _ = false |- _ => rewrite Hb end;
  cbn; try lia.

Lemma io_thread_step_ok c p d p' es d' :
  step_pre d p → io_thread_step c p d = Val (Some (p', es), d') → step_ok d p es d' p'.
Proof.
  intros (Hok & Hqueue & Hloop & Hstop) Hstep.
  destruct p as [raw|raw|raw| | | | |raw| | |k|k|k|k| |]; cbn [io_thread_step] in Hstep;
    unfold bind, get, modify, ret, ub in Hstep.
  8: { rewrite wire_report_run in Hstep by done. case_bool_decide; simplify_eq; solve_step. }
  all: step_cases; simplify_eq; solve_step.
  apply Forall_app_2; [done|by repeat constructor].
Qed.

Lemma io_ok_pre es d ts i p :
  io_ok es (IoSystem d ts) → ts !! i = Some p → step_pre d p.
Proof.
  intros [Hts Hloop Hhas Hothers Hstop Hclose _ Hq _] Hi. cbn [io_device io_threads] in *.
  split; [by eapply Forall_lookup_1|]. split; [done|]. split.
  - intros Hp. destruct (decide (i = 0)) as [->|Hne].
    + by destruct (Hloop p Hi) as (_ & ? & ? & _).
    + by rewrite (Hothers i p Hne Hi) in Hp.
  - intros Hp. pose proof (weight_lookup stop_holder ts i p Hi).
    destruct (dev_done d), (stopping d); cbn in *; lia || done.
Qed.

Lemma closed_once_holder es d ts i p :
  io_ok es (IoSystem d ts) → ts !! i = Some p → close_holder p + closes es ≤ Nat.b2n (closed d).
Proof.
  intros Hok Hi. pose proof (weight_lookup close_holder ts i p Hi).
  pose proof (ok_close _ _ Hok). cbn [io_device io_threads] in *. lia.
Qed.

Lemma io_ok_step es es' d d' ts i p p' :
  io_ok es (IoSystem d ts) → ts !! i = Some p → step_ok d p es' d' p' →
  io_ok (es ++ es') (IoSystem d' (<[i:=p']> ts)).
Proof.
  intros Hok Hi Hstep. pose proof (io_ok_pre _ _ _ _ _ Hok Hi) as (_ & _ & Hpre & _).
  pose proof (closed_once_holder _ _ _ _ _ Hok Hi) as Honce.
  destruct Hok as [Hts Hloop [p0 Hp0] Hothers Hstop Hclose Hwire Hq Hquiet].
  destruct Hstep as [Hgrows Hthread Hisloop Hs Hc Hqueue Hlen Hw Hev Hsilent Howner].
  cbn [io_device io_threads] in *.
  pose proof (weight_insert stop_holder ts i p p' Hi).
  pose proof (weight_insert close_holder ts i p p' Hi).
  split; cbn [io_device io_threads].
  - apply Forall_insert; [|done]. eapply Forall_impl; [exact Hts|].
    intros q. by apply io_thread_ok_grows.
  - intros q Hl. destruct (Hloop p0 Hp0) as (Hl0 & Hw0 & Hc0 & Hq0).
    rewrite queued_app, wire_app, fmap_app, Hq0.
    apply list_lookup_insert_Some in Hl as [(-> & -> & _)|[Hne Hl]]; simplify_eq.
    + rewrite Hisloop, Hl0 in *. destruct Howner as [??]. split_and!; try done.
      by rewrite <- !app_assoc, Hqueue.
    + rewrite (Hothers i p Hne Hi) in *. destruct Howner as [-> Hcl]. split_and!; [done|done| |].
      * intros Hd'. destruct (Hcl Hd') as [|Hd]; [auto|]. by apply Hw0 in Hd as ->.
      * destruct (wire es') as [|r rs]; [|by destruct Hsilent].
        assert (Hf : ∀ q', is_loop q' = false → flight q' = []) by (by intros []).
        rewrite (Hf p'), (Hf p) in Hqueue by (done || by apply (Hothers i)).
        cbn in Hqueue |- *. by rewrite app_nil_r, <- !app_assoc, Hqueue.
  - apply lookup_lt_is_Some_2. rewrite length_insert. by eapply lookup_lt_Some.
  - intros j q Hj Hl. apply list_lookup_insert_Some in Hl as [(-> & -> & _)|[_ Hl]]; [|by eapply Hothers].
    rewrite Hisloop. by apply (Hothers j).
  - lia.
  - rewrite closes_app. lia.
  - rewrite wire_app. by apply Forall_app_2.
  - done.
  - apply quiet_app; [done| |done]. destruct (wire es') as [|r rs] eqn:Hwe.
    + destruct (closes es') eqn:Hce; [by right|]. left. destruct (closed d), (closed d'); cbn in *; lia.
    + left. destruct Hsilent as [Hl Hp]; [done|]. destruct (Hpre Hl) as [_ Hcl].
      destruct (closed d); [by rewrite Hcl in Hp|]. cbn in Honce. lia.
Qed.

Lemma io_ok_call es d ts p :
  io_ok es (IoSystem d ts) → p = start_read ∨ p = start_close ∨ (∃ raw, p = start_write raw) →
  io_ok es (IoSystem d (ts ++ [p])).
Proof.
  intros [Hts Hloop [p0 Hp0] Hothers Hstop Hclose Hwire Hq Hquiet] Hp.
  cbn [io_device io_threads] in *.
  assert (Hp' : io_thread_ok d p ∧ is_loop p = false ∧ stop_holder p = 0 ∧ close_holder p = 0)
    by (by destruct Hp as [->|[->|[raw ->]]]).
  destruct Hp' as (? & ? & Hs0 & Hc0).
  assert (Hfirst : ∀ q, (ts ++ [p]) !! 0 = Some q → ts !! 0 = Some q)
    by (intros q; by destruct ts).
  split; cbn [io_device io_threads]; rewrite ?weight_app; try done.
  - apply Forall_app_2; [done|by constructor].
  - intros q Hl. apply Hloop. by apply Hfirst.
  - exists p0. by destruct ts.
  - intros i q Hi Hl. apply lookup_app_Some in Hl as [Hl|[_ [_ <-]%list_lookup_singleton_Some]];
      [by eapply Hothers|done].
  - unfold weight in *. cbn. lia.
  - unfold weight in *. cbn. lia.
Qed.

Lemma io_history_ok es σ : io_history es σ → io_ok es σ.
Proof.
  induction 1 as [|es σ es' σ' _ IH Hstep].
  - split; cbn; try done; try lia.
    + by repeat constructor.
    + intros p [= <-]. by split_and!.
    + by eexists.
    + intros [|i] p ? Hl; by try destruct i.
    + intros es1 es2 Heq. by destruct es1.
  - destruct Hstep as [d ts p Hp|? ? ? [d ts i c p p' es' d' Hi Hrun]].
    + rewrite app_nil_r. by apply io_ok_call.
    + eapply io_ok_step; [done|done|]. eapply io_thread_step_ok; [|exact Hrun]. by eapply io_ok_pre.
Qed.

(** ** Panics *)

Lemma thread_never_panics c p d :
  step_pre d p → ∃ r d', io_thread_step c p d = Val (r, d').
Proof.
  intros (Hok & _ & Hloop & Hstop).
  destruct p as [raw|raw|raw| | | | |raw| | |k|k|k|k| |]; cbn [io_thread_step];
    unfold bind, get, modify, ret, ub.
  8: { rewrite wire_report_run by done. by eexists _, _. }
  8: { destruct (writerDone d) eqn:Hw; [|by eexists _, _].
       destruct (Hloop eq_refl) as [[Hdone _] _]. by specialize (Hdone eq_refl). }
  10: { destruct (Hstop eq_refl) as [_ ->]. by eexists _, _. }
  all: step_cases; by eexists _, _.
Qed.

(** ** Termination of the goroutines, and progress after a call of [Close] *)

(** A run of [n] steps in which nobody makes a new call. *)
Inductive io_runs : nat → io_system → list io_event → io_system → Prop :=
  | io_runs_0 σ : io_runs 0 σ [] σ
  | io_runs_S n σ es σ1 es1 σ2 :
      io_run σ es σ1 → io_runs n σ1 es1 σ2 → io_runs (S n) σ (es ++ es1) σ2.

Definition pc_fuel (p : io_pc) : nat :=
  match p with
  | WriteDone _ | ReadDone _ | LoopDone | CloseDone _ => 0
  | LoopReturn => 1
  | HandleClose _ => 2
  | HandleSwap _ | WriteSelect _ => 3
  | CloseWait | WriteLoad _ => 4
  | StopClose _ | WriteCall _ => 5
  | StopSwap _ | LoopSelect => 6
  | LoopReport _ | ReadCall => 7
  end.

(** The steps the goroutines can still take. *)
Definition io_fuel (σ : io_system) : nat :=
  weight pc_fuel (io_threads σ) + 2 * length (writes (io_device σ)).

(** A call that has returned. *)
Definition ended (p : io_pc) : bool :=
  match p with WriteDone _ | ReadDone _ | LoopDone | CloseDone _ => true | _ => false end.

(** A goroutine in [Close]. *)
Definition closing (p : io_pc) : bool :=
  match p with
  | StopSwap InClose | StopClose InClose | CloseWait | HandleSwap InClose | HandleClose InClose
  | CloseDone _ => true
  | _ => false
  end.

(** A goroutine waiting for a report of the reader. *)
Definition reading (p : io_pc) : bool := match p with ReadCall => true | _ => false end.

(** A goroutine that can take no step, or only if a report arrives. *)
Definition io_blocked (p : io_pc) (d : Device) : bool :=
  ended p || reading p ||
  match p with
  | WriteSelect _ => negb (dev_done d) && negb (length (writes d) <? writesCapacity)%nat
  | LoopSelect => negb (dev_done d) && (length (writes d) =? 0)%nat
  | CloseWait => negb (writerDone d)
  | _ => false
  end.

Lemma thread_step_decreases c p d p' es d' :
  step_pre d p → io_thread_step c p d = Val (Some (p', es), d') →
  pc_fuel p' + 2 * length (writes d') < pc_fuel p + 2 * length (writes d) ∧
  (closing p = true → closing p' = true).
Proof.
  intros (Hok & _) Hstep.
  destruct p as [raw|raw|raw| | | | |raw| | |k|k|k|k| |]; cbn [io_thread_step] in Hstep;
    unfold bind, get, modify, ret, ub in Hstep.
  8: { rewrite wire_report_run in Hstep by done. case_bool_decide; simplify_eq; cbn; split; lia || done. }
  all: step_cases; simplify_eq; try match goal with k : after |- _ => destruct k end; cbn in *;
    repeat match goal with Hq : writes _ = _ |- _ => rewrite Hq end;
    rewrite ?length_app; cbn; split; lia || done.
Qed.

Lemma thread_can_step p d :
  step_pre d p → io_blocked p d = false →
  ∀ c, ∃ p' es d', io_thread_step c p d = Val (Some (p', es), d').
Proof.
  intros Hpre Hb c.
  destruct (thread_never_panics c p d Hpre) as ([[p' es]|] & d' & Hstep);
    [by exists p', es, d'|]. exfalso.
  destruct p as [raw|raw|raw| | | | |raw| | |k|k|k|k| |]; cbn [io_thread_step] in *;
    unfold bind, get, modify, ret, ub, io_blocked in *; cbn in Hb; try done.
  3: { rewrite wire_report_run in Hstep by apply Hpre. done. }
  all: step_cases; simplify_eq; cbn in *; step_cases; try done.
  all: destruct (dev_done d') eqn:?, (take_done c); cbn in *; try congruence.
  all: by rewrite Heqb0 in Hb.
Qed.

Lemma weight_positive {A} (f : A → nat) l :
  0 < weight f l → ∃ i x, l !! i = Some x ∧ 0 < f x.
Proof.
  induction l as [|x l IH]; unfold weight in *; cbn; [lia|]. intros Hp.
  destruct (decide (0 < f x)); [by exists 0, x|].
  destruct IH as (i & y & ? & ?); [lia|]. by exists (S i), y.
Qed.

(** Some goroutine that does not wait for a report can go on, whatever is chosen. *)
Definition can_go_on (σ : io_system) : Prop :=
  ∃ i p, io_threads σ !! i = Some p ∧ reading p = false ∧
    ∀ c, ∃ p' es d', io_thread_step c p (io_device σ) = Val (Some (p', es), d').

Definition ended_or_reading (p : io_pc) : Prop := ended p = true ∨ reading p = true.

#[export] Instance ended_or_reading_dec p : Decision (ended_or_reading p).
Proof. unfold ended_or_reading. apply _. Defined.

Lemma io_system_step es d ts i p :
  io_ok es (IoSystem d ts) → ts !! i = Some p → io_blocked p d = false → can_go_on (IoSystem d ts).
Proof.
  intros Hok Hi Hb. exists i, p. split; [done|]. split.
  - unfold io_blocked in Hb. apply orb_false_iff in Hb as [Hb _]. by apply orb_false_iff in Hb as [_ ?].
  - apply thread_can_step; [by eapply io_ok_pre|done].
Qed.

Lemma stopping_progress es d ts :
  io_ok es (IoSystem d ts) → stopping d = true →
  Forall ended_or_reading ts ∨ can_go_on (IoSystem d ts).
Proof.
  intros Hok Hstop. destruct (dev_done d) eqn:Hdone.
  - destruct (ok_has_loop _ _ Hok) as [p0 Hp0].
    destruct (ok_loop _ _ Hok p0 Hp0) as (Hloop & Hw & _). cbn [io_device io_threads] in *.
    destruct (ended p0) eqn:He0.
    + assert (Hwd : writerDone d = true) by (by apply Hw; destruct p0).
      destruct (decide (Forall ended_or_reading ts)) as [|Hn]; [by left|right].
      apply not_Forall_Exists in Hn; [|intros ?; apply _].
      apply Exists_exists in Hn as (p & [i Hi]%list_elem_of_lookup_1 & Hp).
      eapply io_system_step; [done|done|]. unfold io_blocked. rewrite Hdone, Hwd.
      unfold ended_or_reading in Hp. destruct p; cbn in *; intuition congruence.
    + right. eapply io_system_step; [done|done|]. unfold io_blocked. rewrite He0, Hdone.
      by destruct p0.
  - right. pose proof (ok_stop _ _ Hok) as Hh. cbn [io_device io_threads] in Hh.
    rewrite Hdone, Hstop in Hh. destruct (weight_positive stop_holder ts) as (i & p & Hi & Hp);
      [cbn in Hh; lia|]. eapply io_system_step; [done|done|]. destruct p; cbn in *; done || lia.
Qed.

Lemma closing_progress es d ts i p :
  io_ok es (IoSystem d ts) → ts !! i = Some p → closing p = true →
  Forall ended_or_reading ts ∨ can_go_on (IoSystem d ts).
Proof.
  intros Hok Hi Hc. destruct (stopping d) eqn:Hs; [by eapply stopping_progress|].
  assert (Hp : io_thread_ok d p) by by apply (io_ok_pre _ _ _ _ _ Hok Hi).
  right. eapply io_system_step; [done|done|].
  destruct p as [| | | | | | | | | |[]|[]|[]|[]| |]; cbn in *; try done; intuition congruence.
Qed.

Lemma all_ended_closed es d ts i p :
  io_ok es (IoSystem d ts) → ts !! i = Some p → closing p = true →
  Forall ended_or_reading ts → closes es = 1.
Proof.
  intros Hok Hi Hc Hall.
  assert (He : ended p = true) by (eapply Forall_lookup_1 in Hall as [|]; [done| |done]; by destruct p).
  assert (Hcl : closed d = true).
  { pose proof (io_ok_pre _ _ _ _ _ Hok Hi) as [Hp _].
    destruct p as [| | | | | | | | | |[]|[]|[]|[]| |]; try done. by destruct Hp as (_ & _ & ?). }
  pose proof (ok_close _ _ Hok) as Hh. cbn [io_device io_threads] in Hh. rewrite Hcl in Hh.
  destruct (decide (0 < weight close_holder ts)) as [Hw|]; [|cbn in Hh; lia].
  destruct (weight_positive close_holder ts Hw) as (j & q & Hj & Hq).
  eapply Forall_lookup_1 in Hall as [|]; [| |exact Hj]; by destruct q; cbn in *; try lia.
Qed.

Lemma io_run_ok es σ es' σ' :
  io_history es σ → io_run σ es' σ' → io_history (es ++ es') σ' ∧ io_fuel σ' < io_fuel σ ∧
  ((∃ i p, io_threads σ !! i = Some p ∧ closing p = true) →
   ∃ i p, io_threads σ' !! i = Some p ∧ closing p = true).
Proof.
  intros Hh Hrun. split; [by eapply io_history_step, io_thread|].
  pose proof (io_history_ok _ _ Hh) as Hok. destruct Hrun as [d ts i c p p' es' d' Hi Hstep].
  destruct (thread_step_decreases c p d p' es' d') as [Hdec Hcl]; [by eapply io_ok_pre|done|]. split.
  - unfold io_fuel. cbn [io_device io_threads]. pose proof (weight_insert pc_fuel ts i p p' Hi). lia.
  - intros (j & q & Hj & Hq). cbn [io_threads] in *. destruct (decide (i = j)) as [->|Hne].
    + simplify_eq. exists j, p'. split; [by apply list_lookup_insert_eq; eapply lookup_lt_Some|auto].
    + exists j, q. by rewrite list_lookup_insert_ne.
Qed.

Lemma io_runs_ok n σ es σ' es0 :
  io_runs n σ es σ' → io_history es0 σ → io_history (es0 ++ es) σ' ∧ n + io_fuel σ' ≤ io_fuel σ ∧
  ((∃ i p, io_threads σ !! i = Some p ∧ closing p = true) →
   ∃ i p, io_threads σ' !! i = Some p ∧ closing p = true).
Proof.
  intros Hruns. revert es0. induction Hruns as [σ|n σ es σ1 es1 σ2 Hrun _ IH]; intros es0 Hh.
  - rewrite app_nil_r. split; [done|]. split; [lia|done].
  - destruct (io_run_ok _ _ _ _ Hh Hrun) as (Hh1 & Hf & Hc).
    destruct (IH _ Hh1) as (Hh2 & Hf2 & Hc2). rewrite app_assoc. split; [done|]. split; [lia|auto].
Qed.

(** ** Properties *)

(** C16: whatever goroutines call [Write], [Read] and [Close] on an open device, in
    whatever interleaving and whatever the handle answers: no goroutine panics
    (neither [done] nor [writerDone] is closed twice); the accepted reports reach
    the handle in the order of their acceptance, each once, as 65 bytes with a zero
    report ID first (what is not written yet is the one the write loop holds and the
    queue); and the handle is closed at most once and not written to afterwards. *)
Theorem device_writes_in_order es σ :
  io_history es σ →
  (∀ i p c, io_threads σ !! i = Some p → ∃ r d, io_thread_step c p (io_device σ) = Val (r, d)) ∧
  (∃ p, io_threads σ !! 0 = Some p ∧
     queued es = (drop 1 <$> wire es) ++ flight p ++ writes (io_device σ)) ∧
  Forall (λ r, ∃ raw, r = 0%Z :: raw ∧ length raw = ReportSize) (wire es) ∧
  closes es ≤ 1 ∧
  ∀ es1 es2, es = es1 ++ HandleClosed :: es2 → wire es2 = [].
Proof.
  intros Hh. pose proof (io_history_ok _ _ Hh) as Hok. destruct σ as [d ts]. split_and!.
  - intros i p c Hi. eapply thread_never_panics, io_ok_pre; [exact Hok|exact Hi].
  - destruct (ok_has_loop _ _ Hok) as [p Hp]. exists p. split; [done|].
    by destruct (ok_loop _ _ Hok p Hp) as (_ & _ & _ & ?).
  - apply (ok_wire _ _ Hok).
  - pose proof (ok_close _ _ Hok). cbn in *. destruct (closed d); cbn in *; lia.
  - intros es1 es2 Heq. by destruct (ok_quiet _ _ Hok es1 es2 Heq).
Qed.

(** C17: closing completes, also when a goroutine stays blocked in a read: once some
    goroutine has called [Close], and while nobody makes new calls, the goroutines take
    at most [io_fuel] more steps; as long as one of them has neither ended nor waits for
    a report, some goroutine that does not wait for a report can go on, whatever the
    binding answers (its [Write] and [Close] return; nothing is assumed of its [Read]);
    and when only blocked readers are left - every [Close], the writers blocked on the
    full queue and the write loop having ended - the handle has been closed exactly
    once. *)
Theorem close_completes es σ n es' σ' i p :
  io_history es σ → io_threads σ !! i = Some p → closing p = true → io_runs n σ es' σ' →
  n ≤ io_fuel σ ∧
  ((∃ j q, io_threads σ' !! j = Some q ∧ reading q = false ∧
      ∀ c, ∃ q' es'' d', io_thread_step c q (io_device σ') = Val (Some (q', es''), d')) ∨
   (Forall (λ q, ended q = true ∨ reading q = true) (io_threads σ') ∧ closes (es ++ es') = 1)).
Proof.
  intros Hh Hi Hp Hruns. destruct (io_runs_ok _ _ _ _ _ Hruns Hh) as (Hh' & Hf & Hc).
  split; [lia|]. destruct Hc as (j & q & Hj & Hq); [by exists i, p|].
  pose proof (io_history_ok _ _ Hh') as Hok. destruct σ' as [d ts].
  destruct (closing_progress _ _ _ _ _ Hok Hj Hq) as [Hall|]; [right|by left].
  split; [done|]. by eapply all_ended_closed.
Qed.

(** ** Witnesses *)

(** A report is queued and written, then the device is closed, while a reader waits for
    a report that never comes; the handle answers as it should. *)
Definition good : choice := Choice false (Some 65) ReadBlocks true.

Fixpoint io_schedule (sched : list nat) (σ : io_system) : option (list io_event * io_system) :=
  match sched with
  | [] => Some ([], σ)
  | i :: sched =>
      match io_threads σ !! i with
      | Some p =>
          match io_thread_step good p (io_device σ) with
          | Val (Some (p', es), d') =>
              match io_schedule sched (IoSystem d' (<[i:=p']> (io_threads σ))) with
              | Some (es', σ') => Some (es ++ es', σ')
              | None => None
              end
          | _ => None
          end
      | None => None
      end
  end.

Lemma io_schedule_runs sched σ es σ' :
  io_schedule sched σ = Some (es, σ') → io_runs (length sched) σ es σ'.
Proof.
  revert σ es σ'. induction sched as [|i sched IH]; intros [d ts] es σ'; cbn [io_schedule length].
  - intros [= <- <-]. constructor.
  - cbn [io_threads io_device]. destruct (ts !! i) as [p|] eqn:Hi; [|done].
    destruct (io_thread_step good p d) as [[[[p' es0]|] d']| |] eqn:Hs; try done.
    destruct (io_schedule sched _) as [[es1 σ1]|] eqn:Hrest; [|done]. intros [= <- <-].
    eapply io_runs_S; [by eapply io_run_thread|]. by apply IH.
Qed.

Definition one_write : io_system :=
  IoSystem device_opened [start_loop; start_write (replicate 64 7%Z); start_close; start_read].

Lemma call_history ts p :
  io_history [] (IoSystem device_opened ts) →
  p = start_read ∨ p = start_close ∨ (∃ raw, p = start_write raw) →
  io_history [] (IoSystem device_opened (ts ++ [p])).
Proof.
  intros Hh Hp. change (@nil io_event) with ([] ++ @nil io_event).
  eapply io_history_step; [exact Hh|]. by apply io_call.
Qed.

Lemma one_write_history : io_history [] one_write.
Proof.
  apply (call_history [start_loop; start_write (replicate 64 7%Z); start_close]); [|by left].
  apply (call_history [start_loop; start_write (replicate 64 7%Z)]); [|by right; left].
  apply (call_history [start_loop]); [apply io_history_open|]. right. right. by eexists.
Qed.

(** The write's three steps, the loop's two, the first two of [Close], the loop's end,
    the rest of [Close]. *)
Definition one_write_schedule : list nat := [1; 1; 1; 0; 0; 2; 2; 0; 0; 2; 2; 2].

Lemma device_writes_in_order_witness :
  ∃ es σ, io_schedule one_write_schedule one_write = Some (es, σ) ∧
    (∃ p, io_threads σ !! 0 = Some p ∧
      queued es = (drop 1 <$> wire es) ++ flight p ++ writes (io_device σ)) ∧ closes es ≤ 1.
Proof.
  destruct (io_schedule one_write_schedule one_write) as [[es σ]|] eqn:Hs; [|discriminate].
  exists es, σ. split; [done|]. apply io_schedule_runs in Hs.
  destruct (io_runs_ok _ _ _ _ _ Hs one_write_history) as [Hh _].
  by destruct (device_writes_in_order _ _ Hh) as (_ & ? & _ & ? & _).
Defined.

Lemma close_completes_witness :
  ∃ es σ, io_schedule one_write_schedule one_write = Some (es, σ) ∧
    length one_write_schedule ≤ io_fuel one_write ∧
    io_threads σ = [LoopDone; WriteDone None; CloseDone None; ReadCall] ∧ closes es = 1.
Proof.
  destruct (io_schedule one_write_schedule one_write) as [[es σ]|] eqn:Hs; [|discriminate].
  assert (Hts : io_threads σ = [LoopDone; WriteDone None; CloseDone None; ReadCall])
    by (vm_compute in Hs; injection Hs as _ <-; reflexivity).
  exists es, σ. split; [done|]. apply io_schedule_runs in Hs.
  destruct (close_completes [] one_write _ es σ 2 start_close one_write_history eq_refl eq_refl Hs)
    as [Hn [(j & q & Hj & Hq & Hgo)|[_ Hc]]]; [|by split].
  exfalso. rewrite Hts in Hj.
  destruct (Hgo good) as (q' & es' & d' & Hstep).
  repeat (destruct j as [|j]; [injection Hj as <-; discriminate|]). discriminate Hj.
Defined.
