(* ===== verification/Session.v ===== *)
(** * internal/hid/router.go and internal/aimeio/session.go: the read side

    The router, the read loop and the session's view of the card: what the host
    shows while reports arrive, and after the connection is lost.  The session's
    writing side is in Verify.v. *)
From stdpp Require Import gmap.
From S2P Require Import Prelude Platform Sim Pn532Iface Reader UsbDevice Prhp Cardio.
From S2P Require Import Protocol HostLink Caller.

(** The errors of the DLL that meet here. *)
Inductive link_error : Type :=
  | ProtoError (e : proto_error)
  | CallerError (e : caller_error)
  | ErrUnknownSignal
  | TransportError
  | ErrDisconnected
  | ErrTimeout
  | ErrContextDone
  | ErrUnsupportedVersion.

(** The fields of [Session] the read loop changes. *)
Record Session (W : Type) : Type := MkSession {
  session_caller : Caller W;
  latest : Protocol.Card;
  readErr : option link_error;
  done : bool;
}.
Arguments MkSession {W} session_caller latest readErr done.
Arguments session_caller {W} s.
Arguments latest {W} s.
Arguments readErr {W} s.
Arguments done {W} s.

Section session.
Context {W : Type} `{CallCache W}.
Implicit Types s : Session W.

Definition store_latest (card : Protocol.Card) : M (Session W) unit :=
  modify (λ s, MkSession (session_caller s) card (readErr s) (done s)).

(** [r.caller.Consume(...)] *)
Definition on_caller {A} (m : M (Caller W) A) : M (Session W) A := λ s,
  match m (session_caller s) with
  | Val (a, c) => Val (a, MkSession c (latest s) (readErr s) (done s))
  | Ub => Ub
  | OutOfFuel => OutOfFuel
  end.

Definition SignalHandler : Type := list Z → M (Session W) (option link_error).

(** The handler [newSession] registers for [OpcodeCardState]. *)
Definition card_state_handler : SignalHandler := λ raw,
  let* r := DecodeCardStateSignal raw in
  match r with
  | inl e => ret (Some (ProtoError e))
  | inr card => do* store_latest card in ret None
  end.

(** [signals] of a [Router]; its other field, the caller, is the session's. *)
Definition NewRouter : gmap Z SignalHandler := ∅.

Definition Handle (opcode : Z) (handler : SignalHandler) (signals : gmap Z SignalHandler)
    : gmap Z SignalHandler := <[opcode:=handler]> signals.

(** The [signals] of the router [newSession] makes. *)
Definition session_signals : gmap Z SignalHandler :=
  Handle OpcodeCardState card_state_handler NewRouter.

Definition Dispatch (signals : gmap Z SignalHandler) (raw : list Z)
    : M (Session W) (option link_error) :=
  let* r := DecodeHeader raw in
  match r with
  | inl e => ret (Some (ProtoError e))
  | inr header =>
      match Type_ header with
      | MessageResponse =>
          let* err := on_caller (Consume (Sequence header) raw) in
          ret (CallerError <$> err)
      | MessageSignal =>
          match signals !! Opcode header with
          | None => ret (Some ErrUnknownSignal)
          | Some handler => handler raw
          end
      | MessageRequest => ret (Some (ProtoError ErrUnexpectedType))
      end
  end.

(** [reads] are the results of [transport.Read()] so far; [None] when the loop
    waits for the next one. *)
Fixpoint ReadLoop (signals : gmap Z SignalHandler) (reads : list (link_error + list Z))
    : M (Session W) (option link_error) :=
  match reads with
  | [] => ret None
  | inl e :: _ => ret (Some e)
  | inr raw :: reads =>
      let* _err := Dispatch signals raw in
      ReadLoop signals reads
  end.

Definition readLoop (reads : list (link_error + list Z)) : M (Session W) unit :=
  let* r := ReadLoop session_signals reads in
  match r with
  | None => ret tt
  | Some err =>
      do* store_latest (empty_card CardNone) in
      modify (λ s, MkSession (session_caller s) (latest s) (Some err) true)
  end.

Definition newSession (empty : W) : Session W :=
  MkSession (NewCaller empty) (empty_card CardNone) None false.

Definition CurrentCard (s : Session W) : Protocol.Card := latest s.

Definition Err (s : Session W) : option link_error :=
  if done s then
    match readErr s with None => Some ErrDisconnected | Some e => Some e end
  else None.
End session.

(** [Session.AimeID], [MIFAREBlocks] and [FeliCaID], of the current card. *)
Definition AimeID (card : Protocol.Card) : list Z * bool :=
  match CardType_ card with
  | CardMIFARE =>
      if existsb (λ value, negb (value =? 0)%Z) (LUID card) then (LUID card, true)
      else (replicate 10 0%Z, false)
  | _ => (replicate 10 0%Z, false)
  end.

Definition MIFAREBlocks (card : Protocol.Card) : list Z * bool :=
  (Blocks card, match CardType_ card with CardMIFARE => true | _ => false end).

(** [binary.BigEndian.Uint64] *)
Definition be_uint64 (bytes : list Z) : Z :=
  foldl (λ acc b, Z.lor (Z.shiftl acc 8) b) 0%Z bytes.

Definition FeliCaID (card : Protocol.Card) : Z * bool :=
  match CardType_ card with
  | CardFeliCa => (be_uint64 (IDm card), true)
  | _ => (0%Z, false)
  end.

(** ** What the host shows, specified *)

(** The card after a report: the one it carries, or the one before. *)
Definition card_after (card : Protocol.Card) (raw : list Z) : Protocol.Card :=
  match DecodeCardStateSignal raw tt with Val (inr c, _) => c | _ => card end.

(** Pending calls that can take their message. *)
Definition calls_ready {W} (live : W → gmap Z nat) (c : Caller W) : Prop :=
  ∀ k i, live (calls c) !! k = Some i →
    ∃ p, heap c !! i = Some p ∧ (consumed p = false → response p = None).

(** ** Lemmas *)

(** The decoders do not look at the state, and never panic. *)
Lemma decode_header_any {S} raw (s : S) :
  ∃ r, DecodeHeader raw s = Val (r, s) ∧ DecodeHeader raw tt = Val (r, tt) ∧
    ∀ h, r = inr h → length raw = 64.
Proof.
  unfold DecodeHeader, ReportSize. destruct (Nat.eqb_spec (length raw) 64) as [Hl|Hl]; cbn [negb].
  - destruct raw as [|ty [|op [|lo [|hi [|st body]]]]]; try done.
    unfold get_uint16, bind, aget, ret. cbn [lookup list_lookup Nat.add].
    repeat case_match; eexists; split_and!; done.
  - by exists (inl ErrInvalidReport).
Qed.

Lemma decode_card_any {S} raw (s : S) :
  ∃ r, DecodeCardStateSignal raw s = Val (r, s) ∧ DecodeCardStateSignal raw tt = Val (r, tt).
Proof.
  destruct (decode_header_any raw s) as (h & Hs & Ht & Hlen).
  unfold DecodeCardStateSignal, ok_bind, bind. rewrite Hs, Ht.
  destruct h as [e|h]; [by eexists|]. specialize (Hlen h eq_refl) as Hl.
  destruct (negb _); [by eexists|]. destruct (negb _); [by eexists|].
  destruct (lookup_lt_is_Some_2 raw 5) as [t Hty]; [lia|]. unfold aget. rewrite Hty. unfold ret.
  unfold aread. rewrite Hl. change ((6 + 10 <=? 64)%nat) with true.
  change ((16 + 32 <=? 64)%nat) with true. change ((6 + 8 <=? 64)%nat) with true. unfold ret.
  destruct (t =? 0)%Z; [by eexists|]. destruct (t =? 1)%Z.
  - destruct (validateLUID _); by eexists.
  - destruct (t =? 2)%Z; by eexists.
Qed.

(** A card-state signal is a signal with its opcode. *)
Lemma card_after_header card raw h :
  DecodeHeader raw tt = Val (h, tt) →
  (∀ hd, h = inr hd → Type_ hd = MessageSignal → Opcode hd ≠ OpcodeCardState) →
  card_after card raw = card.
Proof.
  intros Hd Hno. unfold card_after, DecodeCardStateSignal, ok_bind, bind. rewrite Hd.
  destruct h as [e|hd]; [done|]. case_bool_decide as Ht; cbn [negb]; [|done].
  destruct (Z.eqb_spec (Opcode hd) OpcodeCardState) as [Ho|]; cbn [negb]; [|done].
  by destruct (Hno hd eq_refl Ht).
Qed.

Lemma existsb_nonzero l :
  existsb (λ value, negb (value =? 0)%Z) l = negb (bool_decide (l = replicate (length l) 0%Z)).
Proof.
  induction l as [|b l IH]; [done|]. cbn [existsb length replicate].
  destruct (Z.eqb_spec b 0) as [->|Hb]; cbn [negb orb].
  - rewrite IH. f_equal. apply bool_decide_ext. split; congruence.
  - by rewrite bool_decide_eq_false_2 by congruence.
Qed.

(** The number an IDm is, most significant byte first. *)
Definition big_endian (bytes : list Z) : Z := foldl (λ acc b, acc * 256 + b)%Z 0%Z bytes.

Lemma lor_shift8 acc b : is_byte b → Z.lor (Z.shiftl acc 8) b = (acc * 256 + b)%Z.
Proof.
  unfold is_byte. intros Hb. pose proof (Z.add_lor_land (Z.shiftl acc 8) b) as Hadd.
  assert (Hl : Z.land (Z.shiftl acc 8) b = 0%Z).
  { apply Z.bits_inj'. intros n Hn. rewrite Z.land_spec, Z.bits_0.
    destruct (decide (n < 8)%Z).
    - by rewrite Z.shiftl_spec_low.
    - rewrite <- (Z.mod_small b (2 ^ 8)) by lia.
      rewrite (Z.mod_pow2_bits_high b) by lia. apply andb_false_r. }
  rewrite Hl, Z.add_0_r in Hadd. rewrite Hadd, Z.shiftl_mul_pow2 by lia. done.
Qed.

Lemma be_uint64_big_endian bytes : is_bytes bytes → be_uint64 bytes = big_endian bytes.
Proof.
  unfold be_uint64, big_endian. generalize 0%Z as acc. intros acc Hb. revert acc.
  induction Hb as [|b bytes Hb _ IH]; intros acc; [done|]. cbn [foldl].
  rewrite lor_shift8 by done. apply IH.
Qed.

Section session_laws.
Context {W : Type} `{CallCacheLaws W live}.
Implicit Types s : Session W.

Lemma calls_ready_shrink (c : Caller W) n w :
  live w ⊆ live (calls c) → calls_ready live c → calls_ready live (MkCaller n w (heap c)).
Proof. intros Hsub Hr k i Hk. apply (Hr k). cbn [calls] in Hk. by eapply lookup_weaken. Qed.

(** The read loop's [Consume] returns, whatever the response. *)
Lemma consume_ready (c : Caller W) k raw :
  calls_ready live c → ∃ r c', Consume k raw c = Val (r, c') ∧ calls_ready live c'.
Proof.
  intros Hr. destruct (cache_get_law k (calls c)) as [Hget Hsub].
  pose proof (calls_ready_shrink c (next c) _ Hsub Hr) as Hr1.
  unfold Consume, bind, calls_get, prim, compare_and_swap, calls_remove, modify, send_channel, ret.
  rewrite Hget. destruct (live (calls c) !! k) as [i|] eqn:Hl; [|by eexists _, _].
  destruct (Hr k i Hl) as (p & Hp & Hready). cbn [heap calls next]. rewrite Hp.
  destruct (consumed p) eqn:Hcon; cbn [negb heap calls next]; [by eexists _, _|].
  rewrite list_lookup_insert_eq by by eapply lookup_lt_Some. cbn [response consumed].
  rewrite (Hready eq_refl). eexists _, _. split; [reflexivity|].
  intros k' i' Hk'. cbn [calls heap] in *. eapply lookup_weaken in Hk'; [|apply cache_remove_law].
  apply lookup_delete_Some in Hk' as [_ Hk']. eapply lookup_weaken in Hk'; [|exact Hsub].
  destruct (Hr k' i' Hk') as (p' & Hp' & Hready').
  rewrite list_insert_insert_eq. destruct (decide (i' = i)) as [->|Hne].
  - eexists. split; [by apply list_lookup_insert_eq; eapply lookup_lt_Some|]. done.
  - exists p'. by rewrite list_lookup_insert_ne.
Qed.

Lemma dispatch_run_session s raw :
  calls_ready live (session_caller s) →
  ∃ e s', Dispatch session_signals raw s = Val (e, s') ∧
    latest s' = card_after (latest s) raw ∧ readErr s' = readErr s ∧ done s' = done s ∧
    calls_ready live (session_caller s').
Proof.
  intros Hr. destruct (decode_header_any raw s) as (h & Hs & Ht & _).
  unfold Dispatch. rewrite (bind_val _ _ _ _ _ Hs).
  destruct h as [e|hd].
  { eexists _, s. split; [reflexivity|]. by rewrite (card_after_header _ _ _ Ht). }
  destruct (Type_ hd) eqn:Htype.
  - eexists _, s. split; [reflexivity|]. rewrite (card_after_header _ _ _ Ht); [done|].
    intros ? [= <-]. congruence.
  - destruct (consume_ready (session_caller s) (Sequence hd) raw Hr) as (r & c & Hrun & Hr').
    unfold bind, on_caller. rewrite Hrun. eexists _, _. split; [reflexivity|].
    rewrite (card_after_header _ _ _ Ht); [done|]. intros ? [= <-]. congruence.
  - unfold session_signals, Handle, NewRouter. destruct (decide (Opcode hd = OpcodeCardState)) as [Ho|Ho].
    + rewrite Ho, lookup_insert_eq. unfold card_state_handler.
      destruct (decode_card_any raw s) as (r & Hc & Hct).
      rewrite (bind_val _ _ _ _ _ Hc). unfold card_after. rewrite Hct.
      destruct r as [e|card]; eexists _, _; (split; [reflexivity|done]).
    + rewrite lookup_insert_ne, lookup_empty by done. eexists _, s. split; [reflexivity|].
      rewrite (card_after_header _ _ _ Ht); [done|]. by intros ? [= <-].
Qed.

Lemma read_loop_run s raws rest :
  calls_ready live (session_caller s) →
  ∃ s', ReadLoop session_signals ((inr <$> raws) ++ rest) s = ReadLoop session_signals rest s' ∧
    latest s' = foldl card_after (latest s) raws ∧ readErr s' = readErr s ∧ done s' = done s ∧
    calls_ready live (session_caller s').
Proof.
  revert s. induction raws as [|raw raws IH]; intros s Hr; [by exists s|].
  destruct (dispatch_run_session s raw Hr) as (e & s1 & Hd & Hlatest & He & Hdone & Hr1).
  destruct (IH s1 Hr1) as (s2 & Hloop & ? & ? & ? & ?). exists s2.
  cbn [fmap list_fmap app ReadLoop foldl]. rewrite (bind_val _ _ _ _ _ Hd), Hloop, <- Hlatest.
  split_and!; congruence || done.
Qed.
End session_laws.

Lemma card_after_report card c :
  wf_card c → card_after card (card_state_report c) = host_card c.
Proof. intros Hc. unfold card_after. by rewrite decode_report_card. Qed.

(** The lookups on a card of the reader. *)
Lemma host_card_lookups card :
  wf_card card →
  AimeID (host_card card) =
    (if bool_decide (card_type card = READER_CARD_MIFARE ∧ card_has_blocks card = true ∧
                     card_luid card ≠ replicate 10 0%Z)
     then (card_luid card, true) else (replicate 10 0%Z, false)) ∧
  MIFAREBlocks (host_card card) =
    (if bool_decide (card_type card = READER_CARD_MIFARE ∧ card_has_blocks card = true)
     then (card_blocks card, true) else (replicate 32 0%Z, false)) ∧
  FeliCaID (host_card card) =
    (if bool_decide (card_type card = READER_CARD_FELICA)
     then (big_endian (card_idm card), true) else (0%Z, false)).
Proof.
  intros [_ (Hll & _) _ (_ & Hib) _ _ _ _ _]. unfold AimeID, MIFAREBlocks, FeliCaID, host_card.
  destruct card as [[] uid luid blocks idm pmm has]; cbn in Hll, Hib |- *; [done| |].
  - destruct has; [|done]. cbn. rewrite existsb_nonzero, Hll. split_and!; [|done|done].
    case_bool_decide as Hz; cbn [negb]; case_bool_decide as Hz'; try done.
    + by destruct Hz' as (_ & _ & []).
    + by destruct Hz'.
  - by rewrite be_uint64_big_endian.
Qed.

(** ** Properties *)

Section session_claims.
Context {W : Type} `{CallCacheLaws W live}.
Implicit Types s : Session W.

(** C29: whatever reports arrive, well formed or not, the read loop processes all of
    them without panicking or blocking, and the card the session shows is the one
    in the last valid CARD_STATE signal; when a read fails, now or later, the session
    shows no card, is done and keeps the failure. *)
Theorem session_follows_reports s raws :
  calls_ready live (session_caller s) → done s = false →
  (∃ s', readLoop (inr <$> raws) s = Val (tt, s') ∧
     CurrentCard s' = foldl card_after (CurrentCard s) raws ∧ Err s' = None) ∧
  ∀ e rest, ∃ s', readLoop ((inr <$> raws) ++ inl e :: rest) s = Val (tt, s') ∧
     CurrentCard s' = empty_card CardNone ∧ Err s' = Some e.
Proof.
  intros Hr Hd. split; [|intros e rest].
  - destruct (read_loop_run s raws [] Hr) as (s' & Hrun & Hl & He & Hdone & _).
    rewrite app_nil_r in Hrun. exists s'. unfold readLoop, bind. rewrite Hrun.
    split_and!; [done|done|]. unfold Err. by rewrite Hdone, Hd.
  - destruct (read_loop_run s raws (inl e :: rest) Hr) as (s' & Hrun & _).
    eexists. unfold readLoop, bind. rewrite Hrun. split; [reflexivity|done].
Qed.

(** C14: the card on the host is the card on the reader: after any observations of the
    reader have been published and received, the session shows the last one, and
    the exported lookups give its access code (unless it is all zero), its blocks
    and its IDm as a big-endian number, and nothing for a card of another kind. *)
Theorem host_shows_card s cards card :
  Forall wf_card cards → wf_card card → calls_ready live (session_caller s) →
  ∃ s', readLoop (inr <$> map card_state_report (cards ++ [card])) s = Val (tt, s') ∧
    CurrentCard s' = host_card card ∧
    AimeID (CurrentCard s') =
      (if bool_decide (card_type card = READER_CARD_MIFARE ∧ card_has_blocks card = true ∧
                       card_luid card ≠ replicate 10 0%Z)
       then (card_luid card, true) else (replicate 10 0%Z, false)) ∧
    MIFAREBlocks (CurrentCard s') =
      (if bool_decide (card_type card = READER_CARD_MIFARE ∧ card_has_blocks card = true)
       then (card_blocks card, true) else (replicate 32 0%Z, false)) ∧
    FeliCaID (CurrentCard s') =
      (if bool_decide (card_type card = READER_CARD_FELICA)
       then (big_endian (card_idm card), true) else (0%Z, false)).
Proof.
  intros Hcards Hcard Hr.
  destruct (read_loop_run s (map card_state_report (cards ++ [card])) [] Hr) as (s' & Hrun & Hl & _).
  rewrite app_nil_r in Hrun. exists s'. unfold readLoop, bind. rewrite Hrun.
  assert (Hshow : CurrentCard s' = host_card card).
  { unfold CurrentCard. rewrite Hl, map_app, foldl_app. cbn [map foldl]. by apply card_after_report. }
  split; [done|]. split; [done|]. rewrite Hshow. by apply host_card_lookups.
Qed.
End session_claims.

(** ** Witnesses *)

Definition fresh_session : Session (gmap Z nat) := newSession ∅.

Lemma fresh_session_ready : calls_ready id (session_caller fresh_session).
Proof. intros k i Hk. change ((∅ : gmap Z nat) !! k = Some i) in Hk. by rewrite lookup_empty in Hk. Qed.

(** Nonsense, a card, nonsense again; then the cable is pulled. *)
Lemma session_follows_reports_witness :
  ∃ s', readLoop [inr [1%Z]; inr (card_state_report sample_felica_card); inr [];
                  inl TransportError] fresh_session = Val (tt, s') ∧
    CurrentCard s' = empty_card CardNone ∧ Err s' = Some TransportError.
Proof.
  destruct (session_follows_reports (live := id) fresh_session
    [[1%Z]; card_state_report sample_felica_card; []]) as [_ Hfail];
    [apply fresh_session_ready|reflexivity|apply (Hfail TransportError [])].
Defined.

Lemma host_shows_card_witness :
  ∃ s', readLoop (inr <$> map card_state_report [zero_card; sample_felica_card]) fresh_session =
      Val (tt, s') ∧ FeliCaID (CurrentCard s') = (0x0127020304050607%Z, true).
Proof.
  destruct (host_shows_card (live := id) fresh_session [zero_card] sample_felica_card)
    as (s' & Hrun & _ & _ & _ & Hid);
    [by apply Forall_singleton, zero_card_wf|apply sample_felica_card_wf|apply fresh_session_ready|].
  exists s'. split; [exact Hrun|exact Hid].
Defined.
