(* ===== verification/Verify.v ===== *)
(** * internal/aimeio/session.go: the writing side

    The version handshake ([VerifyVersion]) and the LED signal of a session.  What
    the read loop does while the handshake waits is an argument, and so are the
    transport's answers and the case that ends the wait.  With the firmware's
    dispatcher on the other side of the link the handshake succeeds. *)
From stdpp Require Import gmap.
From S2P Require Import Prelude Platform Sim Pn532Iface Reader UsbDevice Prhp Cardio.
From S2P Require Import Protocol HostLink Caller Session.

(** The case of the handshake's [select]. *)
Inductive wake : Type :=
  | WakeResponse
  | WakeTimer
  | WakeContext
  | WakeDone.

Section verify.
Context {W : Type} `{CallCache W}.
Implicit Types s : Session W.

(** Up to [s.transport.Write]; [write] is what the transport answers to a report.  The
    call whose channel the handshake will wait on, or the error. *)
Definition verify_request (timeout : Z) (write : list Z → option link_error)
    : M (Session W) (link_error + nat) :=
  let* r := on_caller (Allocate timeout) in
  match r with
  | inl err => ret (inl (CallerError err))
  | inr (sequence, call) =>
      let* raw := EncodeGetVersion sequence in
      ret (match write raw with Some err => inl err | None => inr call end)
  end.

(** [<-response]: takes the message out of the channel; [None] while it is empty. *)
Definition receive_response (call : nat) : M (Caller W) (option (list Z)) := λ c,
  match heap c !! call with
  | None => Ub
  | Some p =>
      Val (response p, MkCaller (next c) (calls c) (<[call:=PendingCall None (consumed p)]> (heap c)))
  end.

(** The body of the response's case. *)
Definition check_version (raw : list Z) : M (Session W) (option link_error) :=
  let* r := DecodeGetVersionResponse raw in
  ret (match r with
       | inl err => Some (ProtoError err)
       | inr version =>
           if negb (Major version =? 0)%Z || negb (Minor version =? 1)%Z
           then Some ErrUnsupportedVersion else None
       end).

(** The [select], when the case [w] is chosen: [None] if that case is not ready,
    otherwise what [VerifyVersion] returns. *)
Definition verify_select (ctx_done : bool) (w : wake) (call : nat)
    : M (Session W) (option (option link_error)) :=
  match w with
  | WakeResponse =>
      let* r := on_caller (receive_response call) in
      match r with
      | None => ret None
      | Some raw => let* err := check_version raw in ret (Some err)
      end
  | WakeTimer => ret (Some (Some ErrTimeout))
  | WakeContext => ret (if ctx_done then Some (Some ErrContextDone) else None)
  | WakeDone =>
      let* s := get in
      ret (if done s then Some (Err s) else None)
  end.

(** The whole call, the read loop getting [meanwhile] before the wait ends. *)
Definition VerifyVersion (timeout : Z) (write : list Z → option link_error)
    (meanwhile : list (link_error + list Z)) (ctx_done : bool) (w : wake)
    : M (Session W) (option (option link_error)) :=
  let* r := verify_request timeout write in
  match r with
  | inl err => ret (Some (Some err))
  | inr call =>
      do* readLoop meanwhile in
      verify_select ctx_done w call
  end.

Definition SetLED (write : list Z → option link_error) (red green blue : Z)
    : M (Session W) (option link_error) :=
  let* raw := EncodeSetLED red green blue in ret (write raw).
End verify.

(** ** Lemmas *)

(** The state of a session that reads: it may be done, its calls are ready. *)
Lemma get_version_run {S} sequence (s : S) :
  ∃ raw, EncodeGetVersion sequence s = Val (raw, s).
Proof. by eexists. Qed.

(** The responses the handshake accepts. *)
Definition says_version_0_1 (raw : list Z) : Prop :=
  DecodeGetVersionResponse raw tt = Val (inr (MkVersion 0 1), tt).

Lemma decode_version_any {S} raw (s : S) :
  ∃ r, DecodeGetVersionResponse raw s = Val (r, s) ∧ DecodeGetVersionResponse raw tt = Val (r, tt).
Proof.
  destruct (decode_header_any raw s) as (h & Hs & Ht & Hl).
  unfold DecodeGetVersionResponse, validateResponse, ok_bind, bind. rewrite Hs, Ht.
  destruct h as [e|h]; [by eexists|]. specialize (Hl h eq_refl).
  destruct (negb _); [by eexists|]. destruct (negb _); [by eexists|]. destruct (negb _); [by eexists|].
  unfold ret, aget. destruct (lookup_lt_is_Some_2 raw 5) as [? ->]; [lia|].
  destruct (lookup_lt_is_Some_2 raw 6) as [? ->]; [lia|]. by eexists.
Qed.

Lemma check_version_run {W} raw (s : Session W) :
  ∃ r, check_version raw s = Val (r, s) ∧
    (r = None ↔ says_version_0_1 raw).
Proof.
  unfold check_version. destruct (decode_version_any raw s) as (r & Hd & Ht).
  rewrite (bind_val _ _ _ _ _ Hd). eexists. split; [reflexivity|].
  unfold says_version_0_1. rewrite Ht. destruct r as [e|[major minor]]; [by split; intros; simplify_eq|]. cbn [Major Minor].
  destruct (Z.eqb_spec major 0), (Z.eqb_spec minor 1); cbn [negb orb];
    split; intros; simplify_eq; done.
Qed.

Section verify_laws.
Context {W : Type} `{CallCacheLaws W live}.
Implicit Types s : Session W.

(** What a call needs of the caller, and keeps. *)
Definition has_call (call : nat) (c : Caller W) : Prop := call < length (heap c).

(** Every response that waits in a channel satisfies [P]. *)
Definition holds_only (P : list Z → Prop) (c : Caller W) : Prop :=
  ∀ i p raw, heap c !! i = Some p → response p = Some raw → P raw.

(** No call disappears, and no response appears. *)
Definition caller_grows (c c' : Caller W) : Prop :=
  (∀ P, holds_only P c → holds_only P c') ∧ length (heap c) ≤ length (heap c').

Lemma caller_grows_refl c : caller_grows c c.
Proof. by split. Qed.

Lemma caller_grows_view (c : Caller W) n w c' :
  caller_grows (MkCaller n w (heap c)) c' → caller_grows c c'.
Proof. intros [Hh Hl]. split; [|done]. intros P HP. by apply Hh. Qed.

Lemma holds_only_mono (P Q : list Z → Prop) c :
  (∀ raw, P raw → Q raw) → holds_only P c → holds_only Q c.
Proof. intros Hpq Hp i p raw Hi Hr. eapply Hpq, Hp; [exact Hi|exact Hr]. Qed.

Lemma holds_only_snoc P (c : Caller W) n w :
  holds_only P c → holds_only P (MkCaller n w (heap c ++ [PendingCall None false])).
Proof.
  intros Hp i p raw Hi Hr. cbn [heap] in Hi.
  apply lookup_app_Some in Hi as [Hi|[_ [_ <-]%list_lookup_singleton_Some]]; [by eapply Hp|done].
Qed.

(** Delivering [raw] to a call, or taking what a call holds. *)
Lemma holds_only_insert P (c : Caller W) n w call p :
  holds_only P c → (∀ raw, response p = Some raw → P raw) →
  holds_only P (MkCaller n w (<[call:=p]> (heap c))).
Proof.
  intros Hp Hnew i q raw Hi Hr. cbn [heap] in Hi.
  apply list_lookup_insert_Some in Hi as [(_ & <- & _)|[_ Hi]]; [by apply Hnew|by eapply Hp].
Qed.

Lemma consume_holds P (c c' : Caller W) k raw r :
  holds_only P c → P raw → Consume k raw c = Val (r, c') →
  holds_only P c' ∧ length (heap c') = length (heap c).
Proof.
  intros Hp Hraw. unfold Consume, bind, calls_get, prim, compare_and_swap, calls_remove, modify,
    send_channel, ret. destruct (cache_get k (calls c)).1 as [i|]; [|by intros [= _ <-]].
  cbn [heap calls next]. destruct (heap c !! i) as [p|] eqn:Hi; [|done].
  destruct (consumed p); cbn [negb heap calls next]; [by intros [= _ <-]|].
  rewrite list_lookup_insert_eq by by eapply lookup_lt_Some. cbn [response consumed].
  destruct (response p) eqn:Hr; [done|]. intros [= _ <-]. rewrite list_insert_insert_eq.
  split; [|by rewrite <- (length_insert (heap c) i (PendingCall (Some raw) true))].
  apply holds_only_insert; [done|]. by intros ? [= <-].
Qed.

Lemma allocate_ready (c : Caller W) timeout :
  calls_ready live c →
  ∃ r c', Allocate timeout c = Val (r, c') ∧ calls_ready live c' ∧
    (∀ k i, r = inr (k, i) → has_call i c') ∧ caller_grows c c'.
Proof.
  unfold Allocate. destruct (timeout <=? 0)%Z; [by intros; eexists _, _; split_and!; auto using caller_grows_refl|].
  generalize (Z.to_nat 0xFFFF) as n. intros n. revert c.
  induction n as [|n IH]; intros c Hr; cbn [allocate_loop];
    [by eexists _, _; split_and!; auto using caller_grows_refl|].
  unfold bind at 1, next_sequence, prim. set (k := u16 _).
  assert (Hr1 : calls_ready live (MkCaller (u32 (next c + 1)) (calls c) (heap c))) by done.
  destruct (k =? 0)%Z; [by apply (IH (MkCaller (u32 (next c + 1)) (calls c) (heap c)))|].
  destruct (cache_get_law k (calls c)) as [Hget Hsub].
  unfold bind at 1, calls_get, prim. cbn [calls next heap]. rewrite Hget.
  destruct (live (calls c) !! k) as [i|].
  { apply (IH (MkCaller _ _ (heap c))). by eapply calls_ready_shrink. }
  unfold bind, add_call, prim, ret. cbn [calls next heap]. eexists _, _. split; [reflexivity|].
  split; [|split].
  - intros k' i Hi. cbn [calls heap] in *. eapply lookup_weaken in Hi; [|apply cache_add_law].
    apply lookup_insert_Some in Hi as [[<- <-]|[_ Hi]].
    + eexists. split; [by apply list_lookup_middle|]. done.
    + eapply lookup_weaken in Hi; [|exact Hsub]. destruct (Hr k' i Hi) as (p & Hp & Hready).
      exists p. split; [by apply lookup_app_l_Some|done].
  - intros k' i [= <- <-]. unfold has_call. cbn [heap]. rewrite length_app. cbn. lia.
  - split; [intros P; apply (holds_only_snoc P c)|]. cbn [heap]. rewrite length_app. lia.
Qed.

(** The fields the caller's operations leave alone. *)
Definition same_view (s s' : Session W) : Prop :=
  latest s' = latest s ∧ readErr s' = readErr s ∧ done s' = done s.

Lemma verify_request_run s timeout write :
  calls_ready live (session_caller s) →
  ∃ r s', verify_request timeout write s = Val (r, s') ∧ same_view s s' ∧
    calls_ready live (session_caller s') ∧
    (∀ call, r = inr call → has_call call (session_caller s')) ∧
    caller_grows (session_caller s) (session_caller s').
Proof.
  intros Hr. destruct (allocate_ready _ timeout Hr) as (a & c' & Hrun & Hr' & Hcall & Hholds).
  unfold verify_request, bind at 1, on_caller. rewrite Hrun.
  destruct a as [e|[k i]]; [by eexists _, _|].
  destruct (get_version_run k (MkSession c' (latest s) (readErr s) (done s))) as [raw Henc].
  rewrite (bind_val _ _ _ _ _ Henc). eexists _, _. split; [reflexivity|]. split; [done|].
  split; [done|]. split; [|done]. intros call. destruct (write raw); [done|].
  intros [= <-]. by eapply Hcall.
Qed.

Lemma receive_ready (c : Caller W) call p :
  calls_ready live c → heap c !! call = Some p →
  ∃ c', receive_response call c = Val (response p, c') ∧ calls_ready live c' ∧
    caller_grows c c'.
Proof.
  intros Hr Hp. unfold receive_response. rewrite Hp. eexists. split; [reflexivity|].
  split; [|split; [by intros P HP; apply holds_only_insert|cbn; by rewrite length_insert]].
  intros k i Hi. cbn [calls heap] in *. destruct (Hr k i Hi) as (q & Hq & Hready).
  destruct (decide (i = call)) as [->|Hne].
  - eexists. split; [by apply list_lookup_insert_eq; eapply lookup_lt_Some|]. done.
  - exists q. by rewrite list_lookup_insert_ne.
Qed.

(** The wait returns [nil] only for a response that says version 0.1. *)
Lemma verify_select_run s ctx_done w call :
  calls_ready live (session_caller s) → has_call call (session_caller s) →
  ∃ r s', verify_select ctx_done w call s = Val (r, s') ∧ same_view s s' ∧
    calls_ready live (session_caller s') ∧
    (r = Some None → w = WakeResponse ∧ ∃ p raw, heap (session_caller s) !! call = Some p ∧
       response p = Some raw ∧ says_version_0_1 raw) ∧
    caller_grows (session_caller s) (session_caller s').
Proof.
  intros Hr [p Hp]%lookup_lt_is_Some_2. destruct w; cbn [verify_select].
  - destruct (receive_ready _ call p Hr Hp) as (c' & Hrun & Hr' & Hholds).
    unfold bind at 1, on_caller. rewrite Hrun. destruct (response p) as [raw|] eqn:Hraw; [|by eexists _, _].
    destruct (check_version_run raw (MkSession c' (latest s) (readErr s) (done s))) as (r & Hc & Hiff).
    rewrite (bind_val _ _ _ _ _ Hc). eexists _, _. split; [reflexivity|]. split; [done|]. split; [done|].
    split; [|done]. intros [= ->]. split; [done|]. exists p, raw. split_and!; [done|done|by apply Hiff].
  - eexists _, s. split; [reflexivity|]. by split_and!.
  - eexists _, s. split; [reflexivity|]. split_and!; try done. by destruct ctx_done.
  - unfold bind, get, ret. eexists _, s. split; [reflexivity|]. split_and!; try done.
    unfold Err. destruct (done s); [|done]. by destruct (readErr s).
Qed.
End verify_laws.

Section handshake.
Context {W : Type} `{CallCacheLaws W live}.
Implicit Types s : Session W.

Lemma dispatch_card s c :
  wf_card c → Dispatch session_signals (card_state_report c) s =
    Val (None, MkSession (session_caller s) (host_card c) (readErr s) (done s)).
Proof.
  intros Hc. unfold Dispatch. rewrite (bind_val _ _ _ _ _ (decode_card_signal c s Hc)).
  cbn [Type_ Opcode]. unfold session_signals, Handle.
  rewrite lookup_insert_eq. unfold card_state_handler.
  by rewrite (bind_val _ _ _ _ _ (decode_report_card c s Hc)).
Qed.

(** Card signals leave the pending calls alone. *)
Lemma read_cards s cards rest :
  Forall wf_card cards →
  ReadLoop session_signals ((inr <$> map card_state_report cards) ++ rest) s =
    ReadLoop session_signals rest
      (MkSession (session_caller s) (foldl (λ _ c, host_card c) (latest s) cards) (readErr s) (done s)).
Proof.
  intros Hc. revert s. induction Hc as [|c cards Hc _ IH]; intros s; [by destruct s|].
  cbn [map fmap list_fmap app ReadLoop foldl]. rewrite (bind_val _ _ _ _ _ (dispatch_card s c Hc)).
  apply IH.
Qed.

(** The response finds its call, and is taken from it. *)
Lemma dispatch_version_response s k call :
  valid_sequence k → live (calls (session_caller s)) !! k = Some call →
  heap (session_caller s) !! call = Some (PendingCall None false) →
  ∃ c', Dispatch session_signals (version_response_of k) s =
      Val (None, MkSession c' (latest s) (readErr s) (done s)) ∧
    heap c' = <[call:=PendingCall (Some (version_response_of k)) true]> (heap (session_caller s)).
Proof.
  intros Hk Hl Hp. unfold Dispatch.
  rewrite (bind_val _ _ _ _ _ (version_response_header k s Hk)). cbn [Type_ Sequence].
  unfold bind, on_caller. rewrite (consume_run _ _ _ _ Hl Hp). eexists. split; [reflexivity|done].
Qed.

Lemma select_version_response ctx_done s k call :
  valid_sequence k →
  heap (session_caller s) !! call = Some (PendingCall (Some (version_response_of k)) true) →
  ∃ c', verify_select ctx_done WakeResponse call s =
    Val (Some None, MkSession c' (latest s) (readErr s) (done s)).
Proof.
  intros Hk Hp. cbn [verify_select]. unfold bind at 1, on_caller, receive_response. rewrite Hp.
  cbn [response]. unfold check_version.
  set (s1 := MkSession _ _ _ _).
  rewrite (bind_val _ _ _ _ _ (bind_val _ (λ r, ret _) s1 _ s1 (version_response_decodes k s1 Hk))).
  by eexists.
Qed.
End handshake.

(** ** Properties *)

Section verify_claims.
Context {W : Type} `{CallCacheLaws W live}.
Implicit Types s : Session W.

(** C15: the handshake of a host and a reader completes: [VerifyVersion] writes one
    report; the firmware's dispatcher answers exactly this report by sending one
    response; and when the read loop gets that response, after any number of card
    signals, [VerifyVersion] returns [nil] and the session, not done, shows the last of
    the cards.  It returns the transport's error, without waiting, when the write
    fails. *)
Theorem handshake_completes {U} `{Platform U} `{UsbPlatform U} s timeout cards ctx_done (w : U) :
  (0 < timeout)%Z → size (live (calls (session_caller s))) ≤ callerCapacity → Forall wf_card cards →
  ∃ sq request response,
    EncodeGetVersion sq w = Val (request, w) ∧
    prhp_dispatch request w = bind (usb_device_send_prhp response) (λ _, ret tt) w ∧
    ∀ write,
      (write request = None →
       ∃ s', VerifyVersion timeout write ((inr <$> map card_state_report cards) ++ [inr response])
               ctx_done WakeResponse s = Val (Some None, s') ∧
         CurrentCard s' = foldl (λ _ c, host_card c) (CurrentCard s) cards ∧ done s' = done s) ∧
      (∀ e meanwhile wk, write request = Some e →
       ∃ s', VerifyVersion timeout write meanwhile ctx_done wk s = Val (Some (Some e), s')).
Proof.
  intros Ht Hsize Hcards.
  destruct (allocate_outcome timeout _ Ht Hsize) as (k & c & c1 & Hrun & Hk & Hl & -> & Hheap).
  exists k, (version_request_of k), (version_response_of k).
  split; [reflexivity|]. split; [by apply version_request_answered|]. intros write.
  set (s1 := MkSession c1 (latest s) (readErr s) (done s)).
  assert (Hreq : verify_request timeout write s =
    Val (match write (version_request_of k) with
         | Some err => inl err | None => inr (length (heap (session_caller s))) end, s1))
    by (unfold verify_request, bind at 1, on_caller; by rewrite Hrun).
  split; unfold VerifyVersion.
  - intros Hw. rewrite (bind_val _ _ _ _ _ Hreq), Hw. destruct (dispatch_version_response
      (MkSession c1 (foldl (λ _ c, host_card c) (latest s) cards) (readErr s) (done s)) k
      (length (heap (session_caller s))) Hk Hl) as (c2 & Hd & Hheap2).
    { cbn [session_caller]. rewrite Hheap. by apply list_lookup_middle. }
    unfold readLoop, bind at 1 2. rewrite read_cards by done. cbn [ReadLoop session_caller latest readErr done s1].
    unfold bind at 1. rewrite Hd. cbn [ret].
    edestruct (select_version_response ctx_done
      (MkSession c2 (foldl (λ _ c, host_card c) (latest s) cards) (readErr s) (done s)) k) as [c3 Hs];
      [done| |].
    { cbn [session_caller] in *. rewrite Hheap2. apply list_lookup_insert_eq.
      rewrite Hheap, length_app. simpl. lia. }
    eexists. split; [exact Hs|done].
  - intros e meanwhile wk Hw. rewrite (bind_val _ _ _ _ _ Hreq), Hw. by eexists.
Qed.
End verify_claims.

(** ** Witnesses *)

(** A card is announced while the host waits for the version. *)
Lemma handshake_completes_witness :
  ∃ request response,
    prhp_dispatch request (sim_boot []) =
      bind (usb_device_send_prhp response) (λ _, ret tt) (sim_boot []) ∧
    ∃ s', VerifyVersion 1000 (λ _, None) ([inr (card_state_report sample_felica_card); inr response])
            false WakeResponse fresh_session = Val (Some None, s') ∧
      CurrentCard s' = host_card sample_felica_card ∧ done s' = false.
Proof.
  destruct (handshake_completes (live := id) fresh_session 1000 [sample_felica_card] false (sim_boot []))
    as (sq & request & response & _ & Hsent & Hdone);
    [lia|vm_compute; lia|by apply Forall_singleton, sample_felica_card_wf|].
  exists request, response. split; [exact Hsent|]. exact (proj1 (Hdone (λ _, None)) eq_refl).
Defined.
