(* ===== verification/Service.v ===== *)
(** * internal/aimeio/service.go: the supervising service

    The goroutine of [run], the read loops of the sessions it makes and the
    goroutines that call [Close], taking atomic steps over the service's shared
    fields.  A session is the state of Session.v; its transport is an interface, of
    which only whether [Close] was called is kept: what [Write] and [Read] answer are
    choices of a step. *)
From stdpp Require Import gmap strings.
From S2P Require Import Prelude.
From S2P Require Import Protocol Caller.
From S2P Require Import Device.
From S2P Require Import Platform Sim Pn532Iface Reader UsbDevice Prhp Cardio.
From S2P Require Import HostLink Session Verify.

(** A session the service made: its state, whether its transport was closed, and the
    [hid.DeviceInfo] it came with. *)
Record Conn (W : Type) : Type := MkConn {
  conn_session : Session W;
  conn_closed : bool;
  conn_info : DeviceInfo;
}.
Arguments MkConn {W} conn_session conn_closed conn_info.
Arguments conn_session {W} c.
Arguments conn_closed {W} c.
Arguments conn_info {W} c.

(** The fields of [Service] that change, and the sessions ever made; [ctx_done] is the
    state of the context, [stopped] whether that channel is closed. *)
Record Service (W : Type) : Type := MkService {
  sessions : list (Conn W);
  active : option nat;
  deviceInfo : option DeviceInfo;
  lastErr : option link_error;
  ctx_done : bool;
  stopped : bool;
  svc_closed : bool;
}.
Arguments MkService {W} sessions active deviceInfo lastErr ctx_done stopped svc_closed.
Arguments sessions {W} s.
Arguments active {W} s.
Arguments deviceInfo {W} s.
Arguments lastErr {W} s.
Arguments ctx_done {W} s.
Arguments stopped {W} s.
Arguments svc_closed {W} s.

(** Where the goroutine of [run] is; [i] is its local variable [session]. *)
Inductive run_pc : Type :=
  | RunTop
  | RunOpen
  | RunVerify (i : nat)
  | RunSelect (i call : nat)
  | RunFailed (i : nat) (err : link_error)
  | RunFailedClose (i : nat)
  | RunFailedWait (i : nat)
  | RunStoreInfo (i : nat)
  | RunClearErr (i : nat)
  | RunActivate (i : nat)
  | RunSelectActive (i : nat)
  | RunCloseActive (i : nat)
  | RunWaitActive (i : nat)
  | RunDeactivate (i : nat)
  | RunClearInfo (i : nat)
  | RunStoreErr (i : nat)
  | RunCloseLost (i : nat)
  | RunRetry
  | RunTimer
  | RunReturn
  | RunEnded.

(** Where a goroutine that called [Close] is. *)
Inductive close_pc : Type :=
  | CloseSwap
  | CloseCancel
  | CloseLoad
  | CloseSession (i : nat)
  | CloseStopped
  | CloseReturned.

(** The choices of a step of [run]: what [open] and the transport's [Write] answer, the
    case of [VerifyVersion]'s wait, and whether a [select] takes the context's case
    when both are ready. *)
Record run_choice : Type := RunChoice {
  ch_open : link_error + DeviceInfo;
  ch_write : list Z → option link_error;
  ch_wake : wake;
  ch_ctx : bool;
}.

(** What an observer sees: session [i] read a report, was verified. *)
Inductive svc_event : Type :=
  | Received (i : nat) (raw : list Z)
  | Verified (i : nat).

Section service.
Context {W : Type} `{CallCache W} (empty : W) (timeout : Z).
Implicit Types s : Service W.

(** ** Accesses to the shared state *)

Definition set_sessions (l : list (Conn W)) s : Service W :=
  MkService l (active s) (deviceInfo s) (lastErr s) (ctx_done s) (stopped s) (svc_closed s).

Definition set_active (a : option nat) s : Service W :=
  MkService (sessions s) a (deviceInfo s) (lastErr s) (ctx_done s) (stopped s) (svc_closed s).

Definition set_deviceInfo (d : option DeviceInfo) s : Service W :=
  MkService (sessions s) (active s) d (lastErr s) (ctx_done s) (stopped s) (svc_closed s).

Definition set_lastErr (e : option link_error) s : Service W :=
  MkService (sessions s) (active s) (deviceInfo s) e (ctx_done s) (stopped s) (svc_closed s).

Definition storeError (err : option link_error) : M (Service W) unit :=
  match err with None => ret tt | Some e => modify (set_lastErr (Some e)) end.

(** An operation on session [i]. *)
Definition on_session {A} (i : nat) (m : M (Session W) A) : M (Service W) A := λ s,
  match sessions s !! i with
  | None => Ub
  | Some k =>
      match m (conn_session k) with
      | Val (a, k') =>
          Val (a, set_sessions (<[i:=MkConn k' (conn_closed k) (conn_info k)]> (sessions s)) s)
      | Ub => Ub
      | OutOfFuel => OutOfFuel
      end
  end.

(** [session.Close()]: closes the transport; what that answers is ignored. *)
Definition session_close (i : nat) : M (Service W) unit := λ s,
  match sessions s !! i with
  | None => Ub
  | Some k => Val (tt, set_sessions (<[i:=MkConn (conn_session k) true (conn_info k)]> (sessions s)) s)
  end.

Definition session_done (i : nat) : M (Service W) bool := on_session i (λ k, Val (done k, k)).

(** ** The goroutines *)

(** One atomic step of [run]; [None] when it blocks or has ended. *)
Definition run_step (c : run_choice) (p : run_pc) : M (Service W) (option (run_pc * list svc_event)) :=
  match p with
  | RunTop =>
      let* s := get in
      ret (Some (if ctx_done s then RunReturn else RunOpen, []))
  | RunOpen =>
      match ch_open c with
      | inl err => do* storeError (Some err) in ret (Some (RunRetry, []))
      | inr info =>
          let* s := get in
          do* modify (set_sessions (sessions s ++ [MkConn (newSession empty) false info])) in
          ret (Some (RunVerify (length (sessions s)), []))
      end
  | RunVerify i =>
      let* r := on_session i (verify_request timeout (ch_write c)) in
      ret (Some (match r with inl err => RunFailed i err | inr call => RunSelect i call end, []))
  | RunSelect i call =>
      let* s := get in
      let* r := on_session i (verify_select (ctx_done s) (ch_wake c) call) in
      ret (match r with
           | None => None
           | Some None => Some (RunStoreInfo i, [Verified i])
           | Some (Some err) => Some (RunFailed i err, [])
           end)
  | RunFailed i err => do* storeError (Some err) in ret (Some (RunFailedClose i, []))
  | RunFailedClose i => do* session_close i in ret (Some (RunFailedWait i, []))
  | RunFailedWait i =>
      let* d := session_done i in
      ret (if d then Some (RunRetry, []) else None)
  | RunStoreInfo i =>
      let* s := get in
      do* modify (set_deviceInfo (conn_info <$> sessions s !! i)) in
      ret (Some (RunClearErr i, []))
  | RunClearErr i => do* modify (set_lastErr None) in ret (Some (RunActivate i, []))
  | RunActivate i => do* modify (set_active (Some i)) in ret (Some (RunSelectActive i, []))
  | RunSelectActive i =>
      let* d := session_done i in
      let* s := get in
      ret (if ctx_done s && (ch_ctx c || negb d) then Some (RunCloseActive i, [])
           else if d then Some (RunDeactivate i, []) else None)
  | RunCloseActive i => do* session_close i in ret (Some (RunWaitActive i, []))
  | RunWaitActive i =>
      let* d := session_done i in
      ret (if d then Some (RunDeactivate i, []) else None)
  | RunDeactivate i =>
      do* modify (λ s, if decide (active s = Some i) then set_active None s else s) in
      ret (Some (RunClearInfo i, []))
  | RunClearInfo i => do* modify (set_deviceInfo None) in ret (Some (RunStoreErr i, []))
  | RunStoreErr i =>
      let* err := on_session i (λ k, Val (Session.Err k, k)) in
      do* storeError err in
      ret (Some (RunCloseLost i, []))
  | RunCloseLost i => do* session_close i in ret (Some (RunRetry, []))
  | RunRetry =>
      let* s := get in
      ret (Some (if ctx_done s then RunReturn else RunTimer, []))
  | RunTimer =>
      let* s := get in
      ret (Some (if ctx_done s && ch_ctx c then RunReturn else RunTop, []))
  | RunReturn =>
      let* s := get in
      if stopped s then ub else
      do* modify (λ s, MkService (sessions s) (active s) (deviceInfo s) (lastErr s) (ctx_done s)
                         true (svc_closed s)) in
      ret (Some (RunEnded, []))
  | RunEnded => ret None
  end.

(** One atomic step of [Close]. *)
Definition close_step (p : close_pc) : M (Service W) (option close_pc) :=
  match p with
  | CloseSwap =>
      let* s := get in
      if svc_closed s then ret (Some CloseStopped) else
      do* modify (λ s, MkService (sessions s) (active s) (deviceInfo s) (lastErr s) (ctx_done s)
                         (stopped s) true) in
      ret (Some CloseCancel)
  | CloseCancel =>
      do* modify (λ s, MkService (sessions s) (active s) (deviceInfo s) (lastErr s) true
                         (stopped s) (svc_closed s)) in
      ret (Some CloseLoad)
  | CloseLoad =>
      let* s := get in
      ret (Some (match active s with Some i => CloseSession i | None => CloseStopped end))
  | CloseSession i => do* session_close i in ret (Some CloseStopped)
  | CloseStopped =>
      let* s := get in
      ret (if stopped s then Some CloseReturned else None)
  | CloseReturned => ret None
  end.

(** The service with the goroutine [newService] starts and the callers of [Close]. *)
Record svc_system : Type := SvcSystem {
  svc : Service W;
  runner : run_pc;
  closers : list close_pc;
}.

Definition newService : svc_system :=
  SvcSystem (MkService [] None None None false false false) RunTop [].

(** [run] or a [Close] goes on, or the read of a closed transport fails. *)
Inductive svc_run : svc_system → list svc_event → svc_system → Prop :=
  | svc_run_runner s p ts c p' es s' :
      run_step c p s = Val (Some (p', es), s') →
      svc_run (SvcSystem s p ts) es (SvcSystem s' p' ts)
  | svc_run_closer s p ts j q q' s' :
      ts !! j = Some q → close_step q s = Val (Some q', s') →
      svc_run (SvcSystem s p ts) [] (SvcSystem s' p (<[j:=q']> ts))
  | svc_run_fail s p ts i k err s' :
      sessions s !! i = Some k → done (conn_session k) = false → conn_closed k = true →
      on_session i (readLoop [inl err]) s = Val (tt, s') →
      svc_run (SvcSystem s p ts) [] (SvcSystem s' p ts).

(** What the reader and the host do: a read loop that runs gets a report or an error,
    [Close] is called. *)
Inductive svc_input : svc_system → list svc_event → svc_system → Prop :=
  | svc_report s p ts i k raw s' :
      sessions s !! i = Some k → done (conn_session k) = false →
      on_session i (readLoop [inr raw]) s = Val (tt, s') →
      svc_input (SvcSystem s p ts) [Received i raw] (SvcSystem s' p ts)
  | svc_error s p ts i k err s' :
      sessions s !! i = Some k → done (conn_session k) = false →
      on_session i (readLoop [inl err]) s = Val (tt, s') →
      svc_input (SvcSystem s p ts) [] (SvcSystem s' p ts)
  | svc_close s p ts : svc_input (SvcSystem s p ts) [] (SvcSystem s p (ts ++ [CloseSwap])).

Inductive svc_history : list svc_event → svc_system → Prop :=
  | svc_history_new : svc_history [] newService
  | svc_history_run es σ es' σ' :
      svc_history es σ → svc_run σ es' σ' → svc_history (es ++ es') σ'
  | svc_history_input es σ es' σ' :
      svc_history es σ → svc_input σ es' σ' → svc_history (es ++ es') σ'.

(** ** What the host reads *)

Definition load_active s : option (Conn W) := active s ≫= λ i, sessions s !! i.

Definition CurrentCard s : Protocol.Card :=
  match load_active s with
  | None => empty_card CardNone
  | Some k => Session.CurrentCard (conn_session k)
  end.

Definition Err s : option link_error :=
  match active s with
  | Some _ => None
  | None => match lastErr s with None => Some ErrDisconnected | Some e => Some e end
  end.

Definition DeviceInfo_ s : option DeviceInfo := deviceInfo s.

Definition AimeID s : list Z * bool :=
  match load_active s with
  | None => (replicate 10 0%Z, false)
  | Some k => Session.AimeID (Session.CurrentCard (conn_session k))
  end.

Definition MIFAREBlocks s : list Z * bool :=
  match load_active s with
  | None => (replicate 32 0%Z, false)
  | Some k => Session.MIFAREBlocks (Session.CurrentCard (conn_session k))
  end.

Definition FeliCaID s : Z * bool :=
  match load_active s with
  | None => (0%Z, false)
  | Some k => Session.FeliCaID (Session.CurrentCard (conn_session k))
  end.

(** [write] is what the active session's transport answers. *)
Definition SetLED (write : list Z → option link_error) (red green blue : Z)
    : M (Service W) (option link_error) :=
  let* s := get in
  match active s with
  | None => ret (Some ErrDisconnected)
  | Some i => on_session i (Verify.SetLED write red green blue)
  end.
End service.

Arguments SvcSystem {W} svc runner closers.
Arguments svc {W} s.
Arguments runner {W} s.
Arguments closers {W} s.

(** ** The invariant *)

(** The session the goroutine works on. *)
Definition current (p : run_pc) : option nat :=
  match p with
  | RunVerify i | RunSelect i _ | RunFailed i _ | RunFailedClose i | RunFailedWait i
  | RunStoreInfo i | RunClearErr i | RunActivate i | RunSelectActive i | RunCloseActive i
  | RunWaitActive i | RunDeactivate i | RunClearInfo i | RunStoreErr i | RunCloseLost i => Some i
  | _ => None
  end.

(** The session [active] points to, and the one [deviceInfo] is of, while the goroutine
    is there. *)
Definition active_of (p : run_pc) : option nat :=
  match p with
  | RunSelectActive i | RunCloseActive i | RunWaitActive i | RunDeactivate i => Some i
  | _ => None
  end.

Definition info_of (p : run_pc) : option nat :=
  match p with
  | RunClearErr i | RunActivate i | RunSelectActive i | RunCloseActive i | RunWaitActive i
  | RunDeactivate i | RunClearInfo i => Some i
  | _ => None
  end.

(** The goroutine is past the handshake of its session; it has closed the session's
    transport; it has seen the session done. *)
Definition past_handshake (p : run_pc) : bool :=
  match p with
  | RunStoreInfo _ | RunClearErr _ | RunActivate _ | RunSelectActive _ | RunCloseActive _
  | RunWaitActive _ | RunDeactivate _ | RunClearInfo _ | RunStoreErr _ | RunCloseLost _ => true
  | _ => false
  end.

Definition past_close (p : run_pc) : bool :=
  match p with RunFailedWait _ | RunWaitActive _ => true | _ => false end.

Definition past_done (p : run_pc) : bool :=
  match p with
  | RunDeactivate _ | RunClearInfo _ | RunStoreErr _ | RunCloseLost _ => true
  | _ => false
  end.

Definition past_loop (p : run_pc) : bool :=
  match p with RunReturn | RunEnded => true | _ => false end.

Section service_laws.
Context {W : Type} `{CallCacheLaws W live} (empty : W) (timeout : Z).
Implicit Types s : Service W.

(** A session keeps its calls ready, holds only responses that satisfy [P], and shows
    no card once it is done. *)
Record session_ok (P : list Z → Prop) (k : Session W) : Prop := {
  sess_ready : calls_ready live (session_caller k);
  sess_holds : holds_only P (session_caller k);
  sess_done : done k = true → latest k = empty_card CardNone ∧ readErr k ≠ None;
}.

Definition settled (k : Conn W) : Prop := done (conn_session k) = true ∧ conn_closed k = true.

(** Session [i] got a response that says version 0.1. *)
Definition verified_by (es : list svc_event) (i : nat) : Prop :=
  Verified i ∈ es ∧ ∃ raw, Received i raw ∈ es ∧ says_version_0_1 raw.

Record svc_ok (es : list svc_event) (σ : svc_system (W := W)) : Prop := {
  ok_sessions i k : sessions (svc σ) !! i = Some k →
    session_ok (λ raw, Received i raw ∈ es) (conn_session k);
  ok_settled i k : sessions (svc σ) !! i = Some k → current (runner σ) ≠ Some i → settled k;
  ok_current i : current (runner σ) = Some i → S i = length (sessions (svc σ));
  ok_call i call k : runner σ = RunSelect i call → sessions (svc σ) !! i = Some k →
    has_call call (session_caller (conn_session k));
  ok_verified i : current (runner σ) = Some i → past_handshake (runner σ) = true → verified_by es i;
  ok_closed i k : current (runner σ) = Some i → sessions (svc σ) !! i = Some k →
    past_close (runner σ) = true → conn_closed k = true;
  ok_done i k : current (runner σ) = Some i → sessions (svc σ) !! i = Some k →
    past_done (runner σ) = true → done (conn_session k) = true;
  ok_active : active (svc σ) = active_of (runner σ);
  ok_info : deviceInfo (svc σ) =
    info_of (runner σ) ≫= λ i, conn_info <$> sessions (svc σ) !! i;
  ok_past_loop : past_loop (runner σ) = true → ctx_done (svc σ) = true;
  ok_stopped : stopped (svc σ) = true ↔ runner σ = RunEnded;
  ok_closers j i : closers σ !! j = Some (CloseSession i) → i < length (sessions (svc σ));
}.

(** ** Steps on one session *)

Lemma session_ok_mono (P Q : list Z → Prop) k :
  (∀ raw, P raw → Q raw) → session_ok P k → session_ok Q k.
Proof. intros Hpq [? ? ?]. split; [done|by eapply holds_only_mono|done]. Qed.

Lemma new_session_ok P : live empty = ∅ → session_ok P (newSession empty).
Proof.
  intros He. split; [|by intros [|?] ? ? ?|done].
  intros k i Hk. cbn in Hk. by rewrite He, lookup_empty in Hk.
Qed.

Lemma dispatch_holds P (k k' : Session W) raw e :
  holds_only P (session_caller k) → P raw → Dispatch session_signals raw k = Val (e, k') →
  holds_only P (session_caller k') ∧
  length (heap (session_caller k')) = length (heap (session_caller k)).
Proof.
  intros Hp Hraw. destruct (decode_header_any raw k) as (h & Hs & _). unfold Dispatch.
  rewrite (bind_val _ _ _ _ _ Hs). destruct h as [err|hd]; [by intros [= _ <-]|].
  destruct (Type_ hd); [by intros [= _ <-]| |].
  - unfold bind, on_caller. destruct (Consume _ _ _) as [[r c]| |] eqn:Hc; [|done..].
    intros [= _ <-]. by eapply consume_holds.
  - unfold session_signals, Handle, NewRouter. destruct (decide (Opcode hd = OpcodeCardState)) as [->|Ho].
    + rewrite lookup_insert_eq. unfold card_state_handler.
      destruct (decode_card_any raw k) as (r & Hd & _). rewrite (bind_val _ _ _ _ _ Hd).
      by destruct r; intros [= _ <-].
    + rewrite lookup_insert_ne, lookup_empty by done. by intros [= _ <-].
Qed.

(** The read loop takes a report, or ends. *)
Lemma read_report_ok P (k : Session W) raw :
  session_ok P k → P raw → done k = false →
  ∃ k', readLoop [inr raw] k = Val (tt, k') ∧ session_ok P k' ∧ done k' = false ∧
    length (heap (session_caller k')) = length (heap (session_caller k)).
Proof.
  intros [Hr Hh _] Hraw Hd.
  destruct (dispatch_run_session k raw Hr) as (e & k' & Hrun & _ & _ & Hd' & Hr').
  destruct (dispatch_holds P k k' raw e Hh Hraw Hrun) as [Hh' Hlen].
  exists k'. unfold readLoop, bind. cbn [ReadLoop]. unfold bind. rewrite Hrun.
  split; [done|]. split; [split; [done|done|congruence]|]. split; [congruence|done].
Qed.

Lemma read_error_ok P (k : Session W) err :
  session_ok P k →
  ∃ k', readLoop [inl err] k = Val (tt, k') ∧ session_ok P k' ∧ done k' = true ∧
    session_caller k' = session_caller k.
Proof. intros [? ? ?]. eexists. split; [reflexivity|]. by split; [split|]. Qed.

Lemma same_view_ok P (k k' : Session W) :
  session_ok P k → same_view k k' → calls_ready live (session_caller k') →
  holds_only P (session_caller k') → session_ok P k'.
Proof. intros [_ _ Hd] (Hl & He & Hd') ? ?. split; [done|done|]. rewrite Hl, He, Hd'. exact Hd. Qed.

(** ** The sessions a step leaves *)

Definition conn_grows (k k' : Conn W) : Prop :=
  conn_info k' = conn_info k ∧
  (done (conn_session k) = true → done (conn_session k') = true) ∧
  (conn_closed k = true → conn_closed k' = true) ∧
  length (heap (session_caller (conn_session k))) ≤ length (heap (session_caller (conn_session k'))).

(** A step keeps the list of sessions; each may go on. *)
Definition sessions_step (es : list svc_event) s s' : Prop :=
  length (sessions s') = length (sessions s) ∧
  ∀ i k', sessions s' !! i = Some k' →
    session_ok (λ raw, Received i raw ∈ es) (conn_session k') ∧
    ∃ k, sessions s !! i = Some k ∧ conn_grows k k'.

Lemma sessions_step_refl es es' s p ts :
  svc_ok es (SvcSystem s p ts) → sessions_step (es ++ es') s s.
Proof.
  intros Hok. split; [done|]. intros i k Hi. split; [|by exists k].
  eapply session_ok_mono; [|by eapply (ok_sessions _ _ Hok)]. cbn. intros. by apply elem_of_app; left.
Qed.

Lemma sessions_step_insert es es' s p ts i k k' :
  svc_ok es (SvcSystem s p ts) → sessions s !! i = Some k → conn_grows k k' →
  session_ok (λ raw, Received i raw ∈ es ++ es') (conn_session k') →
  sessions_step (es ++ es') s (set_sessions (<[i:=k']> (sessions s)) s).
Proof.
  intros Hok Hi Hg Hs. destruct (sessions_step_refl es es' s p ts Hok) as [_ Hrefl].
  split; cbn [sessions set_sessions]; [by rewrite length_insert|].
  intros j kj Hj. apply list_lookup_insert_Some in Hj as [(<- & <- & _)|[_ Hj]]; [|by apply Hrefl].
  split; [done|]. by exists k.
Qed.

Lemma session_close_run es es' s p ts i k :
  svc_ok es (SvcSystem s p ts) → sessions s !! i = Some k →
  ∃ s', session_close i s = Val (tt, s') ∧ sessions_step (es ++ es') s s' ∧
    s' = set_sessions (<[i:=MkConn (conn_session k) true (conn_info k)]> (sessions s)) s.
Proof.
  intros Hok Hi. unfold session_close. rewrite Hi. eexists. split; [reflexivity|]. split; [|done].
  eapply sessions_step_insert; [done|done|unfold conn_grows; by split_and!|].
  destruct (sessions_step_refl es es' s p ts Hok) as [_ Hrefl]. by destruct (Hrefl i k Hi).
Qed.

Lemma on_session_run {A} es es' s p ts i k (m : M (Session W) A) a k' :
  svc_ok es (SvcSystem s p ts) → sessions s !! i = Some k → m (conn_session k) = Val (a, k') →
  (done (conn_session k) = true → done k' = true) →
  length (heap (session_caller (conn_session k))) ≤ length (heap (session_caller k')) →
  session_ok (λ raw, Received i raw ∈ es ++ es') k' →
  ∃ s', on_session i m s = Val (a, s') ∧ sessions_step (es ++ es') s s' ∧
    s' = set_sessions (<[i:=MkConn k' (conn_closed k) (conn_info k)]> (sessions s)) s.
Proof.
  intros Hok Hi Hm Hd Hlen Hs. unfold on_session. rewrite Hi, Hm. eexists.
  split; [reflexivity|]. split; [|done]. eapply sessions_step_insert; [done|done| |done].
  unfold conn_grows. by split_and!.
Qed.

Lemma set_same_sessions s i k : sessions s !! i = Some k → set_sessions (<[i:=k]> (sessions s)) s = s.
Proof. intros Hi. rewrite list_insert_id by done. by destruct s. Qed.

(** Looking at a session changes nothing. *)
Lemma on_session_view {A} s i k (m : M (Session W) A) a :
  sessions s !! i = Some k → m (conn_session k) = Val (a, conn_session k) →
  on_session i m s = Val (a, s).
Proof.
  intros Hi Hm. unfold on_session. rewrite Hi, Hm. f_equal. f_equal.
  rewrite <- (set_same_sessions s i k Hi) at 3. by destruct k.
Qed.

Lemma current_session es s p ts i :
  svc_ok es (SvcSystem s p ts) → current p = Some i → ∃ k, sessions s !! i = Some k.
Proof.
  intros Hok Hc. apply lookup_lt_is_Some. pose proof (ok_current _ _ Hok i Hc) as Hlen.
  cbn [svc] in Hlen. lia.
Qed.

Lemma verified_by_mono es es' i : verified_by es i → verified_by (es ++ es') i.
Proof. intros [? (raw & ? & ?)]. split; [set_solver|]. exists raw. split; [set_solver|done]. Qed.

Lemma sessions_step_info es s s' i :
  sessions_step es s s' → conn_info <$> sessions s' !! i = conn_info <$> sessions s !! i.
Proof.
  intros [Hlen Hss]. destruct (sessions s' !! i) as [k'|] eqn:Hi.
  - destruct (Hss i k' Hi) as (_ & k & -> & Heq & _). cbn. by rewrite Heq.
  - apply lookup_ge_None in Hi. by rewrite lookup_ge_None_2 by lia.
Qed.

(** What a step of the runner has to establish; the rest follows. *)
Lemma svc_ok_runner es es' s s' p p' ts :
  svc_ok es (SvcSystem s p ts) → sessions_step (es ++ es') s s' →
  (current p' = current p ∨
   current p' = None ∧ ∀ i k, current p = Some i → sessions s' !! i = Some k → settled k) →
  (∀ i call k, p' = RunSelect i call → sessions s' !! i = Some k →
     has_call call (session_caller (conn_session k))) →
  (∀ i, current p' = Some i → past_handshake p' = true →
     past_handshake p = true ∨ verified_by (es ++ es') i) →
  (∀ i k, current p' = Some i → sessions s' !! i = Some k →
     (past_close p' = true → conn_closed k = true) ∧
     (past_done p' = true → done (conn_session k) = true)) →
  active s' = active_of p' →
  deviceInfo s' = (info_of p' ≫= λ i, conn_info <$> sessions s !! i) →
  (past_loop p' = true → ctx_done s' = true) →
  (stopped s' = true ↔ p' = RunEnded) →
  svc_ok (es ++ es') (SvcSystem s' p' ts) ∧ (p = RunOpen ∨ sessions_step (es ++ es') s s').
Proof.
  intros Hok Hstep Hcur Hcall Hver Hcl Hact Hinfo Hpast Hstop. split; [|by right].
  pose proof Hstep as [Hlen Hss].
  assert (Hcur' : ∀ i, current p' = Some i → current p = Some i)
    by (intros i Hi; destruct Hcur as [<-|[? _]]; congruence).
  split; cbn [svc runner closers]; try done.
  - intros i k Hi. by destruct (Hss i k Hi).
  - intros i k' Hi Hne. destruct (decide (current p = Some i)) as [Hc|Hc].
    + destruct Hcur as [Heq|[_ Hall]]; [congruence|by eapply Hall].
    + destruct (Hss i k' Hi) as (_ & k & Hk & _ & Hd & Hcl' & _).
      destruct (ok_settled _ _ Hok i k Hk Hc). split; auto.
  - intros i Hi. rewrite Hlen. by apply (ok_current _ _ Hok), Hcur'.
  - intros i Hi Hp. destruct (Hver i Hi Hp) as [Hpp|]; [|done].
    apply verified_by_mono, (ok_verified _ _ Hok); [by apply Hcur'|done].
  - intros i k Hi Hk. by apply (Hcl i k).
  - intros i k Hi Hk. by apply (Hcl i k).
  - rewrite Hinfo. destruct (info_of p') as [i|]; cbn; [|done]. symmetry. by eapply sessions_step_info.
  - intros j i Hj. rewrite Hlen. by eapply (ok_closers _ _ Hok).
Qed.

Lemma sessions_step_same es es' s s' p ts :
  svc_ok es (SvcSystem s p ts) → sessions s' = sessions s → sessions_step (es ++ es') s s'.
Proof.
  intros Hok Heq. destruct (sessions_step_refl es es' s p ts Hok). unfold sessions_step.
  by rewrite Heq.
Qed.

(** ** The steps of the runner *)

(** A step returns, and keeps the invariant and, unless it makes one, the sessions. *)
Definition step_sound (c : run_choice) (p : run_pc) s (es : list svc_event) (ts : list close_pc) : Prop :=
  ∃ r s', run_step empty timeout c p s = Val (r, s') ∧
    ∀ p' es', r = Some (p', es') →
      svc_ok (es ++ es') (SvcSystem s' p' ts) ∧ (p = RunOpen ∨ sessions_step (es ++ es') s s').

(** The facts about the fields the runner owns. *)
Lemma owned_fields es s p ts :
  svc_ok es (SvcSystem s p ts) →
  active s = active_of p ∧
  deviceInfo s = (info_of p ≫= λ i, conn_info <$> sessions s !! i) ∧
  (past_loop p = true → ctx_done s = true) ∧
  (stopped s = true ↔ p = RunEnded).
Proof. intros [? ? ? ? ? ? ? Ha Hi Hp Hs ?]. done. Qed.

Ltac open_step Hok :=
  pose proof (owned_fields _ _ _ _ Hok) as (Hact & Hinfo & Hpast & Hstop);
  unfold step_sound; cbn [run_step active_of info_of past_loop mbind option_bind] in *.

(** A step that only touches the service's own fields. *)
Ltac local_step Hok :=
  eexists _, _; split; [reflexivity|]; intros p' es' [= <- <-];
  eapply svc_ok_runner; [exact Hok|by eapply sessions_step_same|..]; cbn;
  try done; try (by left); try (by right); try (intros; congruence); try (intuition congruence).

(** The state of a session that a step went on with. *)
Lemma lookup_stepped (l : list (Conn W)) i k k0 : <[i:=k]> l !! i = Some k0 → k0 = k.
Proof. intros [(_ & ? & _)|[? _]]%list_lookup_insert_Some; done. Qed.

(** An operation of the handshake on a session. *)
Lemma handshake_run {A} es es' s p ts i k (m : M (Session W) A) a k' :
  svc_ok es (SvcSystem s p ts) → sessions s !! i = Some k → m (conn_session k) = Val (a, k') →
  same_view (conn_session k) k' → calls_ready live (session_caller k') →
  caller_grows (session_caller (conn_session k)) (session_caller k') →
  ∃ s', on_session i m s = Val (a, s') ∧ sessions_step (es ++ es') s s' ∧
    s' = set_sessions (<[i:=MkConn k' (conn_closed k) (conn_info k)]> (sessions s)) s.
Proof.
  intros Hok Hi Hm Hview Hr [Hholds Hlen].
  pose proof (sessions_step_refl es es' s p ts Hok) as [_ Hrefl].
  destruct (Hrefl i k Hi) as [Hk _].
  eapply on_session_run; [done|done|done| |done|].
  - destruct Hview as (_ & _ & ->). done.
  - eapply same_view_ok; [done..|]. apply Hholds, Hk.
Qed.

(** A step that goes on with one session. *)
Ltac session_step Hok Hstep :=
  eexists _, _; split; [reflexivity|]; intros p' es' [= <- <-];
  eapply svc_ok_runner; [exact Hok|exact Hstep|..]; cbn;
  try done; try (by left); try (by right); try (intros; congruence); try (intuition congruence).

Lemma run_loop_sound c p s es ts :
  svc_ok es (SvcSystem s p ts) → p ∈ [RunTop; RunRetry; RunTimer; RunReturn; RunEnded] →
  step_sound c p s es ts.
Proof.
  intros Hok Hp. repeat apply elem_of_cons in Hp as [->|Hp]; try by apply elem_of_nil in Hp.
  all: open_step Hok; unfold bind, get, modify, ret, ub.
  - destruct (ctx_done s) eqn:Hc; local_step Hok.
  - destruct (ctx_done s) eqn:Hc; local_step Hok.
  - destruct (ctx_done s && ch_ctx c) eqn:Hc; [apply andb_prop in Hc as [Hc _]|]; local_step Hok.
  - destruct (stopped s) eqn:Hs; [by discriminate (proj1 Hstop eq_refl)|]. local_step Hok.
  - by eexists _, _.
Qed.

(** The rest of a service whose session fields are known. *)
Lemma run_open_sound c s es ts :
  live empty = ∅ → svc_ok es (SvcSystem s RunOpen ts) → step_sound c RunOpen s es ts.
Proof.
  intros He Hok. open_step Hok. destruct (ch_open c) as [err|info]; [local_step Hok|].
  eexists _, _; split; [reflexivity|]; intros p' es' [= <- <-]. rewrite app_nil_r.
  split; [|by left]. destruct Hok as [Hsess Hset _ _ _ _ _ _ _ _ _ Hclose]. cbn [svc runner closers] in *.
  split; cbn [svc runner closers sessions set_sessions current past_handshake past_close past_done
    past_loop active_of info_of active deviceInfo ctx_done stopped]; try done.
  - intros i k [Hi|[_ [_ <-]%list_lookup_singleton_Some]]%lookup_app_Some; [by apply Hsess|].
    by apply new_session_ok.
  - intros i k [Hi|[Hlt [Heq _]%list_lookup_singleton_Some]]%lookup_app_Some Hne; [by eapply Hset|].
    destruct Hne. f_equal. lia.
  - intros i [= <-]. rewrite length_app. cbn. lia.
  - intuition congruence.
  - intros j i Hj. rewrite length_app. specialize (Hclose j i Hj). lia.
Qed.

(** The end of the handshake's wait. *)
Lemma run_select_sound c s es ts i call :
  svc_ok es (SvcSystem s (RunSelect i call) ts) → step_sound c (RunSelect i call) s es ts.
Proof.
  intros Hok. destruct (current_session _ _ _ _ i Hok eq_refl) as [k Hk].
  pose proof (ok_sessions _ _ Hok i k Hk) as Hsess.
  destruct (verify_select_run (conn_session k) (ctx_done s) (ch_wake c) call (sess_ready _ _ Hsess))
    as (r & k' & Hrun & Hview & Hr & Hnil & Hgrows); [by eapply (ok_call _ _ Hok)|].
  open_step Hok. unfold get, bind.
  destruct (handshake_run es (match r with Some None => [Verified i] | _ => [] end) s _ ts i k _ r k'
    Hok Hk Hrun Hview Hr Hgrows) as (s' & Hrun' & Hstep & ->). rewrite Hrun'.
  destruct r as [[err|]|]; [session_step Hok Hstep| |by eexists _, _]. session_step Hok Hstep.
  intros j [= <-] _. right. destruct (Hnil eq_refl) as (_ & p & raw & Hp & Hraw & Hsays).
  split; [apply elem_of_app; right; by constructor|]. exists raw. split; [|done].
  apply elem_of_app. left. by eapply (sess_holds _ _ Hsess).
Qed.

Lemma run_handshake_sound c p s es ts i :
  svc_ok es (SvcSystem s p ts) →
  p = RunVerify i ∨ (∃ call, p = RunSelect i call) ∨ (∃ err, p = RunFailed i err) ∨
    p = RunFailedClose i ∨ p = RunFailedWait i →
  step_sound c p s es ts.
Proof.
  intros Hok Hp. assert (Hcur : current p = Some i) by (by destruct Hp as [->|[[? ->]|[[? ->]|[->| ->]]]]).
  destruct (current_session _ _ _ _ _ Hok Hcur) as [k Hk].
  pose proof (ok_sessions _ _ Hok i k Hk) as Hsess.
  destruct Hp as [->|[[call ->]|[[err ->]|[->| ->]]]]; open_step Hok.
  - destruct (verify_request_run (conn_session k) timeout (ch_write c) (sess_ready _ _ Hsess))
      as (r & k' & Hrun & Hview & Hr & Hcall & Hgrows).
    destruct (handshake_run es [] s _ ts i k _ r k' Hok Hk Hrun Hview Hr Hgrows)
      as (s' & Hrun' & Hstep & ->).
    unfold bind. rewrite Hrun'. destruct r as [err|call]; session_step Hok Hstep.
    intros j call' k0 [= <- <-] ->%lookup_stepped. by apply Hcall.
  - by eapply run_select_sound.
  - unfold bind, storeError, modify, ret. local_step Hok.
  - destruct (session_close_run es [] s _ ts i k Hok Hk) as (s' & Hrun & Hstep & ->).
    unfold bind. rewrite Hrun. session_step Hok Hstep.
    by intros j k0 [= <-] ->%lookup_stepped.
  - unfold session_done, bind. rewrite (on_session_view s i k _ (done (conn_session k))) by done.
    destruct (done (conn_session k)) eqn:Hd; [local_step Hok|by eexists _, _].
    right. split; [done|]. intros j kj [= <-] Hj. simplify_eq. split; [done|].
    by eapply (ok_closed _ _ Hok).
Qed.

Lemma run_active_sound c p s es ts i :
  svc_ok es (SvcSystem s p ts) →
  p = RunStoreInfo i ∨ p = RunClearErr i ∨ p = RunActivate i ∨ p = RunSelectActive i ∨
    p = RunCloseActive i ∨ p = RunWaitActive i →
  step_sound c p s es ts.
Proof.
  intros Hok Hp.
  assert (Hcur : current p = Some i) by (by destruct Hp as [->|[->|[->|[->|[->| ->]]]]]).
  destruct (current_session _ _ _ _ _ Hok Hcur) as [k Hk].
  destruct Hp as [->|[->|[->|[->|[->| ->]]]]]; open_step Hok; unfold bind, get, modify, ret.
  - local_step Hok.
  - local_step Hok.
  - local_step Hok.
  - unfold session_done. rewrite (on_session_view s i k _ (done (conn_session k))) by done.
    destruct (ctx_done s && _); [local_step Hok|].
    destruct (done (conn_session k)) eqn:Hd; [|by eexists _, _]. local_step Hok.
  - destruct (session_close_run es [] s _ ts i k Hok Hk) as (s' & Hrun & Hstep & ->).
    rewrite Hrun. session_step Hok Hstep. by intros j k0 [= <-] ->%lookup_stepped.
  - unfold session_done. rewrite (on_session_view s i k _ (done (conn_session k))) by done.
    destruct (done (conn_session k)) eqn:Hd; [local_step Hok|by eexists _, _].
Qed.

Lemma run_lost_sound c p s es ts i :
  svc_ok es (SvcSystem s p ts) →
  p = RunDeactivate i ∨ p = RunClearInfo i ∨ p = RunStoreErr i ∨ p = RunCloseLost i →
  step_sound c p s es ts.
Proof.
  intros Hok Hp.
  assert (Hcur : current p = Some i) by (by destruct Hp as [->|[->|[->| ->]]]).
  destruct (current_session _ _ _ _ _ Hok Hcur) as [k Hk].
  assert (Hd : done (conn_session k) = true)
    by (apply (ok_done _ _ Hok i k Hcur Hk); by destruct Hp as [->|[->|[->| ->]]]).
  assert (Hstay : ∀ j kj, Some i = Some j → sessions s !! j = Some kj → done (conn_session kj) = true)
    by (intros j kj [= <-] Hj; by simplify_eq).
  destruct Hp as [->|[->|[->| ->]]]; open_step Hok; unfold bind, get, modify, ret.
  - rewrite Hact. case_decide; [|done]. local_step Hok; naive_solver.
  - local_step Hok; naive_solver.
  - rewrite (on_session_view s i k _ (Session.Err (conn_session k))) by done.
    destruct (Session.Err (conn_session k)); unfold storeError, modify, ret; local_step Hok; naive_solver.
  - destruct (session_close_run es [] s _ ts i k Hok Hk) as (s' & Hrun & Hstep & ->).
    rewrite Hrun. session_step Hok Hstep.
    right. split; [done|]. by intros j k0 [= <-] ->%lookup_stepped.
Qed.

(** Every step of the runner returns and keeps the invariant, whatever is chosen. *)
Lemma run_step_sound c p s es ts :
  live empty = ∅ → svc_ok es (SvcSystem s p ts) → step_sound c p s es ts.
Proof.
  intros He Hok. destruct p.
  all: try by (apply run_loop_sound; [done|]; set_solver).
  all: try by (eapply run_handshake_sound; [done|]; naive_solver).
  all: try by (eapply run_active_sound; [done|]; naive_solver).
  all: try by (eapply run_lost_sound; [done|]; naive_solver).
  by apply run_open_sound.
Qed.

(** ** The steps of the others *)

Lemma svc_ok_other es es' s s' p ts ts' :
  svc_ok es (SvcSystem s p ts) → sessions_step (es ++ es') s s' →
  active s' = active s → deviceInfo s' = deviceInfo s → stopped s' = stopped s →
  (ctx_done s = true → ctx_done s' = true) →
  (∀ j i, ts' !! j = Some (CloseSession i) → i < length (sessions s)) →
  svc_ok (es ++ es') (SvcSystem s' p ts').
Proof.
  intros Hok Hstep Ha Hi Hs Hc Hcl. pose proof Hstep as [Hlen Hss].
  pose proof (owned_fields _ _ _ _ Hok) as (Hact & Hinfo & Hpast & Hstop).
  split; cbn [svc runner closers] in *.
  - intros i k Hk. by destruct (Hss i k Hk).
  - intros i k' Hk Hne. destruct (Hss i k' Hk) as (_ & k & Hk0 & _ & Hd & Hcl' & _).
    destruct (ok_settled _ _ Hok i k Hk0 Hne). split; auto.
  - intros i Hcur. rewrite Hlen. by apply (ok_current _ _ Hok).
  - intros i call k' -> Hk. destruct (Hss i k' Hk) as (_ & k & Hk0 & _ & _ & _ & Hle).
    pose proof (ok_call _ _ Hok i call k eq_refl Hk0) as Hcall. unfold has_call in *. lia.
  - intros i Hcur Hp. apply verified_by_mono. by apply (ok_verified _ _ Hok).
  - intros i k' Hcur Hk Hp. destruct (Hss i k' Hk) as (_ & k & Hk0 & _ & _ & Hcl' & _).
    apply Hcl'. by apply (ok_closed _ _ Hok i k).
  - intros i k' Hcur Hk Hp. destruct (Hss i k' Hk) as (_ & k & Hk0 & _ & Hd & _).
    apply Hd. by apply (ok_done _ _ Hok i k).
  - congruence.
  - rewrite Hi, Hinfo. destruct (info_of p) as [i|]; cbn; [|done]. symmetry. by eapply sessions_step_info.
  - auto.
  - by rewrite Hs.
  - intros j i Hj. rewrite Hlen. by eapply Hcl.
Qed.

Lemma closers_insert es s p ts j q :
  svc_ok es (SvcSystem s p ts) → (∀ i, q = CloseSession i → i < length (sessions s)) →
  ∀ j' i, <[j:=q]> ts !! j' = Some (CloseSession i) → i < length (sessions s).
Proof.
  intros Hok Hq j' i [(_ & -> & _)|[_ Hj]]%list_lookup_insert_Some; [by apply Hq|].
  by eapply (ok_closers _ _ Hok).
Qed.

Lemma close_step_sound es s p ts j q :
  svc_ok es (SvcSystem s p ts) → ts !! j = Some q →
  ∃ r s', close_step q s = Val (r, s') ∧
    ∀ q', r = Some q' → svc_ok (es ++ []) (SvcSystem s' p (<[j:=q']> ts)).
Proof.
  intros Hok Hj. pose proof (owned_fields _ _ _ _ Hok) as (Hact & _).
  assert (Hother : ∀ s' q', sessions s' = sessions s → active s' = active s →
    deviceInfo s' = deviceInfo s → stopped s' = stopped s → (ctx_done s = true → ctx_done s' = true) →
    (∀ i, q' = CloseSession i → i < length (sessions s)) →
    svc_ok (es ++ []) (SvcSystem s' p (<[j:=q']> ts))).
  { intros. eapply svc_ok_other; [exact Hok|by eapply sessions_step_same|done..|].
    by eapply closers_insert. }
  destruct q as [| | |i| |]; cbn [close_step]; unfold bind, get, modify, ret.
  - destruct (svc_closed s); eexists _, _; (split; [reflexivity|]); intros q' [= <-]; by apply Hother.
  - eexists _, _. split; [reflexivity|]. intros q' [= <-]. by apply Hother.
  - eexists _, _. split; [reflexivity|]. intros q' [= <-]. apply Hother; try done.
    intros i. rewrite Hact. destruct (active_of p) as [a|] eqn:Ha; [|done]. intros [= <-].
    assert (Hcur : current p = Some a) by (by destruct p).
    pose proof (ok_current _ _ Hok a Hcur) as Hlen. cbn [svc] in Hlen. lia.
  - pose proof (ok_closers _ _ Hok j i Hj) as Hlt. apply lookup_lt_is_Some in Hlt as [k Hk].
    destruct (session_close_run es [] s p ts i k Hok Hk) as (s' & Hrun & Hstep & ->).
    rewrite Hrun. eexists _, _. split; [reflexivity|]. intros q' [= <-].
    eapply svc_ok_other; [exact Hok|exact Hstep|done..|]. by eapply closers_insert.
  - destruct (stopped s) eqn:Hst; eexists _, _; (split; [reflexivity|]); [intros q' [= <-]; by apply Hother|done].
  - by eexists _, _.
Qed.

(** A read of a session's loop returns, and keeps the invariant. *)
Lemma read_step_sound es s p ts i k r :
  svc_ok es (SvcSystem s p ts) → sessions s !! i = Some k → done (conn_session k) = false →
  ∃ s', on_session i (readLoop [r]) s = Val (tt, s') ∧
    svc_ok (es ++ match r with inr raw => [Received i raw] | inl _ => [] end) (SvcSystem s' p ts) ∧
    ctx_done s' = ctx_done s ∧
    ∃ k', s' = set_sessions (<[i:=MkConn k' (conn_closed k) (conn_info k)]> (sessions s)) s ∧
      done k' = match r with inr _ => false | inl _ => true end.
Proof.
  intros Hok Hi Hd. set (es' := match r with inr raw => [Received i raw] | inl _ => [] end).
  pose proof (sessions_step_refl es es' s p ts Hok) as [_ Hrefl]. destruct (Hrefl i k Hi) as [Hk _].
  assert (Hread : ∃ k', readLoop [r] (conn_session k) = Val (tt, k') ∧
    session_ok (λ raw, Received i raw ∈ es ++ es') k' ∧
    done k' = (match r with inr _ => false | inl _ => true end) ∧
    length (heap (session_caller k')) = length (heap (session_caller (conn_session k)))).
  { destruct r as [err|raw].
    - destruct (read_error_ok _ _ err Hk) as (k' & ? & ? & ? & Heq). exists k'. by rewrite Heq.
    - destruct (read_report_ok _ _ raw Hk) as (k' & ? & ? & ? & ?);
        [apply elem_of_app; right; by constructor|done|]. by exists k'. }
  destruct Hread as (k' & Hrun & Hk' & Hdone & Hlen).
  destruct (on_session_run es es' s p ts i k _ tt k' Hok Hi Hrun) as (s' & Hrun' & Hstep & ->);
    [congruence|lia|done|].
  eexists. split; [exact Hrun'|]. split; [|split; [done|by exists k']].
  eapply svc_ok_other; [exact Hok|exact Hstep|done..|]. by apply (ok_closers _ _ Hok).
Qed.

Lemma svc_ok_new : svc_ok [] newService.
Proof. by split; cbn; try done; intros. Qed.

Lemma svc_run_ok es σ es' σ' :
  live empty = ∅ → svc_ok es σ → svc_run empty timeout σ es' σ' → svc_ok (es ++ es') σ'.
Proof.
  intros He Hok Hrun. destruct Hrun as [s p ts c p' es' s' Hstep|s p ts j q q' s' Hj Hstep|s p ts i k err s' Hi Hd Hc Hread].
  - destruct (run_step_sound c p s es ts He Hok) as (r & s1 & Hstep' & Hnext).
    rewrite Hstep in Hstep'. simplify_eq. by destruct (Hnext p' es' eq_refl).
  - destruct (close_step_sound es s p ts j q Hok Hj) as (r & s1 & Hstep' & Hnext).
    rewrite Hstep in Hstep'. simplify_eq. by apply Hnext.
  - destruct (read_step_sound es s p ts i k (inl err) Hok Hi Hd) as (s1 & Hread' & Hok' & _).
    rewrite Hread in Hread'. by simplify_eq.
Qed.

Lemma svc_input_ok es σ es' σ' :
  svc_ok es σ → svc_input σ es' σ' → svc_ok (es ++ es') σ'.
Proof.
  intros Hok Hin. destruct Hin as [s p ts i k raw s' Hi Hd Hread|s p ts i k err s' Hi Hd Hread|s p ts].
  - destruct (read_step_sound es s p ts i k (inr raw) Hok Hi Hd) as (s1 & Hread' & Hok' & _).
    rewrite Hread in Hread'. by simplify_eq.
  - destruct (read_step_sound es s p ts i k (inl err) Hok Hi Hd) as (s1 & Hread' & Hok' & _).
    rewrite Hread in Hread'. by simplify_eq.
  - eapply svc_ok_other; [exact Hok|by eapply sessions_step_refl|done..|].
    intros j i [Hj|[_ [_ ?]%list_lookup_singleton_Some]]%lookup_app_Some; [|done].
    by eapply (ok_closers _ _ Hok).
Qed.

Lemma svc_history_ok es σ : live empty = ∅ → svc_history empty timeout es σ → svc_ok es σ.
Proof.
  intros He. induction 1; [apply svc_ok_new|by eapply svc_run_ok|by eapply svc_input_ok].
Qed.

(** ** Stopping *)

Definition run_fuel (p : run_pc) : nat :=
  match p with
  | RunEnded => 0
  | RunReturn => 1
  | RunTop => 2
  | RunTimer => 3
  | RunRetry => 4
  | RunFailedWait _ | RunCloseLost _ => 5
  | RunFailedClose _ | RunStoreErr _ => 6
  | RunFailed _ _ | RunClearInfo _ => 7
  | RunDeactivate _ => 8
  | RunWaitActive _ => 9
  | RunCloseActive _ => 10
  | RunSelectActive _ => 11
  | RunActivate _ => 12
  | RunClearErr _ => 13
  | RunStoreInfo _ => 14
  | RunSelect _ _ => 15
  | RunVerify _ => 16
  | RunOpen => 18
  end.

Definition close_fuel (q : close_pc) : nat :=
  match q with
  | CloseSwap => 5 | CloseCancel => 4 | CloseLoad => 3 | CloseSession _ => 2 | CloseStopped => 1
  | CloseReturned => 0
  end.

Definition makes_session (p : run_pc) : nat := match p with RunOpen => 1 | _ => 0 end.

(** A session whose read loop runs can still fail once. *)
Definition read_fuel (k : Conn W) : nat := if done (conn_session k) then 0 else 1.

Definition svc_fuel (σ : svc_system (W := W)) : nat :=
  run_fuel (runner σ) + weight close_fuel (closers σ) + weight read_fuel (sessions (svc σ)).

Lemma on_session_ctx {A} i (m : M (Session W) A) s a s' :
  on_session i m s = Val (a, s') → ctx_done s' = ctx_done s.
Proof.
  unfold on_session. destruct (sessions s !! i); [|done].
  by destruct (m _) as [[]| |]; intros; simplify_eq.
Qed.

Lemma session_close_ctx i s a s' :
  session_close i s = Val (a, s') → ctx_done s' = ctx_done s.
Proof. unfold session_close. by destruct (sessions s !! i); intros; simplify_eq. Qed.

(** Once the context is done the runner only goes forward. *)
Lemma run_step_forward c p s p' es' s' :
  ctx_done s = true → run_step empty timeout c p s = Val (Some (p', es'), s') →
  ctx_done s' = true ∧
  run_fuel p' + makes_session p < run_fuel p.
Proof.
  intros Hc. destruct p; cbn [run_step]; unfold session_done, storeError, bind, get, modify, ret, ub;
    rewrite ?Hc; cbn [andb]; try (destruct (ch_open c)).
  all: repeat match goal with
    | |- context [on_session ?i ?m ?s] =>
        let Ho := fresh in destruct (on_session i m s) as [[? ?]| |] eqn:Ho;
          [apply on_session_ctx in Ho|intros [=]..]
    | |- context [session_close ?i ?s] =>
        let Ho := fresh in destruct (session_close i s) as [[? ?]| |] eqn:Ho;
          [apply session_close_ctx in Ho|intros [=]..]
    end.
  all: repeat case_match; intros; simplify_eq; cbn; split; (congruence || lia).
Qed.

Lemma sessions_step_fuel es s s' :
  sessions_step es s s' → weight read_fuel (sessions s') ≤ weight read_fuel (sessions s).
Proof.
  intros [Hlen Hss].
  assert (Hpt : ∀ i k k', sessions s' !! i = Some k' → sessions s !! i = Some k →
    read_fuel k' ≤ read_fuel k).
  { intros i k k' Hi Hk. destruct (Hss i k' Hi) as (_ & k0 & Hk0 & _ & Hd & _). simplify_eq.
    unfold read_fuel. destruct (done (conn_session k)); [by rewrite Hd|]. by destruct (done _); lia. }
  clear Hss. revert Hlen Hpt. generalize (sessions s) as l, (sessions s') as l'. clear s s'.
  induction l as [|k l IH]; intros [|k' l'] Hlen Hpt; try done. unfold weight in *. cbn.
  pose proof (Hpt 0 k k' eq_refl eq_refl).
  specialize (IH l' ltac:(cbn in Hlen; lia) (λ i, Hpt (S i))). lia.
Qed.

Lemma run_step_fuel c s p ts es p' es' s' :
  live empty = ∅ → svc_ok es (SvcSystem s p ts) → ctx_done s = true →
  run_step empty timeout c p s = Val (Some (p', es'), s') →
  ctx_done s' = true ∧ svc_fuel (SvcSystem s' p' ts) < svc_fuel (SvcSystem s p ts).
Proof.
  intros He Hok Hc Hrun. destruct (run_step_forward c p s p' es' s' Hc Hrun) as [Hc' Hf].
  split; [done|]. unfold svc_fuel. cbn [svc runner closers].
  destruct (run_step_sound c p s es ts He Hok) as (r & s1 & Hrun' & Hnext).
  rewrite Hrun in Hrun'. simplify_eq.
  destruct (Hnext p' es' eq_refl) as [_ [->|Hstep%sessions_step_fuel]]; [|lia].
  cbn [run_step] in Hrun. unfold storeError, bind, get, modify, ret in Hrun.
  cbn [makes_session] in Hf.
  destruct (ch_open c) as [err|info]; simplify_eq; cbn [sessions set_lastErr set_sessions]; [lia|].
  rewrite weight_app. unfold weight at 3. cbn. lia.
Qed.

Lemma close_step_fuel es s p ts j q q' s' :
  svc_ok es (SvcSystem s p ts) → ts !! j = Some q → close_step q s = Val (Some q', s') →
  (ctx_done s = true → ctx_done s' = true) ∧
  svc_fuel (SvcSystem s' p (<[j:=q']> ts)) < svc_fuel (SvcSystem s p ts).
Proof.
  intros Hok Hj Hrun. unfold svc_fuel. cbn [svc runner closers].
  pose proof (weight_insert close_fuel ts j q q' Hj) as Hw.
  enough ((ctx_done s = true → ctx_done s' = true) ∧ close_fuel q' < close_fuel q ∧
    weight read_fuel (sessions s') ≤ weight read_fuel (sessions s)) by (split; [tauto|lia]).
  destruct q as [| | |i| |]; cbn [close_step] in Hrun; unfold bind, get, modify, ret in Hrun.
  1, 2, 3, 5, 6: repeat case_match; simplify_eq; cbn; split_and!; done || lia.
  pose proof (ok_closers _ _ Hok j i Hj) as Hlt. apply lookup_lt_is_Some in Hlt as [k Hk].
  destruct (session_close_run es [] s p ts i k Hok Hk) as (s1 & Hclose & Hstep & ->).
  rewrite Hclose in Hrun. simplify_eq. apply sessions_step_fuel in Hstep. by split_and!; [|cbn; lia|].
Qed.

Lemma fail_step_fuel s p ts i k k' :
  sessions s !! i = Some k → done (conn_session k) = false → done k' = true →
  svc_fuel (SvcSystem (set_sessions (<[i:=MkConn k' (conn_closed k) (conn_info k)]> (sessions s)) s) p ts)
    < svc_fuel (SvcSystem s p ts).
Proof.
  intros Hi Hd Hd'. unfold svc_fuel. cbn [svc runner closers sessions set_sessions].
  pose proof (weight_insert read_fuel (sessions s) i k (MkConn k' (conn_closed k) (conn_info k)) Hi) as Hw.
  unfold read_fuel at 2 4 in Hw. cbn [conn_session] in Hw. rewrite Hd, Hd' in Hw. lia.
Qed.

Lemma svc_run_fuel es σ es' σ' :
  live empty = ∅ → svc_ok es σ → ctx_done (svc σ) = true → svc_run empty timeout σ es' σ' →
  ctx_done (svc σ') = true ∧ svc_fuel σ' < svc_fuel σ.
Proof.
  intros He Hok Hc Hrun.
  destruct Hrun as [s p ts c p' es' s' Hstep|s p ts j q q' s' Hj Hstep|s p ts i k err s' Hi Hd Hcl Hread];
    cbn [svc] in *.
  - by eapply run_step_fuel.
  - destruct (close_step_fuel es s p ts j q q' s' Hok Hj Hstep). auto.
  - destruct (read_step_sound es s p ts i k (inl err) Hok Hi Hd)
      as (s1 & Hread' & _ & Hc' & k' & -> & Hd'). rewrite Hread in Hread'. simplify_eq.
    split; [done|]. by apply fail_step_fuel.
Qed.

Lemma svc_report_fuel es σ es' σ' :
  svc_ok es σ → ctx_done (svc σ) = true → svc_input σ es' σ' →
  length (closers σ') = length (closers σ) →
  ctx_done (svc σ') = true ∧ svc_fuel σ' ≤ svc_fuel σ.
Proof.
  intros Hok Hc Hin Hlen.
  destruct Hin as [s p ts i k raw s' Hi Hd Hread|s p ts i k err s' Hi Hd Hread|s p ts]; cbn [svc closers] in *.
  - destruct (read_step_sound es s p ts i k (inr raw) Hok Hi Hd)
      as (s1 & Hread' & _ & Hc' & k' & -> & Hd'). rewrite Hread in Hread'. simplify_eq.
    split; [done|]. unfold svc_fuel. cbn [svc runner closers sessions set_sessions].
    pose proof (weight_insert read_fuel (sessions s) i k (MkConn k' (conn_closed k) (conn_info k)) Hi) as Hw.
    unfold read_fuel at 2 4 in Hw. cbn [conn_session] in Hw. rewrite Hd, Hd' in Hw. lia.
  - destruct (read_step_sound es s p ts i k (inl err) Hok Hi Hd)
      as (s1 & Hread' & _ & Hc' & k' & -> & Hd'). rewrite Hread in Hread'. simplify_eq.
    split; [done|]. by apply Nat.lt_le_incl, fail_step_fuel.
  - rewrite length_app in Hlen. cbn in Hlen. lia.
Qed.

(** Chooses the context's case wherever there is one. *)
Definition leave : run_choice := RunChoice (inl TransportError) (λ _, None) WakeContext true.

(** When the runner cannot go on it waits for a session whose transport it closed. *)
Lemma runner_progress es s p ts :
  live empty = ∅ → svc_ok es (SvcSystem s p ts) → ctx_done s = true →
  (∃ es' σ', svc_run empty timeout (SvcSystem s p ts) es' σ') ∨ p = RunEnded.
Proof.
  intros He Hok Hc. destruct (run_step_sound leave p s es ts He Hok) as (r & s' & Hrun & _).
  destruct r as [[p' es']|]; [left; eexists _, _; by eapply svc_run_runner|].
  assert (Hwait : p = RunEnded ∨ ∃ i, current p = Some i ∧ past_close p = true).
  { destruct p; cbn [run_step leave ch_open ch_wake ch_ctx verify_select] in Hrun;
      unfold session_done, storeError, bind, get, modify, ret, ub in Hrun; rewrite ?Hc in Hrun;
      cbn [andb orb] in Hrun; try (by left); try (by right; eexists).
    all: exfalso; unfold on_session, session_close in Hrun;
      repeat (case_match; try discriminate; simplify_eq).
    match goal with Hf : _ && true = false |- _ => cbn in Hf; by rewrite Hc in Hf end. }
  destruct Hwait as [->|(i & Hcur & Hp)]; [by right|left].
  destruct (current_session _ _ _ _ _ Hok Hcur) as [k Hk].
  pose proof (ok_closed _ _ Hok i k Hcur Hk Hp) as Hcl.
  destruct (done (conn_session k)) eqn:Hd.
  - exfalso. destruct p; try done; simplify_eq; cbn [run_step current] in *; simplify_eq;
      unfold session_done, bind in Hrun;
      rewrite (on_session_view s i k _ (done (conn_session k))) in Hrun by done; rewrite Hd in Hrun; done.
  - destruct (read_step_sound es s p ts i k (inl TransportError) Hok Hk Hd) as (s1 & Hread & _).
    eexists _, _. by eapply svc_run_fail.
Qed.

Lemma service_progress es s p ts :
  live empty = ∅ → svc_ok es (SvcSystem s p ts) → ctx_done s = true →
  (∃ es' σ', svc_run empty timeout (SvcSystem s p ts) es' σ') ∨
  (p = RunEnded ∧ Forall (λ q, q = CloseReturned) ts).
Proof.
  intros He Hok Hc. destruct (runner_progress es s p ts He Hok Hc) as [| ->]; [by left|].
  pose proof (proj2 (ok_stopped _ _ Hok) eq_refl) as Hst. cbn [svc] in Hst.
  destruct (decide (Forall (λ q, close_fuel q = 0) ts)) as [Hall|Hn].
  - right. split; [done|]. eapply Forall_impl; [exact Hall|]. by intros [].
  - left. apply not_Forall_Exists in Hn; [|intros ?; apply _].
    apply Exists_exists in Hn as (q & [j Hj]%list_elem_of_lookup_1 & Hq).
    destruct (close_step_sound es s RunEnded ts j q Hok Hj) as (r & s' & Hrun & _).
    destruct r as [q'|]; [eexists _, _; by eapply svc_run_closer|]. exfalso.
    destruct q; cbn [close_step close_fuel] in *; unfold bind, get, modify, ret, session_close in Hrun;
      rewrite ?Hst in Hrun; repeat case_match; simplify_eq; by destruct Hq.
Qed.

(** When the runner has ended nothing is left open or shown. *)
Lemma ended_settled es s ts :
  svc_ok es (SvcSystem s RunEnded ts) →
  stopped s = true ∧ active s = None ∧ deviceInfo s = None ∧
  ∀ i k, sessions s !! i = Some k → done (conn_session k) = true ∧ conn_closed k = true.
Proof.
  intros Hok. pose proof (owned_fields _ _ _ _ Hok) as (Ha & Hi & _ & Hs).
  split_and!; [by apply Hs|done|done|]. intros i k Hk. by apply (ok_settled _ _ Hok i k Hk).
Qed.

(** A run in which [n] steps of the service happen, and reports and errors arrive; nobody
    calls [Close] again. *)
Inductive svc_runs : nat → svc_system → list svc_event → svc_system → Prop :=
  | svc_runs_0 σ : svc_runs 0 σ [] σ
  | svc_runs_step n σ es σ1 es1 σ2 :
      svc_run empty timeout σ es σ1 → svc_runs n σ1 es1 σ2 → svc_runs (S n) σ (es ++ es1) σ2
  | svc_runs_input n σ es σ1 es1 σ2 :
      svc_input σ es σ1 → length (closers σ1) = length (closers σ) → svc_runs n σ1 es1 σ2 →
      svc_runs n σ (es ++ es1) σ2.

Lemma svc_runs_ok n σ es σ' es0 :
  live empty = ∅ → svc_runs n σ es σ' → svc_history empty timeout es0 σ → ctx_done (svc σ) = true →
  svc_history empty timeout (es0 ++ es) σ' ∧ ctx_done (svc σ') = true ∧ n + svc_fuel σ' ≤ svc_fuel σ.
Proof.
  intros He Hruns. revert es0.
  induction Hruns as [σ|n σ es σ1 es1 σ2 Hrun _ IH|n σ es σ1 es1 σ2 Hin Hlen _ IH]; intros es0 Hh Hc.
  - by rewrite app_nil_r.
  - destruct (svc_run_fuel es0 σ es σ1) as [Hc1 Hf]; [done|by apply svc_history_ok|done|done|].
    rewrite app_assoc. destruct (IH (es0 ++ es)) as (? & ? & ?);
      [by eapply svc_history_run|done|]. split_and!; [done|done|lia].
  - destruct (svc_report_fuel es0 σ es σ1) as [Hc1 Hf]; [by apply svc_history_ok|done..|].
    rewrite app_assoc. destruct (IH (es0 ++ es)) as (? & ? & ?);
      [by eapply svc_history_input|done|]. split_and!; [done|done|lia].
Qed.
End service_laws.

(** ** Properties *)

Section service_claims.
Context {W : Type} `{CallCacheLaws W live} (empty : W) (timeout : Z).

(** C18: whatever the devices answer, whatever reports arrive and whoever calls [Close],
    in every interleaving: no goroutine of the service panics; the active session is the
    last one made and has been verified, by a received response that decodes as version
    0.1; every earlier session is done and its transport closed; the device information
    is that of the last session, verified too; and a card is shown only from an active
    session whose read loop still runs. *)
Theorem service_shows_verified es (σ : svc_system (W := W)) :
  live empty = ∅ → svc_history empty timeout es σ →
  (∀ c, ∃ r, run_step empty timeout c (runner σ) (svc σ) = Val r) ∧
  (∀ j q, closers σ !! j = Some q → ∃ r, close_step q (svc σ) = Val r) ∧
  (∀ i, active (svc σ) = Some i → S i = length (sessions (svc σ)) ∧ Verified i ∈ es ∧
     ∃ raw, Received i raw ∈ es ∧ DecodeGetVersionResponse raw tt = Val (inr (MkVersion 0 1), tt)) ∧
  (∀ i k, sessions (svc σ) !! i = Some k → S i < length (sessions (svc σ)) →
     done (conn_session k) = true ∧ conn_closed k = true) ∧
  (∀ info, DeviceInfo_ (svc σ) = Some info → ∃ i k, sessions (svc σ) !! i = Some k ∧
     S i = length (sessions (svc σ)) ∧ conn_info k = info ∧ Verified i ∈ es) ∧
  (CurrentCard (svc σ) ≠ empty_card CardNone → ∃ i k, active (svc σ) = Some i ∧
     sessions (svc σ) !! i = Some k ∧ done (conn_session k) = false ∧
     CurrentCard (svc σ) = latest (conn_session k)).
Proof.
  intros He Hh. pose proof (svc_history_ok empty timeout es σ He Hh) as Hok. destruct σ as [s p ts].
  cbn [svc runner closers]. pose proof (owned_fields _ _ _ _ Hok) as (Hact & Hinfo & _).
  assert (Hcur : ∀ i, active_of p = Some i ∨ info_of p = Some i →
    current p = Some i ∧ past_handshake p = true) by (intros i [Hi|Hi]; by destruct p).
  split_and!.
  - intros c. destruct (run_step_sound empty timeout c p s es ts He Hok) as (r & s' & -> & _).
    by eexists.
  - intros j q Hj. destruct (close_step_sound es s p ts j q Hok Hj) as (r & s' & -> & _). by eexists.
  - intros i Hi. destruct (Hcur i) as [Hc Hp]; [left; congruence|].
    split; [by apply (ok_current _ _ Hok)|]. by apply (ok_verified _ _ Hok).
  - intros i k Hk Hlt. apply (ok_settled _ _ Hok i k Hk). intros Hc.
    pose proof (ok_current _ _ Hok i Hc) as Hlen. cbn [svc] in Hlen. lia.
  - intros info Hi. unfold DeviceInfo_ in Hi. rewrite Hinfo in Hi.
    destruct (info_of p) as [i|] eqn:Hp; [|done]. cbn in Hi. apply fmap_Some in Hi as (k & Hk & ->).
    destruct (Hcur i) as [Hc Hpast]; [by right|]. exists i, k. split; [done|].
    split; [by apply (ok_current _ _ Hok)|]. split; [done|]. by apply (ok_verified _ _ Hok).
  - unfold CurrentCard, load_active. destruct (active s) as [i|] eqn:Ha; [|done]. cbn.
    destruct (sessions s !! i) as [k|] eqn:Hk; [|done]. intros Hcard. exists i, k.
    split_and!; try done. destruct (done (conn_session k)) eqn:Hd; [|done].
    pose proof (ok_sessions _ _ Hok i k Hk) as Hs. by destruct (sess_done _ _ Hs Hd) as [Hl _].
Qed.

(** C19: stopping completes: once the context is done (a [Close] has cancelled it) the
    service takes at most [svc_fuel] more steps, however many reports still arrive; as
    long as the runner has not ended or a [Close] has not returned something can happen
    (a goroutine goes on, or the read of a transport that was closed fails); and when
    nothing is left, [stopped] is closed, no session is active, no device is reported,
    and every session ever made is done with its transport closed. *)
Theorem service_stops es (σ : svc_system (W := W)) n es' σ' :
  live empty = ∅ → svc_history empty timeout es σ → ctx_done (svc σ) = true →
  svc_runs empty timeout n σ es' σ' →
  n ≤ svc_fuel σ ∧
  ((∃ es'' σ'', svc_run empty timeout σ' es'' σ'') ∨
   (stopped (svc σ') = true ∧ active (svc σ') = None ∧ deviceInfo (svc σ') = None ∧
    (∀ i k, sessions (svc σ') !! i = Some k →
       done (conn_session k) = true ∧ conn_closed k = true) ∧
    Forall (λ q, q = CloseReturned) (closers σ'))).
Proof.
  intros He Hh Hc Hruns.
  destruct (svc_runs_ok empty timeout n σ es' σ' es He Hruns Hh Hc) as (Hh' & Hc' & Hf).
  split; [lia|]. pose proof (svc_history_ok empty timeout _ σ' He Hh') as Hok. destruct σ' as [s p ts].
  destruct (service_progress empty timeout _ s p ts He Hok Hc') as [|[-> Hall]]; [by left|right].
  destruct (ended_settled _ _ _ Hok) as (? & ? & ? & ?). by split_and!.
Qed.
End service_claims.

(** ** Witnesses *)

(** Schedules: the runner takes a step, a [Close] takes one, a read loop gets a report, a
    closed transport fails, [Close] is called.  What cannot happen is skipped. *)
Inductive svc_action : Type :=
  | ARun (c : run_choice)
  | AClose (j : nat)
  | AReport (i : nat) (raw : list Z)
  | AFail (i : nat)
  | ACall.

Section schedule.
Context {W : Type} `{CallCache W} (empty : W) (timeout : Z).

Definition svc_act (r : list svc_event * svc_system (W := W)) (a : svc_action)
    : list svc_event * svc_system (W := W) :=
  let σ := r.2 in
  match a with
  | ARun c =>
      match run_step empty timeout c (runner σ) (svc σ) with
      | Val (Some (p, es), s) => (r.1 ++ es, SvcSystem s p (closers σ))
      | _ => r
      end
  | AClose j =>
      match closers σ !! j with
      | Some q =>
          match close_step q (svc σ) with
          | Val (Some q', s) => (r.1 ++ [], SvcSystem s (runner σ) (<[j:=q']> (closers σ)))
          | _ => r
          end
      | None => r
      end
  | AReport i raw =>
      match sessions (svc σ) !! i, on_session i (readLoop [inr raw]) (svc σ) with
      | Some k, Val (tt, s) =>
          if done (conn_session k) then r
          else (r.1 ++ [Received i raw], SvcSystem s (runner σ) (closers σ))
      | _, _ => r
      end
  | AFail i =>
      match sessions (svc σ) !! i, on_session i (readLoop [inl TransportError]) (svc σ) with
      | Some k, Val (tt, s) =>
          if done (conn_session k) || negb (conn_closed k) then r
          else (r.1 ++ [], SvcSystem s (runner σ) (closers σ))
      | _, _ => r
      end
  | ACall => (r.1 ++ [], SvcSystem (svc σ) (runner σ) (closers σ ++ [CloseSwap]))
  end.

(** Steps of the service itself. *)
Definition internal (a : svc_action) : bool :=
  match a with ARun _ | AClose _ | AFail _ => true | _ => false end.

Lemma svc_act_internal r a :
  internal a = true →
  svc_act r a = r ∨ ∃ es, (svc_act r a).1 = r.1 ++ es ∧ svc_run empty timeout r.2 es (svc_act r a).2.
Proof.
  destruct r as [es0 [s p ts]], a as [c|j|i raw|i|]; try done; intros _; unfold svc_act;
    cbn [fst snd svc runner closers].
  - destruct (run_step _ _ c p s) as [[[[p' es]|] s']| |] eqn:Hrun; [|by left..].
    right. exists es. split; [done|]. by eapply svc_run_runner.
  - destruct (ts !! j) as [q|] eqn:Hj; [|by left].
    destruct (close_step q s) as [[[q'|] s']| |] eqn:Hrun; [|by left..].
    right. exists []. split; [done|]. by eapply svc_run_closer.
  - destruct (sessions s !! i) as [k|] eqn:Hi; [|by left].
    destruct (on_session i _ s) as [[[] s']| |] eqn:Hrun; [|by left..].
    destruct (_ || _) eqn:Hb; [by left|]. reflect_bools. right. exists []. split; [done|].
    by eapply svc_run_fail.
Qed.

Lemma svc_act_history r a :
  svc_history empty timeout r.1 r.2 → svc_history empty timeout (svc_act r a).1 (svc_act r a).2.
Proof.
  intros Hr. destruct (internal a) eqn:Ha.
  { destruct (svc_act_internal r a Ha) as [->|(es & -> & Hrun)]; [done|by eapply svc_history_run]. }
  destruct r as [es0 [s p ts]], a as [c|j|i raw|i|]; try done; cbn [svc_act fst snd svc runner closers].
  - destruct (sessions s !! i) as [k|] eqn:Hi; [|done].
    destruct (on_session i _ s) as [[[] s']| |] eqn:Hrun; [|done..].
    destruct (done (conn_session k)) eqn:Hd; [done|].
    eapply svc_history_input; [exact Hr|]. by eapply svc_report.
  - eapply svc_history_input; [exact Hr|]. apply svc_close.
Qed.

Lemma svc_acts_history r acts :
  svc_history empty timeout r.1 r.2 →
  svc_history empty timeout (foldl svc_act r acts).1 (foldl svc_act r acts).2.
Proof.
  revert r. induction acts as [|a acts IH]; intros r Hr; [done|]. cbn [foldl].
  by apply IH, svc_act_history.
Qed.

Lemma svc_acts_runs r acts :
  Forall (λ a, internal a = true) acts →
  ∃ n es, svc_runs empty timeout n r.2 es (foldl svc_act r acts).2.
Proof.
  intros Hacts. revert r. induction Hacts as [|a acts Ha _ IH]; intros r;
    [exists 0, []; apply svc_runs_0|].
  cbn [foldl]. destruct (IH (svc_act r a)) as (n & es & Hruns).
  destruct (svc_act_internal r a Ha) as [Heq|(es0 & _ & Hrun)];
    [rewrite Heq in *; by exists n, es|].
  exists (S n), (es0 ++ es). by eapply svc_runs_step.
Qed.
End schedule.

(** A reader is found, answers the handshake, and a card is put on it. *)
Definition reader_info : DeviceInfo := MkDeviceInfo "hid" 0x5041 0x5245 "000001" "PA" "NFC".

Definition go (w : wake) : svc_action :=
  ARun (RunChoice (inr reader_info) (λ _, None) w false).

Definition found : list svc_action :=
  [go WakeTimer; go WakeTimer; go WakeTimer; AReport 0 (version_response_of 1); go WakeResponse;
   go WakeTimer; go WakeTimer; go WakeTimer; AReport 0 (card_state_report sample_felica_card)].

(** [Close]: the context is done, the session's transport closed, its read fails. *)
Definition closing_service : list svc_action :=
  [ACall; AClose 0; AClose 0].

Definition stopping_service : list svc_action :=
  [AClose 0; AClose 0; go WakeTimer; go WakeTimer; AFail 0; go WakeTimer; go WakeTimer; go WakeTimer;
   go WakeTimer; go WakeTimer; go WakeTimer; go WakeTimer; AClose 0].

Definition after_found : list svc_event * svc_system (W := gmap Z nat) :=
  foldl (svc_act ∅ 1000) ([], newService) found.

Definition after_closing : list svc_event * svc_system (W := gmap Z nat) :=
  foldl (svc_act ∅ 1000) after_found closing_service.

Lemma after_found_history : svc_history ∅ 1000 after_found.1 after_found.2.
Proof. apply svc_acts_history. apply svc_history_new. Qed.

Lemma service_shows_verified_witness :
  active (svc after_found.2) = Some 0 ∧
  CurrentCard (svc after_found.2) = host_card sample_felica_card ∧
  Verified 0 ∈ after_found.1 ∧
  ∃ raw, Received 0 raw ∈ after_found.1 ∧
    DecodeGetVersionResponse raw tt = Val (inr (MkVersion 0 1), tt).
Proof.
  assert (Ha : active (svc after_found.2) = Some 0) by (vm_compute; reflexivity).
  split; [exact Ha|]. split; [vm_compute; reflexivity|].
  destruct (service_shows_verified (live := id) ∅ 1000 after_found.1 after_found.2 eq_refl
    after_found_history) as (_ & _ & Hver & _). by destruct (Hver 0 Ha) as (_ & ? & ?).
Defined.

Lemma service_stops_witness :
  ∃ n es, svc_runs ∅ 1000 n after_closing.2 es (foldl (svc_act ∅ 1000) after_closing stopping_service).2 ∧
    n ≤ svc_fuel after_closing.2 ∧
    runner (foldl (svc_act ∅ 1000) after_closing stopping_service).2 = RunEnded.
Proof.
  destruct (svc_acts_runs ∅ 1000 after_closing stopping_service) as (n & es & Hruns);
    [by repeat constructor|].
  exists n, es. split; [exact Hruns|]. split; [|vm_compute; reflexivity].
  refine (proj1 (service_stops (live := id) ∅ 1000 after_closing.1 after_closing.2 n es _ eq_refl _ _ Hruns)).
  - apply svc_acts_history, after_found_history.
  - vm_compute. reflexivity.
Defined.
