(* ===== verification/Config.v ===== *)
(** * internal/config/config.go: the configuration from the environment

    Hexadecimal identifiers as [strings.TrimSpace], [strings.TrimPrefix] and
    [strconv.ParseUint] read them, the configuration, and the theorem that what the
    host looks for by default is what the firmware's descriptors say. *)
From stdpp Require Import strings.
From S2P Require Import Prelude Platform UsbDevice.
From S2P Require Import Protocol.
From S2P Require Import Device.

Definition DefaultVendorID : Z := 0x5041.
Definition DefaultProductID : Z := 0x5245.

Inductive config_error : Type :=
  | ErrInvalidVendorID
  | ErrInvalidProductID
  | ErrInvalidTimeout
  | ErrInvalidHexID.

(** [time.Duration], in nanoseconds, as a [Z]. *)
Record Config : Type := MkConfig {
  config_device : DeviceConfig;
  Timeout : Z;
}.

(** A Go string is its bytes. *)
Definition bytes_of (s : string) : list Z :=
  (λ c, Z.of_nat (Ascii.nat_of_ascii c)) <$> String.list_ascii_of_string s.

(** ** The standard library *)

(** The white space of [unicode.IsSpace], in UTF-8. *)
Definition white_space : list (list Z) :=
  (((λ c, [c]) <$> [0x09; 0x0A; 0x0B; 0x0C; 0x0D; 0x20]) ++
  [[0xC2; 0x85]; [0xC2; 0xA0]; [0xE1; 0x9A; 0x80]] ++
  ((λ c, [0xE2; 0x80; c]) <$> [0x80; 0x81; 0x82; 0x83; 0x84; 0x85; 0x86; 0x87; 0x88; 0x89; 0x8A;
                               0xA8; 0xA9; 0xAF]) ++
  [[0xE2; 0x81; 0x9F]; [0xE3; 0x80; 0x80]])%Z.

(** [prefix] taken off the front. *)
Fixpoint strip (prefix s : list Z) : option (list Z) :=
  match prefix, s with
  | [], _ => Some s
  | a :: prefix, b :: s => if (a =? b)%Z then strip prefix s else None
  | _ :: _, [] => None
  end.

(** The first of the prefixes that [s] has, taken off. *)
Fixpoint strip_any (prefixes : list (list Z)) (s : list Z) : option (list Z) :=
  match prefixes with
  | [] => None
  | p :: ps => match strip p s with Some s' => Some s' | None => strip_any ps s end
  end.

(** Taken off again and again; a string of [n] bytes takes at most [n] rounds. *)
Fixpoint trim_left (n : nat) (prefixes : list (list Z)) (s : list Z) : list Z :=
  match n with
  | O => s
  | S n => match strip_any prefixes s with Some s' => trim_left n prefixes s' | None => s end
  end.

(** [strings.TrimSpace] *)
Definition TrimSpace (s : list Z) : list Z :=
  let s := trim_left (length s) white_space s in
  reverse (trim_left (length s) (reverse <$> white_space) (reverse s)).

(** [strings.TrimPrefix] *)
Definition TrimPrefix (s prefix : list Z) : list Z :=
  match strip prefix s with Some s' => s' | None => s end.

(** A digit of [strconv.ParseUint], as a number below 36. *)
Definition digit (c : Z) : option Z :=
  if (0x30 <=? c)%Z && (c <=? 0x39)%Z then Some (c - 0x30)%Z else
  let lower := Z.lor c 0x20 in
  if (0x61 <=? lower)%Z && (lower <=? 0x7A)%Z then Some (lower - 0x61 + 10)%Z else None.

Definition u64 (z : Z) : Z := (z mod 2 ^ 64)%Z.

(** The loop of [strconv.ParseUint(s, 16, bitSize)], [maxVal] being [1<<bitSize - 1];
    [None] is a syntax or range error. *)
Fixpoint parse_digits (maxVal n : Z) (s : list Z) : option Z :=
  match s with
  | [] => Some n
  | c :: s =>
      match digit c with
      | None => None
      | Some d =>
          if (16 <=? d)%Z then None
          else if ((2 ^ 64 - 1) / 16 + 1 <=? n)%Z then None
          else
            let n := u64 (n * 16) in
            let n1 := u64 (n + d) in
            if (n1 <? n)%Z || (maxVal <? n1)%Z then None else parse_digits maxVal n1 s
      end
  end.

(** [strconv.ParseUint(s, 16, 16)] *)
Definition ParseUint_16_16 (s : list Z) : option Z :=
  match s with [] => None | _ => parse_digits (2 ^ 16 - 1) 0 s end.

(** ** config.go *)

Definition parseUint16 (value : list Z) : config_error + Z :=
  let value := TrimSpace value in
  let value := TrimPrefix (TrimPrefix value (bytes_of "0x")) (bytes_of "0X") in
  match ParseUint_16_16 value with
  | None => inl ErrInvalidHexID
  | Some parsed => inr (u16 parsed)
  end.

Definition ParseUint16 (value : list Z) : config_error + Z := parseUint16 value.

Section environment.
(** [os.Getenv]; [time.ParseDuration], of which nothing is assumed. *)
Context (getenv : string → string) (parse_duration : string → option Z).

Definition environment (key fallback : string) : string :=
  if decide (getenv key = ""%string) then fallback else getenv key.

Definition FromEnvironment : config_error + Config :=
  match parseUint16 (bytes_of (environment "PAREADER_VID" "5041")) with
  | inl _ => inl ErrInvalidVendorID
  | inr vendorID =>
      match parseUint16 (bytes_of (environment "PAREADER_PID" "5245")) with
      | inl _ => inl ErrInvalidProductID
      | inr productID =>
          match parse_duration (environment "PAREADER_TIMEOUT" "1s") with
          | None => inl ErrInvalidTimeout
          | Some timeout =>
              inr (MkConfig (MkDeviceConfig vendorID productID DefaultUsagePage DefaultUsage
                               (getenv "PAREADER_SERIAL"%string)) timeout)
          end
      end
  end.
End environment.

(** ** What an identifier is *)

(** A hexadecimal digit, in either case. *)
Definition is_hex (c : Z) : Prop :=
  (0x30 ≤ c ≤ 0x39 ∨ 0x41 ≤ c ≤ 0x46 ∨ 0x61 ≤ c ≤ 0x66)%Z.

Definition hex_digit (c : Z) : Z :=
  if (c <=? 0x39)%Z then (c - 0x30)%Z else if (c <=? 0x46)%Z then (c - 0x37)%Z else (c - 0x57)%Z.

Definition hex_value (s : list Z) : Z := foldl (λ n c, n * 16 + hex_digit c)%Z 0%Z s.

(** Any sequence of white space. *)
Definition spaces (s : list Z) : Prop := ∃ l, Forall (.∈ white_space) l ∧ s = concat l.

(** The prefixes the two calls of [TrimPrefix] remove. *)
Definition hex_prefix (s : list Z) : Prop :=
  s = [] ∨ s = bytes_of "0x" ∨ s = bytes_of "0X" ∨ s = bytes_of "0x" ++ bytes_of "0X".

(** ** Lemmas *)

Lemma strip_Some p s s' : strip p s = Some s' ↔ s = p ++ s'.
Proof.
  revert s. induction p as [|a p IH]; intros s; [cbn; split; congruence|].
  destruct s as [|b s]; cbn; [by split|].
  destruct (Z.eqb_spec a b) as [->|Hne]; [rewrite IH|]; split; congruence.
Qed.

Lemma strip_any_Some ps s s' : strip_any ps s = Some s' → ∃ p, p ∈ ps ∧ s = p ++ s'.
Proof.
  induction ps as [|p ps IH]; cbn; [done|]. destruct (strip p s) as [s1|] eqn:Hs.
  - intros [= <-]. exists p. split; [by constructor|by apply strip_Some].
  - intros (q & ? & ?)%IH. exists q. split; [by constructor|done].
Qed.

Lemma strip_any_None ps s : strip_any ps s = None ↔ ∀ p s', p ∈ ps → s ≠ p ++ s'.
Proof.
  induction ps as [|p ps IH]; cbn; [split; [intros _ p s' Hp; by apply elem_of_nil in Hp|done]|].
  destruct (strip p s) as [s1|] eqn:Hs.
  - apply strip_Some in Hs. split; [done|]. intros Hall. by destruct (Hall p s1); [by constructor|].
  - rewrite IH. split.
    + intros Hall q s' [->|Hq]%elem_of_cons; [intros Heq%strip_Some; congruence|by apply Hall].
    + intros Hall q s' Hq. by apply Hall; constructor.
Qed.

(** No prefix is a prefix of another one, and none is empty. *)
Definition prefix_free (ps : list (list Z)) : Prop :=
  ([] ∉ ps) ∧ ∀ p q, p ∈ ps → q ∈ ps → is_Some (strip p q) → p = q.

Lemma strip_app_inv p q x y :
  p ++ x = q ++ y → is_Some (strip p q) ∨ is_Some (strip q p).
Proof.
  revert q. induction p as [|a p IH]; intros [|b q] Heq; cbn in *; eauto.
  injection Heq as -> Heq. rewrite Z.eqb_refl. by apply IH.
Qed.

Lemma strip_any_free ps p s :
  prefix_free ps → p ∈ ps → strip_any ps (p ++ s) = Some s.
Proof.
  intros [_ Hfree] Hp. destruct (strip_any ps (p ++ s)) as [s'|] eqn:Hs.
  - apply strip_any_Some in Hs as (q & Hq & Heq).
    assert (p = q) as <- by (destruct (strip_app_inv p q s s' Heq); [|symmetry]; by apply Hfree).
    f_equal. by apply app_inv_head in Heq.
  - rewrite strip_any_None in Hs. by destruct (Hs p s Hp).
Qed.

Lemma trim_left_spec n ps s :
  ([] ∉ ps) → length s ≤ n →
  ∃ l, Forall (.∈ ps) l ∧ s = concat l ++ trim_left n ps s ∧ strip_any ps (trim_left n ps s) = None.
Proof.
  intros Hne. revert s. induction n as [|n IH]; intros s Hn; cbn [trim_left].
  - destruct s; [|cbn in Hn; lia]. exists []. split_and!; [constructor|done|].
    apply strip_any_None. intros [|? ?] s' Hp; [done|done].
  - destruct (strip_any ps s) as [s'|] eqn:Hs; [|exists []; by split_and!].
    apply strip_any_Some in Hs as (p & Hp & ->).
    destruct (IH s') as (l & Hl & Heq & Hnone).
    { rewrite length_app in Hn. destruct p; [done|]. cbn in Hn. lia. }
    exists (p :: l). split_and!; [by constructor| |done]. cbn. rewrite <- app_assoc. by f_equal.
Qed.

Lemma trim_left_concat n ps l s :
  prefix_free ps → Forall (.∈ ps) l → strip_any ps s = None → length (concat l ++ s) ≤ n →
  trim_left n ps (concat l ++ s) = s.
Proof.
  intros Hfree Hl Hs. revert n. induction Hl as [|p l Hp _ IH]; intros n Hn.
  - cbn. destruct n; cbn; [done|]. by rewrite Hs.
  - cbn [concat] in *. rewrite <- app_assoc in *. destruct n as [|n].
    { rewrite length_app in Hn. destruct p; [by destruct Hfree|]. cbn in Hn. lia. }
    cbn [trim_left]. rewrite strip_any_free by done. apply IH.
    rewrite length_app in Hn. destruct p; [by destruct Hfree|]. cbn in Hn. lia.
Qed.

Lemma reverse_concat (l : list (list Z)) : reverse (concat l) = concat (reverse (reverse <$> l)).
Proof.
  induction l as [|x l IH]; [done|]. cbn [concat fmap list_fmap].
  by rewrite reverse_app, reverse_cons, concat_app, IH; cbn; rewrite app_nil_r.
Qed.

(** The two sets the trimming uses. *)
Lemma white_space_free : prefix_free white_space.
Proof.
  split; [apply (bool_decide_unpack _); vm_compute; done|].
  assert (Hall : Forall (λ p, Forall (λ q, is_Some (strip p q) → p = q) white_space) white_space)
    by (apply (bool_decide_unpack _); vm_compute; done).
  intros p q Hp Hq. rewrite Forall_forall in Hall. specialize (Hall p Hp).
  rewrite Forall_forall in Hall. by apply Hall.
Qed.

Lemma reversed_free : prefix_free (reverse <$> white_space).
Proof.
  split; [apply (bool_decide_unpack _); vm_compute; done|].
  assert (Hall : Forall (λ p, Forall (λ q, is_Some (strip p q) → p = q) (reverse <$> white_space))
                   (reverse <$> white_space))
    by (apply (bool_decide_unpack _); vm_compute; done).
  intros p q Hp Hq. rewrite Forall_forall in Hall. specialize (Hall p Hp).
  rewrite Forall_forall in Hall. by apply Hall.
Qed.

(** A hexadecimal digit at either end stops the trimming. *)
#[export] Instance is_hex_dec c : Decision (is_hex c).
Proof. unfold is_hex. apply _. Defined.

Lemma hex_stops ps c s :
  Forall (λ p, match p with [] => False | a :: _ => ¬ is_hex a end) ps → is_hex c →
  strip_any ps (c :: s) = None.
Proof.
  intros Hps Hc. apply strip_any_None. intros p s' Hp Heq. rewrite Forall_forall in Hps.
  specialize (Hps p Hp). destruct p as [|a p]; [done|]. injection Heq as -> _. done.
Qed.

Lemma hex_stops_left c s : is_hex c → strip_any white_space (c :: s) = None.
Proof.
  apply hex_stops. unfold white_space. cbn.
  repeat (apply Forall_cons_2; [unfold is_hex; lia|]). apply Forall_nil_2.
Qed.

Lemma hex_stops_right c s : is_hex c → strip_any (reverse <$> white_space) (c :: s) = None.
Proof.
  apply hex_stops.
  match goal with |- Forall _ ?l => let l' := eval vm_compute in l in change l with l' end.
  repeat (apply Forall_cons_2; [unfold is_hex; lia|]). apply Forall_nil_2.
Qed.

Lemma spaces_reverse s : spaces s → ∃ l, Forall (.∈ reverse <$> white_space) l ∧ reverse s = concat l.
Proof.
  intros (l & Hl & ->). exists (reverse (reverse <$> l)). split; [|apply reverse_concat].
  rewrite Forall_reverse, Forall_fmap. eapply Forall_impl; [exact Hl|].
  intros p Hp. cbn beta. by apply list_elem_of_fmap_2.
Qed.

Lemma reverse_spaces l : Forall (.∈ reverse <$> white_space) l → spaces (reverse (concat l)).
Proof.
  intros Hl. rewrite reverse_concat. exists (reverse (reverse <$> l)). split; [|done].
  rewrite Forall_reverse, Forall_fmap. eapply Forall_impl; [exact Hl|].
  intros p (q & -> & Hq)%list_elem_of_fmap.
  change (reverse (reverse q) ∈ white_space). by rewrite reverse_involutive.
Qed.

(** [TrimSpace] takes white space off both ends, and nothing else. *)
Lemma TrimSpace_outer s :
  ∃ ws1 ws2, spaces ws1 ∧ spaces ws2 ∧ s = ws1 ++ TrimSpace s ++ ws2.
Proof.
  unfold TrimSpace. set (s1 := trim_left (length s) white_space s).
  destruct (trim_left_spec (length s) white_space s) as (l1 & Hl1 & Heq1 & _);
    [apply white_space_free|done|]. fold s1 in Heq1.
  destruct (trim_left_spec (length s1) (reverse <$> white_space) (reverse s1)) as (l2 & Hl2 & Heq2 & _);
    [apply reversed_free|by rewrite length_reverse|].
  set (t := trim_left _ _ _) in *. exists (concat l1), (reverse (concat l2)).
  split; [by exists l1|]. split; [by apply reverse_spaces|].
  by rewrite <- reverse_app, <- Heq2, reverse_involutive.
Qed.

(** What starts and ends with a hexadecimal digit is kept. *)
Lemma TrimSpace_inner ws1 ws2 a s z s' t :
  spaces ws1 → spaces ws2 → t = a :: s → t = s' ++ [z] → is_hex a → is_hex z →
  TrimSpace (ws1 ++ t ++ ws2) = t.
Proof.
  intros (l1 & Hl1 & ->) Hws2 Ha Hz Hxa Hxz. unfold TrimSpace.
  rewrite trim_left_concat; [|apply white_space_free|done| |done].
  2: { rewrite Ha. by apply hex_stops_left. }
  destruct (spaces_reverse ws2 Hws2) as (l2 & Hl2 & Hrev). rewrite reverse_app, Hrev.
  rewrite trim_left_concat; [by rewrite reverse_involutive|apply reversed_free|done| |].
  - rewrite Hz, reverse_app. by apply hex_stops_right.
  - rewrite <- Hrev, <- reverse_app. by rewrite length_reverse.
Qed.

(** A digit below 16 is a hexadecimal one. *)
Lemma digit_hex c :
  is_byte c →
  (match digit c with Some d => if (16 <=? d)%Z then None else Some d | None => None end) =
    if decide (is_hex c) then Some (hex_digit c) else None.
Proof.
  intros Hc.
  assert (Hall : Forall (λ c,
    (match digit c with Some d => if (16 <=? d)%Z then None else Some d | None => None end) =
      if decide (is_hex c) then Some (hex_digit c) else None) (seqZ 0 256))
    by (apply (bool_decide_unpack _); vm_compute; done).
  rewrite Forall_forall in Hall. apply Hall, elem_of_seqZ. unfold is_byte in Hc. lia.
Qed.

Lemma hex_digit_range c : is_hex c → (0 ≤ hex_digit c < 16)%Z.
Proof. unfold is_hex, hex_digit. intros ?. repeat case_match; reflect_bools; lia. Qed.

Lemma hex_foldl_ge n s :
  (0 ≤ n)%Z → Forall is_hex s → (n ≤ foldl (λ n c, n * 16 + hex_digit c)%Z n s)%Z.
Proof.
  intros Hn Hs. revert n Hn. induction Hs as [|c s Hc _ IH]; intros n Hn; cbn; [lia|].
  pose proof (hex_digit_range c Hc). specialize (IH (n * 16 + hex_digit c)%Z). lia.
Qed.

Lemma parse_digits_exact maxVal n s m :
  (0 ≤ n ≤ maxVal)%Z → (maxVal < 2 ^ 32)%Z → is_bytes s →
  parse_digits maxVal n s = Some m ↔
    Forall is_hex s ∧ m = foldl (λ n c, n * 16 + hex_digit c)%Z n s ∧ (m ≤ maxVal)%Z.
Proof.
  intros Hn Hmax Hs. revert n Hn. induction Hs as [|c s Hc _ IH]; intros n Hn; cbn [parse_digits foldl].
  { split; [intros [= <-]; split_and!; [constructor|done|lia]|by intros (_ & -> & _)]. }
  pose proof (digit_hex c Hc) as Hd. rewrite Forall_cons.
  destruct (decide (is_hex c)) as [Hx|Hx].
  - pose proof (hex_digit_range c Hx) as Hr. destruct (digit c) as [d|]; [|done].
    destruct (16 <=? d)%Z; [done|]. injection Hd as ->.
    assert (Hu : u64 (n * 16) = (n * 16)%Z) by (apply Z.mod_small; lia).
    rewrite Hu. assert (Hu1 : u64 (n * 16 + hex_digit c) = (n * 16 + hex_digit c)%Z)
      by (apply Z.mod_small; lia). rewrite Hu1.
    rewrite (proj2 (Z.leb_gt _ n)) by (change ((2 ^ 64 - 1) / 16 + 1)%Z with (2 ^ 60)%Z; lia).
    rewrite (proj2 (Z.ltb_ge _ (n * 16))) by lia. cbn [orb].
    destruct (Z.ltb_spec maxVal (n * 16 + hex_digit c)) as [Hgt|Hle].
    + split; [done|]. intros ((_ & Hs) & -> & Hm).
      pose proof (hex_foldl_ge (n * 16 + hex_digit c) s ltac:(lia) Hs). lia.
    + rewrite IH by lia. split; [intros (? & ? & ?)|intros ((_ & ?) & ? & ?)]; by split_and!.
  - split; [|by intros ((? & _) & _)].
    destruct (digit c) as [d|]; [|done]. by destruct (16 <=? d)%Z.
Qed.

Lemma ParseUint_exact s m :
  is_bytes s →
  ParseUint_16_16 s = Some m ↔ s ≠ [] ∧ Forall is_hex s ∧ m = hex_value s ∧ (m < 65536)%Z.
Proof.
  intros Hs. unfold ParseUint_16_16, hex_value. destruct s as [|c s]; [split; [done|by intros [? _]]|].
  rewrite parse_digits_exact by (done || lia). split; [intros (? & ? & ?)|intros (_ & ? & ? & ?)];
    split_and!; done || lia.
Qed.

(** What the two calls of [TrimPrefix] leave. *)
Lemma trim_prefixes t :
  ∃ pre, hex_prefix pre ∧
    t = pre ++ TrimPrefix (TrimPrefix t (bytes_of "0x")) (bytes_of "0X").
Proof.
  unfold TrimPrefix. destruct (strip (bytes_of "0x") t) as [t1|] eqn:H1.
  - apply strip_Some in H1 as ->. destruct (strip (bytes_of "0X") t1) as [t2|] eqn:H2.
    + apply strip_Some in H2 as ->. eexists. split; [by right; right; right|]. by rewrite <- app_assoc.
    + eexists. split; [by right; left|done].
  - destruct (strip (bytes_of "0X") t) as [t2|] eqn:H2.
    + apply strip_Some in H2 as ->. eexists. split; [by right; right; left|done].
    + exists []. split; [by left|done].
Qed.

Lemma strip_0x_hex x ds : ¬ is_hex x → Forall is_hex ds → strip [0x30; x]%Z ds = None.
Proof.
  intros Hx Hds. destruct (strip [0x30; x]%Z ds) as [ds'|] eqn:Hs; [|done].
  apply strip_Some in Hs as ->. cbn in Hds.
  apply Forall_cons in Hds as [_ Hds]. by apply Forall_cons in Hds as [? _].
Qed.

Lemma trim_prefixes_hex pre ds :
  hex_prefix pre → Forall is_hex ds →
  TrimPrefix (TrimPrefix (pre ++ ds) (bytes_of "0x")) (bytes_of "0X") = ds.
Proof.
  intros Hpre Hds. change (bytes_of "0x") with [0x30; 0x78]%Z. change (bytes_of "0X") with [0x30; 0x58]%Z.
  assert (Hx : ¬ is_hex 0x78%Z) by (unfold is_hex; lia).
  assert (HX : ¬ is_hex 0x58%Z) by (unfold is_hex; lia).
  unfold TrimPrefix. destruct Hpre as [->|[->|[->| ->]]]; cbn [app].
  - by rewrite (strip_0x_hex 0x78), (strip_0x_hex 0x58).
  - change (bytes_of "0x") with [0x30; 0x78]%Z. cbn [app].
    rewrite (proj2 (strip_Some [0x30; 0x78]%Z _ ds)) by done. by rewrite strip_0x_hex.
  - change (bytes_of "0X") with [0x30; 0x58]%Z. cbn [app strip Z.eqb Pos.eqb]. done.
  - change (bytes_of "0x" ++ bytes_of "0X") with [0x30; 0x78; 0x30; 0x58]%Z. cbn [app strip Z.eqb Pos.eqb].
    done.
Qed.

Lemma bytes_of_bytes s : is_bytes (bytes_of s).
Proof.
  unfold bytes_of. apply Forall_fmap, Forall_true. intros c. unfold is_byte. cbn.
  pose proof (Ascii.nat_ascii_bounded c). lia.
Qed.

(** ** What Open picks *)

(** The interfaces a configuration asks for. *)
Definition wanted (config : DeviceConfig) (c : candidate) : Prop :=
  cand_usage_page c = UsagePage config ∧ cand_usage c = Usage config ∧
  (Serial config = ""%string ∨ cand_serial c = Serial config).

#[export] Instance wanted_dec config c : Decision (wanted config c).
Proof. unfold wanted. apply _. Defined.

Lemma select_wanted config selected c :
  select_candidate config selected c = if decide (wanted config c) then Some c else selected.
Proof.
  unfold select_candidate, wanted.
  destruct (Z.eqb_spec (cand_usage_page c) (UsagePage config)); cbn [negb orb];
    [|case_decide; [tauto|done]].
  destruct (Z.eqb_spec (cand_usage c) (Usage config)); cbn [negb orb]; [|case_decide; [tauto|done]].
  repeat case_bool_decide; cbn [negb andb]; case_decide; tauto || done.
Qed.

(** The last one that is wanted. *)
Lemma foldl_select config selected l :
  foldl (select_candidate config) selected l =
    match last (filter (wanted config) l) with Some c => Some c | None => selected end.
Proof.
  revert selected. induction l as [|c l IH]; intros selected; [done|]. cbn [foldl].
  rewrite IH, select_wanted, filter_cons. destruct (decide (wanted config c)); [|done].
  rewrite last_cons. by destruct (last (filter (wanted config) l)).
Qed.

(** The usage page and usage of a report descriptor's collection, by which the
    operating system identifies the interface: it starts with them. *)
Definition hid_top_usage (d : list Z) : option (Z * Z) :=
  match d with
  | 0x06%Z :: lo :: hi :: 0x09%Z :: usage :: 0xA1%Z :: _ => Some ((lo + 256 * hi)%Z, usage)
  | _ => None
  end.

Section last_filter.
Context {A : Type} (P : A → Prop) `{!∀ x, Decision (P x)}.

Lemma filter_nil_Forall l : filter P l = [] → Forall (λ x, ¬ P x) l.
Proof.
  intros Hl. apply Forall_forall. intros x Hx HP. eapply elem_of_nil. rewrite <- Hl.
  by apply list_elem_of_filter.
Qed.

(** The last element of a list with a property splits it: none after it has it. *)
Lemma last_filter l x :
  last (filter P l) = Some x →
  ∃ l1 l2, l = l1 ++ x :: l2 ∧ P x ∧ Forall (λ y, ¬ P y) l2.
Proof.
  induction l as [|a l IH]; [done|]. rewrite filter_cons.
  destruct (last (filter P l)) as [y|] eqn:Hl.
  - intros Hx. assert (Some y = Some x) as [= ->].
    { rewrite <- Hx. destruct (decide (P a)); [by rewrite last_cons, Hl|done]. }
    destruct (IH eq_refl) as (l1 & l2 & -> & ? & ?). by exists (a :: l1), l2.
  - apply last_None in Hl. rewrite Hl. destruct (decide (P a)); [|done].
    intros [= ->]. exists [], l. split_and!; [done|done|]. by apply filter_nil_Forall.
Qed.
End last_filter.

(** A listed interface has the top-level usage the report descriptor of a HID instance
    of the firmware declares. *)
Definition declared_usage (instance : Z) (c : candidate) : Prop :=
  Some (cand_usage_page c, cand_usage c) = hid_top_usage (tud_hid_descriptor_report_cb instance).

(** It is the last in the list with the usage of the PRHP interface. *)
Definition last_declared (l : list candidate) (c : candidate) : Prop :=
  ∃ before after, l = before ++ c :: after ∧ declared_usage 0 c ∧
    Forall (λ c', ¬ declared_usage 0 c') after.

Definition default_device : DeviceConfig := MkDeviceConfig 0x5041 0x5245 DefaultUsagePage DefaultUsage "".

Lemma wanted_default c : wanted (with_defaults default_device) c ↔ declared_usage 0 c.
Proof.
  unfold wanted, declared_usage. cbn [with_defaults default_device UsagePage Usage Serial]. split.
  - by intros (-> & -> & _).
  - intros Htop. injection Htop as Hpage Husage. split_and!; [exact Hpage|exact Husage|by left].
Qed.

Lemma wanted_last_declared l c :
  last (filter (wanted (with_defaults default_device)) l) = Some c → last_declared l c.
Proof.
  intros (before & after & -> & Hc & Hafter)%last_filter. exists before, after.
  split; [done|]. split; [by apply wanted_default|].
  eapply Forall_impl; [exact Hafter|]. by intros c' Hc' Hd%wanted_default.
Qed.

(** ** Properties *)

(** C23: [parseUint16] accepts exactly a hexadecimal number below 65536, in either case,
    with any white space around it and the prefix 0x, 0X (or 0x0X, as the two trims
    compose), and returns its value; anything else is [ErrInvalidHexID]. *)
Theorem parse_uint16_exact value n :
  is_bytes value →
  (parseUint16 value = inr n ↔
    ∃ ws1 pre ds ws2, value = ws1 ++ pre ++ ds ++ ws2 ∧ spaces ws1 ∧ spaces ws2 ∧ hex_prefix pre ∧
      ds ≠ [] ∧ Forall is_hex ds ∧ n = hex_value ds ∧ (n < 65536)%Z) ∧
  ((∀ m, parseUint16 value ≠ inr m) → parseUint16 value = inl ErrInvalidHexID).
Proof.
  intros Hb. unfold parseUint16. split; [split|].
  - destruct (TrimSpace_outer value) as (ws1 & ws2 & H1 & H2 & Heq).
    destruct (trim_prefixes (TrimSpace value)) as (pre & Hpre & Ht).
    set (ds := TrimPrefix _ _) in *.
    assert (Hds : is_bytes ds).
    { rewrite Heq, Ht in Hb. apply Forall_app in Hb as [_ Hb]. apply Forall_app in Hb as [Hb _].
      by apply Forall_app in Hb as [_ ?]. }
    destruct (ParseUint_16_16 ds) as [m|] eqn:Hp; [|done]. intros [= <-].
    apply (ParseUint_exact ds m Hds) in Hp as (Hne & Hx & Hm & Hlt).
    assert (0 ≤ m)%Z by (subst m; by apply hex_foldl_ge).
    exists ws1, pre, ds, ws2. unfold u16. rewrite Z.mod_small by lia. split_and!; try done.
    rewrite Heq at 1. by rewrite Ht, <- app_assoc.
  - intros (ws1 & pre & ds & ws2 & -> & H1 & H2 & Hpre & Hne & Hx & Hn & Hlt).
    assert (Hds : is_bytes ds).
    { apply Forall_app in Hb as [_ Hb]. apply Forall_app in Hb as [_ Hb]. by apply Forall_app in Hb as [? _]. }
    destruct (exists_last Hne) as (ds' & z & Hlast).
    assert (Hz : is_hex z) by (rewrite Hlast in Hx; by apply Forall_app in Hx as [_ [? _]%Forall_cons]).
    assert (Hhead : ∃ a s, pre ++ ds = a :: s ∧ is_hex a).
    { destruct ds as [|d ds]; [done|]. apply Forall_cons in Hx as [? _].
      destruct Hpre as [->|[->|[->| ->]]]; eexists _, _; (split; [reflexivity|]);
        first [done|vm_compute; auto; intuition congruence]. }
    destruct Hhead as (a & s & Ha & Hxa).
    rewrite (app_assoc pre). rewrite (TrimSpace_inner ws1 ws2 a s z (pre ++ ds')); try done.
    2: { by rewrite Hlast, app_assoc. }
    rewrite trim_prefixes_hex by done.
    rewrite (proj2 (ParseUint_exact ds n Hds)) by done. f_equal. apply Z.mod_small.
    subst n. split; [by apply hex_foldl_ge|done].
  - intros Hno. destruct (ParseUint_16_16 _) as [m|]; [|done]. by destruct (Hno (u16 m)).
Qed.

(** C22: what the host looks for by default is the firmware's PRHP interface: with no
    identifier set in the environment, a timeout that parses and an enumeration that
    succeeds, the configuration has the vendor and product of the firmware's device
    descriptor, which are also the documented defaults, and [Open] opens, of the
    interfaces the enumeration lists, the last whose usage is the one the PRHP report
    descriptor declares, which is never one with that of the CardIO report descriptor;
    it reports that no device was found only if there is none, and an open error only if
    that interface does not open. *)
Theorem default_configuration_finds_reader tu getenv parse_duration timeout enumerate open_path l :
  getenv "PAREADER_VID"%string = ""%string → getenv "PAREADER_PID"%string = ""%string →
  getenv "PAREADER_SERIAL"%string = ""%string →
  parse_duration (environment getenv "PAREADER_TIMEOUT" "1s") = Some timeout →
  enumerate (idVendor (device_descriptor tu)) (idProduct (device_descriptor tu)) = Some l →
  DefaultVendorID = idVendor (device_descriptor tu) ∧
  DefaultProductID = idProduct (device_descriptor tu) ∧
  ∃ config, FromEnvironment getenv parse_duration = inr config ∧ Timeout config = timeout ∧
    match Open enumerate open_path (config_device config) with
    | inr (c, info) =>
        last_declared l c ∧ open_path (cand_path c) = true ∧ info_path info = cand_path c ∧
        Some (cand_usage_page c, cand_usage c) ≠ hid_top_usage (tud_hid_descriptor_report_cb 1)
    | inl ErrDeviceNotFound => Forall (λ c, ¬ declared_usage 0 c) l
    | inl e => e = ErrOpen ∧ ∃ c, last_declared l c ∧ open_path (cand_path c) = false
    end.
Proof.
  intros Hvid Hpid Hserial Hdur Henum. split; [done|]. split; [done|].
  exists (MkConfig default_device timeout). split; [|split; [done|]].
  { unfold FromEnvironment. rewrite Hdur, Hserial. unfold environment.
    by rewrite !decide_True by done. }
  unfold Open. cbn [with_defaults config_device default_device VendorID ProductID UsagePage Usage Serial].
  cbn [device_descriptor idVendor idProduct] in Henum. rewrite Henum, foldl_select.
  destruct (last _) as [c|] eqn:Hlast.
  - apply wanted_last_declared in Hlast.
    assert (Hn : ¬ declared_usage 1 c).
    { destruct Hlast as (_ & _ & _ & Hc & _). unfold declared_usage in *. by rewrite Hc. }
    destruct (open_path (cand_path c)) eqn:Hop; [|by eauto]. by split_and!.
  - apply last_None, filter_nil_Forall in Hlast.
    eapply Forall_impl; [exact Hlast|]. by intros c Hc Hd%wanted_default.
Qed.

(** ** Witnesses *)

Lemma parse_uint16_exact_witness :
  parseUint16 (bytes_of " 0x50aF ") = inr 0x50AF%Z.
Proof.
  apply (proj1 (parse_uint16_exact (bytes_of " 0x50aF ") 0x50AF (bytes_of_bytes _))).
  exists (bytes_of " "), (bytes_of "0x"), (bytes_of "50aF"), (bytes_of " ").
  assert (Hs : spaces (bytes_of " ")).
  { exists [[0x20%Z]]. split; [|reflexivity]. apply Forall_singleton. vm_compute. repeat constructor. }
  split; [reflexivity|]. split; [exact Hs|]. split; [exact Hs|].
  split; [right; left; reflexivity|]. split; [discriminate|].
  split; [|split; [reflexivity|lia]].
  repeat (apply Forall_cons_2; [unfold is_hex; vm_compute; intuition discriminate|]). apply Forall_nil_2.
Defined.

(** Two interfaces of one reader, as the operating system lists them. *)
Definition prhp_interface : candidate :=
  Candidate "prhp" 0x5041 0x5245 0xFF50 1 "000001" "PA Reader" "PA Reader PRHP".
Definition cardio_interface : candidate :=
  Candidate "cardio" 0x5041 0x5245 0xFFCA 1 "000001" "PA Reader" "PA Reader CardIO".

Definition some_constants : tinyusb_constants := TinyUsbConstants 9 66 32 25 0x20 0 18 1 0xEF 2 1 64.

(** Two readers are attached; the second is chosen. *)
Definition other_interface : candidate :=
  Candidate "other" 0x5041 0x5245 0xFF50 1 "000002" "PA Reader" "PA Reader PRHP".

Lemma default_configuration_finds_reader_witness :
  let listed := [prhp_interface; other_interface; cardio_interface] in
  ∃ config, FromEnvironment (λ _, ""%string) (λ _, Some 1000000000%Z) = inr config ∧
    Timeout config = 1000000000%Z ∧
    ∃ c info, Open (λ _ _, Some listed) (λ _, true) (config_device config) = inr (c, info) ∧
      last_declared listed c ∧ cand_path c = "other"%string.
Proof.
  intros listed.
  destruct (default_configuration_finds_reader some_constants (λ _, ""%string) (λ _, Some 1000000000%Z)
    1000000000 (λ _ _, Some listed) (λ _, true) listed eq_refl eq_refl eq_refl eq_refl eq_refl)
    as (_ & _ & config & Hrun & Ht & Hopen).
  exists config. split; [exact Hrun|]. split; [exact Ht|].
  destruct (Open _ _ _) as [e|[c info]] eqn:Ho.
  { vm_compute in Hrun. injection Hrun as <-. vm_compute in Ho. discriminate Ho. }
  exists c, info. split; [reflexivity|]. split; [apply Hopen|].
  vm_compute in Hrun. injection Hrun as <-. vm_compute in Ho. injection Ho as <- _. reflexivity.
Defined.
