(* ===== verification/Exports.v ===== *)
(** * cmd/aimeio/exports_windows.go: the functions the DLL exports

    The status codes, the lookups a game calls over the active service, and
    [aime_io_init] as goroutines that race for the one service the process keeps.  The
    caller's memory behind a pointer is the state of the lookups, [None] for a null
    pointer. *)
From stdpp Require Import gmap strings.
From S2P Require Import Prelude Platform Sim Pn532Iface Reader UsbDevice Prhp Cardio.
From S2P Require Import Protocol HostLink Caller.
From S2P Require Import Device.
From S2P Require Import Session Verify.
From S2P Require Import Service.
From S2P Require Import Config.

Definition sOK : Z := 0x00000000.
Definition sFalse : Z := 0x00000001.
Definition eFail : Z := 0x80004005.
Definition eInvalidArg : Z := 0x80070057.

(** [C.HRESULT(int32(value))] *)
Definition result (value : Z) : Z :=
  if (value <? 2 ^ 31)%Z then value else (value - 2 ^ 32)%Z.

Definition aime_io_get_api_version : Z := 0x0100.

Section exports.
Context {W : Type}.
Implicit Types service : option (Service W).

(** [activeService.Load()] is the argument of each function. *)
Definition aime_io_nfc_poll service (unit_no : Z) : Z :=
  match service with
  | None => result eFail
  | Some _ => if negb (unit_no =? 0)%Z then result sFalse else result sOK
  end.

Definition aime_io_nfc_get_aime_id service (unit_no luidSize : Z) : M (option (list Z)) Z :=
  match service with
  | None => ret (result eFail)
  | Some service =>
      if negb (unit_no =? 0)%Z then ret (result sFalse) else
      let* luid := get in
      match luid with
      | None => ret (result eInvalidArg)
      | Some memory =>
          if negb (luidSize =? 10)%Z then ret (result eInvalidArg) else
          let '(id, present) := Service.AimeID service in
          if negb present then ret (result sFalse) else
          let* memory := awrite memory 0 id in
          do* modify (λ _, Some memory) in
          ret (result sOK)
      end
  end.

Definition aime_io_nfc_get_mifare_block service (unit_no blocksSize : Z) : M (option (list Z)) Z :=
  match service with
  | None => ret (result eFail)
  | Some service =>
      if negb (unit_no =? 0)%Z then ret (result sFalse) else
      let* blocks := get in
      match blocks with
      | None => ret (result eInvalidArg)
      | Some memory =>
          if negb (blocksSize =? 32)%Z then ret (result eInvalidArg) else
          let '(data, present) := Service.MIFAREBlocks service in
          if negb present then ret (result sFalse) else
          let* memory := awrite memory 0 data in
          do* modify (λ _, Some memory) in
          ret (result sOK)
      end
  end.

(** The memory behind [idm] is one 64-bit number. *)
Definition aime_io_nfc_get_felica_id service (unit_no : Z) : M (option Z) Z :=
  match service with
  | None => ret (result eFail)
  | Some service =>
      if negb (unit_no =? 0)%Z then ret (result sFalse) else
      let* idm := get in
      match idm with
      | None => ret (result eInvalidArg)
      | Some _ =>
          let '(value, present) := Service.FeliCaID service in
          if negb present then ret (result sFalse) else
          do* modify (λ _, Some value) in
          ret (result sOK)
      end
  end.

(** [service.SetLED]'s result is ignored. *)
Definition aime_io_led_set_color (write : list Z → option link_error) (unit_no red green blue : Z)
    : M (option (Service W)) unit := λ service,
  match service with
  | None => Val (tt, service)
  | Some s =>
      if negb (unit_no =? 0)%Z then Val (tt, service) else
      match Service.SetLED write red green blue s with
      | Val (_, s') => Val (tt, Some s')
      | Ub => Ub
      | OutOfFuel => OutOfFuel
      end
  end.
End exports.

(** ** aime_io_init *)

(** The process: [activeService], and for every service made whether [Close] was called
    on it. *)
Record Process : Type := MkProcess {
  activeService : option nat;
  services : list bool;
}.

(** Where a goroutine in [aime_io_init] is. *)
Inductive init_pc : Type :=
  | InitLoad
  | InitConfigure
  | InitSwap (service : nat)
  | InitClose (service : nat)
  | InitDone (code : Z).

(** One atomic step; [settings] is what [config.FromEnvironment] answers now. *)
Definition init_step (settings : config_error + Config) (p : init_pc) : M Process (option init_pc) :=
  match p with
  | InitLoad =>
      let* s := get in
      ret (Some (match activeService s with
                 | Some _ => InitDone (result sOK) | None => InitConfigure end))
  | InitConfigure =>
      match settings with
      | inl _ => ret (Some (InitDone (result eFail)))
      | inr _ =>
          let* s := get in
          do* modify (λ s, MkProcess (activeService s) (services s ++ [false])) in
          ret (Some (InitSwap (length (services s))))
      end
  | InitSwap service =>
      let* s := get in
      match activeService s with
      | Some _ => ret (Some (InitClose service))
      | None =>
          do* modify (λ s, MkProcess (Some service) (services s)) in
          ret (Some (InitDone (result sOK)))
      end
  | InitClose service =>
      let* s := get in
      if (service <? length (services s))%nat then
        do* modify (λ s, MkProcess (activeService s) (<[service:=true]> (services s))) in
        ret (Some (InitDone (result sOK)))
      else ub
  | InitDone _ => ret None
  end.

Record init_system : Type := InitSystem {
  process : Process;
  inits : list init_pc;
}.

(** Somebody calls [aime_io_init], or a caller goes on. *)
Inductive init_next : init_system → init_system → Prop :=
  | init_call s ts : init_next (InitSystem s ts) (InitSystem s (ts ++ [InitLoad]))
  | init_thread s ts i p settings p' s' :
      ts !! i = Some p → init_step settings p s = Val (Some p', s') →
      init_next (InitSystem s ts) (InitSystem s' (<[i:=p']> ts)).

Definition init_start : init_system := InitSystem (MkProcess None []) [].

(** ** Lemmas *)

(** The service a caller made and has not disposed of. *)
Definition owned (p : init_pc) : option nat :=
  match p with InitSwap j | InitClose j => Some j | _ => None end.

Record init_ok (σ : init_system) : Prop := {
  init_active i : activeService (process σ) = Some i → services (process σ) !! i = Some false ∧
    ∀ t p, inits σ !! t = Some p → owned p ≠ Some i;
  init_open j : services (process σ) !! j = Some false → activeService (process σ) ≠ Some j →
    ∃ t p, inits σ !! t = Some p ∧ owned p = Some j;
  init_owner t p j : inits σ !! t = Some p → owned p = Some j → services (process σ) !! j = Some false;
  init_unique t t' p p' j : inits σ !! t = Some p → inits σ !! t' = Some p' →
    owned p = Some j → owned p' = Some j → t = t';
  init_closing t j : inits σ !! t = Some (InitClose j) → activeService (process σ) ≠ None;
  init_result t code : inits σ !! t = Some (InitDone code) →
    code = result eFail ∨ (code = result sOK ∧ activeService (process σ) ≠ None);
}.

(** A step of caller [i], as seen from the others. *)
Lemma init_ok_update s s' ts i p p' :
  init_ok (InitSystem s ts) → ts !! i = Some p →
  (∀ a, activeService s' = Some a → services s' !! a = Some false ∧ owned p' ≠ Some a ∧
     ∀ t q, t ≠ i → ts !! t = Some q → owned q ≠ Some a) →
  (∀ j, services s' !! j = Some false → activeService s' ≠ Some j → owned p' = Some j ∨
     ∃ t q, t ≠ i ∧ ts !! t = Some q ∧ owned q = Some j) →
  (∀ j, owned p' = Some j → services s' !! j = Some false ∧
     ∀ t q, t ≠ i → ts !! t = Some q → owned q ≠ Some j) →
  (∀ t q j, t ≠ i → ts !! t = Some q → owned q = Some j → services s' !! j = Some false) →
  (activeService s ≠ None → activeService s' ≠ None) →
  (∀ j, p' = InitClose j → activeService s' ≠ None) →
  (∀ code, p' = InitDone code → code = result eFail ∨ (code = result sOK ∧ activeService s' ≠ None)) →
  init_ok (InitSystem s' (<[i:=p']> ts)).
Proof.
  intros Hok Hi Hact Hopen Hown Hothers Hmono Hclosing Hres.
  assert (Hlt : i < length ts) by by eapply lookup_lt_Some.
  split; cbn [process inits].
  - intros a Ha. destruct (Hact a Ha) as (? & ? & Hq). split; [done|].
    intros t q [(<- & <- & _)|[? ?]]%list_lookup_insert_Some; [done|by eapply Hq].
  - intros j Hj Ha. destruct (Hopen j Hj Ha) as [Ho|(t & q & Hne & Ht & Ho)].
    + exists i, p'. by rewrite list_lookup_insert_eq.
    + exists t, q. by rewrite list_lookup_insert_ne.
  - intros t q j [(<- & <- & _)|[? ?]]%list_lookup_insert_Some Ho; [by apply Hown|by eapply Hothers].
  - intros t t' q q' j [(<- & <- & _)|[Hne Ht]]%list_lookup_insert_Some
      [(<- & <- & _)|[Hne' Ht']]%list_lookup_insert_Some Ho Ho'; [done|..].
    + destruct (Hown j Ho) as [_ Hno]. by destruct (Hno t' q').
    + destruct (Hown j Ho') as [_ Hno]. by destruct (Hno t q).
    + by eapply (init_unique _ Hok).
  - intros t j [(<- & Heq & _)|[? Ht]]%list_lookup_insert_Some; [by eapply Hclosing|].
    apply Hmono. by eapply (init_closing _ Hok).
  - intros t code [(<- & Heq & _)|[? Ht]]%list_lookup_insert_Some; [by apply Hres|].
    destruct (init_result _ Hok t code Ht) as [|[? ?]]; [by left|right]. auto.
Qed.

(** The others' part of the invariant. *)
Lemma init_ok_others s ts i p :
  init_ok (InitSystem s ts) → ts !! i = Some p →
  (∀ a, activeService s = Some a → services s !! a = Some false ∧
     ∀ t q, t ≠ i → ts !! t = Some q → owned q ≠ Some a) ∧
  (∀ j, services s !! j = Some false → activeService s ≠ Some j → owned p = Some j ∨
     ∃ t q, t ≠ i ∧ ts !! t = Some q ∧ owned q = Some j) ∧
  (∀ j, owned p = Some j → services s !! j = Some false ∧ activeService s ≠ Some j ∧
     ∀ t q, t ≠ i → ts !! t = Some q → owned q ≠ Some j) ∧
  (∀ t q j, t ≠ i → ts !! t = Some q → owned q = Some j → services s !! j = Some false).
Proof.
  intros [Hact Hopen Hown Huniq _ _] Hi. cbn [process inits] in *. split_and!.
  - intros a Ha. destruct (Hact a Ha) as [? Hno]. split; [done|]. intros t q _ Ht. by eapply Hno.
  - intros j Hj Ha. destruct (Hopen j Hj Ha) as (t & q & Ht & Ho).
    destruct (decide (t = i)) as [->|Hne]; [left; by simplify_eq|right; by exists t, q].
  - intros j Ho. split_and!; [by eapply Hown| |].
    + intros Ha. destruct (Hact j Ha) as [_ Hno]. by apply (Hno i p).
    + intros t q Hne Ht Hq. apply Hne. by eapply Huniq.
  - intros t q j _ Ht Ho. by eapply Hown.
Qed.

(** A step that leaves the process alone. *)
Lemma init_ok_stay s ts i p p' :
  init_ok (InitSystem s ts) → ts !! i = Some p → owned p' = owned p →
  (∀ j, p' = InitClose j → activeService s ≠ None) →
  (∀ code, p' = InitDone code → code = result eFail ∨ (code = result sOK ∧ activeService s ≠ None)) →
  init_ok (InitSystem s (<[i:=p']> ts)).
Proof.
  intros Hok Hi Heq Hclosing Hres. destruct (init_ok_others s ts i p Hok Hi) as (Hact & Hopen & Hown & Hothers).
  eapply init_ok_update; [done|done|..]; rewrite ?Heq; try done.
  - intros a Ha. destruct (Hact a Ha). split_and!; try done. intros Ho. by destruct (Hown a Ho) as (_ & ? & _).
  - intros j Ho. by destruct (Hown j Ho) as (? & _ & ?).
Qed.

(** A caller makes a service. *)
Lemma init_ok_make s ts i p :
  init_ok (InitSystem s ts) → ts !! i = Some p → owned p = None →
  init_ok (InitSystem (MkProcess (activeService s) (services s ++ [false]))
    (<[i:=InitSwap (length (services s))]> ts)).
Proof.
  intros Hok Hi Hnone. destruct (init_ok_others s ts i p Hok Hi) as (Hact & Hopen & Hown & Hothers).
  assert (Hfresh : ∀ j, services s !! j = Some false → j ≠ length (services s))
    by (intros j Hj; apply lookup_lt_Some in Hj; lia).
  eapply init_ok_update; [done|done|..]; cbn [owned activeService services]; try done.
  - intros a Ha. destruct (Hact a Ha) as [Hf Hno]. split_and!; [by apply lookup_app_l_Some| |done].
    intros [= <-]. by destruct (Hfresh _ Hf).
  - intros j [Hj|[Hle Hj]]%lookup_app_Some Ha.
    + destruct (Hopen j Hj Ha) as [Ho|?]; [congruence|by right].
    + left. f_equal. apply list_lookup_singleton_Some in Hj as [? _]. lia.
  - intros j [= <-]. split; [by apply list_lookup_middle|].
    intros t q Hne Ht Ho. by destruct (Hfresh _ (Hothers t q _ Hne Ht Ho)).
  - intros t q j Hne Ht Ho. apply lookup_app_l_Some. by eapply Hothers.
Qed.

(** A caller's service becomes the active one. *)
Lemma init_ok_win s ts i j :
  init_ok (InitSystem s ts) → ts !! i = Some (InitSwap j) → activeService s = None →
  init_ok (InitSystem (MkProcess (Some j) (services s)) (<[i:=InitDone (result sOK)]> ts)).
Proof.
  intros Hok Hi Hnone. destruct (init_ok_others s ts i _ Hok Hi) as (Hact & Hopen & Hown & Hothers).
  destruct (Hown j eq_refl) as (Hj & _ & Hno).
  eapply init_ok_update; [done|done|..]; cbn [owned activeService services]; try done.
  - by intros a [= <-].
  - intros k Hk Hne. destruct (Hopen k Hk) as [[= ->]|?]; [by rewrite Hnone|done|by right].
  - intros code [= <-]. by right.
Qed.

(** A caller that lost closes its service. *)
Lemma init_ok_lose s ts i j :
  init_ok (InitSystem s ts) → ts !! i = Some (InitClose j) →
  init_ok (InitSystem (MkProcess (activeService s) (<[j:=true]> (services s)))
    (<[i:=InitDone (result sOK)]> ts)).
Proof.
  intros Hok Hi. destruct (init_ok_others s ts i _ Hok Hi) as (Hact & Hopen & Hown & Hothers).
  destruct (Hown j eq_refl) as (Hj & Hnj & Hno).
  pose proof (init_closing _ Hok i j Hi) as Hsome. cbn [process] in Hsome.
  eapply init_ok_update; [done|done|..]; cbn [owned activeService services]; try done.
  - intros a Ha. destruct (Hact a Ha) as [Hf ?]. split_and!; try done.
    rewrite list_lookup_insert_ne; [done|congruence].
  - intros k Hk Ha. apply list_lookup_insert_Some in Hk as [(_ & ? & _)|[Hne Hk]]; [done|].
    destruct (Hopen k Hk Ha) as [[= ->]|?]; [done|by right].
  - intros t q k Hne Ht Ho. rewrite list_lookup_insert_ne; [by eapply Hothers|].
    intros <-. by eapply Hno.
  - intros code [= <-]. by right.
Qed.

Lemma init_step_ok s ts i p settings :
  init_ok (InitSystem s ts) → ts !! i = Some p →
  ∃ r s', init_step settings p s = Val (r, s') ∧
    ∀ p', r = Some p' → init_ok (InitSystem s' (<[i:=p']> ts)).
Proof.
  intros Hok Hi.
  destruct p as [| |j|j|code]; cbn [init_step]; unfold bind, get, modify, ret, ub.
  - eexists _, _. split; [reflexivity|]. intros p' [= <-].
    eapply init_ok_stay; [done|done|by destruct (activeService s)|by destruct (activeService s)|].
    intros code. destruct (activeService s); [|done]. intros [= <-]. by right.
  - destruct settings as [e|config]; eexists _, _; (split; [reflexivity|]); intros p' [= <-].
    + eapply init_ok_stay; [done|done|done|done|]. intros code [= <-]. by left.
    + by eapply init_ok_make.
  - destruct (activeService s) as [a|] eqn:Ha; eexists _, _; (split; [reflexivity|]); intros p' [= <-].
    + eapply init_ok_stay; [done|done|done| |done]. intros. by rewrite Ha.
    + by apply init_ok_win.
  - destruct (init_ok_others s ts i _ Hok Hi) as (_ & _ & Hown & _).
    destruct (Hown j eq_refl) as (Hj & _). apply lookup_lt_Some in Hj.
    rewrite (proj2 (Nat.ltb_lt _ _)) by done. eexists _, _. split; [reflexivity|].
    intros p' [= <-]. by apply init_ok_lose.
  - by eexists _, _.
Qed.

(** Any number of calls, in any interleaving. *)
Inductive init_reachable : init_system → Prop :=
  | init_reach_start : init_reachable init_start
  | init_reach_next σ σ' : init_reachable σ → init_next σ σ' → init_reachable σ'.

Lemma init_call_ok s ts : init_ok (InitSystem s ts) → init_ok (InitSystem s (ts ++ [InitLoad])).
Proof.
  intros [Hact Hopen Hown Huniq Hclosing Hres]. cbn [process inits] in *.
  assert (Hold : ∀ t p, (ts ++ [InitLoad]) !! t = Some p → ts !! t = Some p ∨ p = InitLoad).
  { intros t p [?|[_ [_ ?]%list_lookup_singleton_Some]]%lookup_app_Some; [by left|by right]. }
  assert (Hnew : ∀ t p j, (ts ++ [InitLoad]) !! t = Some p → owned p = Some j → ts !! t = Some p)
    by (intros t p j Ht Ho; destruct (Hold t p Ht) as [| ->]; done).
  split; cbn [process inits].
  - intros i Hi. destruct (Hact i Hi) as [? Hno]. split; [done|]. intros t p Ht Ho.
    by apply (Hno t p); [eapply Hnew|].
  - intros j Hj Ha. destruct (Hopen j Hj Ha) as (t & p & Ht & Ho). exists t, p.
    split; [by apply lookup_app_l_Some|done].
  - intros t p j Ht Ho. apply (Hown t p j); [by eapply Hnew|done].
  - intros t t' p p' j Ht Ht' Ho Ho'. by apply (Huniq t t' p p' j); try done; eapply Hnew.
  - intros t j Ht. apply (Hclosing t j). by eapply Hnew.
  - intros t code Ht. destruct (Hold _ _ Ht) as [?|?]; [by eapply Hres|done].
Qed.

Lemma init_reachable_ok σ : init_reachable σ → init_ok σ.
Proof.
  induction 1 as [|σ σ' _ IH Hnext].
  - by split; cbn; intros.
  - destruct Hnext as [s ts|s ts i p settings p' s' Hi Hstep]; [by apply init_call_ok|].
    destruct (init_step_ok s ts i p settings IH Hi) as (r & s1 & Hstep' & Hok).
    rewrite Hstep in Hstep'. simplify_eq. by apply Hok.
Qed.

(** A call that has started is over. *)
Definition init_over (p : init_pc) : bool := match p with InitDone _ => true | _ => false end.

Section exports_laws.
Context {W : Type}.
Implicit Types service : Service W.

Lemma awrite_whole {S} (memory src : list Z) (s : S) :
  length src = length memory → awrite memory 0 src s = Val (src, s).
Proof.
  intros Hlen. unfold awrite. cbn [Nat.add]. rewrite Hlen, Nat.leb_refl, drop_all.
  cbn. by rewrite app_nil_r.
Qed.

(** The lookups for unit 0 with a buffer of the right size, while the active session
    shows the reader's observation [card]. *)
Record exports_of service (card : reader_card_t) : Prop := {
  export_aime_id memory : length memory = 10 →
    aime_io_nfc_get_aime_id (Some service) 0 10 (Some memory) =
      if bool_decide (card_type card = READER_CARD_MIFARE ∧ card_has_blocks card = true ∧
                      card_luid card ≠ replicate 10 0%Z)
      then Val (0%Z, Some (card_luid card)) else Val (1%Z, Some memory);
  export_mifare_block memory : length memory = 32 →
    aime_io_nfc_get_mifare_block (Some service) 0 32 (Some memory) =
      if bool_decide (card_type card = READER_CARD_MIFARE ∧ card_has_blocks card = true)
      then Val (0%Z, Some (card_blocks card)) else Val (1%Z, Some memory);
  export_felica_id idm :
    aime_io_nfc_get_felica_id (Some service) 0 (Some idm) =
      if bool_decide (card_type card = READER_CARD_FELICA)
      then Val (0%Z, Some (big_endian (card_idm card))) else Val (1%Z, Some idm);
}.

Lemma exports_of_active service k card :
  load_active service = Some k → latest (conn_session k) = host_card card → wf_card card →
  exports_of service card.
Proof.
  intros Hload Hl Hc. destruct (host_card_lookups card Hc) as (Haime & Hblocks & Hfelica).
  pose proof Hc as [_ (Hll & _) (Hbl & _) _ _ _ _ _ _].
  split; [intros memory Hm; unfold aime_io_nfc_get_aime_id, Service.AimeID
         |intros memory Hm; unfold aime_io_nfc_get_mifare_block, Service.MIFAREBlocks
         |intros idm; unfold aime_io_nfc_get_felica_id, Service.FeliCaID];
    unfold bind, get; rewrite Hload; cbn [Z.eqb Pos.eqb negb]; unfold Session.CurrentCard;
    rewrite Hl, ?Haime, ?Hblocks, ?Hfelica; clear Haime Hblocks Hfelica;
    destruct (bool_decide _); cbn [negb]; try done; by rewrite awrite_whole by congruence.
Qed.
End exports_laws.

(** ** Properties *)

(** C21: racing calls of [aime_io_init] leave one service: whatever the interleaving and
    whatever the environment says each time, no caller panics; the active service, once
    there, is never replaced and never closed; every other service that is still open is
    held by a caller that is about to publish or close it, so that when all calls have
    returned all of them are closed; and a call returns S_OK only when a service is
    active, E_FAIL otherwise. *)
Theorem init_keeps_one_service σ :
  init_reachable σ →
  (∀ i p settings, inits σ !! i = Some p → ∃ r, init_step settings p (process σ) = Val r) ∧
  (∀ a, activeService (process σ) = Some a → services (process σ) !! a = Some false ∧
     ∀ σ', init_next σ σ' → activeService (process σ') = Some a) ∧
  (Forall (λ p, init_over p = true) (inits σ) →
   ∀ j, services (process σ) !! j = Some false → activeService (process σ) = Some j) ∧
  (∀ t code, inits σ !! t = Some (InitDone code) →
     code = result eFail ∨ code = result sOK ∧ activeService (process σ) ≠ None).
Proof.
  intros Hr. pose proof (init_reachable_ok σ Hr) as Hok. split_and!.
  - intros i p settings Hi. destruct σ as [s ts].
    destruct (init_step_ok s ts i p settings Hok Hi) as (r & s' & Hrun & _). by exists (r, s').
  - intros a Ha. split; [by apply (init_active _ Hok)|]. intros σ' Hnext.
    destruct Hnext as [s ts|s ts i p settings p' s' Hi Hstep]; [done|]. cbn [process] in *.
    destruct p as [| |j|j|code]; cbn [init_step] in Hstep; unfold bind, get, modify, ret, ub in Hstep;
      rewrite ?Ha in Hstep; repeat case_match; simplify_eq; done.
  - intros Hall j Hj. destruct (decide (activeService (process σ) = Some j)) as [|Hne]; [done|].
    destruct (init_open _ Hok j Hj Hne) as (t & p & Ht & Ho).
    eapply Forall_lookup_1 in Hall; [|exact Ht]. by destruct p.
  - apply (init_result _ Hok).
Qed.

Section exports_claims.
Context {W : Type}.
Implicit Types service : Service W.

(** C20: what the game sees of the card on the reader.  While the active session shows
    the reader's observation [card], each exported lookup, called for unit 0 with a
    buffer of the right size, returns S_OK and fills the buffer exactly when the
    observation is of its kind (the access code only when it is not all zero), and
    S_FALSE with the buffer untouched otherwise; polling answers S_OK for unit 0, card
    or not; another unit is S_FALSE, a null pointer or a wrong size E_INVALIDARG, and
    before initialisation everything is E_FAIL, none of them touching the buffer. *)
Theorem exports_show_card service i k card :
  active service = Some i → sessions service !! i = Some k → latest (conn_session k) = host_card card →
  wf_card card →
  (∀ memory, length memory = 10 →
     aime_io_nfc_get_aime_id (Some service) 0 10 (Some memory) =
       if bool_decide (card_type card = READER_CARD_MIFARE ∧ card_has_blocks card = true ∧
                       card_luid card ≠ replicate 10 0%Z)
       then Val (0%Z, Some (card_luid card)) else Val (1%Z, Some memory)) ∧
  (∀ memory, length memory = 32 →
     aime_io_nfc_get_mifare_block (Some service) 0 32 (Some memory) =
       if bool_decide (card_type card = READER_CARD_MIFARE ∧ card_has_blocks card = true)
       then Val (0%Z, Some (card_blocks card)) else Val (1%Z, Some memory)) ∧
  (∀ idm, aime_io_nfc_get_felica_id (Some service) 0 (Some idm) =
     if bool_decide (card_type card = READER_CARD_FELICA)
     then Val (0%Z, Some (big_endian (card_idm card))) else Val (1%Z, Some idm)) ∧
  aime_io_nfc_poll (Some service) 0 = 0%Z ∧
  (∀ unit_no size memory, unit_no ≠ 0%Z →
     aime_io_nfc_poll (Some service) unit_no = 1%Z ∧
     aime_io_nfc_get_aime_id (Some service) unit_no size memory = Val (1%Z, memory) ∧
     aime_io_nfc_get_mifare_block (Some service) unit_no size memory = Val (1%Z, memory) ∧
     ∀ idm, aime_io_nfc_get_felica_id (Some service) unit_no idm = Val (1%Z, idm)) ∧
  (∀ size memory, memory = None ∨ size ≠ 10%Z →
     aime_io_nfc_get_aime_id (Some service) 0 size memory = Val ((-2147024809)%Z, memory)) ∧
  (∀ size memory, memory = None ∨ size ≠ 32%Z →
     aime_io_nfc_get_mifare_block (Some service) 0 size memory = Val ((-2147024809)%Z, memory)) ∧
  aime_io_nfc_get_felica_id (Some service) 0 None = Val ((-2147024809)%Z, None) ∧
  (∀ unit_no size memory idm,
     aime_io_nfc_poll (@None (Service W)) unit_no = (-2147467259)%Z ∧
     aime_io_nfc_get_aime_id (@None (Service W)) unit_no size memory = Val ((-2147467259)%Z, memory) ∧
     aime_io_nfc_get_mifare_block (@None (Service W)) unit_no size memory =
       Val ((-2147467259)%Z, memory) ∧
     aime_io_nfc_get_felica_id (@None (Service W)) unit_no idm = Val ((-2147467259)%Z, idm)).
Proof.
  intros Ha Hk Hl Hc.
  destruct (exports_of_active service k card) as [Haime Hblocks Hfelica];
    [by unfold load_active; rewrite Ha|done|done|].
  split_and!; [exact Haime|exact Hblocks|exact Hfelica|..].
  - done.
  - intros unit_no size memory Hu. unfold aime_io_nfc_poll, aime_io_nfc_get_aime_id, aime_io_nfc_get_mifare_block,
      aime_io_nfc_get_felica_id. by rewrite (proj2 (Z.eqb_neq _ _) Hu).
  - intros size memory Hbad. unfold aime_io_nfc_get_aime_id, bind, get. cbn [Z.eqb negb].
    destruct memory; [|done]. destruct Hbad as [|Hs]; [done|]. by rewrite (proj2 (Z.eqb_neq _ _) Hs).
  - intros size memory Hbad. unfold aime_io_nfc_get_mifare_block, bind, get. cbn [Z.eqb negb].
    destruct memory; [|done]. destruct Hbad as [|Hs]; [done|]. by rewrite (proj2 (Z.eqb_neq _ _) Hs).
  - done.
  - done.
Qed.
End exports_claims.

(** ** Witnesses *)

(** Two callers race: both make a service, the first publishes its own, the second
    closes the one it made. *)
Definition some_settings : config_error + Config :=
  inr (MkConfig (MkDeviceConfig 0x5041 0x5245 0xFF50 1 "") 1000000000).

Fixpoint init_schedule (sched : list nat) (σ : init_system) : init_system :=
  match sched with
  | [] => σ
  | i :: sched =>
      match inits σ !! i with
      | Some p =>
          match init_step some_settings p (process σ) with
          | Val (Some p', s) => init_schedule sched (InitSystem s (<[i:=p']> (inits σ)))
          | _ => σ
          end
      | None => σ
      end
  end.

Lemma init_schedule_reachable sched σ : init_reachable σ → init_reachable (init_schedule sched σ).
Proof.
  revert σ. induction sched as [|i sched IH]; intros [s ts] Hr; cbn [init_schedule]; [done|].
  cbn [inits process]. destruct (ts !! i) as [p|] eqn:Hi; [|done].
  destruct (init_step some_settings p s) as [[[p'|] s']| |] eqn:Hs; try done.
  apply IH. eapply init_reach_next; [exact Hr|]. by eapply init_thread.
Qed.

Definition raced : init_system :=
  init_schedule [0; 1; 0; 1; 0; 1; 1] (InitSystem (MkProcess None []) [InitLoad; InitLoad]).

Lemma init_keeps_one_service_witness :
  init_reachable raced ∧ inits raced = [InitDone 0; InitDone 0]%Z ∧
  services (process raced) = [false; true] ∧
  ∀ j, services (process raced) !! j = Some false → activeService (process raced) = Some j.
Proof.
  assert (Hr : init_reachable raced).
  { apply init_schedule_reachable.
    eapply init_reach_next; [|apply (init_call _ [InitLoad])].
    eapply init_reach_next; [apply init_reach_start|apply (init_call _ [])]. }
  split; [exact Hr|]. split; [vm_compute; reflexivity|]. split; [vm_compute; reflexivity|].
  destruct (init_keeps_one_service raced Hr) as (_ & _ & Hall & _). apply Hall.
  apply (bool_decide_unpack _). vm_compute. exact I.
Defined.

(** The service of Service.v's example, after its card has arrived. *)
Lemma exports_show_card_witness :
  aime_io_nfc_get_felica_id (Some (svc after_found.2)) 0 (Some 0%Z) =
    Val (0%Z, Some 0x0127020304050607%Z) ∧
  aime_io_nfc_get_aime_id (Some (svc after_found.2)) 0 10 (Some (replicate 10 7%Z)) =
    Val (1%Z, Some (replicate 10 7%Z)).
Proof.
  destruct (sessions (svc after_found.2) !! 0) as [k|] eqn:Hk; [|vm_compute in Hk; discriminate Hk].
  destruct (exports_show_card (svc after_found.2) 0 k sample_felica_card) as (Haime & _ & Hfelica & _).
  - vm_compute. reflexivity.
  - exact Hk.
  - vm_compute in Hk. injection Hk as <-. vm_compute. reflexivity.
  - apply sample_felica_card_wf.
  - split.
    + rewrite Hfelica. vm_compute. reflexivity.
    + rewrite Haime by reflexivity. vm_compute. reflexivity.
Defined.
