(* ===== verification/System.v ===== *)
(** * The reader and the host together

    The firmware of App.v publishes cards as reports; the service of Service.v shows
    the card of the reports its active session received; the exports of Exports.v give
    it to the game.  Here the two ends meet, over an interface that says which reports
    the USB host takes, and that it takes all from the moment it is attached on. *)
From stdpp Require Import gmap strings.
From S2P Require Import Prelude Platform Sim Pn532Iface Pn532 Reader UsbDevice Prhp Cardio Sega App.
From S2P Require Import Protocol HostLink Caller.
From S2P Require Import Device.
From S2P Require Import Session Verify.
From S2P Require Import Service.
From S2P Require Import Config Exports.

(** ** The host: a running session shows the reports it received *)

(** What session [i] received, in order. *)
Definition received (i : nat) (es : list svc_event) : list (list Z) :=
  omap (λ e, match e with
             | Received j raw => if decide (j = i) then Some raw else None
             | Verified _ => None
             end) es.

Section shows.
Context {W : Type} `{CallCacheLaws W live} (empty : W) (timeout : Z).
Implicit Types s : Service W.

(** A step that leaves the card, the failure and the end of every session alone. *)
Definition views_kept s s' : Prop :=
  Forall2 (λ k k' : Conn W, same_view (conn_session k) (conn_session k')) (sessions s) (sessions s').

Lemma views_kept_refl s s' : sessions s' = sessions s → views_kept s s'.
Proof. unfold views_kept. intros ->. by apply Forall_Forall2_diag, Forall_true. Qed.

Lemma views_kept_insert s s' i k k' :
  sessions s !! i = Some k → same_view (conn_session k) (conn_session k') →
  sessions s' = <[i:=k']> (sessions s) → views_kept s s'.
Proof.
  unfold views_kept. intros Hi Hv ->.
  assert (Heq : sessions s = <[i:=k]> (sessions s)) by by rewrite list_insert_id.
  rewrite Heq at 1. apply Forall2_insert; [by apply (views_kept_refl s s)|done].
Qed.

Lemma on_session_views {A} i (m : M (Session W) A) s a s' :
  (∀ k b k', m k = Val (b, k') → same_view k k') → on_session i m s = Val (a, s') → views_kept s s'.
Proof.
  intros Hm. unfold on_session. destruct (sessions s !! i) as [k|] eqn:Hi; [|done].
  destruct (m (conn_session k)) as [[b k']| |] eqn:Hrun; [|done..]. intros ?; simplify_eq.
  apply (views_kept_insert s _ i k (MkConn k' (conn_closed k) (conn_info k)) Hi); [by eapply Hm|done].
Qed.

Lemma session_close_views i s a s' : session_close i s = Val (a, s') → views_kept s s'.
Proof.
  unfold session_close. destruct (sessions s !! i) as [k|] eqn:Hi; [|done]. intros ?; simplify_eq.
  by apply (views_kept_insert s _ i k (MkConn (conn_session k) true (conn_info k)) Hi).
Qed.

Lemma on_caller_view {A} (m : M (Caller W) A) (k : Session W) a k' :
  on_caller m k = Val (a, k') → same_view k k'.
Proof. unfold on_caller. destruct (m _) as [[? ?]| |]; intros; by simplify_eq. Qed.

Lemma verify_request_view write (k : Session W) r k' :
  verify_request timeout write k = Val (r, k') → same_view k k'.
Proof.
  unfold verify_request, bind at 1.
  destruct (on_caller _ k) as [[[e|[n call]] k1]| |] eqn:Hc; [..|done|done];
    apply on_caller_view in Hc; [by intros [= _ <-]|].
  destruct (get_version_run n k1) as [raw Henc]. rewrite (bind_val _ _ _ _ _ Henc).
  by intros [= _ <-].
Qed.

Lemma verify_select_view ctx_done w call (k : Session W) r k' :
  verify_select ctx_done w call k = Val (r, k') → same_view k k'.
Proof.
  destruct w; cbn [verify_select]; [|by intros [= _ <-]..].
  unfold bind at 1. destruct (on_caller _ k) as [[[raw|] k1]| |] eqn:Hc; [..|done|done];
    apply on_caller_view in Hc; [|by intros [= _ <-]].
  destruct (check_version_run raw k1) as (e & He & _). rewrite (bind_val _ _ _ _ _ He).
  by intros [= _ <-].
Qed.

(** A step of the runner shows nothing new; it may make a session. *)
Lemma run_step_views c p s p' es s' :
  run_step empty timeout c p s = Val (Some (p', es), s') →
  (∀ i, received i es = []) ∧
  (views_kept s s' ∨ ∃ info, sessions s' = sessions s ++ [MkConn (newSession empty) false info]).
Proof.
  assert (Hview : ∀ {A} i (m : M (Session W) A) s a s1 s2,
    (∀ k b k', m k = Val (b, k') → same_view k k') → on_session i m s = Val (a, s1) →
    sessions s2 = sessions s1 → views_kept s s2).
  { intros A i m s0 a s1 s2 Hm Ho Heq. unfold views_kept. rewrite Heq. by eapply on_session_views. }
  destruct p; cbn [run_step]; unfold session_done, storeError, bind, get, modify, ret, ub.
  all: repeat match goal with
    | |- context [on_session ?i ?m ?s0] =>
        let Ho := fresh "Ho" in destruct (on_session i m s0) as [[? ?]| |] eqn:Ho; [|intros [=]..]
    | |- context [session_close ?i ?s0] =>
        let Ho := fresh "Ho" in destruct (session_close i s0) as [[? ?]| |] eqn:Ho;
          [apply session_close_views in Ho|intros [=]..]
    end.
  all: repeat case_match; intros; simplify_eq; (split; [done|]).
  all: try (left; first [done|by apply views_kept_refl]).
  all: try (left; eapply Hview; [|eassumption|done];
    intros; first [by eapply verify_request_view|by eapply verify_select_view|by cbn in *; simplify_eq]).
  right. by eexists.
Qed.

Lemma close_step_views q s q' s' : close_step q s = Val (Some q', s') → views_kept s s'.
Proof.
  destruct q; cbn [close_step]; unfold bind, get, modify, ret.
  4: destruct (session_close _ s) as [[? ?]| |] eqn:Ho; [apply session_close_views in Ho|done..].
  all: repeat case_match; intros; simplify_eq; first [done|by apply views_kept_refl].
Qed.

(** Every session whose read loop runs shows the reports it received. *)
Record shows_received (es : list svc_event) s : Prop := {
  shows_card i k : sessions s !! i = Some k → done (conn_session k) = false →
    latest (conn_session k) = foldl card_after (empty_card CardNone) (received i es);
  shows_fresh i : length (sessions s) ≤ i → received i es = [];
}.

Lemma received_app i es es' : received i (es ++ es') = received i es ++ received i es'.
Proof. apply omap_app. Qed.

Lemma shows_kept es es' s s' :
  shows_received es s → (∀ i, received i es' = []) → views_kept s s' → shows_received (es ++ es') s'.
Proof.
  intros [Hcard Hfresh] Hno Hv. split; intros i; rewrite received_app, Hno, app_nil_r.
  - intros k' Hk' Hd. destruct (Forall2_lookup_r _ _ _ _ _ Hv Hk') as (k & Hk & Hl & _ & Hd').
    rewrite Hl. apply (Hcard i k Hk). congruence.
  - intros Hi. apply Hfresh. by rewrite (Forall2_length _ _ _ Hv).
Qed.

Lemma shows_new es es' s s' info :
  shows_received es s → (∀ i, received i es' = []) →
  sessions s' = sessions s ++ [MkConn (newSession empty) false info] → shows_received (es ++ es') s'.
Proof.
  intros [Hcard Hfresh] Hno Heq. split; intros i; rewrite received_app, Hno, app_nil_r, Heq.
  - intros k [Hk|[Hge [_ <-]%list_lookup_singleton_Some]]%lookup_app_Some Hd; [by eapply Hcard|].
    by rewrite Hfresh.
  - rewrite length_app. intros. apply Hfresh. lia.
Qed.

(** A read loop takes a report, or ends. *)
Lemma shows_read es s s' i k r :
  shows_received es s → sessions s !! i = Some k → done (conn_session k) = false →
  calls_ready live (session_caller (conn_session k)) →
  on_session i (readLoop [r]) s = Val (tt, s') →
  shows_received (es ++ match r with inr raw => [Received i raw] | inl _ => [] end) s'.
Proof.
  intros [Hcard Hfresh] Hi Hd Hr. unfold on_session. rewrite Hi.
  assert (Hread : ∀ k', readLoop [r] (conn_session k) = Val (tt, k') →
    match r with inl _ => done k' = true | inr raw => latest k' = card_after (latest (conn_session k)) raw end).
  { intros k'. destruct r as [err|raw]; [by intros [= <-]|]. unfold readLoop, bind. cbn [ReadLoop].
    destruct (dispatch_run_session (conn_session k) raw Hr) as (e & k1 & Hrun & Hl & _).
    unfold bind. rewrite Hrun. by intros [= <-]. }
  destruct (readLoop [r] (conn_session k)) as [[[] k']| |] eqn:Hrun; [|done..]. intros [= <-].
  specialize (Hread k' eq_refl). split; cbn [sessions set_sessions].
  - intros j kj [(<- & <- & _)|[Hne Hj]]%list_lookup_insert_Some Hdj; rewrite received_app.
    + cbn [conn_session] in Hdj. destruct r as [err|raw]; [congruence|].
      unfold received at 2. cbn. rewrite decide_True by done. cbn. rewrite foldl_app. cbn.
      by rewrite Hread, (Hcard i k Hi Hd).
    + rewrite (Hcard j kj Hj Hdj). destruct r as [err|raw]; cbn; [by rewrite app_nil_r|].
      by rewrite decide_False, app_nil_r by done.
  - intros j Hj. rewrite length_insert in Hj. rewrite received_app, Hfresh by done.
    apply lookup_lt_Some in Hi. destruct r as [err|raw]; cbn; [done|]. by rewrite decide_False by lia.
Qed.

Lemma shows_history es σ :
  live empty = ∅ → svc_history empty timeout es σ → shows_received es (svc σ).
Proof.
  intros He Hh. induction Hh as [|es σ es' σ' Hh IH Hrun|es σ es' σ' Hh IH Hin].
  - by split.
  - pose proof (svc_history_ok empty timeout es σ He Hh) as Hok.
    destruct Hrun as [s p ts c p' es' s' Hstep|s p ts j q q' s' Hj Hstep|s p ts i k err s' Hi Hd _ Hread];
      cbn [svc] in *.
    + destruct (run_step_views _ _ _ _ _ _ Hstep) as [Hno [Hv|[info Heq]]];
        [by eapply shows_kept|by eapply shows_new].
    + eapply shows_kept; [done|done|by eapply close_step_views].
    + eapply (shows_read _ _ _ i k (inl err)); try done.
      by apply (sess_ready _ _ (ok_sessions _ _ Hok i k Hi)).
  - pose proof (svc_history_ok empty timeout es σ He Hh) as Hok.
    destruct Hin as [s p ts i k raw s' Hi Hd Hread|s p ts i k err s' Hi Hd Hread|s p ts];
      cbn [svc] in *.
    + eapply (shows_read _ _ _ i k (inr raw)); try done.
      by apply (sess_ready _ _ (ok_sessions _ _ Hok i k Hi)).
    + eapply (shows_read _ _ _ i k (inl err)); try done.
      by apply (sess_ready _ _ (ok_sessions _ _ Hok i k Hi)).
    + eapply shows_kept; [done|done|by apply views_kept_refl].
Qed.
End shows.

(** ** The firmware: what it publishes *)

(** A report list the firmware may have sent since the card [start] was the published
    one, and the card that is the published one after it. *)
Inductive published (start : reader_card_t) : list (list Z) → reader_card_t → Prop :=
  | published_none : wf_card start → published start [] start
  | published_reply l c r :
      published start l c → header_type r = PRHP_RESPONSE → published start (l ++ [r]) c
  | published_card l c c' :
      published start l c → wf_card c' → published start (l ++ [card_state_report c']) c'.

Lemma published_wf start l c : published start l c → wf_card c.
Proof. by induction 1. Qed.

(** The published card is that of the last card state sent, or still the first. *)
Definition last_sent (start : reader_card_t) (l : list (list Z)) (c : reader_card_t) : Prop :=
  (c = start ∧ Forall (λ raw, header_type raw = PRHP_RESPONSE) l) ∨
  ∃ before after, l = before ++ card_state_report c :: after ∧
    Forall (λ raw, header_type raw = PRHP_RESPONSE) after.

Lemma published_last_sent start l c : published start l c → last_sent start l c.
Proof.
  induction 1 as [Hc|l c raw _ IH Ht|l c c' _ _ Hc]; [by left| |right; by exists l, []].
  destruct IH as [[-> Hall]|(before & after & -> & Hall)]; [left|right].
  - split; [done|]. by apply Forall_app_2; [|apply Forall_singleton].
  - exists before, (after ++ [raw]). rewrite <- app_assoc. split; [done|].
    by apply Forall_app_2; [|apply Forall_singleton].
Qed.

(** A response is no card. *)
Lemma card_after_response card raw : header_type raw = PRHP_RESPONSE → card_after card raw = card.
Proof.
  intros Ht. destruct (decode_header_any raw tt) as (h & _ & Hd & _).
  apply (card_after_header _ _ _ Hd). intros hd -> Hsig. exfalso. revert Hd.
  unfold header_type in Ht. destruct raw as [|ty raw]; [done|]. cbn in Ht. subst ty.
  unfold DecodeHeader, bind, aget, get_uint16, ret, ub. cbn [lookup list_lookup Nat.add].
  change (PRHP_RESPONSE =? message_type_code MessageRequest)%Z with false.
  change (PRHP_RESPONSE =? message_type_code MessageResponse)%Z with true.
  repeat case_match; intros; by simplify_eq.
Qed.

Lemma suffix_snoc_inv_case {A} (r l : list A) x :
  r `suffix_of` l ++ [x] → r = [] ∨ ∃ r', r = r' ++ [x] ∧ r' `suffix_of` l.
Proof.
  intros Hr. destruct r as [|y r' _] using rev_ind; [by left|right]. pose proof (suffix_snoc_inv_1 _ _ _ _ Hr) as ->. apply suffix_snoc_inv_2 in Hr.
  by exists r'.
Qed.

(** Whoever receives the last of the reports shows the card published last, unless none
    of them was a card. *)
Lemma published_suffix start l c card r :
  published start l c → r `suffix_of` l →
  foldl card_after card r = host_card c ∨
  foldl card_after card r = card ∧ Forall (λ raw, header_type raw = PRHP_RESPONSE) r.
Proof.
  intros Hp. revert r. induction Hp as [Hc|l c raw Hp IH Ht|l c c' Hp IH Hc]; intros r Hr.
  - apply suffix_nil_inv in Hr as ->. by right.
  - apply suffix_snoc_inv_case in Hr as [->|(r' & -> & Hr)]; [by right|].
    rewrite foldl_app. cbn. rewrite card_after_response by done.
    destruct (IH r' Hr) as [->|[-> Hall]]; [by left|right]. split; [done|].
    by apply Forall_app_2; [|apply Forall_singleton].
  - apply suffix_snoc_inv_case in Hr as [->|(r' & -> & Hr)]; [by right|].
    left. rewrite foldl_app. cbn. by apply card_after_report.
Qed.

(** A call of the platform lets no report arrive, and does not end the time in which
    the host is attached. *)
Definition pipe_kept {W} (arrived : W → list (list Z)) (attached : W → Prop) (w w' : W) : Prop :=
  arrived w' = arrived w ∧ (attached w → attached w').

(** [arrived w] are the reports the USB host has taken from the PRHP interface, the
    first HID instance, in order: a report TinyUSB accepts arrives, no other call makes
    one arrive.  [attached w]: from here on the host has the device configured and polls
    it, so an endpoint that is busy gets free within 99 milliseconds, and takes the next
    report.  Nothing is assumed of the sends before: at program start, before the USB
    driver is installed, and until the host has enumerated the device it is not mounted. *)
Class PrhpPipe (W : Type) `{Platform W} `{UsbPlatform W} (inv : W → Prop)
    (arrived : W → list (list Z)) (attached : W → Prop) := {
  new_bus_kept w : pipe_kept arrived attached w (i2c_new_master_bus w).2;
  add_device_kept w : pipe_kept arrived attached w (i2c_master_bus_add_device w).2;
  probe_kept a t w : pipe_kept arrived attached w (i2c_master_probe a t w).2;
  i2c_receive_kept n t w : pipe_kept arrived attached w (i2c_master_receive n t w).2;
  transmit_kept l t w : pipe_kept arrived attached w (i2c_master_transmit l t w).2;
  get_time_kept w : pipe_kept arrived attached w (esp_timer_get_time w).2;
  delay_kept t w : pipe_kept arrived attached w (vTaskDelay t w);
  install_kept w : pipe_kept arrived attached w (tinyusb_driver_install w).2;
  cdc_init_kept w : pipe_kept arrived attached w (tinyusb_cdcacm_init w).2;
  mounted_kept w : pipe_kept arrived attached w (tud_mounted w).2;
  ready_kept i w : pipe_kept arrived attached w (tud_hid_n_ready i w).2;
  report_arrived i id l w : arrived (tud_hid_n_report i id l w).2 =
    arrived w ++ (if (tud_hid_n_report i id l w).1 && (i =? 0)%Z then [l] else []);
  report_attached i id l w : attached w → attached (tud_hid_n_report i id l w).2;
  cdc_read_kept i n w : pipe_kept arrived attached w (tinyusb_cdcacm_read i n w).2;
  write_queue_kept l w : pipe_kept arrived attached w (tinyusb_cdcacm_write_queue l w).2;
  write_flush_kept t w : pipe_kept arrived attached w (tinyusb_cdcacm_write_flush t w).2;
  queue_create_kept n w : pipe_kept arrived attached w (xQueueCreate n w).2;
  queue_send_kept m t w : pipe_kept arrived attached w (xQueueSend m t w).2;
  queue_receive_kept t w : pipe_kept arrived attached w (xQueueReceive t w).2;
  host_polls i id data w : inv w → attached w →
    ∃ k w0 w', k < 100 ∧ waits i k w w0 ∧ send_attempt i id data w0 (Ok tt) w';
}.

Section publishing.
Context {W : Type} `{PlatformLaws W inv clock} `{!UsbPlatform W} `{!UsbLaws W inv}.
Context `{!UsbTaskLaws W inv} `{!PrhpPipe W inv arrived attached}.
Implicit Types s : fw_state (W := W).

(** The host is attached and nothing arrives meanwhile: kept by every call but the HID
    reports, so what is proved of code that sends none over any invariant holds of it. *)
Definition quiet (reports : list (list Z)) (w : W) : Prop :=
  inv w ∧ attached w ∧ arrived w = reports.

Lemma quiet_kept reports w w' :
  quiet reports w → pipe_kept arrived attached w w' → inv w' → quiet reports w'.
Proof. intros (? & ? & <-) [Ha ?] ?. split_and!; auto. Qed.

#[local] Ltac quiet_by law := eapply quiet_kept; [eassumption|apply law|].

#[local] Instance quiet_platform reports : PlatformLaws W (quiet reports) clock.
Proof.
  split; intros; match goal with Hw : quiet _ _ |- _ => pose proof (proj1 Hw) as Hi end.
  - quiet_by new_bus_kept. by apply new_master_bus_law.
  - quiet_by add_device_kept. by apply add_device_law.
  - quiet_by probe_kept. by apply probe_law.
  - destruct (receive_law n t w Hi) as (? & ? & ?). split; [|done]. by quiet_by i2c_receive_kept.
  - quiet_by transmit_kept. by apply transmit_law.
  - destruct (get_time_law w Hi) as [? ?]. split; [|done]. by quiet_by get_time_kept.
  - destruct (delay_law t w Hi) as [? ?]. split; [|done]. by quiet_by delay_kept.
Qed.

#[local] Instance quiet_cdc reports : CdcLaws W (quiet reports).
Proof.
  split; intros; match goal with Hw : quiet _ _ |- _ => pose proof (proj1 Hw) as Hi end.
  - destruct (cdc_read_law i n w Hi) as [? ?]. split; [|done]. by quiet_by cdc_read_kept.
  - quiet_by write_queue_kept. by apply write_queue_law.
  - quiet_by write_flush_kept. by apply write_flush_law.
  - quiet_by queue_send_kept. by apply queue_send_law.
Qed.

#[local] Instance quiet_task reports : UsbTaskLaws W (quiet reports).
Proof.
  split; intros; match goal with Hw : quiet _ _ |- _ => pose proof (proj1 Hw) as Hi end.
  - quiet_by install_kept. by apply install_law.
  - quiet_by cdc_init_kept. by apply cdc_init_law.
  - quiet_by queue_create_kept. by apply queue_create_law.
  - destruct (queue_receive_law t w Hi) as [? ?]. split; [|done]. by quiet_by queue_receive_kept.
Qed.

Lemma fw_inv_quiet reports s :
  fw_inv (inv := quiet reports) s ↔
    fw_inv (inv := inv) s ∧ attached s.2.2 ∧ arrived s.2.2 = reports.
Proof.
  split.
  - intros [? ? (? & ? & ?)]. split; [by split|done].
  - intros ([? ? ?] & ? & ?). by split; [..|split_and!].
Qed.

(** ** Sending *)

Lemma pipe_kept_trans (w1 w2 w3 : W) :
  pipe_kept arrived attached w1 w2 → pipe_kept arrived attached w2 w3 →
  pipe_kept arrived attached w1 w3.
Proof. intros [? ?] [? ?]. split; [congruence|auto]. Qed.

Lemma attempt_kept i w w1 b w2 :
  tud_mounted w = (true, w1) → tud_hid_n_ready i w1 = (b, w2) → pipe_kept arrived attached w w2.
Proof.
  intros Hm Hr. pose proof (mounted_kept w) as Ha. pose proof (ready_kept i w1) as Hb.
  rewrite Hm in Ha. rewrite Hr in Hb. by eapply pipe_kept_trans.
Qed.

Lemma waits_kept i k w w0 : waits i k w w0 → pipe_kept arrived attached w w0.
Proof.
  induction 1 as [|k w w1 w2 w3 Hm Hr _ IH]; [done|].
  eapply pipe_kept_trans; [by eapply attempt_kept|].
  eapply pipe_kept_trans; [apply delay_kept|exact IH].
Qed.

(** While the host is attached a send succeeds; on the PRHP interface its report
    arrives. *)
Lemma send_hid_arrived i id report n w :
  inv w → attached w → n ≤ length report →
  ∃ w', send_hid i id report n w = Val (Ok tt, w') ∧ inv w' ∧ attached w' ∧
    arrived w' = arrived w ++ (if (i =? 0)%Z then [take n report] else []).
Proof.
  intros Hw Hat Hn.
  destruct (host_polls i id (take n report) w Hw Hat) as (k & w0 & w' & Hk & Hwaits & Hsend).
  assert (Hrun : send_hid i id report n w = Val (Ok tt, w')).
  { unfold send_hid, aread. rewrite (proj2 (Nat.leb_le _ _)) by lia.
    unfold bind at 1, ret at 1. cbn [drop]. rewrite drop_0. apply send_hid_loop_exact. left.
    by exists k, w0. }
  exists w'. split; [done|]. split.
  { pose proof (send_hid_wp (inv := inv) i id report n w Hw Hn) as Hwp.
    unfold wp in Hwp. by rewrite Hrun in Hwp. }
  inversion Hsend as [|? w1 w2 sent ? Hm Hr Hrep]; subst. destruct sent; [|done].
  assert (Hkept : pipe_kept arrived attached w w2)
    by (eapply pipe_kept_trans; [by eapply waits_kept|by eapply attempt_kept]).
  destruct Hkept as [Ha Hat2].
  pose proof (report_arrived i id (take n report) w2) as Hd.
  pose proof (report_attached i id (take n report) w2 (Hat2 Hat)) as Hat'.
  rewrite Hrep in Hd, Hat'. cbn in Hd, Hat'. by rewrite Hd, Ha.
Qed.

Section attached_phase.
(** What had arrived, and the published card, when the host was attached. *)
Context (base : list (list Z)) (start : reader_card_t).

(** What has arrived since goes with [c] being the published card now. *)
Definition stage (c : reader_card_t) (w : W) : Prop :=
  attached w ∧ ∃ since, arrived w = base ++ since ∧ published start since c.

Lemma stage_quiet c w w' :
  stage c w → attached w' → arrived w' = arrived w → stage c w'.
Proof. intros (_ & since & Ha & Hp) ? Heq. split; [done|]. exists since. by rewrite Heq. Qed.

Lemma send_prhp_arrived c c' r w :
  inv w → stage c w → length r = 64 →
  (∀ since, published start since c → published start (since ++ [r]) c') →
  wp (usb_device_send_prhp r) w (λ _ w', stage c' w' ∧ inv w').
Proof.
  intros Hw (Hat & since & Ha & Hp) Hl Hnext.
  destruct (send_hid_arrived 0 0 r PRHP_REPORT_SIZE w Hw Hat) as (w' & Hrun & Hw' & Hat' & Ha');
    [unfold PRHP_REPORT_SIZE; lia|].
  apply wp_run. exists (Ok tt), w'. split; [exact Hrun|]. split; [|done]. split; [done|].
  exists (since ++ [r]). split; [|by apply Hnext].
  rewrite Ha', Ha, <- app_assoc. cbn [Z.eqb]. by rewrite take_ge by (unfold PRHP_REPORT_SIZE; lia).
Qed.

Lemma send_cardio_arrived c id card_id w :
  inv w → stage c w → length card_id = 8 →
  wp (usb_device_send_cardio id card_id) w (λ _ w', stage c w' ∧ inv w').
Proof.
  intros Hw Hst Hl.
  destruct (send_hid_arrived 1 id card_id 8 w Hw (proj1 Hst)) as (w' & Hrun & Hw' & Hat' & Ha'); [lia|].
  apply wp_run. exists (Ok tt), w'. split; [exact Hrun|]. split; [|done].
  eapply stage_quiet; [done..|]. rewrite Ha'. apply app_nil_r.
Qed.

(** ** The main loop *)

(** What has arrived is what the locals say was published. *)
Definition in_step (l : app_locals) s : Prop :=
  fw_inv (inv := inv) s ∧ stage (App.current l) s.2.2.

(** Code that keeps every invariant keeps this one. *)
Lemma quiet_in_step {A} (m : M fw_state A) s l (Q : A → Prop) :
  in_step l s →
  (fw_inv (inv := quiet (arrived s.2.2)) s →
   wp m s (λ a s', fw_inv (inv := quiet (arrived s.2.2)) s' ∧ Q a)) →
  wp m s (λ a s', in_step l s' ∧ Q a).
Proof.
  intros [Hs Hst] Hm. eapply wp_mono; [apply Hm, fw_inv_quiet; by split_and!; [..|apply Hst|]|].
  intros a s' [(Hs' & Hat & Ha)%fw_inv_quiet HQ]. split; [|done]. split; [done|].
  by eapply stage_quiet.
Qed.

Lemma prhp_dispatch_in_step request w c :
  inv w → stage c w → 64 ≤ length request → is_bytes request →
  wp (prhp_dispatch request) w (λ _ w', stage c w' ∧ inv w').
Proof.
  intros Hw Hst Hlen Hb. unfold wp. rewrite prhp_dispatch_reply by done.
  destruct (prhp_reply request) as [r|] eqn:Hr; [|done].
  destruct (prhp_reply_wf request r Hb Hr) as (Hl & Ht & _).
  change (wp (bind (usb_device_send_prhp r) (λ _, ret tt)) w
    (λ _ w', stage c w' ∧ inv w')).
  wp_steps. eapply wp_mono; [apply (send_prhp_arrived c c); try done|done].
  intros since Hp. by apply published_reply.
Qed.

Lemma publish_in_step w c c' :
  inv w → stage c w → wf_card c' →
  wp (prhp_publish_card_state c') w (λ _ w', stage c' w' ∧ inv w').
Proof.
  intros Hw Hst Hc. unfold prhp_publish_card_state. wp_steps.
  apply wp_run. eexists _, _. split; [by apply card_state_signal_run|]. wp_steps.
  eapply wp_mono; [apply (send_prhp_arrived c c'); try done|done].
  - by apply length_prhp_report, length_card_state_body.
  - intros since Hp. by eapply published_card.
Qed.

Lemma cardio_in_step w c c' :
  inv w → stage c w → wf_card c' →
  wp (cardio_publish_card_state c') w (λ _ w', stage c w' ∧ inv w').
Proof.
  intros Hw Hst Hc. destruct (cardio_publish_run c' w Hc) as [Hrun Hl]. unfold wp. rewrite Hrun.
  change (wp (bind (usb_device_send_cardio (cardio_report c').1 (cardio_report c').2)
    (λ _, ret tt)) w (λ _ w', stage c w' ∧ inv w')).
  wp_steps. by eapply wp_mono; [apply (send_cardio_arrived c)|].
Qed.

Lemma handle_message_in_step m s l :
  in_step l s → wf_message m → wp (handle_message m) s (λ _ s', in_step l s').
Proof.
  intros Hs (Hl & Hb & Hn). unfold handle_message, USB_MESSAGE_CAPACITY in *.
  destruct (msg_type m).
  - wp_case; [|by wp_steps]. destruct Hs as [Hs Hp].
    eapply wp_mono; [apply (on_world_wp (inv := inv) _ _ (λ _ w', stage (App.current l) w'));
      [done|]; intros; apply prhp_dispatch_in_step; [done|done|lia|done]|].
    by intros _ s' [? ?].
  - eapply wp_mono; [apply (quiet_in_step _ _ l (λ _, True) Hs)|by intros _ s' [? _]].
    destruct s as [p rw]. intros [Hp Hr Hw].
    eapply wp_mono; [apply (receive_wp (inv := quiet (arrived (p, rw).2.2))); [done|by split|lia|done]|].
    by intros _ ps (? & [? ?] & _).
Qed.

Lemma scan_card_in_step l s :
  in_step l s → wp (scan_card l) s (λ l' s', in_step l' s').
Proof.
  intros Hs. unfold scan_card. wp_steps.
  eapply wp_mono; [apply (quiet_in_step _ _ l (λ r, ∀ c, r = Ok c → wf_card c) Hs);
    intros; by apply (read_card_wp (inv := quiet (arrived s.2.2)))|].
  intros [c|e] s1 [[Hs1 Hp] Hc]; [|by wp_steps]. specialize (Hc c eq_refl). wp_case; wp_steps; [done|].
  eapply wp_mono; [apply (on_world_wp (inv := inv) _ _ (λ _ w', stage c w')); [done|];
    intros; by eapply publish_in_step|].
  intros [] s2 [Hp2 Hs2]. wp_steps.
  eapply wp_mono; [apply (on_world_wp (inv := inv) _ _ (λ _ w', stage c w')); [done|];
    intros; by eapply cardio_in_step|].
  intros [] s3 [Hp3 Hs3]. by wp_steps.
Qed.

Lemma app_iteration_in_step l s :
  in_step l s → wp (app_iteration l) s (λ l' s', in_step l' s').
Proof.
  intros Hs. unfold app_iteration, app_serve. wp_steps.
  eapply wp_mono; [apply (quiet_in_step _ _ l (λ m, ∀ x, m = Some x → wf_message x) Hs)|].
  { intros Hq. eapply wp_mono;
      [apply (on_world_wp (inv := quiet (arrived s.2.2)) _ _ (λ m _, ∀ x, m = Some x → wf_message x));
        [done|]; intros Hw; eapply wp_mono;
        [by apply (usb_device_receive_wp (inv := quiet (arrived s.2.2)))|by intros m w' [? ?]]|].
    by intros m s' [? ?]. }
  intros received s1 [Hs1 Hm].
  assert (Hh : wp (match received with Some m => handle_message m | None => ret tt end) s1
    (λ _ s', in_step l s')) by (destruct received; [by apply handle_message_in_step, Hm|done]).
  wp_steps. eapply wp_mono; [exact Hh|]. intros [] s2 Hs2. wp_steps.
  eapply wp_mono; [apply (quiet_in_step _ _ l (λ _, True) Hs2)|].
  { intros Hq. eapply wp_mono; [apply (on_world_inv (inv := quiet (arrived s2.2.2))); [exact Hq|]|by intros].
    intros Hw. wp_steps.
    pose proof (get_time_law (inv := quiet (arrived s2.2.2)) s2.2.2 Hw) as [? _].
    by destruct (esp_timer_get_time s2.2.2). }
  intros now s3 [Hs3 _]. wp_case; [by wp_steps|]. by apply scan_card_in_step.
Qed.

Lemma fw_step_in_step e l s :
  valid_event e → in_step l s → wp (fw_step e l) s (λ l' s', in_step l' s').
Proof.
  intros He Hs. destruct e as [|i id ty buffer n|i]; cbn [fw_step]; [by apply app_iteration_in_step|..].
  all: wp_steps; eapply wp_mono; [apply (quiet_in_step _ _ l (λ _, True) Hs)|by intros _ s' [? _]].
  all: intros Hq; eapply wp_mono;
    [apply (on_world_inv (inv := quiet (arrived s.2.2))); [exact Hq|]; intros Hw|by intros].
  - destruct He as [??]. by apply (set_report_wp (inv := quiet (arrived s.2.2))).
  - by apply (cdc_receive_wp (inv := quiet (arrived s.2.2))).
Qed.

Lemma fw_run_in_step es l s :
  Forall valid_event es → in_step l s → wp (fw_run es l) s (λ l' s', in_step l' s').
Proof.
  intros Hes. revert l s. induction Hes as [|e es He Hes IH]; intros l s Hs; [done|].
  cbn [fw_run]. wp_steps. eapply wp_mono; [by apply fw_step_in_step|]. intros l' s' ?. by apply IH.
Qed.
End attached_phase.

(** The run goes on from where a shorter one ended. *)
Lemma fw_run_app es1 es2 l s :
  fw_run (es1 ++ es2) l s = bind (fw_run es1 l) (fw_run es2) s.
Proof.
  revert l s. induction es1 as [|e es1 IH]; intros l s; [done|]. cbn [fw_run app].
  unfold bind in *. destruct (fw_step e l s) as [[l' s']| |]; [apply IH|done..].
Qed.

Lemma app_main_app es1 es2 s0 locals s :
  app_main es1 s0 = Val (Some locals, s) →
  app_main (es1 ++ es2) s0 = bind (fw_run es2 locals) (λ l, ret (Some l)) s.
Proof.
  unfold app_main, bind. destruct (app_init s0) as [[[[]|e] s1]| |]; [|done..].
  rewrite fw_run_app. unfold bind.
  destruct (fw_run es1 app_locals_boot s1) as [[l s2]| |]; [|done..]. by intros [= -> ->].
Qed.

(** From program start: whatever happened before, from the moment the host is attached
    the reports that arrive and the published card go together. *)
Lemma app_main_in_step es1 es2 w :
  inv w → Forall valid_event es1 → Forall valid_event es2 →
  ∃ l1 s1, app_main es1 (parser_boot, (reader_boot, w)) = Val (l1, s1) ∧
    ∀ locals1, l1 = Some locals1 → attached s1.2.2 →
    ∃ locals s, app_main (es1 ++ es2) (parser_boot, (reader_boot, w)) = Val (Some locals, s) ∧
      in_step (arrived s1.2.2) (App.current locals1) locals s.
Proof.
  intros Hw Hes1 Hes2.
  assert (Hwp : wp (app_main es1) (parser_boot, (reader_boot, w)) (λ l s,
    fw_inv (inv := inv) s ∧ ∀ locals, l = Some locals → wf_card (App.current locals))).
  { unfold app_main. wp_steps. eapply wp_mono; [by apply (app_init_wp (inv := inv))|].
    intros [[]|e] s Hs; wp_steps; [|by split].
    eapply wp_mono; [apply (fw_run_wp (inv := inv)); [done|done|apply zero_card_wf]|].
    intros l s' [??]. wp_steps. split; [done|]. by intros ? [= <-]. }
  apply wp_run in Hwp as (l1 & s1 & Hrun1 & Hs1 & Hl1). exists l1, s1. split; [done|].
  intros locals1 -> Hat. rewrite (app_main_app _ _ _ _ _ Hrun1).
  assert (Hwp : wp (fw_run es2 locals1) s1 (in_step (arrived s1.2.2) (App.current locals1))).
  { apply fw_run_in_step; [done|]. split; [done|]. split; [done|]. exists [].
    rewrite app_nil_r. split; [done|]. constructor. by apply Hl1. }
  apply wp_run in Hwp as (l & s & Hrun & Hstep). exists l, s. split; [|done].
  by rewrite (bind_val _ _ _ _ _ Hrun).
Qed.
End publishing.

(** ** Properties *)

Section system_claims.
Context {W : Type} `{PlatformLaws W inv clock} `{!UsbPlatform W} `{!UsbLaws W inv}.
Context `{!UsbTaskLaws W inv} `{!PrhpPipe W inv arrived attached}.
Context {C : Type} `{CallCacheLaws C live} (empty : C) (timeout : Z).

(** C2: while the host is attached, the game sees the card the reader last published.
    Let the firmware, driver included, run from program start through any sequence
    [es1] of loop iterations and USB callbacks, with the device mounted or not; let the
    host have the device configured at its end, and keep it configured and poll it from
    then on; let the firmware run on through any sequence [es2]. Let the host's service
    be in any state any interleaving leads to, its active session having received the
    last of the reports that arrived since the host was attached, from whenever it was
    opened. Then the card the main loop holds as published is that of the last card state
    that arrived, or unchanged if none did, and the exported lookups give exactly this
    card (its access code, blocks or IDm, and nothing of another kind); or none of the
    reports the session received carries a card state, and they give none. (The second
    happens to a card published before the session was opened, or before the host was
    attached: it is not published again.) *)
Theorem game_sees_reader es1 es2 w :
  inv w → Forall valid_event es1 → Forall valid_event es2 → live empty = ∅ →
  ∃ l1 s1, app_main es1 (parser_boot, (reader_boot, w)) = Val (l1, s1) ∧
    ∀ locals1, l1 = Some locals1 → attached s1.2.2 →
    ∃ locals s since,
      app_main (es1 ++ es2) (parser_boot, (reader_boot, w)) = Val (Some locals, s) ∧
      arrived s.2.2 = arrived s1.2.2 ++ since ∧
      last_sent (App.current locals1) since (App.current locals) ∧
      ∀ history σ i k, svc_history empty timeout history σ →
        active (svc σ) = Some i → sessions (svc σ) !! i = Some k → done (conn_session k) = false →
        received i history `suffix_of` since →
        exports_of (svc σ) (App.current locals) ∨
        (exports_of (svc σ) zero_card ∧
         Forall (λ raw, header_type raw = PRHP_RESPONSE) (received i history)).
Proof.
  intros Hw Hes1 Hes2 He.
  destruct (app_main_in_step es1 es2 w Hw Hes1 Hes2) as (l1 & s1 & Hrun1 & Hnext).
  exists l1, s1. split; [done|]. intros locals1 Hl1 Hat.
  destruct (Hnext locals1 Hl1 Hat) as (locals & s & Hrun & _ & _ & since & Ha & Hp).
  exists locals, s, since. split; [done|]. split; [done|].
  split; [by apply published_last_sent|]. intros history σ i k Hh Hact Hk Hd Hsuf.
  pose proof (shows_card _ _ (shows_history empty timeout history σ He Hh) i k Hk Hd) as Hcard.
  assert (Hload : load_active (svc σ) = Some k) by (unfold load_active; by rewrite Hact).
  destruct (published_suffix _ _ _ (empty_card CardNone) _ Hp Hsuf) as [Heq|[Heq Hall]];
    rewrite Heq in Hcard; [left|right; split; [|done]].
  - eapply exports_of_active; [done|done|by eapply published_wf].
  - eapply exports_of_active; [done|exact Hcard|apply zero_card_wf].
Qed.
End system_claims.

(** ** Witness *)

(** What a simulated host has taken. *)
Definition sim_arrived (w : sim) : list (list Z) :=
  omap (λ e, match e with
             | HidReport i _ report => if (i =? 0)%Z then Some report else None
             | _ => None
             end) (sim_usb w).

(** Its host, once it has configured the device, keeps it so. *)
Definition sim_attached (w : sim) : Prop := (sim_attach w ≤ sim_clock w)%Z.

#[export] Instance sim_pipe : PrhpPipe sim sim_inv sim_arrived sim_attached.
Proof.
  split; intros; unfold pipe_kept, sim_arrived, sim_attached in *; simpl; try done;
    try (split; [done|]; simpl; lia).
  - unfold sim_receive. destruct (sim_rx w) as [|[l|e] rx]; (split; [done|]); simpl; lia.
  - destruct (_ <=? _)%Z; simpl; [|by rewrite app_nil_r].
    rewrite omap_app. simpl. by destruct (i =? 0)%Z.
  - by destruct (_ <=? _)%Z.
  - split; [|done]. rewrite omap_app. apply app_nil_r.
  - split; [|done]. rewrite omap_app. apply app_nil_r.
  - by destruct (_ <? _)%nat.
  - destruct (sim_queue w); split; simpl; done || lia.
  - assert (Hat : (sim_attach w <=? sim_clock w)%Z = true) by by apply Z.leb_le.
    eexists 0, w, _. split; [lia|]. split; [constructor|].
    apply (send_report i id data w w w true (sim_log (HidReport i id data) w)); simpl; by rewrite Hat.
Qed.

(** The reader starts before the host has enumerated it (50 ms later; the initialisation
    of the PN532 takes longer), answers the host's GET_VERSION and finds a FeliCa card;
    the service of Service.v's example opens it, verifies it and gets both reports. *)
Definition system_script :=
  answer PN532_COMMAND_SAM_CONFIGURATION [] ++ answer PN532_COMMAND_RF_CONFIGURATION [] ++
  answer PN532_COMMAND_IN_LIST_PASSIVE_TARGET
    (felica_response 1 3 (card_idm sample_felica_card) (card_pmm sample_felica_card)).

Definition system_boot : fw_state := (parser_boot, (reader_boot, sim_boot_unattached 50000 system_script)).

Definition system_events : list fw_event := [SetReport 0 0 2 (version_request_of 1) 64; Iterate].

Lemma game_sees_reader_witness :
  ¬ sim_attached system_boot.2.2 ∧
  ∃ locals s, app_main system_events system_boot = Val (Some locals, s) ∧
    App.current locals = sample_felica_card ∧ exports_of (svc after_found.2) (App.current locals).
Proof.
  split; [by vm_compute|].
  destruct (game_sees_reader (live := id) ∅ 1000 [] system_events
    (sim_boot_unattached 50000 system_script)) as (l1 & s1 & Hrun1 & Hnext).
  - apply sim_boot_unattached_inv.
  - constructor.
  - apply Forall_cons_2; [|by repeat constructor]. split; [vm_compute; lia|].
    by apply (wf_version_request 1).
  - reflexivity.
  - vm_compute in Hrun1. injection Hrun1 as <- <-.
    destruct (Hnext _ eq_refl) as (locals & s & since & Hrun & Ha & _ & Hall); [by vm_compute|].
    exists locals, s. split; [exact Hrun|].
    assert (Hcur : App.current locals = sample_felica_card)
      by (vm_compute in Hrun; injection Hrun as <- _; vm_compute; reflexivity).
    split; [exact Hcur|].
    destruct (sessions (svc after_found.2) !! 0) as [k|] eqn:Hk; [|vm_compute in Hk; discriminate Hk].
    destruct (Hall after_found.1 after_found.2 0 k after_found_history) as [Hex|[_ Hno]].
    + vm_compute. reflexivity.
    + exact Hk.
    + vm_compute in Hk. injection Hk as <-. vm_compute. reflexivity.
    + vm_compute in Hrun. injection Hrun as _ <-. vm_compute in Ha. rewrite <- Ha.
      exists []. vm_compute. reflexivity.
    + exact Hex.
    + exfalso. vm_compute in Hno. inversion Hno as [|? ? _ Hno']. inversion Hno'. discriminate.
Defined.
